(** * PetraGlobal Energy dashboard: price simulator and purchase workflow

    A shallow embedding of [src/script.js].  The script is a browser page
    script: module-level variables, an IndexedDB database with two object
    stores, a few DOM panels, [Math.random] and [setTimeout].  Numbers are
    IEEE-754 binary64 values, as every JavaScript number is; they are
    modelled with the executable specification of binary floating point of
    the standard library ([SpecFloat]), so that every function below can
    be run on concrete inputs. *)

From Stdlib Require Import ZArith Lia List Bool Ascii String SpecFloat.
From Stdlib Require Import QArith Qpower Lqa Zpower.
From Stdlib Require Import Sorting.Sorted Sorting.Permutation.
From stdpp Require Import gmap strings list.

Local Open Scope Z_scope.

(** ** JavaScript numbers *)

Module JS.

Definition prec : Z := 53.
Definition emax : Z := 1024.

(** A Number value.  [SpecFloat] has a single NaN, like JavaScript. *)
Definition number : Type := spec_float.

Definition NaN : number := S754_nan.

(** The Number nearest to an integer (ties to even, overflow to infinity). *)
Definition ofZ (z : Z) : number := binary_normalize prec emax z 0 false.

Definition add : number -> number -> number := SFadd prec emax.
Definition sub : number -> number -> number := SFsub prec emax.
Definition mul : number -> number -> number := SFmul prec emax.
Definition div : number -> number -> number := SFdiv prec emax.

(** A decimal literal [n/d] written in the source denotes the Number
    nearest to it, which is what one correctly rounded division of the two
    (exactly representable) integers gives: [lit 842 10] is [84.2]. *)
Definition lit (n d : Z) : number := div (ofZ n) (ofZ d).

(** Relational operators: every comparison with NaN is false. *)
Definition leb (x y : number) : bool := SFleb x y.
Definition ltb (x y : number) : bool := SFltb x y.
Definition gtb (x y : number) : bool := SFltb y x.

(** ToBoolean on a Number: NaN and the two zeros are falsy. *)
Definition truthy (x : number) : bool :=
  match x with
  | S754_nan | S754_zero _ => false
  | _ => true
  end.

(** [Math.floor].  A finite value [m * 2^e] with [e < 0] is floored on its
    integer numerator by an arithmetic shift; the result has no more bits
    than [m], so the conversion back is exact.  A negative fraction above
    [-1] floors to [-1], a positive one below [1] to [+0]. *)
Definition floor (x : number) : number :=
  match x with
  | S754_finite s m e =>
      if 0 <=? e then x
      else ofZ (Z.shiftr (if s then Z.neg m else Z.pos m) (- e))
  | _ => x
  end.

(** Values a property read can produce in this script: a Number, or some
    object (every inherited property of [Object.prototype] is a function
    or an object).  A missing property is [None] ([undefined]). *)
Inductive value : Type :=
  | VNumber (x : number)
  | VObject.

(** The property names every plain object inherits from [Object.prototype]. *)
Definition object_prototype_keys : list string :=
  [ "constructor"; "hasOwnProperty"; "isPrototypeOf"; "propertyIsEnumerable";
    "toLocaleString"; "toString"; "valueOf"; "__proto__";
    "__defineGetter__"; "__defineSetter__"; "__lookupGetter__";
    "__lookupSetter__" ]%string.

Definition inherited (k : string) : bool :=
  bool_decide (k ∈ object_prototype_keys).

(** [o[k]] for an object literal whose own properties hold Numbers. *)
Definition get (o : gmap string number) (k : string) : option value :=
  match o !! k with
  | Some x => Some (VNumber x)
  | None => if inherited k then Some VObject else None
  end.

(** [v || d] where [d] is a Number. *)
Definition or_default (v : option value) (d : number) : value :=
  match v with
  | Some (VNumber x) => if truthy x then VNumber x else VNumber d
  | Some VObject => VObject
  | None => VNumber d
  end.

(** *** Strings

    A string is represented by the bytes of its UTF-8 encoding, which is
    also how the string literals of this file are read.  The built-in
    functions the script calls work on the characters (code points) of
    the string: [trim] and [parseInt] strip the white space of the
    language, [toUpperCase] applies the upper-case mapping of Unicode to
    every character.  Bytes that encode no character are carried along
    unchanged. *)

Definition byte (c : ascii) : Z := Z.of_nat (nat_of_ascii c).

Definition of_bytes (l : list Z) : string :=
  string_of_list_ascii (map (fun b => ascii_of_nat (Z.to_nat b)) l).

(** The UTF-8 encoding of a code point. *)
Definition utf8 (c : Z) : string :=
  if c <? 0x80 then of_bytes [c]
  else if c <? 0x800 then of_bytes [0xC0 + c / 0x40; 0x80 + c mod 0x40]
  else if c <? 0x10000 then
    of_bytes [0xE0 + c / 0x1000; 0x80 + c / 0x40 mod 0x40; 0x80 + c mod 0x40]
  else
    of_bytes [0xF0 + c / 0x40000; 0x80 + c / 0x1000 mod 0x40;
              0x80 + c / 0x40 mod 0x40; 0x80 + c mod 0x40].

(** The white space [trim] and [parseInt] strip: the code points of
    WhiteSpace (TAB, VT, FF, the byte order mark and the space separators
    of Unicode) and of LineTerminator (LF, CR, LS, PS). *)
Definition white_space : list Z :=
  [ 0x09; 0x0A; 0x0B; 0x0C; 0x0D; 0x20; 0xA0; 0x1680; 0x2000; 0x2001;
    0x2002; 0x2003; 0x2004; 0x2005; 0x2006; 0x2007; 0x2008; 0x2009;
    0x200A; 0x2028; 0x2029; 0x202F; 0x205F; 0x3000; 0xFEFF ].

(** Whether a string is the encoding of one white space character; such
    an encoding has one, two or three bytes. *)
Definition espacos : list string := Eval vm_compute in map utf8 white_space.

Definition is_space (s : string) : bool := existsb (String.eqb s) espacos.

Fixpoint trimStart (s : string) : string :=
  match s with
  | String c1 r1 =>
      if is_space (String c1 "") then trimStart r1
      else
        match r1 with
        | String c2 r2 =>
            if is_space (String c1 (String c2 "")) then trimStart r2
            else
              match r2 with
              | String c3 r3 =>
                  if is_space (String c1 (String c2 (String c3 "")))
                  then trimStart r3 else s
              | EmptyString => s
              end
        | EmptyString => s
        end
  | EmptyString => s
  end.

(** Drops the white space at the end: the string is cut at the first
    place from which only white space follows. *)
Fixpoint trimEnd (s : string) : string :=
  match s with
  | String c s' =>
      if String.eqb (trimStart s) "" then EmptyString
      else String c (trimEnd s')
  | EmptyString => EmptyString
  end.

Definition trim (s : string) : string := trimEnd (trimStart s).

(** [s.startsWith(search)] and [s.includes(search)] *)
Fixpoint startsWith (s search : string) : bool :=
  match search, s with
  | EmptyString, _ => true
  | String a search', String b s' => Ascii.eqb a b && startsWith s' search'
  | String _ _, EmptyString => false
  end.

Fixpoint includes (s search : string) : bool :=
  startsWith s search ||
  match s with
  | String _ s' => includes s' search
  | EmptyString => false
  end.

Definition is_lower (c : ascii) : bool :=
  let n := nat_of_ascii c in (97 <=? n)%nat && (n <=? 122)%nat.

Definition upper_char (c : ascii) : ascii :=
  if is_lower c then ascii_of_nat (nat_of_ascii c - 32) else c.

(** The characters outside ASCII that [toUpperCase] changes, each with
    the characters it puts in its place: the upper-case mapping of the
    Unicode character database (version 14.0), with the mappings to more
    than one character of its special casing that hold in every context
    and language (German sharp s becomes SS). *)
Definition maiusculas : list (Z * list Z) :=
  [
    (0xB5, [0x39C]); (0xDF, [0x53; 0x53]); (0xE0, [0xC0]); (0xE1, [0xC1]);
    (0xE2, [0xC2]); (0xE3, [0xC3]); (0xE4, [0xC4]); (0xE5, [0xC5]);
    (0xE6, [0xC6]); (0xE7, [0xC7]); (0xE8, [0xC8]); (0xE9, [0xC9]);
    (0xEA, [0xCA]); (0xEB, [0xCB]); (0xEC, [0xCC]); (0xED, [0xCD]);
    (0xEE, [0xCE]); (0xEF, [0xCF]); (0xF0, [0xD0]); (0xF1, [0xD1]);
    (0xF2, [0xD2]); (0xF3, [0xD3]); (0xF4, [0xD4]); (0xF5, [0xD5]);
    (0xF6, [0xD6]); (0xF8, [0xD8]); (0xF9, [0xD9]); (0xFA, [0xDA]);
    (0xFB, [0xDB]); (0xFC, [0xDC]); (0xFD, [0xDD]); (0xFE, [0xDE]);
    (0xFF, [0x178]); (0x101, [0x100]); (0x103, [0x102]); (0x105, [0x104]);
    (0x107, [0x106]); (0x109, [0x108]); (0x10B, [0x10A]); (0x10D, [0x10C]);
    (0x10F, [0x10E]); (0x111, [0x110]); (0x113, [0x112]); (0x115, [0x114]);
    (0x117, [0x116]); (0x119, [0x118]); (0x11B, [0x11A]); (0x11D, [0x11C]);
    (0x11F, [0x11E]); (0x121, [0x120]); (0x123, [0x122]); (0x125, [0x124]);
    (0x127, [0x126]); (0x129, [0x128]); (0x12B, [0x12A]); (0x12D, [0x12C]);
    (0x12F, [0x12E]); (0x131, [0x49]); (0x133, [0x132]); (0x135, [0x134]);
    (0x137, [0x136]); (0x13A, [0x139]); (0x13C, [0x13B]); (0x13E, [0x13D]);
    (0x140, [0x13F]); (0x142, [0x141]); (0x144, [0x143]); (0x146, [0x145]);
    (0x148, [0x147]); (0x149, [0x2BC; 0x4E]); (0x14B, [0x14A]);
    (0x14D, [0x14C]); (0x14F, [0x14E]); (0x151, [0x150]); (0x153, [0x152]);
    (0x155, [0x154]); (0x157, [0x156]); (0x159, [0x158]); (0x15B, [0x15A]);
    (0x15D, [0x15C]); (0x15F, [0x15E]); (0x161, [0x160]); (0x163, [0x162]);
    (0x165, [0x164]); (0x167, [0x166]); (0x169, [0x168]); (0x16B, [0x16A]);
    (0x16D, [0x16C]); (0x16F, [0x16E]); (0x171, [0x170]); (0x173, [0x172]);
    (0x175, [0x174]); (0x177, [0x176]); (0x17A, [0x179]); (0x17C, [0x17B]);
    (0x17E, [0x17D]); (0x17F, [0x53]); (0x180, [0x243]); (0x183, [0x182]);
    (0x185, [0x184]); (0x188, [0x187]); (0x18C, [0x18B]); (0x192, [0x191]);
    (0x195, [0x1F6]); (0x199, [0x198]); (0x19A, [0x23D]); (0x19E, [0x220]);
    (0x1A1, [0x1A0]); (0x1A3, [0x1A2]); (0x1A5, [0x1A4]); (0x1A8, [0x1A7]);
    (0x1AD, [0x1AC]); (0x1B0, [0x1AF]); (0x1B4, [0x1B3]); (0x1B6, [0x1B5]);
    (0x1B9, [0x1B8]); (0x1BD, [0x1BC]); (0x1BF, [0x1F7]); (0x1C5, [0x1C4]);
    (0x1C6, [0x1C4]); (0x1C8, [0x1C7]); (0x1C9, [0x1C7]); (0x1CB, [0x1CA]);
    (0x1CC, [0x1CA]); (0x1CE, [0x1CD]); (0x1D0, [0x1CF]); (0x1D2, [0x1D1]);
    (0x1D4, [0x1D3]); (0x1D6, [0x1D5]); (0x1D8, [0x1D7]); (0x1DA, [0x1D9]);
    (0x1DC, [0x1DB]); (0x1DD, [0x18E]); (0x1DF, [0x1DE]); (0x1E1, [0x1E0]);
    (0x1E3, [0x1E2]); (0x1E5, [0x1E4]); (0x1E7, [0x1E6]); (0x1E9, [0x1E8]);
    (0x1EB, [0x1EA]); (0x1ED, [0x1EC]); (0x1EF, [0x1EE]);
    (0x1F0, [0x4A; 0x30C]); (0x1F2, [0x1F1]); (0x1F3, [0x1F1]);
    (0x1F5, [0x1F4]); (0x1F9, [0x1F8]); (0x1FB, [0x1FA]); (0x1FD, [0x1FC]);
    (0x1FF, [0x1FE]); (0x201, [0x200]); (0x203, [0x202]); (0x205, [0x204]);
    (0x207, [0x206]); (0x209, [0x208]); (0x20B, [0x20A]); (0x20D, [0x20C]);
    (0x20F, [0x20E]); (0x211, [0x210]); (0x213, [0x212]); (0x215, [0x214]);
    (0x217, [0x216]); (0x219, [0x218]); (0x21B, [0x21A]); (0x21D, [0x21C]);
    (0x21F, [0x21E]); (0x223, [0x222]); (0x225, [0x224]); (0x227, [0x226]);
    (0x229, [0x228]); (0x22B, [0x22A]); (0x22D, [0x22C]); (0x22F, [0x22E]);
    (0x231, [0x230]); (0x233, [0x232]); (0x23C, [0x23B]); (0x23F, [0x2C7E]);
    (0x240, [0x2C7F]); (0x242, [0x241]); (0x247, [0x246]); (0x249, [0x248]);
    (0x24B, [0x24A]); (0x24D, [0x24C]); (0x24F, [0x24E]); (0x250, [0x2C6F]);
    (0x251, [0x2C6D]); (0x252, [0x2C70]); (0x253, [0x181]); (0x254, [0x186]);
    (0x256, [0x189]); (0x257, [0x18A]); (0x259, [0x18F]); (0x25B, [0x190]);
    (0x25C, [0xA7AB]); (0x260, [0x193]); (0x261, [0xA7AC]); (0x263, [0x194]);
    (0x265, [0xA78D]); (0x266, [0xA7AA]); (0x268, [0x197]); (0x269, [0x196]);
    (0x26A, [0xA7AE]); (0x26B, [0x2C62]); (0x26C, [0xA7AD]); (0x26F, [0x19C]);
    (0x271, [0x2C6E]); (0x272, [0x19D]); (0x275, [0x19F]); (0x27D, [0x2C64]);
    (0x280, [0x1A6]); (0x282, [0xA7C5]); (0x283, [0x1A9]); (0x287, [0xA7B1]);
    (0x288, [0x1AE]); (0x289, [0x244]); (0x28A, [0x1B1]); (0x28B, [0x1B2]);
    (0x28C, [0x245]); (0x292, [0x1B7]); (0x29D, [0xA7B2]); (0x29E, [0xA7B0]);
    (0x345, [0x399]); (0x371, [0x370]); (0x373, [0x372]); (0x377, [0x376]);
    (0x37B, [0x3FD]); (0x37C, [0x3FE]); (0x37D, [0x3FF]);
    (0x390, [0x399; 0x308; 0x301]); (0x3AC, [0x386]); (0x3AD, [0x388]);
    (0x3AE, [0x389]); (0x3AF, [0x38A]); (0x3B0, [0x3A5; 0x308; 0x301]);
    (0x3B1, [0x391]); (0x3B2, [0x392]); (0x3B3, [0x393]); (0x3B4, [0x394]);
    (0x3B5, [0x395]); (0x3B6, [0x396]); (0x3B7, [0x397]); (0x3B8, [0x398]);
    (0x3B9, [0x399]); (0x3BA, [0x39A]); (0x3BB, [0x39B]); (0x3BC, [0x39C]);
    (0x3BD, [0x39D]); (0x3BE, [0x39E]); (0x3BF, [0x39F]); (0x3C0, [0x3A0]);
    (0x3C1, [0x3A1]); (0x3C2, [0x3A3]); (0x3C3, [0x3A3]); (0x3C4, [0x3A4]);
    (0x3C5, [0x3A5]); (0x3C6, [0x3A6]); (0x3C7, [0x3A7]); (0x3C8, [0x3A8]);
    (0x3C9, [0x3A9]); (0x3CA, [0x3AA]); (0x3CB, [0x3AB]); (0x3CC, [0x38C]);
    (0x3CD, [0x38E]); (0x3CE, [0x38F]); (0x3D0, [0x392]); (0x3D1, [0x398]);
    (0x3D5, [0x3A6]); (0x3D6, [0x3A0]); (0x3D7, [0x3CF]); (0x3D9, [0x3D8]);
    (0x3DB, [0x3DA]); (0x3DD, [0x3DC]); (0x3DF, [0x3DE]); (0x3E1, [0x3E0]);
    (0x3E3, [0x3E2]); (0x3E5, [0x3E4]); (0x3E7, [0x3E6]); (0x3E9, [0x3E8]);
    (0x3EB, [0x3EA]); (0x3ED, [0x3EC]); (0x3EF, [0x3EE]); (0x3F0, [0x39A]);
    (0x3F1, [0x3A1]); (0x3F2, [0x3F9]); (0x3F3, [0x37F]); (0x3F5, [0x395]);
    (0x3F8, [0x3F7]); (0x3FB, [0x3FA]); (0x430, [0x410]); (0x431, [0x411]);
    (0x432, [0x412]); (0x433, [0x413]); (0x434, [0x414]); (0x435, [0x415]);
    (0x436, [0x416]); (0x437, [0x417]); (0x438, [0x418]); (0x439, [0x419]);
    (0x43A, [0x41A]); (0x43B, [0x41B]); (0x43C, [0x41C]); (0x43D, [0x41D]);
    (0x43E, [0x41E]); (0x43F, [0x41F]); (0x440, [0x420]); (0x441, [0x421]);
    (0x442, [0x422]); (0x443, [0x423]); (0x444, [0x424]); (0x445, [0x425]);
    (0x446, [0x426]); (0x447, [0x427]); (0x448, [0x428]); (0x449, [0x429]);
    (0x44A, [0x42A]); (0x44B, [0x42B]); (0x44C, [0x42C]); (0x44D, [0x42D]);
    (0x44E, [0x42E]); (0x44F, [0x42F]); (0x450, [0x400]); (0x451, [0x401]);
    (0x452, [0x402]); (0x453, [0x403]); (0x454, [0x404]); (0x455, [0x405]);
    (0x456, [0x406]); (0x457, [0x407]); (0x458, [0x408]); (0x459, [0x409]);
    (0x45A, [0x40A]); (0x45B, [0x40B]); (0x45C, [0x40C]); (0x45D, [0x40D]);
    (0x45E, [0x40E]); (0x45F, [0x40F]); (0x461, [0x460]); (0x463, [0x462]);
    (0x465, [0x464]); (0x467, [0x466]); (0x469, [0x468]); (0x46B, [0x46A]);
    (0x46D, [0x46C]); (0x46F, [0x46E]); (0x471, [0x470]); (0x473, [0x472]);
    (0x475, [0x474]); (0x477, [0x476]); (0x479, [0x478]); (0x47B, [0x47A]);
    (0x47D, [0x47C]); (0x47F, [0x47E]); (0x481, [0x480]); (0x48B, [0x48A]);
    (0x48D, [0x48C]); (0x48F, [0x48E]); (0x491, [0x490]); (0x493, [0x492]);
    (0x495, [0x494]); (0x497, [0x496]); (0x499, [0x498]); (0x49B, [0x49A]);
    (0x49D, [0x49C]); (0x49F, [0x49E]); (0x4A1, [0x4A0]); (0x4A3, [0x4A2]);
    (0x4A5, [0x4A4]); (0x4A7, [0x4A6]); (0x4A9, [0x4A8]); (0x4AB, [0x4AA]);
    (0x4AD, [0x4AC]); (0x4AF, [0x4AE]); (0x4B1, [0x4B0]); (0x4B3, [0x4B2]);
    (0x4B5, [0x4B4]); (0x4B7, [0x4B6]); (0x4B9, [0x4B8]); (0x4BB, [0x4BA]);
    (0x4BD, [0x4BC]); (0x4BF, [0x4BE]); (0x4C2, [0x4C1]); (0x4C4, [0x4C3]);
    (0x4C6, [0x4C5]); (0x4C8, [0x4C7]); (0x4CA, [0x4C9]); (0x4CC, [0x4CB]);
    (0x4CE, [0x4CD]); (0x4CF, [0x4C0]); (0x4D1, [0x4D0]); (0x4D3, [0x4D2]);
    (0x4D5, [0x4D4]); (0x4D7, [0x4D6]); (0x4D9, [0x4D8]); (0x4DB, [0x4DA]);
    (0x4DD, [0x4DC]); (0x4DF, [0x4DE]); (0x4E1, [0x4E0]); (0x4E3, [0x4E2]);
    (0x4E5, [0x4E4]); (0x4E7, [0x4E6]); (0x4E9, [0x4E8]); (0x4EB, [0x4EA]);
    (0x4ED, [0x4EC]); (0x4EF, [0x4EE]); (0x4F1, [0x4F0]); (0x4F3, [0x4F2]);
    (0x4F5, [0x4F4]); (0x4F7, [0x4F6]); (0x4F9, [0x4F8]); (0x4FB, [0x4FA]);
    (0x4FD, [0x4FC]); (0x4FF, [0x4FE]); (0x501, [0x500]); (0x503, [0x502]);
    (0x505, [0x504]); (0x507, [0x506]); (0x509, [0x508]); (0x50B, [0x50A]);
    (0x50D, [0x50C]); (0x50F, [0x50E]); (0x511, [0x510]); (0x513, [0x512]);
    (0x515, [0x514]); (0x517, [0x516]); (0x519, [0x518]); (0x51B, [0x51A]);
    (0x51D, [0x51C]); (0x51F, [0x51E]); (0x521, [0x520]); (0x523, [0x522]);
    (0x525, [0x524]); (0x527, [0x526]); (0x529, [0x528]); (0x52B, [0x52A]);
    (0x52D, [0x52C]); (0x52F, [0x52E]); (0x561, [0x531]); (0x562, [0x532]);
    (0x563, [0x533]); (0x564, [0x534]); (0x565, [0x535]); (0x566, [0x536]);
    (0x567, [0x537]); (0x568, [0x538]); (0x569, [0x539]); (0x56A, [0x53A]);
    (0x56B, [0x53B]); (0x56C, [0x53C]); (0x56D, [0x53D]); (0x56E, [0x53E]);
    (0x56F, [0x53F]); (0x570, [0x540]); (0x571, [0x541]); (0x572, [0x542]);
    (0x573, [0x543]); (0x574, [0x544]); (0x575, [0x545]); (0x576, [0x546]);
    (0x577, [0x547]); (0x578, [0x548]); (0x579, [0x549]); (0x57A, [0x54A]);
    (0x57B, [0x54B]); (0x57C, [0x54C]); (0x57D, [0x54D]); (0x57E, [0x54E]);
    (0x57F, [0x54F]); (0x580, [0x550]); (0x581, [0x551]); (0x582, [0x552]);
    (0x583, [0x553]); (0x584, [0x554]); (0x585, [0x555]); (0x586, [0x556]);
    (0x587, [0x535; 0x552]); (0x10D0, [0x1C90]); (0x10D1, [0x1C91]);
    (0x10D2, [0x1C92]); (0x10D3, [0x1C93]); (0x10D4, [0x1C94]);
    (0x10D5, [0x1C95]); (0x10D6, [0x1C96]); (0x10D7, [0x1C97]);
    (0x10D8, [0x1C98]); (0x10D9, [0x1C99]); (0x10DA, [0x1C9A]);
    (0x10DB, [0x1C9B]); (0x10DC, [0x1C9C]); (0x10DD, [0x1C9D]);
    (0x10DE, [0x1C9E]); (0x10DF, [0x1C9F]); (0x10E0, [0x1CA0]);
    (0x10E1, [0x1CA1]); (0x10E2, [0x1CA2]); (0x10E3, [0x1CA3]);
    (0x10E4, [0x1CA4]); (0x10E5, [0x1CA5]); (0x10E6, [0x1CA6]);
    (0x10E7, [0x1CA7]); (0x10E8, [0x1CA8]); (0x10E9, [0x1CA9]);
    (0x10EA, [0x1CAA]); (0x10EB, [0x1CAB]); (0x10EC, [0x1CAC]);
    (0x10ED, [0x1CAD]); (0x10EE, [0x1CAE]); (0x10EF, [0x1CAF]);
    (0x10F0, [0x1CB0]); (0x10F1, [0x1CB1]); (0x10F2, [0x1CB2]);
    (0x10F3, [0x1CB3]); (0x10F4, [0x1CB4]); (0x10F5, [0x1CB5]);
    (0x10F6, [0x1CB6]); (0x10F7, [0x1CB7]); (0x10F8, [0x1CB8]);
    (0x10F9, [0x1CB9]); (0x10FA, [0x1CBA]); (0x10FD, [0x1CBD]);
    (0x10FE, [0x1CBE]); (0x10FF, [0x1CBF]); (0x13F8, [0x13F0]);
    (0x13F9, [0x13F1]); (0x13FA, [0x13F2]); (0x13FB, [0x13F3]);
    (0x13FC, [0x13F4]); (0x13FD, [0x13F5]); (0x1C80, [0x412]);
    (0x1C81, [0x414]); (0x1C82, [0x41E]); (0x1C83, [0x421]); (0x1C84, [0x422]);
    (0x1C85, [0x422]); (0x1C86, [0x42A]); (0x1C87, [0x462]);
    (0x1C88, [0xA64A]); (0x1D79, [0xA77D]); (0x1D7D, [0x2C63]);
    (0x1D8E, [0xA7C6]); (0x1E01, [0x1E00]); (0x1E03, [0x1E02]);
    (0x1E05, [0x1E04]); (0x1E07, [0x1E06]); (0x1E09, [0x1E08]);
    (0x1E0B, [0x1E0A]); (0x1E0D, [0x1E0C]); (0x1E0F, [0x1E0E]);
    (0x1E11, [0x1E10]); (0x1E13, [0x1E12]); (0x1E15, [0x1E14]);
    (0x1E17, [0x1E16]); (0x1E19, [0x1E18]); (0x1E1B, [0x1E1A]);
    (0x1E1D, [0x1E1C]); (0x1E1F, [0x1E1E]); (0x1E21, [0x1E20]);
    (0x1E23, [0x1E22]); (0x1E25, [0x1E24]); (0x1E27, [0x1E26]);
    (0x1E29, [0x1E28]); (0x1E2B, [0x1E2A]); (0x1E2D, [0x1E2C]);
    (0x1E2F, [0x1E2E]); (0x1E31, [0x1E30]); (0x1E33, [0x1E32]);
    (0x1E35, [0x1E34]); (0x1E37, [0x1E36]); (0x1E39, [0x1E38]);
    (0x1E3B, [0x1E3A]); (0x1E3D, [0x1E3C]); (0x1E3F, [0x1E3E]);
    (0x1E41, [0x1E40]); (0x1E43, [0x1E42]); (0x1E45, [0x1E44]);
    (0x1E47, [0x1E46]); (0x1E49, [0x1E48]); (0x1E4B, [0x1E4A]);
    (0x1E4D, [0x1E4C]); (0x1E4F, [0x1E4E]); (0x1E51, [0x1E50]);
    (0x1E53, [0x1E52]); (0x1E55, [0x1E54]); (0x1E57, [0x1E56]);
    (0x1E59, [0x1E58]); (0x1E5B, [0x1E5A]); (0x1E5D, [0x1E5C]);
    (0x1E5F, [0x1E5E]); (0x1E61, [0x1E60]); (0x1E63, [0x1E62]);
    (0x1E65, [0x1E64]); (0x1E67, [0x1E66]); (0x1E69, [0x1E68]);
    (0x1E6B, [0x1E6A]); (0x1E6D, [0x1E6C]); (0x1E6F, [0x1E6E]);
    (0x1E71, [0x1E70]); (0x1E73, [0x1E72]); (0x1E75, [0x1E74]);
    (0x1E77, [0x1E76]); (0x1E79, [0x1E78]); (0x1E7B, [0x1E7A]);
    (0x1E7D, [0x1E7C]); (0x1E7F, [0x1E7E]); (0x1E81, [0x1E80]);
    (0x1E83, [0x1E82]); (0x1E85, [0x1E84]); (0x1E87, [0x1E86]);
    (0x1E89, [0x1E88]); (0x1E8B, [0x1E8A]); (0x1E8D, [0x1E8C]);
    (0x1E8F, [0x1E8E]); (0x1E91, [0x1E90]); (0x1E93, [0x1E92]);
    (0x1E95, [0x1E94]); (0x1E96, [0x48; 0x331]); (0x1E97, [0x54; 0x308]);
    (0x1E98, [0x57; 0x30A]); (0x1E99, [0x59; 0x30A]); (0x1E9A, [0x41; 0x2BE]);
    (0x1E9B, [0x1E60]); (0x1EA1, [0x1EA0]); (0x1EA3, [0x1EA2]);
    (0x1EA5, [0x1EA4]); (0x1EA7, [0x1EA6]); (0x1EA9, [0x1EA8]);
    (0x1EAB, [0x1EAA]); (0x1EAD, [0x1EAC]); (0x1EAF, [0x1EAE]);
    (0x1EB1, [0x1EB0]); (0x1EB3, [0x1EB2]); (0x1EB5, [0x1EB4]);
    (0x1EB7, [0x1EB6]); (0x1EB9, [0x1EB8]); (0x1EBB, [0x1EBA]);
    (0x1EBD, [0x1EBC]); (0x1EBF, [0x1EBE]); (0x1EC1, [0x1EC0]);
    (0x1EC3, [0x1EC2]); (0x1EC5, [0x1EC4]); (0x1EC7, [0x1EC6]);
    (0x1EC9, [0x1EC8]); (0x1ECB, [0x1ECA]); (0x1ECD, [0x1ECC]);
    (0x1ECF, [0x1ECE]); (0x1ED1, [0x1ED0]); (0x1ED3, [0x1ED2]);
    (0x1ED5, [0x1ED4]); (0x1ED7, [0x1ED6]); (0x1ED9, [0x1ED8]);
    (0x1EDB, [0x1EDA]); (0x1EDD, [0x1EDC]); (0x1EDF, [0x1EDE]);
    (0x1EE1, [0x1EE0]); (0x1EE3, [0x1EE2]); (0x1EE5, [0x1EE4]);
    (0x1EE7, [0x1EE6]); (0x1EE9, [0x1EE8]); (0x1EEB, [0x1EEA]);
    (0x1EED, [0x1EEC]); (0x1EEF, [0x1EEE]); (0x1EF1, [0x1EF0]);
    (0x1EF3, [0x1EF2]); (0x1EF5, [0x1EF4]); (0x1EF7, [0x1EF6]);
    (0x1EF9, [0x1EF8]); (0x1EFB, [0x1EFA]); (0x1EFD, [0x1EFC]);
    (0x1EFF, [0x1EFE]); (0x1F00, [0x1F08]); (0x1F01, [0x1F09]);
    (0x1F02, [0x1F0A]); (0x1F03, [0x1F0B]); (0x1F04, [0x1F0C]);
    (0x1F05, [0x1F0D]); (0x1F06, [0x1F0E]); (0x1F07, [0x1F0F]);
    (0x1F10, [0x1F18]); (0x1F11, [0x1F19]); (0x1F12, [0x1F1A]);
    (0x1F13, [0x1F1B]); (0x1F14, [0x1F1C]); (0x1F15, [0x1F1D]);
    (0x1F20, [0x1F28]); (0x1F21, [0x1F29]); (0x1F22, [0x1F2A]);
    (0x1F23, [0x1F2B]); (0x1F24, [0x1F2C]); (0x1F25, [0x1F2D]);
    (0x1F26, [0x1F2E]); (0x1F27, [0x1F2F]); (0x1F30, [0x1F38]);
    (0x1F31, [0x1F39]); (0x1F32, [0x1F3A]); (0x1F33, [0x1F3B]);
    (0x1F34, [0x1F3C]); (0x1F35, [0x1F3D]); (0x1F36, [0x1F3E]);
    (0x1F37, [0x1F3F]); (0x1F40, [0x1F48]); (0x1F41, [0x1F49]);
    (0x1F42, [0x1F4A]); (0x1F43, [0x1F4B]); (0x1F44, [0x1F4C]);
    (0x1F45, [0x1F4D]); (0x1F50, [0x3A5; 0x313]); (0x1F51, [0x1F59]);
    (0x1F52, [0x3A5; 0x313; 0x300]); (0x1F53, [0x1F5B]);
    (0x1F54, [0x3A5; 0x313; 0x301]); (0x1F55, [0x1F5D]);
    (0x1F56, [0x3A5; 0x313; 0x342]); (0x1F57, [0x1F5F]); (0x1F60, [0x1F68]);
    (0x1F61, [0x1F69]); (0x1F62, [0x1F6A]); (0x1F63, [0x1F6B]);
    (0x1F64, [0x1F6C]); (0x1F65, [0x1F6D]); (0x1F66, [0x1F6E]);
    (0x1F67, [0x1F6F]); (0x1F70, [0x1FBA]); (0x1F71, [0x1FBB]);
    (0x1F72, [0x1FC8]); (0x1F73, [0x1FC9]); (0x1F74, [0x1FCA]);
    (0x1F75, [0x1FCB]); (0x1F76, [0x1FDA]); (0x1F77, [0x1FDB]);
    (0x1F78, [0x1FF8]); (0x1F79, [0x1FF9]); (0x1F7A, [0x1FEA]);
    (0x1F7B, [0x1FEB]); (0x1F7C, [0x1FFA]); (0x1F7D, [0x1FFB]);
    (0x1F80, [0x1F08; 0x399]); (0x1F81, [0x1F09; 0x399]);
    (0x1F82, [0x1F0A; 0x399]); (0x1F83, [0x1F0B; 0x399]);
    (0x1F84, [0x1F0C; 0x399]); (0x1F85, [0x1F0D; 0x399]);
    (0x1F86, [0x1F0E; 0x399]); (0x1F87, [0x1F0F; 0x399]);
    (0x1F88, [0x1F08; 0x399]); (0x1F89, [0x1F09; 0x399]);
    (0x1F8A, [0x1F0A; 0x399]); (0x1F8B, [0x1F0B; 0x399]);
    (0x1F8C, [0x1F0C; 0x399]); (0x1F8D, [0x1F0D; 0x399]);
    (0x1F8E, [0x1F0E; 0x399]); (0x1F8F, [0x1F0F; 0x399]);
    (0x1F90, [0x1F28; 0x399]); (0x1F91, [0x1F29; 0x399]);
    (0x1F92, [0x1F2A; 0x399]); (0x1F93, [0x1F2B; 0x399]);
    (0x1F94, [0x1F2C; 0x399]); (0x1F95, [0x1F2D; 0x399]);
    (0x1F96, [0x1F2E; 0x399]); (0x1F97, [0x1F2F; 0x399]);
    (0x1F98, [0x1F28; 0x399]); (0x1F99, [0x1F29; 0x399]);
    (0x1F9A, [0x1F2A; 0x399]); (0x1F9B, [0x1F2B; 0x399]);
    (0x1F9C, [0x1F2C; 0x399]); (0x1F9D, [0x1F2D; 0x399]);
    (0x1F9E, [0x1F2E; 0x399]); (0x1F9F, [0x1F2F; 0x399]);
    (0x1FA0, [0x1F68; 0x399]); (0x1FA1, [0x1F69; 0x399]);
    (0x1FA2, [0x1F6A; 0x399]); (0x1FA3, [0x1F6B; 0x399]);
    (0x1FA4, [0x1F6C; 0x399]); (0x1FA5, [0x1F6D; 0x399]);
    (0x1FA6, [0x1F6E; 0x399]); (0x1FA7, [0x1F6F; 0x399]);
    (0x1FA8, [0x1F68; 0x399]); (0x1FA9, [0x1F69; 0x399]);
    (0x1FAA, [0x1F6A; 0x399]); (0x1FAB, [0x1F6B; 0x399]);
    (0x1FAC, [0x1F6C; 0x399]); (0x1FAD, [0x1F6D; 0x399]);
    (0x1FAE, [0x1F6E; 0x399]); (0x1FAF, [0x1F6F; 0x399]); (0x1FB0, [0x1FB8]);
    (0x1FB1, [0x1FB9]); (0x1FB2, [0x1FBA; 0x399]); (0x1FB3, [0x391; 0x399]);
    (0x1FB4, [0x386; 0x399]); (0x1FB6, [0x391; 0x342]);
    (0x1FB7, [0x391; 0x342; 0x399]); (0x1FBC, [0x391; 0x399]);
    (0x1FBE, [0x399]); (0x1FC2, [0x1FCA; 0x399]); (0x1FC3, [0x397; 0x399]);
    (0x1FC4, [0x389; 0x399]); (0x1FC6, [0x397; 0x342]);
    (0x1FC7, [0x397; 0x342; 0x399]); (0x1FCC, [0x397; 0x399]);
    (0x1FD0, [0x1FD8]); (0x1FD1, [0x1FD9]); (0x1FD2, [0x399; 0x308; 0x300]);
    (0x1FD3, [0x399; 0x308; 0x301]); (0x1FD6, [0x399; 0x342]);
    (0x1FD7, [0x399; 0x308; 0x342]); (0x1FE0, [0x1FE8]); (0x1FE1, [0x1FE9]);
    (0x1FE2, [0x3A5; 0x308; 0x300]); (0x1FE3, [0x3A5; 0x308; 0x301]);
    (0x1FE4, [0x3A1; 0x313]); (0x1FE5, [0x1FEC]); (0x1FE6, [0x3A5; 0x342]);
    (0x1FE7, [0x3A5; 0x308; 0x342]); (0x1FF2, [0x1FFA; 0x399]);
    (0x1FF3, [0x3A9; 0x399]); (0x1FF4, [0x38F; 0x399]);
    (0x1FF6, [0x3A9; 0x342]); (0x1FF7, [0x3A9; 0x342; 0x399]);
    (0x1FFC, [0x3A9; 0x399]); (0x214E, [0x2132]); (0x2170, [0x2160]);
    (0x2171, [0x2161]); (0x2172, [0x2162]); (0x2173, [0x2163]);
    (0x2174, [0x2164]); (0x2175, [0x2165]); (0x2176, [0x2166]);
    (0x2177, [0x2167]); (0x2178, [0x2168]); (0x2179, [0x2169]);
    (0x217A, [0x216A]); (0x217B, [0x216B]); (0x217C, [0x216C]);
    (0x217D, [0x216D]); (0x217E, [0x216E]); (0x217F, [0x216F]);
    (0x2184, [0x2183]); (0x24D0, [0x24B6]); (0x24D1, [0x24B7]);
    (0x24D2, [0x24B8]); (0x24D3, [0x24B9]); (0x24D4, [0x24BA]);
    (0x24D5, [0x24BB]); (0x24D6, [0x24BC]); (0x24D7, [0x24BD]);
    (0x24D8, [0x24BE]); (0x24D9, [0x24BF]); (0x24DA, [0x24C0]);
    (0x24DB, [0x24C1]); (0x24DC, [0x24C2]); (0x24DD, [0x24C3]);
    (0x24DE, [0x24C4]); (0x24DF, [0x24C5]); (0x24E0, [0x24C6]);
    (0x24E1, [0x24C7]); (0x24E2, [0x24C8]); (0x24E3, [0x24C9]);
    (0x24E4, [0x24CA]); (0x24E5, [0x24CB]); (0x24E6, [0x24CC]);
    (0x24E7, [0x24CD]); (0x24E8, [0x24CE]); (0x24E9, [0x24CF]);
    (0x2C30, [0x2C00]); (0x2C31, [0x2C01]); (0x2C32, [0x2C02]);
    (0x2C33, [0x2C03]); (0x2C34, [0x2C04]); (0x2C35, [0x2C05]);
    (0x2C36, [0x2C06]); (0x2C37, [0x2C07]); (0x2C38, [0x2C08]);
    (0x2C39, [0x2C09]); (0x2C3A, [0x2C0A]); (0x2C3B, [0x2C0B]);
    (0x2C3C, [0x2C0C]); (0x2C3D, [0x2C0D]); (0x2C3E, [0x2C0E]);
    (0x2C3F, [0x2C0F]); (0x2C40, [0x2C10]); (0x2C41, [0x2C11]);
    (0x2C42, [0x2C12]); (0x2C43, [0x2C13]); (0x2C44, [0x2C14]);
    (0x2C45, [0x2C15]); (0x2C46, [0x2C16]); (0x2C47, [0x2C17]);
    (0x2C48, [0x2C18]); (0x2C49, [0x2C19]); (0x2C4A, [0x2C1A]);
    (0x2C4B, [0x2C1B]); (0x2C4C, [0x2C1C]); (0x2C4D, [0x2C1D]);
    (0x2C4E, [0x2C1E]); (0x2C4F, [0x2C1F]); (0x2C50, [0x2C20]);
    (0x2C51, [0x2C21]); (0x2C52, [0x2C22]); (0x2C53, [0x2C23]);
    (0x2C54, [0x2C24]); (0x2C55, [0x2C25]); (0x2C56, [0x2C26]);
    (0x2C57, [0x2C27]); (0x2C58, [0x2C28]); (0x2C59, [0x2C29]);
    (0x2C5A, [0x2C2A]); (0x2C5B, [0x2C2B]); (0x2C5C, [0x2C2C]);
    (0x2C5D, [0x2C2D]); (0x2C5E, [0x2C2E]); (0x2C5F, [0x2C2F]);
    (0x2C61, [0x2C60]); (0x2C65, [0x23A]); (0x2C66, [0x23E]);
    (0x2C68, [0x2C67]); (0x2C6A, [0x2C69]); (0x2C6C, [0x2C6B]);
    (0x2C73, [0x2C72]); (0x2C76, [0x2C75]); (0x2C81, [0x2C80]);
    (0x2C83, [0x2C82]); (0x2C85, [0x2C84]); (0x2C87, [0x2C86]);
    (0x2C89, [0x2C88]); (0x2C8B, [0x2C8A]); (0x2C8D, [0x2C8C]);
    (0x2C8F, [0x2C8E]); (0x2C91, [0x2C90]); (0x2C93, [0x2C92]);
    (0x2C95, [0x2C94]); (0x2C97, [0x2C96]); (0x2C99, [0x2C98]);
    (0x2C9B, [0x2C9A]); (0x2C9D, [0x2C9C]); (0x2C9F, [0x2C9E]);
    (0x2CA1, [0x2CA0]); (0x2CA3, [0x2CA2]); (0x2CA5, [0x2CA4]);
    (0x2CA7, [0x2CA6]); (0x2CA9, [0x2CA8]); (0x2CAB, [0x2CAA]);
    (0x2CAD, [0x2CAC]); (0x2CAF, [0x2CAE]); (0x2CB1, [0x2CB0]);
    (0x2CB3, [0x2CB2]); (0x2CB5, [0x2CB4]); (0x2CB7, [0x2CB6]);
    (0x2CB9, [0x2CB8]); (0x2CBB, [0x2CBA]); (0x2CBD, [0x2CBC]);
    (0x2CBF, [0x2CBE]); (0x2CC1, [0x2CC0]); (0x2CC3, [0x2CC2]);
    (0x2CC5, [0x2CC4]); (0x2CC7, [0x2CC6]); (0x2CC9, [0x2CC8]);
    (0x2CCB, [0x2CCA]); (0x2CCD, [0x2CCC]); (0x2CCF, [0x2CCE]);
    (0x2CD1, [0x2CD0]); (0x2CD3, [0x2CD2]); (0x2CD5, [0x2CD4]);
    (0x2CD7, [0x2CD6]); (0x2CD9, [0x2CD8]); (0x2CDB, [0x2CDA]);
    (0x2CDD, [0x2CDC]); (0x2CDF, [0x2CDE]); (0x2CE1, [0x2CE0]);
    (0x2CE3, [0x2CE2]); (0x2CEC, [0x2CEB]); (0x2CEE, [0x2CED]);
    (0x2CF3, [0x2CF2]); (0x2D00, [0x10A0]); (0x2D01, [0x10A1]);
    (0x2D02, [0x10A2]); (0x2D03, [0x10A3]); (0x2D04, [0x10A4]);
    (0x2D05, [0x10A5]); (0x2D06, [0x10A6]); (0x2D07, [0x10A7]);
    (0x2D08, [0x10A8]); (0x2D09, [0x10A9]); (0x2D0A, [0x10AA]);
    (0x2D0B, [0x10AB]); (0x2D0C, [0x10AC]); (0x2D0D, [0x10AD]);
    (0x2D0E, [0x10AE]); (0x2D0F, [0x10AF]); (0x2D10, [0x10B0]);
    (0x2D11, [0x10B1]); (0x2D12, [0x10B2]); (0x2D13, [0x10B3]);
    (0x2D14, [0x10B4]); (0x2D15, [0x10B5]); (0x2D16, [0x10B6]);
    (0x2D17, [0x10B7]); (0x2D18, [0x10B8]); (0x2D19, [0x10B9]);
    (0x2D1A, [0x10BA]); (0x2D1B, [0x10BB]); (0x2D1C, [0x10BC]);
    (0x2D1D, [0x10BD]); (0x2D1E, [0x10BE]); (0x2D1F, [0x10BF]);
    (0x2D20, [0x10C0]); (0x2D21, [0x10C1]); (0x2D22, [0x10C2]);
    (0x2D23, [0x10C3]); (0x2D24, [0x10C4]); (0x2D25, [0x10C5]);
    (0x2D27, [0x10C7]); (0x2D2D, [0x10CD]); (0xA641, [0xA640]);
    (0xA643, [0xA642]); (0xA645, [0xA644]); (0xA647, [0xA646]);
    (0xA649, [0xA648]); (0xA64B, [0xA64A]); (0xA64D, [0xA64C]);
    (0xA64F, [0xA64E]); (0xA651, [0xA650]); (0xA653, [0xA652]);
    (0xA655, [0xA654]); (0xA657, [0xA656]); (0xA659, [0xA658]);
    (0xA65B, [0xA65A]); (0xA65D, [0xA65C]); (0xA65F, [0xA65E]);
    (0xA661, [0xA660]); (0xA663, [0xA662]); (0xA665, [0xA664]);
    (0xA667, [0xA666]); (0xA669, [0xA668]); (0xA66B, [0xA66A]);
    (0xA66D, [0xA66C]); (0xA681, [0xA680]); (0xA683, [0xA682]);
    (0xA685, [0xA684]); (0xA687, [0xA686]); (0xA689, [0xA688]);
    (0xA68B, [0xA68A]); (0xA68D, [0xA68C]); (0xA68F, [0xA68E]);
    (0xA691, [0xA690]); (0xA693, [0xA692]); (0xA695, [0xA694]);
    (0xA697, [0xA696]); (0xA699, [0xA698]); (0xA69B, [0xA69A]);
    (0xA723, [0xA722]); (0xA725, [0xA724]); (0xA727, [0xA726]);
    (0xA729, [0xA728]); (0xA72B, [0xA72A]); (0xA72D, [0xA72C]);
    (0xA72F, [0xA72E]); (0xA733, [0xA732]); (0xA735, [0xA734]);
    (0xA737, [0xA736]); (0xA739, [0xA738]); (0xA73B, [0xA73A]);
    (0xA73D, [0xA73C]); (0xA73F, [0xA73E]); (0xA741, [0xA740]);
    (0xA743, [0xA742]); (0xA745, [0xA744]); (0xA747, [0xA746]);
    (0xA749, [0xA748]); (0xA74B, [0xA74A]); (0xA74D, [0xA74C]);
    (0xA74F, [0xA74E]); (0xA751, [0xA750]); (0xA753, [0xA752]);
    (0xA755, [0xA754]); (0xA757, [0xA756]); (0xA759, [0xA758]);
    (0xA75B, [0xA75A]); (0xA75D, [0xA75C]); (0xA75F, [0xA75E]);
    (0xA761, [0xA760]); (0xA763, [0xA762]); (0xA765, [0xA764]);
    (0xA767, [0xA766]); (0xA769, [0xA768]); (0xA76B, [0xA76A]);
    (0xA76D, [0xA76C]); (0xA76F, [0xA76E]); (0xA77A, [0xA779]);
    (0xA77C, [0xA77B]); (0xA77F, [0xA77E]); (0xA781, [0xA780]);
    (0xA783, [0xA782]); (0xA785, [0xA784]); (0xA787, [0xA786]);
    (0xA78C, [0xA78B]); (0xA791, [0xA790]); (0xA793, [0xA792]);
    (0xA794, [0xA7C4]); (0xA797, [0xA796]); (0xA799, [0xA798]);
    (0xA79B, [0xA79A]); (0xA79D, [0xA79C]); (0xA79F, [0xA79E]);
    (0xA7A1, [0xA7A0]); (0xA7A3, [0xA7A2]); (0xA7A5, [0xA7A4]);
    (0xA7A7, [0xA7A6]); (0xA7A9, [0xA7A8]); (0xA7B5, [0xA7B4]);
    (0xA7B7, [0xA7B6]); (0xA7B9, [0xA7B8]); (0xA7BB, [0xA7BA]);
    (0xA7BD, [0xA7BC]); (0xA7BF, [0xA7BE]); (0xA7C1, [0xA7C0]);
    (0xA7C3, [0xA7C2]); (0xA7C8, [0xA7C7]); (0xA7CA, [0xA7C9]);
    (0xA7D1, [0xA7D0]); (0xA7D7, [0xA7D6]); (0xA7D9, [0xA7D8]);
    (0xA7F6, [0xA7F5]); (0xAB53, [0xA7B3]); (0xAB70, [0x13A0]);
    (0xAB71, [0x13A1]); (0xAB72, [0x13A2]); (0xAB73, [0x13A3]);
    (0xAB74, [0x13A4]); (0xAB75, [0x13A5]); (0xAB76, [0x13A6]);
    (0xAB77, [0x13A7]); (0xAB78, [0x13A8]); (0xAB79, [0x13A9]);
    (0xAB7A, [0x13AA]); (0xAB7B, [0x13AB]); (0xAB7C, [0x13AC]);
    (0xAB7D, [0x13AD]); (0xAB7E, [0x13AE]); (0xAB7F, [0x13AF]);
    (0xAB80, [0x13B0]); (0xAB81, [0x13B1]); (0xAB82, [0x13B2]);
    (0xAB83, [0x13B3]); (0xAB84, [0x13B4]); (0xAB85, [0x13B5]);
    (0xAB86, [0x13B6]); (0xAB87, [0x13B7]); (0xAB88, [0x13B8]);
    (0xAB89, [0x13B9]); (0xAB8A, [0x13BA]); (0xAB8B, [0x13BB]);
    (0xAB8C, [0x13BC]); (0xAB8D, [0x13BD]); (0xAB8E, [0x13BE]);
    (0xAB8F, [0x13BF]); (0xAB90, [0x13C0]); (0xAB91, [0x13C1]);
    (0xAB92, [0x13C2]); (0xAB93, [0x13C3]); (0xAB94, [0x13C4]);
    (0xAB95, [0x13C5]); (0xAB96, [0x13C6]); (0xAB97, [0x13C7]);
    (0xAB98, [0x13C8]); (0xAB99, [0x13C9]); (0xAB9A, [0x13CA]);
    (0xAB9B, [0x13CB]); (0xAB9C, [0x13CC]); (0xAB9D, [0x13CD]);
    (0xAB9E, [0x13CE]); (0xAB9F, [0x13CF]); (0xABA0, [0x13D0]);
    (0xABA1, [0x13D1]); (0xABA2, [0x13D2]); (0xABA3, [0x13D3]);
    (0xABA4, [0x13D4]); (0xABA5, [0x13D5]); (0xABA6, [0x13D6]);
    (0xABA7, [0x13D7]); (0xABA8, [0x13D8]); (0xABA9, [0x13D9]);
    (0xABAA, [0x13DA]); (0xABAB, [0x13DB]); (0xABAC, [0x13DC]);
    (0xABAD, [0x13DD]); (0xABAE, [0x13DE]); (0xABAF, [0x13DF]);
    (0xABB0, [0x13E0]); (0xABB1, [0x13E1]); (0xABB2, [0x13E2]);
    (0xABB3, [0x13E3]); (0xABB4, [0x13E4]); (0xABB5, [0x13E5]);
    (0xABB6, [0x13E6]); (0xABB7, [0x13E7]); (0xABB8, [0x13E8]);
    (0xABB9, [0x13E9]); (0xABBA, [0x13EA]); (0xABBB, [0x13EB]);
    (0xABBC, [0x13EC]); (0xABBD, [0x13ED]); (0xABBE, [0x13EE]);
    (0xABBF, [0x13EF]); (0xFB00, [0x46; 0x46]); (0xFB01, [0x46; 0x49]);
    (0xFB02, [0x46; 0x4C]); (0xFB03, [0x46; 0x46; 0x49]);
    (0xFB04, [0x46; 0x46; 0x4C]); (0xFB05, [0x53; 0x54]);
    (0xFB06, [0x53; 0x54]); (0xFB13, [0x544; 0x546]); (0xFB14, [0x544; 0x535]);
    (0xFB15, [0x544; 0x53B]); (0xFB16, [0x54E; 0x546]);
    (0xFB17, [0x544; 0x53D]); (0xFF41, [0xFF21]); (0xFF42, [0xFF22]);
    (0xFF43, [0xFF23]); (0xFF44, [0xFF24]); (0xFF45, [0xFF25]);
    (0xFF46, [0xFF26]); (0xFF47, [0xFF27]); (0xFF48, [0xFF28]);
    (0xFF49, [0xFF29]); (0xFF4A, [0xFF2A]); (0xFF4B, [0xFF2B]);
    (0xFF4C, [0xFF2C]); (0xFF4D, [0xFF2D]); (0xFF4E, [0xFF2E]);
    (0xFF4F, [0xFF2F]); (0xFF50, [0xFF30]); (0xFF51, [0xFF31]);
    (0xFF52, [0xFF32]); (0xFF53, [0xFF33]); (0xFF54, [0xFF34]);
    (0xFF55, [0xFF35]); (0xFF56, [0xFF36]); (0xFF57, [0xFF37]);
    (0xFF58, [0xFF38]); (0xFF59, [0xFF39]); (0xFF5A, [0xFF3A]);
    (0x10428, [0x10400]); (0x10429, [0x10401]); (0x1042A, [0x10402]);
    (0x1042B, [0x10403]); (0x1042C, [0x10404]); (0x1042D, [0x10405]);
    (0x1042E, [0x10406]); (0x1042F, [0x10407]); (0x10430, [0x10408]);
    (0x10431, [0x10409]); (0x10432, [0x1040A]); (0x10433, [0x1040B]);
    (0x10434, [0x1040C]); (0x10435, [0x1040D]); (0x10436, [0x1040E]);
    (0x10437, [0x1040F]); (0x10438, [0x10410]); (0x10439, [0x10411]);
    (0x1043A, [0x10412]); (0x1043B, [0x10413]); (0x1043C, [0x10414]);
    (0x1043D, [0x10415]); (0x1043E, [0x10416]); (0x1043F, [0x10417]);
    (0x10440, [0x10418]); (0x10441, [0x10419]); (0x10442, [0x1041A]);
    (0x10443, [0x1041B]); (0x10444, [0x1041C]); (0x10445, [0x1041D]);
    (0x10446, [0x1041E]); (0x10447, [0x1041F]); (0x10448, [0x10420]);
    (0x10449, [0x10421]); (0x1044A, [0x10422]); (0x1044B, [0x10423]);
    (0x1044C, [0x10424]); (0x1044D, [0x10425]); (0x1044E, [0x10426]);
    (0x1044F, [0x10427]); (0x104D8, [0x104B0]); (0x104D9, [0x104B1]);
    (0x104DA, [0x104B2]); (0x104DB, [0x104B3]); (0x104DC, [0x104B4]);
    (0x104DD, [0x104B5]); (0x104DE, [0x104B6]); (0x104DF, [0x104B7]);
    (0x104E0, [0x104B8]); (0x104E1, [0x104B9]); (0x104E2, [0x104BA]);
    (0x104E3, [0x104BB]); (0x104E4, [0x104BC]); (0x104E5, [0x104BD]);
    (0x104E6, [0x104BE]); (0x104E7, [0x104BF]); (0x104E8, [0x104C0]);
    (0x104E9, [0x104C1]); (0x104EA, [0x104C2]); (0x104EB, [0x104C3]);
    (0x104EC, [0x104C4]); (0x104ED, [0x104C5]); (0x104EE, [0x104C6]);
    (0x104EF, [0x104C7]); (0x104F0, [0x104C8]); (0x104F1, [0x104C9]);
    (0x104F2, [0x104CA]); (0x104F3, [0x104CB]); (0x104F4, [0x104CC]);
    (0x104F5, [0x104CD]); (0x104F6, [0x104CE]); (0x104F7, [0x104CF]);
    (0x104F8, [0x104D0]); (0x104F9, [0x104D1]); (0x104FA, [0x104D2]);
    (0x104FB, [0x104D3]); (0x10597, [0x10570]); (0x10598, [0x10571]);
    (0x10599, [0x10572]); (0x1059A, [0x10573]); (0x1059B, [0x10574]);
    (0x1059C, [0x10575]); (0x1059D, [0x10576]); (0x1059E, [0x10577]);
    (0x1059F, [0x10578]); (0x105A0, [0x10579]); (0x105A1, [0x1057A]);
    (0x105A3, [0x1057C]); (0x105A4, [0x1057D]); (0x105A5, [0x1057E]);
    (0x105A6, [0x1057F]); (0x105A7, [0x10580]); (0x105A8, [0x10581]);
    (0x105A9, [0x10582]); (0x105AA, [0x10583]); (0x105AB, [0x10584]);
    (0x105AC, [0x10585]); (0x105AD, [0x10586]); (0x105AE, [0x10587]);
    (0x105AF, [0x10588]); (0x105B0, [0x10589]); (0x105B1, [0x1058A]);
    (0x105B3, [0x1058C]); (0x105B4, [0x1058D]); (0x105B5, [0x1058E]);
    (0x105B6, [0x1058F]); (0x105B7, [0x10590]); (0x105B8, [0x10591]);
    (0x105B9, [0x10592]); (0x105BB, [0x10594]); (0x105BC, [0x10595]);
    (0x10CC0, [0x10C80]); (0x10CC1, [0x10C81]); (0x10CC2, [0x10C82]);
    (0x10CC3, [0x10C83]); (0x10CC4, [0x10C84]); (0x10CC5, [0x10C85]);
    (0x10CC6, [0x10C86]); (0x10CC7, [0x10C87]); (0x10CC8, [0x10C88]);
    (0x10CC9, [0x10C89]); (0x10CCA, [0x10C8A]); (0x10CCB, [0x10C8B]);
    (0x10CCC, [0x10C8C]); (0x10CCD, [0x10C8D]); (0x10CCE, [0x10C8E]);
    (0x10CCF, [0x10C8F]); (0x10CD0, [0x10C90]); (0x10CD1, [0x10C91]);
    (0x10CD2, [0x10C92]); (0x10CD3, [0x10C93]); (0x10CD4, [0x10C94]);
    (0x10CD5, [0x10C95]); (0x10CD6, [0x10C96]); (0x10CD7, [0x10C97]);
    (0x10CD8, [0x10C98]); (0x10CD9, [0x10C99]); (0x10CDA, [0x10C9A]);
    (0x10CDB, [0x10C9B]); (0x10CDC, [0x10C9C]); (0x10CDD, [0x10C9D]);
    (0x10CDE, [0x10C9E]); (0x10CDF, [0x10C9F]); (0x10CE0, [0x10CA0]);
    (0x10CE1, [0x10CA1]); (0x10CE2, [0x10CA2]); (0x10CE3, [0x10CA3]);
    (0x10CE4, [0x10CA4]); (0x10CE5, [0x10CA5]); (0x10CE6, [0x10CA6]);
    (0x10CE7, [0x10CA7]); (0x10CE8, [0x10CA8]); (0x10CE9, [0x10CA9]);
    (0x10CEA, [0x10CAA]); (0x10CEB, [0x10CAB]); (0x10CEC, [0x10CAC]);
    (0x10CED, [0x10CAD]); (0x10CEE, [0x10CAE]); (0x10CEF, [0x10CAF]);
    (0x10CF0, [0x10CB0]); (0x10CF1, [0x10CB1]); (0x10CF2, [0x10CB2]);
    (0x118C0, [0x118A0]); (0x118C1, [0x118A1]); (0x118C2, [0x118A2]);
    (0x118C3, [0x118A3]); (0x118C4, [0x118A4]); (0x118C5, [0x118A5]);
    (0x118C6, [0x118A6]); (0x118C7, [0x118A7]); (0x118C8, [0x118A8]);
    (0x118C9, [0x118A9]); (0x118CA, [0x118AA]); (0x118CB, [0x118AB]);
    (0x118CC, [0x118AC]); (0x118CD, [0x118AD]); (0x118CE, [0x118AE]);
    (0x118CF, [0x118AF]); (0x118D0, [0x118B0]); (0x118D1, [0x118B1]);
    (0x118D2, [0x118B2]); (0x118D3, [0x118B3]); (0x118D4, [0x118B4]);
    (0x118D5, [0x118B5]); (0x118D6, [0x118B6]); (0x118D7, [0x118B7]);
    (0x118D8, [0x118B8]); (0x118D9, [0x118B9]); (0x118DA, [0x118BA]);
    (0x118DB, [0x118BB]); (0x118DC, [0x118BC]); (0x118DD, [0x118BD]);
    (0x118DE, [0x118BE]); (0x118DF, [0x118BF]); (0x16E60, [0x16E40]);
    (0x16E61, [0x16E41]); (0x16E62, [0x16E42]); (0x16E63, [0x16E43]);
    (0x16E64, [0x16E44]); (0x16E65, [0x16E45]); (0x16E66, [0x16E46]);
    (0x16E67, [0x16E47]); (0x16E68, [0x16E48]); (0x16E69, [0x16E49]);
    (0x16E6A, [0x16E4A]); (0x16E6B, [0x16E4B]); (0x16E6C, [0x16E4C]);
    (0x16E6D, [0x16E4D]); (0x16E6E, [0x16E4E]); (0x16E6F, [0x16E4F]);
    (0x16E70, [0x16E50]); (0x16E71, [0x16E51]); (0x16E72, [0x16E52]);
    (0x16E73, [0x16E53]); (0x16E74, [0x16E54]); (0x16E75, [0x16E55]);
    (0x16E76, [0x16E56]); (0x16E77, [0x16E57]); (0x16E78, [0x16E58]);
    (0x16E79, [0x16E59]); (0x16E7A, [0x16E5A]); (0x16E7B, [0x16E5B]);
    (0x16E7C, [0x16E5C]); (0x16E7D, [0x16E5D]); (0x16E7E, [0x16E5E]);
    (0x16E7F, [0x16E5F]); (0x1E922, [0x1E900]); (0x1E923, [0x1E901]);
    (0x1E924, [0x1E902]); (0x1E925, [0x1E903]); (0x1E926, [0x1E904]);
    (0x1E927, [0x1E905]); (0x1E928, [0x1E906]); (0x1E929, [0x1E907]);
    (0x1E92A, [0x1E908]); (0x1E92B, [0x1E909]); (0x1E92C, [0x1E90A]);
    (0x1E92D, [0x1E90B]); (0x1E92E, [0x1E90C]); (0x1E92F, [0x1E90D]);
    (0x1E930, [0x1E90E]); (0x1E931, [0x1E90F]); (0x1E932, [0x1E910]);
    (0x1E933, [0x1E911]); (0x1E934, [0x1E912]); (0x1E935, [0x1E913]);
    (0x1E936, [0x1E914]); (0x1E937, [0x1E915]); (0x1E938, [0x1E916]);
    (0x1E939, [0x1E917]); (0x1E93A, [0x1E918]); (0x1E93B, [0x1E919]);
    (0x1E93C, [0x1E91A]); (0x1E93D, [0x1E91B]); (0x1E93E, [0x1E91C]);
    (0x1E93F, [0x1E91D]); (0x1E940, [0x1E91E]); (0x1E941, [0x1E91F]);
    (0x1E942, [0x1E920]); (0x1E943, [0x1E921])
  ].

Definition maiusculas_utf8 : list (string * string) :=
  Eval vm_compute in
    map (fun p => (utf8 (fst p), String.concat "" (map utf8 (snd p))))
      maiusculas.

(** The character a string starts with and what [toUpperCase] puts in its
    place, when it changes it. *)
Definition maiuscula (s : string) : option (string * string) :=
  match s with
  | String c _ =>
      if byte c <? 0x80 then
        if is_lower c then Some (String c "", String (upper_char c) "")
        else None
      else find (fun p => startsWith s (fst p)) maiusculas_utf8
  | EmptyString => None
  end.

(** [toUpperCase], the first [salto] bytes of the string being the rest
    of a character that has been dealt with. *)
Fixpoint toUpperCase_de (salto : nat) (s : string) : string :=
  match s with
  | String c s' =>
      match salto with
      | S salto' => toUpperCase_de salto' s'
      | O =>
          match maiuscula s with
          | Some (k, u) => u +:+ toUpperCase_de (String.length k - 1) s'
          | None => String c (toUpperCase_de 0 s')
          end
      end
  | EmptyString => EmptyString
  end.

Definition toUpperCase (s : string) : string := toUpperCase_de 0 s.

(** The value of a character as a digit in radix 10 or 16. *)
Definition digit_value (radix : Z) (c : ascii) : option Z :=
  let n := Z.of_nat (nat_of_ascii c) in
  let v :=
    if (48 <=? n) && (n <=? 57) then Some (n - 48)
    else if (97 <=? n) && (n <=? 102) then Some (n - 87)
    else if (65 <=? n) && (n <=? 70) then Some (n - 55)
    else None in
  match v with
  | Some d => if d <? radix then Some d else None
  | None => None
  end.

(** Reads the longest prefix of digits; [None] when there is no digit. *)
Fixpoint digits (radix : Z) (acc : option Z) (s : string) : option Z :=
  match s with
  | String c s' =>
      match digit_value radix c with
      | Some d => digits radix (Some (radix * default 0 acc + d)) s'
      | None => acc
      end
  | EmptyString => acc
  end.

(** [Number.parseInt(s)] with no radix argument: leading white space is
    skipped, then an optional sign, then an optional [0x]/[0X] prefix
    selects radix 16; the digits that follow are read up to the first
    character that is not one.  No digit at all gives NaN; a zero keeps
    the sign. *)
Definition parseInt (s : string) : number :=
  let s1 := trimStart s in
  let '(neg, s2) :=
    match s1 with
    | String "-" r => (true, r)
    | String "+" r => (false, r)
    | _ => (false, s1)
    end in
  let '(radix, s3) :=
    match s2 with
    | String "0" (String "x" r) | String "0" (String "X" r) => (16, r)
    | _ => (10, s2)
    end in
  match digits radix None s3 with
  | None => NaN
  | Some 0 => S754_zero neg
  | Some n => ofZ (if neg then - n else n)
  end.

End JS.

Import JS.

(** ** Exact values

    To reason about rounding, a finite Number is read as the rational it
    denotes, and the result of an operation is related to the exact
    result it rounds. *)

Definition pow2 (e : Z) : Q := (2 ^ e)%Q.

(** The value of a Number; zero for the values that have none. *)
Definition F2Q (x : number) : Q :=
  match x with
  | S754_finite s m e =>
      ((if s then - inject_Z (Zpos m) else inject_Z (Zpos m)) * pow2 e)%Q
  | _ => 0%Q
  end.

(** The absolute value of a finite Number. *)
Definition magQ (y : number) : Q :=
  match y with
  | S754_finite _ m e => (inject_Z (Zpos m) * pow2 e)%Q
  | _ => 0%Q
  end.

(** A Number of the format: canonical mantissa, exponent in range. *)
Definition valid (x : number) : Prop := valid_binary prec emax x = true.

(** A zero or a finite Number of sign [s]. *)
Definition finite_s (s : bool) (y : number) : Prop :=
  y = S754_zero s \/ exists p e, y = S754_finite s p e.

(** A zero or a finite Number of either sign. *)
Definition finite_any (y : number) : Prop := exists s, finite_s s y.

Definition emin : Z := SpecFloat.emin prec emax.
Definition fexp (e : Z) : Z := SpecFloat.fexp prec emax e.

(** Where the real [x] lies in the cell [m, m+1): the reading of the
    location that the rounding functions carry along. *)
Definition inbetween (m : Z) (x : Q) (l : location) : Prop :=
  match l with
  | loc_Exact => (x == inject_Z m)%Q
  | loc_Inexact Lt => (inject_Z m < x /\ x < inject_Z m + (1 # 2))%Q
  | loc_Inexact Eq => (x == inject_Z m + (1 # 2))%Q
  | loc_Inexact Gt => (inject_Z m + (1 # 2) < x /\ x < inject_Z m + 1)%Q
  end.

(** The Number [binary_round_aux] ends with, for the rounded mantissa [n]
    at exponent [e1]: a mantissa that reached [2^53] is renormalised, an
    exponent above the largest one overflows. *)
Definition rounded (s : bool) (n e1 : Z) : number :=
  if n =? 0 then S754_zero s
  else if n =? 2 ^ 53 then
    if e1 + 1 <=? emax - prec then S754_finite s (2 ^ 52)%positive (e1 + 1)
    else S754_infinity s
  else if e1 <=? emax - prec then S754_finite s (Z.to_pos n) e1
  else S754_infinity s.

(** The mantissa and exponent of a valid positive finite Number. *)
Definition vpair (mg eg : Z) : Prop :=
  emin <= eg /\ 0 <= mg < 2 ^ 53 /\ (emin < eg -> 2 ^ 52 <= mg).

(** A value of the format, as mantissa and exponent. *)
Definition repr (mg eg : Z) : Prop := emin <= eg /\ 0 <= mg <= 2 ^ 53.

(** [m1 * 2^e1] is the largest value of the format not above [X]. *)
Definition cell (X : Q) (m1 e1 : Z) : Prop :=
  emin <= e1 /\ 0 <= m1 < 2 ^ 53 /\ (emin < e1 -> 2 ^ 52 <= m1) /\
  (inject_Z m1 * pow2 e1 <= X /\ X < (inject_Z m1 + 1) * pow2 e1)%Q.

(** [n * 2^e1] is a nearest value of the format to [X]. *)
Definition nearest (X : Q) (m1 n e1 : Z) : Prop :=
  cell X m1 e1 /\ (n = m1 \/ n = m1 + 1) /\
  ((inject_Z n - (1 # 2)) * pow2 e1 <= X /\
   X <= (inject_Z n + (1 # 2)) * pow2 e1)%Q.

(** [y] is [X > 0] rounded to nearest, with sign [s]. *)
Definition rounds_to (s : bool) (X : Q) (y : number) : Prop :=
  exists m1 n e1 : Z, nearest X m1 n e1 /\ y = rounded s n e1.

(** A draw of [Math.random]: a Number of the format in [0, 1). *)
Definition unit_interval (r : number) : Prop :=
  valid r /\ leb (ofZ 0) r = true /\ ltb r (ofZ 1) = true.

(** A Number of the format that is not negative: a zero, a positive
    finite Number or positive infinity. *)
Definition nonneg (p : number) : Prop :=
  valid p /\ leb (ofZ 0) p = true.

(** ** Data of the page *)

(** One simulated quote, as [simularDadosPrecos] builds it. *)
Module Preco.
Record t : Type := mk {
  simbolo : string;
  nome : string;
  preco : number;
  variacao : number;
  moeda : string }.
End Preco.

(** One purchase, as the submit handler builds it.  [dataCompra] is the
    instant (milliseconds since the epoch) that the ISO string written by
    [toISOString] denotes and that [new Date(dataCompra)] reads back. *)
Module Compra.
Record t : Type := mk {
  simbolo : string;
  quantidade : number;
  precoCompra : value;
  valorTotal : number;
  dataCompra : Z }.
End Compra.

(** A template literal: its text and, for every hole, the value that is
    interpolated.  Printing a Number ([ToString], [toFixed]) or a time
    ([toLocaleTimeString]) is the host's business and is kept symbolic. *)
Inductive piece : Type :=
  | Text (s : string)
  | Show (x : number)
  | Fixed (x : number) (fractionDigits : Z)
  | Hora (instante : Z).

Definition template : Type := list piece.

Inductive exn : Type :=
  | TypeError
  | RangeError
  | DataCloneError
  | InvalidStateError.

(** What the page does to the outside.  [console.log] lines are not
    tracked; [console.error] lines are. *)
Inductive event : Type :=
  | Timeout (ms : Z)
  | Alert (msg : template)
  | ConsoleError (msg : string).

(** Content of the element [sugestao-ia]. *)
Inductive painel_sugestao : Type :=
  | SemSugestao
  | Analisando
  | Sugestao (texto : template) (geradoEm : Z)
  | ErroSugestao.

(** Content of the element [lista-historico]: the empty-state paragraph,
    or one item per purchase, in document order.  An item stands for the
    markup [criarItemHistorico] builds from the purchase. *)
Inductive painel_historico : Type :=
  | Nenhuma
  | Itens (compras : list Compra.t).

(** Content of the element [lista-precos]: nothing yet, the loading
    spinner, one card per quote in document order, or the error message.
    A card stands for the markup [criarCardPreco] builds from the quote. *)
Inductive painel_precos : Type :=
  | SemFilhos
  | Carregando
  | Cards (cards : list Preco.t)
  | ErroPrecos.

(** What the browser decides: the results of [Math.random], the readings
    of the clock, whether the database connection is still usable at each
    [db.transaction] (the browser may close a connection at any time), and
    whether requests on the object stores succeed. *)
Record Host : Type := mkHost {
  random : nat -> number;
  clock : nat -> Z;
  connection : nat -> bool;
  add_succeeds : bool;
  getAll_succeeds : bool }.

(** The state of the page: the module-level variables, the two object
    stores, the values of the two form fields and the default values the
    markup gives them, the elements the script writes to (an absent
    element is [None], as [getElementById] gives [null]), the number of
    random draws, clock readings and transactions made so far, and what
    has been emitted. *)
Record World : Type := mkWorld {
  host : Host;
  draws : nat;
  readings : nat;
  transactions : nat;
  db : bool;
  precosAtuais : gmap string number;
  historicoSparkline : gmap string (list number);
  contadorAtualizacoes : number;
  Compras : list Compra.t;
  PrecosHistoricos : list Preco.t;
  campo_simbolo : string;
  campo_quantidade : string;
  padrao_simbolo : string;
  padrao_quantidade : string;
  sugestao_ia : option painel_sugestao;
  lista_historico : option painel_historico;
  lista_precos : option painel_precos;
  update_counter : option template;
  emitted : list event }.

Definition set_draws (n : nat) (w : World) : World :=
  mkWorld (host w) n (readings w) (transactions w) (db w) (precosAtuais w)
    (historicoSparkline w) (contadorAtualizacoes w) (Compras w)
    (PrecosHistoricos w) (campo_simbolo w) (campo_quantidade w)
    (padrao_simbolo w) (padrao_quantidade w)
    (sugestao_ia w) (lista_historico w) (lista_precos w) (update_counter w)
    (emitted w).

Definition set_readings (n : nat) (w : World) : World :=
  mkWorld (host w) (draws w) n (transactions w) (db w) (precosAtuais w)
    (historicoSparkline w) (contadorAtualizacoes w) (Compras w)
    (PrecosHistoricos w) (campo_simbolo w) (campo_quantidade w)
    (padrao_simbolo w) (padrao_quantidade w)
    (sugestao_ia w) (lista_historico w) (lista_precos w) (update_counter w)
    (emitted w).

Definition set_transactions (n : nat) (w : World) : World :=
  mkWorld (host w) (draws w) (readings w) n (db w) (precosAtuais w)
    (historicoSparkline w) (contadorAtualizacoes w) (Compras w)
    (PrecosHistoricos w) (campo_simbolo w) (campo_quantidade w)
    (padrao_simbolo w) (padrao_quantidade w)
    (sugestao_ia w) (lista_historico w) (lista_precos w) (update_counter w)
    (emitted w).

Definition set_precosAtuais (p : gmap string number) (w : World) : World :=
  mkWorld (host w) (draws w) (readings w) (transactions w) (db w) p
    (historicoSparkline w) (contadorAtualizacoes w) (Compras w)
    (PrecosHistoricos w) (campo_simbolo w) (campo_quantidade w)
    (padrao_simbolo w) (padrao_quantidade w)
    (sugestao_ia w) (lista_historico w) (lista_precos w) (update_counter w)
    (emitted w).

Definition set_historicoSparkline (h : gmap string (list number)) (w : World)
  : World :=
  mkWorld (host w) (draws w) (readings w) (transactions w) (db w)
    (precosAtuais w) h (contadorAtualizacoes w) (Compras w)
    (PrecosHistoricos w) (campo_simbolo w) (campo_quantidade w)
    (padrao_simbolo w) (padrao_quantidade w)
    (sugestao_ia w) (lista_historico w) (lista_precos w) (update_counter w)
    (emitted w).

Definition set_contadorAtualizacoes (c : number) (w : World) : World :=
  mkWorld (host w) (draws w) (readings w) (transactions w) (db w)
    (precosAtuais w) (historicoSparkline w) c (Compras w)
    (PrecosHistoricos w) (campo_simbolo w) (campo_quantidade w)
    (padrao_simbolo w) (padrao_quantidade w)
    (sugestao_ia w) (lista_historico w) (lista_precos w) (update_counter w)
    (emitted w).

Definition set_Compras (c : list Compra.t) (w : World) : World :=
  mkWorld (host w) (draws w) (readings w) (transactions w) (db w)
    (precosAtuais w) (historicoSparkline w) (contadorAtualizacoes w) c
    (PrecosHistoricos w) (campo_simbolo w) (campo_quantidade w)
    (padrao_simbolo w) (padrao_quantidade w)
    (sugestao_ia w) (lista_historico w) (lista_precos w) (update_counter w)
    (emitted w).

Definition set_PrecosHistoricos (p : list Preco.t) (w : World) : World :=
  mkWorld (host w) (draws w) (readings w) (transactions w) (db w)
    (precosAtuais w) (historicoSparkline w) (contadorAtualizacoes w)
    (Compras w) p (campo_simbolo w) (campo_quantidade w)
    (padrao_simbolo w) (padrao_quantidade w) (sugestao_ia w)
    (lista_historico w) (lista_precos w) (update_counter w) (emitted w).

Definition set_campos (s q : string) (w : World) : World :=
  mkWorld (host w) (draws w) (readings w) (transactions w) (db w)
    (precosAtuais w) (historicoSparkline w) (contadorAtualizacoes w)
    (Compras w) (PrecosHistoricos w) s q (padrao_simbolo w)
    (padrao_quantidade w) (sugestao_ia w) (lista_historico w)
    (lista_precos w) (update_counter w) (emitted w).

Definition set_sugestao_ia (p : option painel_sugestao) (w : World) : World :=
  mkWorld (host w) (draws w) (readings w) (transactions w) (db w)
    (precosAtuais w) (historicoSparkline w) (contadorAtualizacoes w)
    (Compras w) (PrecosHistoricos w) (campo_simbolo w) (campo_quantidade w)
    (padrao_simbolo w) (padrao_quantidade w)
    p (lista_historico w) (lista_precos w) (update_counter w) (emitted w).

Definition set_lista_historico (p : option painel_historico) (w : World)
  : World :=
  mkWorld (host w) (draws w) (readings w) (transactions w) (db w)
    (precosAtuais w) (historicoSparkline w) (contadorAtualizacoes w)
    (Compras w) (PrecosHistoricos w) (campo_simbolo w) (campo_quantidade w)
    (padrao_simbolo w) (padrao_quantidade w)
    (sugestao_ia w) p (lista_precos w) (update_counter w) (emitted w).

Definition set_lista_precos (p : option painel_precos) (w : World) : World :=
  mkWorld (host w) (draws w) (readings w) (transactions w) (db w)
    (precosAtuais w) (historicoSparkline w) (contadorAtualizacoes w)
    (Compras w) (PrecosHistoricos w) (campo_simbolo w) (campo_quantidade w)
    (padrao_simbolo w) (padrao_quantidade w)
    (sugestao_ia w) (lista_historico w) p (update_counter w) (emitted w).

Definition set_update_counter (t : option template) (w : World) : World :=
  mkWorld (host w) (draws w) (readings w) (transactions w) (db w)
    (precosAtuais w) (historicoSparkline w) (contadorAtualizacoes w)
    (Compras w) (PrecosHistoricos w) (campo_simbolo w) (campo_quantidade w)
    (padrao_simbolo w) (padrao_quantidade w)
    (sugestao_ia w) (lista_historico w) (lista_precos w) t (emitted w).

Definition set_emitted (e : list event) (w : World) : World :=
  mkWorld (host w) (draws w) (readings w) (transactions w) (db w)
    (precosAtuais w) (historicoSparkline w) (contadorAtualizacoes w)
    (Compras w) (PrecosHistoricos w) (campo_simbolo w) (campo_quantidade w)
    (padrao_simbolo w) (padrao_quantidade w)
    (sugestao_ia w) (lista_historico w) (lista_precos w) (update_counter w)
    e.

(** ** Computations

    A function of the script is a state transformer that returns or
    throws.  The state survives a throw, as it does in JavaScript.  An
    [await] is sequencing: callbacks of other tasks that the event loop
    may run in between are not interleaved here. *)

Inductive outcome (A : Type) : Type :=
  | Return (a : A)
  | Throw (e : exn).
Arguments Return {A} a.
Arguments Throw {A} e.

Definition M (A : Type) : Type := World -> outcome A * World.

Global Instance M_ret : MRet M := fun A (a : A) w => (Return a, w).

Global Instance M_bind : MBind M := fun A B (k : A -> M B) (m : M A) w =>
  match m w with
  | (Return a, w') => k a w'
  | (Throw e, w') => (Throw e, w')
  end.

Definition throw {A} (e : exn) : M A := fun w => (Throw e, w).

(** [try { body } catch (error) { handler }] *)
Definition try_catch {A} (body : M A) (handler : exn -> M A) : M A :=
  fun w =>
    match body w with
    | (Return a, w') => (Return a, w')
    | (Throw e, w') => handler e w'
    end.

Definition read {A} (f : World -> A) : M A := fun w => (Return (f w), w).
Definition modify (f : World -> World) : M unit := fun w => (Return tt, f w).

(** The final state and the result of running a computation. *)
Definition exec {A} (m : M A) (w : World) : World := snd (m w).
Definition eval {A} (m : M A) (w : World) : outcome A := fst (m w).

Definition emit (e : event) : M unit :=
  modify (fun w => set_emitted (emitted w ++ [e]) w).

(** [await new Promise((resolve) => setTimeout(resolve, ms))] *)
Definition timeout (ms : Z) : M unit := emit (Timeout ms).

(** [Math.random()] *)
Definition Math_random : M number :=
  fun w => (Return (random (host w) (draws w)), set_draws (S (draws w)) w).

(** [new Date()], as the instant it holds. *)
Definition new_Date : M Z :=
  fun w => (Return (clock (host w) (readings w)),
            set_readings (S (readings w)) w).

(** [alert("❌ " + mensagem)] and [alert("✅ " + mensagem)] *)
Definition mostrarErro (mensagem : template) : M unit :=
  emit (Alert (Text "❌ " :: mensagem)).

Definition mostrarSucesso (mensagem : template) : M unit :=
  emit (Alert (Text "✅ " :: mensagem)).

(** [db.transaction([...], mode)]: while [db] is not set (the database is
    not open yet, or failed to open) the member access throws; on a
    connection the browser has closed the call throws as well. *)
Definition db_transaction : M unit :=
  isOpen ← read db;
  if isOpen : bool then
    n ← read transactions;
    modify (set_transactions (S n));;
    usable ← read (fun w => connection (host w) n);
    if usable : bool then mret tt else throw InvalidStateError
  else throw TypeError.

(** ** Price simulator *)

(** ToNumber of what a property read gave: [undefined] and objects are NaN
    in arithmetic. *)
Definition toNumber (v : option value) : number :=
  match v with
  | Some (VNumber x) => x
  | _ => NaN
  end.

(** Initial values of the two module-level objects. *)
Definition precosAtuais_inicial : gmap string number :=
  {[ "BRENT" := lit 855 10; "WTI" := lit 8275 100; "OPEC" := lit 842 10 ]}.

Definition historicoSparkline_inicial : gmap string (list number) :=
  {[ "BRENT" := [lit 855 10]; "WTI" := [lit 8275 100];
     "OPEC" := [lit 842 10] ]}.

Definition simbolos : list string := ["BRENT"; "WTI"; "OPEC"]%string.

Definition nome_de (simbolo : string) : string :=
  if String.eqb simbolo "BRENT" then "Brent Crude Oil"
  else if String.eqb simbolo "WTI" then "West Texas Intermediate"
  else "OPEC Basket".

(** The multiplier [1 + variacao / 100] for a draw [r], with
    [variacao = (r - 0.5) * 1]. *)
Definition fator (r : number) : number :=
  let variacao := mul (sub r (lit 5 10)) (ofZ 1) in
  add (ofZ 1) (div variacao (ofZ 100)).

(** The callback of [simbolos.map] in [simularDadosPrecos]. *)
Definition simularPreco (simbolo : string) : M Preco.t :=
  atuais ← read precosAtuais;
  let precoAnterior := toNumber (get atuais simbolo) in
  r ← Math_random;
  let novoPreco := mul precoAnterior (fator r) in
  let variacaoPercentual :=
    mul (div (sub novoPreco precoAnterior) precoAnterior) (ofZ 100) in
  mret (Preco.mk simbolo (nome_de simbolo) novoPreco variacaoPercentual "USD").

Definition simularDadosPrecos : M (list Preco.t) :=
  timeout 300;;
  mapM simularPreco simbolos.

(** [atualizarSparkline(simbolo, preco)].  The window is created when the
    property read is falsy (only [undefined] is: arrays and inherited
    objects are truthy); [push] on an inherited property, which is no
    array, throws; after the push a window longer than 20 loses its first
    entry.  [desenharSparkline] only paints a canvas and is left out. *)
Definition atualizarSparkline (simbolo : string) (preco : number) : M unit :=
  h ← read historicoSparkline;
  (if negb (bool_decide (is_Some (h !! simbolo))) && negb (inherited simbolo)
   then modify (set_historicoSparkline (<[simbolo := []]> h))
   else mret tt);;
  h ← read historicoSparkline;
  match h !! simbolo with
  | None => throw TypeError
  | Some janela =>
      let janela := janela ++ [preco] in
      let janela :=
        if (20 <? length janela)%nat then tail janela else janela in
      modify (set_historicoSparkline (<[simbolo := janela]> h))
  end.

(** The deferred callback of [criarCardPreco]: the window of a newly
    created card restarts from its first price. *)
Definition reiniciarSparkline (simbolo : string) (preco : number) : M unit :=
  h ← read historicoSparkline;
  modify (set_historicoSparkline (<[simbolo := [preco]]> h)).

(** [forEach]: the callback runs on each element in order; a throw
    ends the loop. *)
Fixpoint forEach {A : Type} (f : A -> M unit) (l : list A) : M unit :=
  match l with
  | [] => mret tt
  | x :: l' => f x;; forEach f l'
  end.

(** The trimmed text of the [price-symbol] element of a card: the symbol,
    a line break with its indentation, and the trend arrow. *)
Definition seta (variacao : number) : string :=
  if leb (ofZ 0) variacao then "↑" else "↓".

Definition texto_simbolo (card : Preco.t) : string :=
  Preco.simbolo card +:+ String "010" "      " +:+ seta (Preco.variacao card).

(** The body of the loop of [atualizarCardPreco] for the card at position
    [i]: a card whose symbol text includes the symbol of the quote shows
    the new price and variation, the sparkline window of the symbol is
    updated and the price is stored as the current one. *)
Definition atualizarCard (preco : Preco.t) (i : nat) : M unit :=
  painel ← read lista_precos;
  match painel with
  | Some (Cards cards) =>
      match cards !! i with
      | Some card =>
          if includes (texto_simbolo card) (Preco.simbolo preco) then
            let card' :=
              Preco.mk (Preco.simbolo card) (Preco.nome card)
                (Preco.preco preco) (Preco.variacao preco)
                (Preco.moeda card) in
            modify (set_lista_precos (Some (Cards (<[i := card']> cards))));;
            atualizarSparkline (Preco.simbolo preco) (Preco.preco preco);;
            atuais ← read precosAtuais;
            modify (set_precosAtuais
                      (<[Preco.simbolo preco := Preco.preco preco]> atuais))
          else mret tt
      | None => mret tt
      end
  | _ => mret tt
  end.

(** [atualizarCardPreco(preco)]: the cards of the document are those of
    the price list. *)
Definition atualizarCardPreco (preco : Preco.t) : M unit :=
  painel ← read lista_precos;
  match painel with
  | Some (Cards cards) => forEach (atualizarCard preco) (seq 0 (length cards))
  | _ => mret tt
  end.

(** [salvarPrecosNoBanco(precos)] *)
Definition salvarPrecosNoBanco (precos : list Preco.t) : M unit :=
  db_transaction;;
  forEach
    (fun preco =>
       ok ← read (fun w => add_succeeds (host w));
       if ok : bool
       then modify (fun w => set_PrecosHistoricos (PrecosHistoricos w ++ [preco]) w)
       else emit (ConsoleError "[v0] ❌ Erro ao salvar preço"))
    precos.

(** [atualizarContador()] *)
Definition atualizarContador : M unit :=
  contador ← read update_counter;
  match contador with
  | None => mret tt
  | Some _ =>
      n ← read contadorAtualizacoes;
      modify (set_contadorAtualizacoes (add n (ofZ 1)));;
      agora ← new_Date;
      modify (set_update_counter
                (Some [ Text "Atualização #"; Show (add n (ofZ 1));
                        Text " às "; Hora agora ]))
  end.

(** What [listaPrecos.children.length === 0 ||
    listaPrecos.querySelector(".loading")] tests. *)
Definition sem_cards (p : painel_precos) : bool :=
  match p with
  | SemFilhos | Carregando | Cards [] => true
  | _ => false
  end.

(** [carregarPrecos()], the body of a tick, up to the end of the
    callbacks it schedules.  When the list still shows the spinner the
    cards are created, otherwise they are updated.  The callback
    [criarCardPreco] defers by 100 ms restarts the window of the new
    card; it runs after the rest of the tick (after the error message,
    when the tick fails), but nothing that runs in between reads or
    writes the windows, so the restart is made where the card is created
    and the state described is the one the page is in once the callbacks
    have run.  [atualizarTicker] only rewrites the text of the ticker and
    is left out.  An element [lista-precos] that does not exist makes the
    [catch] block throw in its turn. *)
Definition carregarPrecos : M unit :=
  try_catch
    (painel ← read lista_precos;
     match painel with
     | None => throw TypeError
     | Some p =>
         (if sem_cards p then modify (set_lista_precos (Some Carregando))
          else mret tt);;
         precos ← simularDadosPrecos;
         painel ← read lista_precos;
         match painel with
         | Some Carregando =>
             modify (set_lista_precos (Some (Cards precos)));;
             forEach
               (fun preco =>
                  reiniciarSparkline (Preco.simbolo preco) (Preco.preco preco))
               precos
         | _ => forEach atualizarCardPreco precos
         end;;
         salvarPrecosNoBanco precos;;
         atualizarContador
     end)
    (fun _ =>
       emit (ConsoleError "[v0] ❌ Erro ao carregar preços:");;
       painel ← read lista_precos;
       match painel with
       | None => throw TypeError
       | Some _ => modify (set_lista_precos (Some ErroPrecos))
       end).

(** ** Purchases *)

(** The object literal of [obterPrecoAtual] for three draws, and the value
    of [precos[simbolo] || 80.0]. *)
Definition precos_sorteados (r1 r2 r3 : number) : gmap string number :=
  {[ "BRENT" := add (lit 855 10) (mul (sub r1 (lit 5 10)) (ofZ 2));
     "WTI" := add (lit 8275 100) (mul (sub r2 (lit 5 10)) (ofZ 2));
     "OPEC" := add (lit 842 10) (mul (sub r3 (lit 5 10)) (ofZ 2)) ]}.

Definition preco_sorteado (r1 r2 r3 : number) (simbolo : string) : value :=
  or_default (get (precos_sorteados r1 r2 r3) simbolo) (ofZ 80).

(** [obterPrecoAtual(simbolo)]: the object literal draws three times, in
    source order, whatever the symbol is. *)
Definition obterPrecoAtual (simbolo : string) : M value :=
  timeout 500;;
  r1 ← Math_random;
  r2 ← Math_random;
  r3 ← Math_random;
  mret (preco_sorteado r1 r2 r3 simbolo).

(** [salvarCompra(compra)].  [store.add] clones the record, which fails
    at once for a record holding a function or another uncloneable
    object; the request itself settles later: on success the record is in
    the store, on error the handler only logs. *)
Definition salvarCompra (compra : Compra.t) : M unit :=
  db_transaction;;
  match Compra.precoCompra compra with
  | VObject => throw DataCloneError
  | VNumber _ =>
      ok ← read (fun w => add_succeeds (host w));
      if ok : bool
      then modify (fun w => set_Compras (Compras w ++ [compra]) w)
      else emit (ConsoleError "[v0] ❌ Erro ao salvar compra")
  end.

Inductive tendencia : Type := alta | baixa.

Definition tendencia_texto (t : tendencia) : string :=
  match t with alta => "alta" | baixa => "baixa" end.

(** The sentence [simularRespostaIA] returns, hole by hole. *)
Definition texto_sugestao (confianca quantidade : number) (simbolo : string)
    (preco valorTotal : number) (t : tendencia) : template :=
  [ Text "Baseado na análise de mercado com "; Show confianca;
    Text "% de confiança, sua compra de "; Show quantidade;
    Text " barris de "; Text simbolo; Text " por $"; Fixed preco 2;
    Text " (total: $"; Fixed valorTotal 2; Text ") está em um momento ";
    Text (match t with alta => "favorável" | baixa => "de atenção" end);
    Text ". A tendência atual indica "; Text (tendencia_texto t);
    Text " nos próximos 7-14 dias. Recomendamos ";
    Text (match t with
          | alta => "manter a posição e considerar aumentar"
          | baixa => "monitorar de perto e considerar diversificar"
          end);
    Text " seu portfólio. ";
    Text (match t with
          | alta => "📈 Perspectiva positiva para ganhos."
          | baixa => "📊 Mantenha-se atento às flutuações."
          end) ].

(** [confianca = Math.floor(Math.random() * 20) + 70] *)
Definition confianca_de (r : number) : number :=
  add (floor (mul r (ofZ 20))) (ofZ 70).

(** [tendencia = Math.random() > 0.5 ? "alta" : "baixa"] *)
Definition tendencia_de (r : number) : tendencia :=
  if gtb r (lit 5 10) then alta else baixa.

(** [simularRespostaIA(simbolo, quantidade, preco)].  A price that is no
    Number has no [toFixed]: building the sentence throws. *)
Definition simularRespostaIA (simbolo : string) (quantidade : number)
    (preco : value) : M template :=
  timeout 2000;;
  let valorTotal := mul quantidade (toNumber (Some preco)) in
  r1 ← Math_random;
  let tend := tendencia_de r1 in
  r2 ← Math_random;
  let confianca := confianca_de r2 in
  match preco with
  | VObject => throw TypeError
  | VNumber p =>
      mret (texto_sugestao confianca quantidade simbolo p valorTotal tend)
  end.

(** [gerarSugestaoIA(simbolo, quantidade, preco)].  Writing [innerHTML]
    of a missing element throws before the inner [try] is entered. *)
Definition set_painel_sugestao (p : painel_sugestao) : M unit :=
  el ← read sugestao_ia;
  match el with
  | None => throw TypeError
  | Some _ => modify (set_sugestao_ia (Some p))
  end.

Definition gerarSugestaoIA (simbolo : string) (quantidade : number)
    (preco : value) : M unit :=
  set_painel_sugestao Analisando;;
  try_catch
    (sugestao ← simularRespostaIA simbolo quantidade preco;
     agora ← new_Date;
     set_painel_sugestao (Sugestao sugestao agora))
    (fun _ =>
       emit (ConsoleError "[v0] ❌ Erro ao gerar sugestão da IA:");;
       set_painel_sugestao ErroSugestao).

(** [Array.prototype.sort(comparefn)].  For a consistent comparator the
    language fixes the result: the stable arrangement in which no element
    compares greater than a later one.  Insertion from the right computes
    it: an element goes before the first one it does not compare greater
    than. *)
Section ArraySort.
Context {A : Type} (comparefn : A -> A -> Z).

Fixpoint sort_insert (x : A) (l : list A) : list A :=
  match l with
  | [] => [x]
  | y :: l' => if comparefn x y <=? 0 then x :: l else y :: sort_insert x l'
  end.

Definition Array_sort (l : list A) : list A := foldr sort_insert [] l.
End ArraySort.

(** [(a, b) => new Date(b.dataCompra) - new Date(a.dataCompra)] *)
Definition mais_recente_primeiro (a b : Compra.t) : Z :=
  Compra.dataCompra b - Compra.dataCompra a.

(** [carregarHistorico()].  The callbacks of the [getAll] request are run
    where the request is issued.  A success callback that finds no
    [lista-historico] element throws into the event loop, where nothing
    of the script catches it; the page is left as it was. *)
Definition carregarHistorico : M unit :=
  listaHistorico ← read lista_historico;
  db_transaction;;
  ok ← read (fun w => getAll_succeeds (host w));
  if ok : bool then
    compras ← read Compras;
    match listaHistorico with
    | None => mret tt
    | Some _ =>
        if (length compras =? 0)%nat
        then modify (set_lista_historico (Some Nenhuma))
        else modify (set_lista_historico
                       (Some (Itens (Array_sort mais_recente_primeiro compras))))
    end
  else emit (ConsoleError "[v0] ❌ Erro ao carregar histórico").

(** The texts of the three alerts of the submit handler. *)
Definition mensagem_campos : template :=
  [Text "Por favor, preencha todos os campos corretamente"].

Definition mensagem_erro_compra : template :=
  [Text "Erro ao processar a compra. Tente novamente."].

Definition mensagem_sucesso (quantidade : number) (simbolo : string)
  : template :=
  [ Text "✅ Compra de "; Show quantidade; Text " barris de ";
    Text simbolo; Text " realizada com sucesso!" ].

(** The validation of the submit handler: [!simbolo || quantidade <= 0]. *)
Definition invalido (simbolo : string) (quantidade : number) : bool :=
  String.eqb simbolo "" || leb quantidade (ofZ 0).

(** The body of the handler after validation, inside its [try].
    [event.target.reset()] gives every field of the form its default
    value back. *)
Definition processar_compra (simbolo : string) (quantidade : number) : M unit :=
  precoAtual ← obterPrecoAtual simbolo;
  let valorTotal := mul (toNumber (Some precoAtual)) quantidade in
  agora ← new_Date;
  let compra := Compra.mk simbolo quantidade precoAtual valorTotal agora in
  salvarCompra compra;;
  gerarSugestaoIA simbolo quantidade precoAtual;;
  modify (fun w => set_campos (padrao_simbolo w) (padrao_quantidade w) w);;
  carregarHistorico;;
  mostrarSucesso (mensagem_sucesso quantidade simbolo).

(** The [submit] listener of the form [form-compra]. *)
Definition form_compra_submit : M unit :=
  s ← read campo_simbolo;
  q ← read campo_quantidade;
  let simbolo := toUpperCase (trim s) in
  let quantidade := parseInt q in
  if invalido simbolo quantidade
  then mostrarErro mensagem_campos
  else
    try_catch (processar_compra simbolo quantidade)
      (fun _ =>
         emit (ConsoleError "[v0] ❌ Erro ao processar compra:");;
         mostrarErro mensagem_erro_compra).

(** The page right after the script has loaded and the database opened,
    for given form input and host, with a form whose fields have no
    default value. *)
Definition pagina (h : Host) (simbolo quantidade : string) : World :=
  mkWorld h 0 0 0 true precosAtuais_inicial historicoSparkline_inicial
    (ofZ 0) [] [] simbolo quantidade "" "" (Some SemSugestao) (Some Nenhuma)
    (Some SemFilhos) (Some []) [].

(** ** Notions used to state the properties *)

(** The price [obterPrecoAtual] returns in a world: it reads the next
    three draws of the host and nothing else. *)
Definition preco_obtido (w : World) (simbolo : string) : value :=
  preco_sorteado (random (host w) (draws w)) (random (host w) (S (draws w)))
    (random (host w) (S (S (draws w)))) simbolo.

(** The record the handler builds in a world for validated input. *)
Definition compra_de (w : World) (simbolo : string) (quantidade : number)
  : Compra.t :=
  Compra.mk simbolo quantidade (preco_obtido w simbolo)
    (mul (toNumber (Some (preco_obtido w simbolo))) quantidade)
    (clock (host w) (readings w)).

(** The quote a tick produces for a symbol with the [i]-th draw from
    now, and the three quotes of a tick. *)
Definition cotacao (w : World) (simbolo : string) (i : nat) : Preco.t :=
  let anterior := toNumber (get (precosAtuais w) simbolo) in
  let novo := mul anterior (fator (random (host w) (draws w + i))) in
  Preco.mk simbolo (nome_de simbolo) novo
    (mul (div (sub novo anterior) anterior) (ofZ 100)) "USD".

Definition cotacoes (w : World) : list Preco.t :=
  [cotacao w "BRENT" 0; cotacao w "WTI" 1; cotacao w "OPEC" 2].

(** Whether the next [db.transaction] goes through. *)
Definition db_utilizavel (w : World) : bool :=
  db w && connection (host w) (transactions w).

(** The symbol and the quantity the handler reads from the form. *)
Definition simbolo_lido (w : World) : string :=
  toUpperCase (trim (campo_simbolo w)).

Definition quantidade_lida (w : World) : number :=
  parseInt (campo_quantidade w).

(** The purchases the history panel shows, in document order. *)
Definition itens_exibidos (p : painel_historico) : list Compra.t :=
  match p with
  | Nenhuma => []
  | Itens l => l
  end.

(** The order of the history: no purchase is older than a later one. *)
Definition nao_mais_antiga (a b : Compra.t) : Prop :=
  Compra.dataCompra b <= Compra.dataCompra a.

(** The two ways the script changes a sparkline window: the update of
    [atualizarCardPreco] and the restart of [criarCardPreco]. *)
Inductive sparkline_op : Type :=
  | Atualizar (simbolo : string) (preco : number)
  | Reiniciar (simbolo : string) (preco : number).

Definition aplicar (w : World) (o : sparkline_op) : World :=
  match o with
  | Atualizar s p => exec (atualizarSparkline s p) w
  | Reiniciar s p => exec (reiniciarSparkline s p) w
  end.

(** The window after the push and the eviction of [atualizarSparkline]. *)
Definition empurrar (janela : list number) (preco : number) : list number :=
  if (20 <? length (janela ++ [preco]))%nat
  then tail (janela ++ [preco]) else janela ++ [preco].

(** The window of a symbol, empty when it has none. *)
Definition janela (w : World) (simbolo : string) : list number :=
  default [] (historicoSparkline w !! simbolo).

Definition is_alert (e : event) : bool :=
  match e with Alert _ => true | _ => false end.

Fixpoint has_lower (s : string) : bool :=
  match s with
  | String c s' => is_lower c || has_lower s'
  | EmptyString => false
  end.

(** What can happen to the page: a tick, a (re)load of the history, the
    user filling in the form, the user submitting it. *)
Inductive passo (w : World) : World -> Prop :=
  | passo_precos : passo w (exec carregarPrecos w)
  | passo_historico : passo w (exec carregarHistorico w)
  | passo_preencher (simbolo quantidade : string) :
      passo w (set_campos simbolo quantidade w)
  | passo_submeter : passo w (exec form_compra_submit w).

(** The script has just been loaded: the two module-level objects hold
    their initial values.  Nothing is asked of the document or of the
    database. *)
Definition carregada (w : World) : Prop :=
  precosAtuais w = precosAtuais_inicial /\
  historicoSparkline w = historicoSparkline_inicial.

(** The states the page can be in. *)
Definition alcancavel (w : World) : Prop :=
  exists w0 : World, carregada w0 /\ rtc passo w0 w.

(** The browser's [Math.random] only gives Numbers in [0, 1). *)
Definition sorteios_validos (h : Host) : Prop :=
  forall n : nat, unit_interval (random h n).

(** No window holds more than 20 prices. *)
Definition limitadas (hs : gmap string (list number)) : Prop :=
  forall simbolo : string, (length (default [] (hs !! simbolo)) <= 20)%nat.

(** The stored price of every tracked symbol is a Number that is not
    negative. *)
Definition nao_negativos (atuais : gmap string number) : Prop :=
  Forall (fun simbolo => nonneg (toNumber (get atuais simbolo))) simbolos.

(** What every step of the page keeps, for a page run by the host [h]:
    the windows are bounded and, when the draws of [h] are in [0, 1), the
    stored prices are not negative. *)
Definition estavel (h : Host) (w : World) : Prop :=
  host w = h /\ limitadas (historicoSparkline w) /\
  (sorteios_validos h -> nao_negativos (precosAtuais w)).

(** A computation keeps [I] and returns values that satisfy [Q]. *)
Definition garante {A : Type} (I : World -> Prop) (m : M A) (Q : A -> Prop)
  : Prop :=
  forall w : World,
    I w ->
    I (snd (m w)) /\ (forall a : A, fst (m w) = Return a -> Q a).

(** A host whose connection is usable for the first transaction only. *)
Definition host_ligacao_perdida : Host :=
  mkHost (fun _ => lit 25 100) (fun n => 1000 + Z.of_nat n)
    (fun n => Nat.eqb n 0) true true.

(** A host for examples: every draw is [0.25], the clock ticks one
    millisecond per reading from [1000], the connection stays open and
    requests succeed. *)
Definition host_exemplo : Host :=
  mkHost (fun _ => lit 25 100) (fun n => 1000 + Z.of_nat n) (fun _ => true)
    true true.


(** ** More notions *)

(** The price list exists and shows no card: the spinner, the error
    message or nothing at all.  [atualizarCardPreco] finds no card to
    update on such a page. *)
Definition sem_cartoes (w : World) : bool :=
  match lista_precos w with
  | Some (Cards (_ :: _)) | None => false
  | Some _ => true
  end.

(** The page when the database could not be opened: [request.onerror] has
    run and [db] was never assigned. *)
Definition pagina_sem_banco (h : Host) : World :=
  mkWorld h 0 0 0 false precosAtuais_inicial historicoSparkline_inicial
    (ofZ 0) [] [] "" "" "" "" (Some SemSugestao) (Some Nenhuma)
    (Some SemFilhos) (Some []) [].

(** The card of a quote after [atualizarCardPreco] has written a newer
    quote of the same symbol on it: the price and the variation are the
    new ones, the rest of the markup stays. *)
Definition card_atualizado (card preco : Preco.t) : Preco.t :=
  Preco.mk (Preco.simbolo card) (Preco.nome card) (Preco.preco preco)
    (Preco.variacao preco) (Preco.moeda card).

(** What [atualizarCardPreco] makes of the page for a quote of a tracked
    symbol, when the list shows the three cards. *)
Definition apos_cotacao (preco : Preco.t) (w : World) : World :=
  match lista_precos w with
  | Some (Cards cards) =>
      set_precosAtuais
        (<[Preco.simbolo preco := Preco.preco preco]> (precosAtuais w))
        (set_historicoSparkline
           (<[Preco.simbolo preco :=
                empurrar (janela w (Preco.simbolo preco)) (Preco.preco preco)]>
              (historicoSparkline w))
           (set_lista_precos
              (Some (Cards
                       (map (fun card =>
                               if bool_decide
                                    (Preco.simbolo card = Preco.simbolo preco)
                               then card_atualizado card preco else card)
                          cards))) w))
  | _ => w
  end.

(** Between two states nothing was taken back: the host and the database
    handle are the same, and the two stores and the output only grew at
    their end. *)
Definition so_acrescenta (w w' : World) : Prop :=
  host w' = host w /\ db w' = db w /\
  Compras w `prefix_of` Compras w' /\
  PrecosHistoricos w `prefix_of` PrecosHistoricos w' /\
  emitted w `prefix_of` emitted w'.

(** ** The 3D chart *)

(** [Math.abs] and the operator [>=] (false when an operand is NaN). *)
Definition Math_abs (x : number) : number := SFabs x.
Definition geb (x y : number) : bool := leb y x.

(** A label of the chart: the date that lies [recuo] days before the
    instant read from the clock, as [toLocaleDateString] prints it.  The
    calendar arithmetic of [setDate] and the printing are the host's
    business and are kept symbolic. *)
Record rotulo : Type := mkRotulo {
  rotulo_instante : Z;
  rotulo_recuo : number }.

(** The object [gerarDadosGrafico3D] returns. *)
Module Dados.
Record t : Type := mk {
  labels : list rotulo;
  brent : list number;
  wti : list number;
  brentVolume : list number;
  wtiVolume : list number;
  brentColors : list number;
  wtiColors : list number }.

Definition vazio : t := mk [] [] [] [] [] [] [].
End Dados.

(** The variables the loop of [gerarDadosGrafico3D] carries from one day
    to the next: the two previous prices and the seven arrays. *)
Record laco_grafico : Type := mkLaco {
  precoBrentAnterior : number;
  precoWTIAnterior : number;
  dados_laco : Dados.t }.

(** [array.push(x)].  An array holds at most [2^32 - 1] elements: the
    push that would make it longer throws a RangeError. *)
Definition push {A : Type} (l : list A) (x : A) : M (list A) :=
  if Z.of_nat (length l) <? 2 ^ 32 - 1 then mret (l ++ [x])
  else throw RangeError.

(** The body of the loop for the counter [i]: one reading of the clock
    and four draws, in source order. *)
Definition dia_grafico (i : number) (st : laco_grafico) : M laco_grafico :=
  data ← new_Date;
  let d := dados_laco st in
  labels ← push (Dados.labels d) (mkRotulo data i);
  r1 ← Math_random;
  let variacaoBrent := mul (sub r1 (lit 5 10)) (ofZ 3) in
  r2 ← Math_random;
  let variacaoWTI := mul (sub r2 (lit 5 10)) (ofZ 3) in
  let precoBrent := add (precoBrentAnterior st) variacaoBrent in
  let precoWTI := add (precoWTIAnterior st) variacaoWTI in
  brent ← push (Dados.brent d) precoBrent;
  wti ← push (Dados.wti d) precoWTI;
  r3 ← Math_random;
  brentVolume ←
    push (Dados.brentVolume d)
      (add (mul (Math_abs variacaoBrent) (ofZ 10)) (mul r3 (ofZ 5)));
  r4 ← Math_random;
  wtiVolume ←
    push (Dados.wtiVolume d)
      (add (mul (Math_abs variacaoWTI) (ofZ 10)) (mul r4 (ofZ 5)));
  brentColors ←
    push (Dados.brentColors d)
      (if geb variacaoBrent (ofZ 0) then div variacaoBrent (ofZ 3)
       else div variacaoBrent (ofZ 3));
  wtiColors ←
    push (Dados.wtiColors d)
      (if geb variacaoWTI (ofZ 0) then div variacaoWTI (ofZ 3)
       else div variacaoWTI (ofZ 3));
  mret (mkLaco precoBrent precoWTI
          (Dados.mk labels brent wti brentVolume wtiVolume brentColors
             wtiColors)).

(** [for (let i = ...; i >= 0; i--)]: the counter is a Number and the
    loop ends when the test fails.  The recursion is on a bound on the
    number of iterations; [None] is the answer when the bound is reached
    before the test fails. *)
Fixpoint laco_dias (fuel : nat) (i : number) (st : laco_grafico)
  : M (option laco_grafico) :=
  if geb i (ofZ 0) then
    match fuel with
    | O => mret None
    | S fuel' =>
        st' ← dia_grafico i st;
        laco_dias fuel' (sub i (ofZ 1)) st'
    end
  else mret (Some st).

(** [gerarDadosGrafico3D(dias = 7)]: an argument that is [undefined]
    takes the default. *)
Definition gerarDadosGrafico3D (fuel : nat) (dias : option number)
  : M (option Dados.t) :=
  let dias := default (ofZ 7) dias in
  st ← laco_dias fuel (sub dias (ofZ 1))
         (mkLaco (ofZ 85) (ofZ 82) Dados.vazio);
  mret (dados_laco <$> st).

(** What the chart functions work on besides the page: whether the
    Plotly library is there ([window.Plotly]), the element [chart] (absent,
    or present with the data Plotly has drawn in it, if any), and whether
    the variable [chartInstance] holds the element. *)
Record Grafico : Type := mkGrafico {
  Plotly : bool;
  chart : option (option Dados.t);
  chartInstance : bool }.

(** [inicializarGrafico()].  Without the library the call of
    [Plotly.newPlot] throws, after the data have been generated and
    before [chartInstance] is assigned. *)
Definition inicializarGrafico (fuel : nat) (g : Grafico)
  : M (option Grafico) :=
  match chart g with
  | None =>
      emit (ConsoleError "[v0] ❌ Container do gráfico não encontrado");;
      mret (Some g)
  | Some _ =>
      dados ← gerarDadosGrafico3D fuel (Some (ofZ 7));
      match dados with
      | None => mret None
      | Some d =>
          if Plotly g
          then mret (Some (mkGrafico true (Some (Some d)) true))
          else throw TypeError
      end
  end.

(** [atualizarGrafico(dias)] *)
Definition atualizarGrafico (fuel : nat) (dias : number) (g : Grafico)
  : M (option Grafico) :=
  if negb (chartInstance g) then
    emit (ConsoleError "[v0] ❌ Instância do gráfico não encontrada");;
    mret (Some g)
  else
    dados ← gerarDadosGrafico3D fuel (Some dias);
    match dados with
    | None => mret None
    | Some d =>
        if Plotly g
        then mret (Some (mkGrafico true (Some (Some d)) true))
        else throw TypeError
    end.

(** The [change] listener of the select [periodo-grafico]. *)
Definition periodo_grafico_change (fuel : nat) (valor : string) (g : Grafico)
  : M (option Grafico) :=
  atualizarGrafico fuel (parseInt valor) g.

(** ** Values of Numbers, with their sign *)

(** A Number that has a value: a zero or a finite Number of the format. *)
Definition finito (y : number) : Prop := valid y /\ finite_any y.

(** [y] is what an operation gives for the exact result [v]: a Number of
    that very value, or [v] rounded to nearest. *)
Definition arredonda (v : Q) (y : number) : Prop :=
  (finito y /\ (F2Q y == v)%Q) \/
  ((0 < v)%Q /\ rounds_to false v y) \/
  ((v < 0)%Q /\ rounds_to true (- v) y).

(** Whether a Number is a zero or a finite Number of the format, as a
    test that computes. *)
Definition finitob (y : number) : bool :=
  match y with
  | S754_zero _ => true
  | S754_finite _ _ _ => valid_binary prec emax y
  | _ => false
  end.

(** The page after one day of the loop of [gerarDadosGrafico3D]: four
    draws and one reading of the clock were consumed. *)
Definition avanca (w : World) : World :=
  set_draws (S (S (S (S (draws w))))) (set_readings (S (readings w)) w).

(** The deviation [(r - 0.5) * 3] of a day for the draw [r]. *)
Definition variacao_dia (r : number) : number :=
  mul (sub r (lit 5 10)) (ofZ 3).

(** The variables of the loop after the day with counter [i], started in
    the page [w]. *)
Definition dia_de (w : World) (i : number) (st : laco_grafico)
  : laco_grafico :=
  let r := fun k => random (host w) (k + draws w)%nat in
  let d := dados_laco st in
  let precoBrent := add (precoBrentAnterior st) (variacao_dia (r 0%nat)) in
  let precoWTI := add (precoWTIAnterior st) (variacao_dia (r 1%nat)) in
  mkLaco precoBrent precoWTI
    (Dados.mk
       (Dados.labels d ++ [mkRotulo (clock (host w) (readings w)) i])
       (Dados.brent d ++ [precoBrent])
       (Dados.wti d ++ [precoWTI])
       (Dados.brentVolume d ++
        [add (mul (Math_abs (variacao_dia (r 0%nat))) (ofZ 10))
           (mul (r 2%nat) (ofZ 5))])
       (Dados.wtiVolume d ++
        [add (mul (Math_abs (variacao_dia (r 1%nat))) (ofZ 10))
           (mul (r 3%nat) (ofZ 5))])
       (Dados.brentColors d ++
        [if geb (variacao_dia (r 0%nat)) (ofZ 0)
         then div (variacao_dia (r 0%nat)) (ofZ 3)
         else div (variacao_dia (r 0%nat)) (ofZ 3)])
       (Dados.wtiColors d ++
        [if geb (variacao_dia (r 1%nat)) (ofZ 0)
         then div (variacao_dia (r 1%nat)) (ofZ 3)
         else div (variacao_dia (r 1%nat)) (ofZ 3)])).

(** The loop run for the counters [k - 1], ..., [0]. *)
Fixpoint dias_de (k : nat) (w : World) (st : laco_grafico)
  : laco_grafico * World :=
  match k with
  | O => (st, w)
  | S k' => dias_de k' (avanca w) (dia_de w (ofZ (Z.of_nat k')) st)
  end.

(** The state of the loop before its first day. *)
Definition laco_inicial : laco_grafico :=
  mkLaco (ofZ 85) (ofZ 82) Dados.vazio.

(** All seven arrays of the chart data have the length [n]. *)
Definition comprimento_dados (d : Dados.t) (n : nat) : Prop :=
  length (Dados.labels d) = n /\ length (Dados.brent d) = n /\
  length (Dados.wti d) = n /\ length (Dados.brentVolume d) = n /\
  length (Dados.wtiVolume d) = n /\ length (Dados.brentColors d) = n /\
  length (Dados.wtiColors d) = n.

(** A Number with a value between two rationals. *)
Definition entre (lo hi : Q) (x : number) : Prop :=
  finito x /\ (lo <= F2Q x)%Q /\ (F2Q x <= hi)%Q.

(** The bounds of the chart data after [c] days: prices within [1.5 c] of
    their start, volumes between 0 and 20, colours between -0.5 and
    0.5. *)
Definition dados_limitados (c : Z) (st : laco_grafico) : Prop :=
  let folga := (inject_Z c * (3 # 2))%Q in
  let d := dados_laco st in
  entre (85 - folga) (85 + folga) (precoBrentAnterior st) /\
  entre (82 - folga) (82 + folga) (precoWTIAnterior st) /\
  Forall (entre (85 - folga) (85 + folga)) (Dados.brent d) /\
  Forall (entre (82 - folga) (82 + folga)) (Dados.wti d) /\
  Forall (entre 0 20) (Dados.brentVolume d) /\
  Forall (entre 0 20) (Dados.wtiVolume d) /\
  Forall (entre (- (1 # 2)) (1 # 2)) (Dados.brentColors d) /\
  Forall (entre (- (1 # 2)) (1 # 2)) (Dados.wtiColors d).

(** Between two states the host, the database handle, the numbers of
    transactions and of clock readings and the update counter are the
    same. *)
Definition mesmo_contador (w w' : World) : Prop :=
  host w' = host w /\ db w' = db w /\ transactions w' = transactions w /\
  readings w' = readings w /\
  contadorAtualizacoes w' = contadorAtualizacoes w /\
  update_counter w' = update_counter w.

(** A computation that always returns and keeps the counter. *)
Definition conta_igual (m : M unit) : Prop :=
  forall w : World,
    exists w' : World, m w = (Return tt, w') /\ mesmo_contador w w'.

(** ** The sparkline canvas *)

(** [Math.min] and [Math.max] of the elements of an array: NaN when an
    element is NaN, the negative zero below the positive one, and the
    infinities for no element at all. *)
Definition min2 (x y : number) : number :=
  match x, y with
  | S754_nan, _ | _, S754_nan => NaN
  | S754_zero sx, S754_zero sy => S754_zero (sx || sy)
  | _, _ => if ltb y x then y else x
  end.

Definition max2 (x y : number) : number :=
  match x, y with
  | S754_nan, _ | _, S754_nan => NaN
  | S754_zero sx, S754_zero sy => S754_zero (sx && sy)
  | _, _ => if ltb x y then y else x
  end.

Definition Math_min (l : list number) : number :=
  foldl min2 (S754_infinity false) l.

Definition Math_max (l : list number) : number :=
  foldl max2 (S754_infinity true) l.

(** The canvas of a card: its two size attributes, which are unsigned
    integers. *)
Record canvas : Type := mkCanvas {
  canvas_width : Z;
  canvas_height : Z }.

(** The calls [desenharSparkline] makes on the 2D context of the canvas,
    with the colours it assigns. *)
Inductive comando : Type :=
  | clearRect (x y w h : number)
  | beginPath
  | strokeStyle (cor : string)
  | lineWidth (n : number)
  | moveTo (x y : number)
  | lineTo (x y : number)
  | stroke
  | closePath
  | fillStyle (cor : string)
  | fill.

(** An element of an array; [undefined], which is NaN in a comparison,
    when there is none. *)
Definition elemento (dados : list number) (i : nat) : number :=
  default NaN (dados !! i).

(** The point of the polyline for the price [valor] at position
    [index]. *)
Definition ponto (width height min range : number) (n : nat) (index : nat)
    (valor : number) : comando :=
  let x :=
    mul (div (ofZ (Z.of_nat index)) (sub (ofZ (Z.of_nat n)) (ofZ 1)))
      width in
  let y := sub height (mul (div (sub valor min) range) height) in
  if (index =? 0)%nat then moveTo x y else lineTo x y.

(** [desenharSparkline(simbolo)], given the canvas [querySelector] finds
    for the symbol, if any, and the value of [historicoSparkline[simbolo]]
    for a symbol that is not the name of an inherited property: the
    window of the symbol, if it has one. *)
Definition desenharSparkline (cv : option canvas)
    (dados : option (list number)) : list comando :=
  match cv with
  | None => []
  | Some cv =>
      let width := ofZ (canvas_width cv) in
      let height := ofZ (canvas_height cv) in
      match dados with
      | None => []
      | Some dados =>
          if (length dados <? 2)%nat then []
          else
            let min := Math_min dados in
            let max := Math_max dados in
            let range :=
              if truthy (sub max min) then sub max min else ofZ 1 in
            let sobe :=
              gtb (elemento dados (length dados - 1)) (elemento dados 0) in
            [ clearRect (ofZ 0) (ofZ 0) width height; beginPath;
              strokeStyle (if sobe then "#28a745" else "#dc3545");
              lineWidth (ofZ 2) ] ++
            imap (ponto width height min range (length dados)) dados ++
            [ stroke; lineTo width height; lineTo (ofZ 0) height; closePath;
              fillStyle (if sobe then "rgba(40, 167, 69, 0.1)"
                         else "rgba(220, 53, 69, 0.1)");
              fill ]
      end
  end.

(** A price that can be drawn: a Number with a value that is not
    negative. *)
Definition preco_finito (v : number) : Prop := finito v /\ (0 <= F2Q v)%Q.

(** A point of the polyline that lies on the canvas. *)
Definition no_canvas (cv : canvas) (c : comando) : Prop :=
  match c with
  | moveTo x y | lineTo x y =>
      entre 0 (inject_Z (canvas_width cv)) x /\
      entre 0 (inject_Z (canvas_height cv)) y
  | _ => True
  end.

(** The ordinate of a point. *)
Definition ordenada (c : comando) : option number :=
  match c with
  | moveTo _ y | lineTo _ y => Some y
  | _ => None
  end.

(** ** The market ticker *)

(** An element of class [ticker-price], with its [data-symbol] attribute
    if it has one, and an element of class [ticker-change]. *)
Record ticker_price : Type := mkTickerPrice {
  data_symbol : option string;
  price_text : template }.

Record ticker_change : Type := mkTickerChange {
  change_class : string;
  change_text : template }.

(** The parent of some [ticker-price] elements: those elements, in
    document order, and the first [ticker-change] element inside the
    parent, which is the one [querySelector] finds.  The parents of the
    [ticker-price] elements of the page are taken to be disjoint. *)
Record ticker_grupo : Type := mkTickerGrupo {
  grupo_precos : list ticker_price;
  grupo_change : option ticker_change }.

(** [precos.find((p) => p.simbolo === simbolo)], where [simbolo] is what
    [getAttribute] gave: [null] is equal to no symbol. *)
Definition encontrar (precos : list Preco.t) (simbolo : option string)
  : option Preco.t :=
  match simbolo with
  | None => None
  | Some s => find (fun p => String.eqb (Preco.simbolo p) s) precos
  end.

(** The text of the price and the change element of a quote. *)
Definition texto_ticker (preco : Preco.t) : template :=
  [Text "$"; Fixed (Preco.preco preco) 2].

Definition change_ticker (preco : Preco.t) : ticker_change :=
  mkTickerChange
    ("ticker-change " +:+
     (if geb (Preco.variacao preco) (ofZ 0) then "positive" else "negative"))
    [ Text (if gtb (Preco.variacao preco) (ofZ 0) then "+" else "");
      Fixed (Preco.variacao preco) 1; Text "%" ].

(** The body of the loop of [atualizarTicker] for one element, inside its
    parent. *)
Definition atualizar_preco_ticker (precos : list Preco.t)
    (el : ticker_price) : ticker_price :=
  match encontrar precos (data_symbol el) with
  | Some preco => mkTickerPrice (data_symbol el) (texto_ticker preco)
  | None => el
  end.

Definition atualizar_change_ticker (precos : list Preco.t)
    (change : option ticker_change) (el : ticker_price)
  : option ticker_change :=
  match encontrar precos (data_symbol el), change with
  | Some preco, Some _ => Some (change_ticker preco)
  | _, _ => change
  end.

(** [atualizarTicker(precos)], parent by parent. *)
Definition atualizar_grupo (precos : list Preco.t) (g : ticker_grupo)
  : ticker_grupo :=
  mkTickerGrupo (map (atualizar_preco_ticker precos) (grupo_precos g))
    (foldl (atualizar_change_ticker precos) (grupo_change g)
       (grupo_precos g)).

Definition atualizarTicker (precos : list Preco.t)
    (ticker : list ticker_grupo) : list ticker_grupo :=
  map (atualizar_grupo precos) ticker.

(** ** The items of the history *)

(** The values [criarItemHistorico] interpolates in the markup of an
    item: the symbol, the quantity, the unit price and the total (both
    printed by [toFixed(2)]) and the instant of the purchase (printed by
    [toLocaleString]). *)
Record item_historico : Type := mkItem {
  item_simbolo : string;
  item_quantidade : number;
  item_preco : number;
  item_total : number;
  item_data : Z }.

(** [criarItemHistorico(compra)]: a price that is no Number has no
    [toFixed], and the call throws. *)
Definition criarItemHistorico (compra : Compra.t) : M item_historico :=
  match Compra.precoCompra compra with
  | VNumber p =>
      mret (mkItem (Compra.simbolo compra) (Compra.quantidade compra) p
              (Compra.valorTotal compra) (Compra.dataCompra compra))
  | VObject => throw TypeError
  end.

(** A purchase whose unit price is a Number. *)
Definition preco_numerico (compra : Compra.t) : Prop :=
  exists p : number, Compra.precoCompra compra = VNumber p.

(** Every purchase of the store has a Number as its price. *)
Definition compras_numericas (w : World) : Prop :=
  Forall preco_numerico (Compras w).


(** * Rounding

    The operations of [SpecFloat] round the exact result to a nearest
    value of the format.  The lemmas below read that off the shifting and
    rounding functions, and derive the order facts the properties of the
    simulator need: a rounded result does not cross a neighbouring value
    of the format, and rounding is monotone. *)

Lemma pow2_pos (e : Z) : (0 < pow2 e)%Q.
Proof. apply Qpower_0_lt. reflexivity. Qed.

Lemma pow2_add (a b : Z) : (pow2 (a + b) == pow2 a * pow2 b)%Q.
Proof. apply Qpower_plus. discriminate. Qed.

Lemma pow2_Z (n : Z) : 0 <= n -> (pow2 n == inject_Z (2 ^ n))%Q.
Proof. intros Hn. unfold pow2. now rewrite Zpower_Qpower. Qed.

Lemma pow2_le (a b : Z) : a <= b -> (pow2 a <= pow2 b)%Q.
Proof. intros H. apply Qpower_le_compat_l; [exact H|]. discriminate. Qed.

Lemma pow2_lt (a b : Z) : a < b -> (pow2 a < pow2 b)%Q.
Proof. intros H. apply Qpower_lt_compat_l; [exact H|]. reflexivity. Qed.

Lemma digits2_pos_spec (m : positive) :
  2 ^ (Zpos (digits2_pos m) - 1) <= Zpos m < 2 ^ Zpos (digits2_pos m).
Proof.
  induction m as [m IH|m IH|]; simpl digits2_pos.
  - rewrite Pos2Z.inj_succ.
    replace (Z.succ (Zpos (digits2_pos m)) - 1) with (Zpos (digits2_pos m) - 1 + 1)  by lia.
    rewrite Z.pow_add_r by lia. rewrite Z.pow_succ_r by lia. lia.
  - rewrite Pos2Z.inj_succ.
    replace (Z.succ (Zpos (digits2_pos m)) - 1) with (Zpos (digits2_pos m) - 1 + 1)  by lia.
    rewrite Z.pow_add_r by lia. rewrite Z.pow_succ_r by lia. lia.
  - simpl. lia.
Qed.

Lemma inject_Z_xO (p : positive) : (inject_Z (Zpos p~0) == 2 * inject_Z (Zpos p))%Q.
Proof. unfold Qeq. simpl. lia. Qed.

Lemma inject_Z_xI (p : positive) : (inject_Z (Zpos p~1) == 2 * inject_Z (Zpos p) + 1)%Q.
Proof. unfold Qeq. simpl. lia. Qed.

Lemma shr_1_spec (mrs : shr_record) (x : Q) :
  0 <= shr_m mrs ->
  inbetween (shr_m mrs) x (loc_of_shr_record mrs) ->
  0 <= shr_m (shr_1 mrs) /\
  inbetween (shr_m (shr_1 mrs)) (x / 2) (loc_of_shr_record (shr_1 mrs)).
Proof.
  destruct mrs as [m r s]. simpl shr_m at 1 2.
  intros Hm H.
  assert (Hx : (x / 2 == x * (1 # 2))%Q) by field.
  destruct m as [|[p|p|]|p]; try lia;
    destruct r, s; simpl in *; (split; [lia|]);
    rewrite ?inject_Z_xO, ?inject_Z_xI in H;
    change (inject_Z 0) with 0%Q in *; change (inject_Z 1) with 1%Q in *;
    rewrite Hx; lra.
Qed.

Lemma inbetween_ext (m : Z) (x y : Q) (l : location) :
  (x == y)%Q -> inbetween m x l -> inbetween m y l.
Proof.
  intros Hxy. destruct l as [|[]]; simpl; rewrite Hxy; auto.
Qed.

Lemma iter_pos_nat {A : Type} (f : A -> A) (p : positive) (x : A) :
  SpecFloat.iter_pos f p x = Nat.iter (Pos.to_nat p) f x.
Proof.
  revert x. induction p as [p IH|p IH|]; intros x; simpl SpecFloat.iter_pos.
  - rewrite !IH. rewrite Pos2Nat.inj_xI.
    replace (S (2 * Pos.to_nat p))%nat with (Pos.to_nat p + (Pos.to_nat p + 1))%nat by lia.
    rewrite !Nat.iter_add. reflexivity.
  - rewrite !IH. rewrite Pos2Nat.inj_xO.
    replace (2 * Pos.to_nat p)%nat with (Pos.to_nat p + Pos.to_nat p)%nat by lia.
    rewrite Nat.iter_add. reflexivity.
  - reflexivity.
Qed.

Lemma pow2_succ (n : Z) : (pow2 (n + 1) == 2 * pow2 n)%Q.
Proof. rewrite pow2_add. unfold pow2 at 2. simpl. ring. Qed.

Lemma shr_iter_spec (n : nat) (mrs : shr_record) (x : Q) :
  0 <= shr_m mrs ->
  inbetween (shr_m mrs) x (loc_of_shr_record mrs) ->
  0 <= shr_m (Nat.iter n shr_1 mrs) /\
  inbetween (shr_m (Nat.iter n shr_1 mrs)) (x / pow2 (Z.of_nat n))
    (loc_of_shr_record (Nat.iter n shr_1 mrs)).
Proof.
  intros Hm H. induction n as [|n [IH1 IH2]].
  - simpl. split; [exact Hm|].
    eapply inbetween_ext; [|exact H]. unfold pow2. simpl. field.
  - simpl Nat.iter.
    destruct (shr_1_spec _ _ IH1 IH2) as [H1 H2]. split; [exact H1|].
    eapply inbetween_ext; [|exact H2].
    rewrite Nat2Z.inj_succ. unfold Z.succ. rewrite pow2_succ.
    field. pose proof (pow2_pos (Z.of_nat n)). lra.
Qed.

Lemma loc_of_shr_record_of_loc (m : Z) (l : location) :
  loc_of_shr_record (shr_record_of_loc m l) = l /\
  shr_m (shr_record_of_loc m l) = m.
Proof. destruct l as [|[]]; split; reflexivity. Qed.

(** [shr] by [n] positions: the exponent grows by [n] when [n] is
    positive, nothing happens otherwise. *)
Lemma shr_spec (m e n : Z) (l : location) (x : Q) :
  0 <= m -> inbetween m x l ->
  let '(mrs', e') := shr (shr_record_of_loc m l) e n in
  e' = e + Z.max 0 n /\ 0 <= shr_m mrs' /\
  inbetween (shr_m mrs') (x / pow2 (Z.max 0 n)) (loc_of_shr_record mrs').
Proof.
  intros Hm H.
  destruct (loc_of_shr_record_of_loc m l) as [Hl Hsm].
  assert (H0 : inbetween (shr_m (shr_record_of_loc m l)) (x / pow2 0)
                 (loc_of_shr_record (shr_record_of_loc m l))).
  { rewrite Hl, Hsm. eapply inbetween_ext; [|exact H]. unfold pow2. simpl. field. }
  destruct n as [|p|p]; simpl shr.
  - rewrite Z.max_id, Z.add_0_r, Hsm in *. auto.
  - rewrite iter_pos_nat.
    replace (Z.max 0 (Zpos p)) with (Zpos p) by lia.
    split; [reflexivity|].
    rewrite <- (positive_nat_Z p).
    apply shr_iter_spec; rewrite ?Hl, ?Hsm; assumption.
  - replace (Z.max 0 (Zneg p)) with 0 by lia.
    rewrite Z.add_0_r, Hsm in *. auto.
Qed.

Lemma fexp_eq (e : Z) : fexp e = Z.max (e - 53) (-1074).
Proof. reflexivity. Qed.

Lemma emin_eq : emin = -1074.
Proof. reflexivity. Qed.

Lemma inbetween_floor (m : Z) (x : Q) (l : location) :
  inbetween m x l -> (inject_Z m <= x /\ x < inject_Z m + 1)%Q.
Proof. destruct l as [|[]]; simpl; lra. Qed.

Lemma inject_Z_succ (m : Z) : (inject_Z (m + 1) == inject_Z m + 1)%Q.
Proof. rewrite inject_Z_plus. reflexivity. Qed.

Lemma round_nearest_even_spec (m : Z) (x : Q) (l : location) :
  inbetween m x l ->
  (round_nearest_even m l = m \/ round_nearest_even m l = m + 1) /\
  (inject_Z (round_nearest_even m l) - (1 # 2) <= x /\
   x <= inject_Z (round_nearest_even m l) + (1 # 2))%Q.
Proof.
  destruct l as [|[]]; simpl; intros H.
  - split; [now left|]. lra.
  - destruct (Z.even m); (split; [auto|]); rewrite ?inject_Z_succ; lra.
  - split; [now left|]. lra.
  - split; [now right|]. rewrite inject_Z_succ. lra.
Qed.

Lemma shr_nonpos (mrs : shr_record) (e z : Z) :
  z <= 0 -> shr mrs e z = (mrs, e).
Proof. destruct z; [reflexivity|lia|reflexivity]. Qed.

Lemma Zdigits2_range (n : Z) :
  0 < n -> 2 ^ (Zdigits2 n - 1) <= n < 2 ^ Zdigits2 n.
Proof. destruct n as [|p|p]; try lia. intros _. apply digits2_pos_spec. Qed.

Lemma Zdigits2_le (n k : Z) : 0 < n -> 0 <= k -> n < 2 ^ k -> Zdigits2 n <= k.
Proof.
  intros Hn Hk Hlt. pose proof (Zdigits2_range n Hn) as [Hlo _].
  destruct (Z_le_gt_dec (Zdigits2 n) k) as [|Hgt]; [assumption|].
  assert (2 ^ k <= 2 ^ (Zdigits2 n - 1)) by (apply Z.pow_le_mono_r; lia).
  lia.
Qed.

Lemma Zdigits2_ge (n k : Z) : 0 < n -> 2 ^ (k - 1) <= n -> k <= Zdigits2 n.
Proof.
  intros Hn Hle. pose proof (Zdigits2_range n Hn) as [_ Hhi].
  destruct (Z_le_gt_dec k (Zdigits2 n)) as [|Hgt]; [assumption|].
  assert (Zdigits2 n > 0) by (destruct n; simpl; lia).
  assert (2 ^ Zdigits2 n <= 2 ^ (k - 1)) by (apply Z.pow_le_mono_r; lia).
  lia.
Qed.

Lemma Qdiv_pow2 (x : Q) (a b : Z) :
  (x / pow2 a / pow2 b == x / pow2 (a + b))%Q.
Proof.
  rewrite pow2_add. field.
  pose proof (pow2_pos a). pose proof (pow2_pos b). split; lra.
Qed.

Lemma inject_Z_lt_inv (a b : Z) : (inject_Z a < inject_Z b)%Q -> a < b.
Proof. now rewrite <- Zlt_Qlt. Qed.


Lemma pow2_div (x : Q) (a : Z) : (x / pow2 a == x * pow2 (- a))%Q.
Proof.
  unfold pow2. rewrite Qpower_opp. reflexivity.
Qed.

Lemma Qdiv_mult_cancel (x c : Q) : (0 < c)%Q -> (x / c * c == x)%Q.
Proof. intros Hc. field. lra. Qed.

Lemma Qle_div_inv (a x c : Q) : (0 < c)%Q -> (a <= x / c)%Q -> (a * c <= x)%Q.
Proof.
  intros Hc H. rewrite <- (Qdiv_mult_cancel x c Hc).
  apply Qmult_le_compat_r; [exact H|lra].
Qed.

Lemma Qlt_div_inv (b x c : Q) : (0 < c)%Q -> (x / c < b)%Q -> (x < b * c)%Q.
Proof.
  intros Hc H. rewrite <- (Qdiv_mult_cancel x c Hc).
  apply Qmult_lt_compat_r; [exact Hc|exact H].
Qed.

(** The real [X], given by its position [l] in the cell [m, m+1) at
    exponent [e], is rounded at the exponent of its magnitude. *)
Lemma binary_round_aux_spec (s : bool) (m e : Z) (l : location) (X : Q) :
  0 <= m -> inbetween m (X / pow2 e) l ->
  e <= fexp (Zdigits2 m + e) ->
  let e1 := fexp (Zdigits2 m + e) in
  exists m1 n : Z,
    (inject_Z m1 <= X / pow2 e1 /\ X / pow2 e1 < inject_Z m1 + 1)%Q /\
    (n = m1 \/ n = m1 + 1) /\
    (inject_Z n - (1 # 2) <= X / pow2 e1 /\
     X / pow2 e1 <= inject_Z n + (1 # 2))%Q /\
    0 <= m1 < 2 ^ 53 /\ (emin < e1 -> 2 ^ 52 <= m1) /\
    binary_round_aux prec emax s m e l = rounded s n e1.
Proof.
  intros Hm Hin He e1.
  assert (Hee1 : e <= e1) by exact He.
  pose proof (shr_spec m e (e1 - e) l (X / pow2 e) ltac:(lia) Hin) as Hshr.
  unfold binary_round_aux, shr_fexp. fold (fexp (Zdigits2 m + e)). fold e1.
  destruct (shr (shr_record_of_loc m l) e (e1 - e)) as [mrs1 e1'].
  destruct Hshr as (He1' & Hm1 & Hin1).
  replace (Z.max 0 (e1 - e)) with (e1 - e) in * by lia.
  replace (e + (e1 - e)) with e1 in He1' by lia. subst e1'.
  assert (Hin1' : inbetween (shr_m mrs1) (X / pow2 e1) (loc_of_shr_record mrs1)).
  { eapply inbetween_ext; [|exact Hin1].
    rewrite Qdiv_pow2. now replace (e + (e1 - e)) with e1 by lia. }
  clear Hin1.
  set (m1 := shr_m mrs1) in *.
  set (l1 := loc_of_shr_record mrs1) in *.
  destruct (round_nearest_even_spec m1 _ l1 Hin1') as [Hn Hhalf].
  set (n := round_nearest_even m1 l1) in *.
  pose proof (inbetween_floor _ _ _ Hin1') as Hfl.
  pose proof (inbetween_floor _ _ _ Hin) as Hfl0.
  assert (He1 : emin <= e1) by (unfold e1; rewrite fexp_eq, emin_eq; lia).
  pose proof (pow2_pos e1) as Hp1.
  assert (Hbounds : m1 < 2 ^ 53 /\ (emin < e1 -> 2 ^ 52 <= m1)).
  { destruct (Z.eq_dec m 0) as [Hm0|Hm0].
    - (* a cell below the smallest positive number *)
      assert (e1 = emin)
        by (unfold e1 in *; subst m; simpl Zdigits2 in *;
            rewrite fexp_eq, emin_eq in *; lia).
      subst m.
      split; [|lia].
      apply inject_Z_lt_inv.
      assert (X / pow2 e1 < 1)%Q.
      { apply Qlt_shift_div_r; [exact Hp1|].
        assert (X < (inject_Z 0 + 1) * pow2 e)%Q by (apply Qlt_div_inv; [apply pow2_pos|tauto]).
        assert (pow2 e <= pow2 e1)%Q by (apply pow2_le; lia).
        change (inject_Z 0) with 0%Q in H0. lra. }
      change (inject_Z (2 ^ 53)) with (9007199254740992 # 1)%Q.
      lra.
    - assert (Hm' : 0 < m) by lia. clear Hm0.
  pose proof (Zdigits2_range m Hm') as [Hdlo Hdhi].
  set (d := Zdigits2 m) in *.
  assert (Hd : 0 < d) by (subst d; destruct m; simpl; lia).
  (* bounds on X *)
  assert (HXlo : (pow2 (d - 1 + e) <= X)%Q).
  { rewrite pow2_add, (pow2_Z (d - 1)) by lia.
    apply Qle_trans with (inject_Z m * pow2 e)%Q.
    - apply Qmult_le_compat_r; [now rewrite <- Zle_Qle|].
      apply Qlt_le_weak, pow2_pos.
    - apply Qle_div_inv; [apply pow2_pos|tauto]. }
  assert (HXhi : (X < pow2 (d + e))%Q).
  { rewrite pow2_add, (pow2_Z d) by lia.
    apply Qlt_le_trans with ((inject_Z m + 1) * pow2 e)%Q.
    - apply Qlt_div_inv; [apply pow2_pos|tauto].
    - apply Qmult_le_compat_r; [|apply Qlt_le_weak, pow2_pos].
      rewrite <- inject_Z_succ, <- Zle_Qle. lia. }
  assert (He1' : d + e - 53 <= e1) by (unfold e1; rewrite fexp_eq; lia).
  assert (Hm1hi : m1 < 2 ^ 53).
  { apply inject_Z_lt_inv.
    assert (X / pow2 e1 < pow2 53)%Q.
    { assert (pow2 (d + e) <= pow2 (53 + e1))%Q by (apply pow2_le; lia).
      rewrite (pow2_add 53 e1) in H.
      apply Qlt_shift_div_r; [exact Hp1|].
      eapply Qlt_le_trans; [exact HXhi | exact H]. }
    rewrite (pow2_Z 53) in H by lia. lra. }
  assert (Hm1lo : emin < e1 -> 2 ^ 52 <= m1).
  { intros Hlt.
    assert (e1 = d + e - 53) by (unfold e1 in *; rewrite fexp_eq, emin_eq in *; lia).
    assert (pow2 52 <= X / pow2 e1)%Q.
    { assert (pow2 (d - 1 + e) == pow2 52 * pow2 e1)%Q.
      { rewrite <- pow2_add. now replace (52 + e1) with (d - 1 + e) by lia. }
      apply Qle_shift_div_l; [exact Hp1|]. now rewrite <- H0. }
    rewrite (pow2_Z 52) in H0 by lia.
    assert (inject_Z (2 ^ 52) < inject_Z (m1 + 1))%Q by (rewrite inject_Z_succ; lra).
    apply inject_Z_lt_inv in H1. lia. }
  split; assumption. }
  destruct Hbounds as [Hm1hi Hm1lo].
  exists m1, n. repeat split; try tauto; try lia.
  (* the renormalisation after rounding *)
  unfold rounded.
  assert (Hn0 : 0 <= n <= 2 ^ 53) by lia.
  destruct (Z.eqb_spec n 0) as [Hz|Hnz].
  - rewrite Hz. simpl Zdigits2.
    rewrite shr_nonpos by (rewrite Z.add_0_l; fold (fexp e1); rewrite fexp_eq; rewrite emin_eq in He1; lia).
    reflexivity.
  - destruct (Z.eqb_spec n (2 ^ 53)) as [Hmax|Hnmax].
    + rewrite Hmax.
      replace (SpecFloat.fexp prec emax (Zdigits2 (2 ^ 53) + e1) - e1) with 1
        by (change (Zdigits2 (2 ^ 53)) with 54; fold (fexp (54 + e1));
            rewrite fexp_eq; rewrite emin_eq in He1; lia).
      reflexivity.
    + assert (Hdn : Zdigits2 n <= 53) by (apply Zdigits2_le; lia).
      rewrite shr_nonpos
        by (fold (fexp (Zdigits2 n + e1)); rewrite fexp_eq; rewrite emin_eq in He1; lia).
      simpl shr_m. destruct n as [|p|p]; try lia. reflexivity.
Qed.

Lemma binary_round_aux_rounds (s : bool) (m e : Z) (l : location) (X : Q) :
  0 <= m -> inbetween m (X / pow2 e) l ->
  e <= fexp (Zdigits2 m + e) ->
  rounds_to s X (binary_round_aux prec emax s m e l).
Proof.
  intros Hm Hin He.
  destruct (binary_round_aux_spec s m e l X Hm Hin He)
    as (m1 & n & [Hf1 Hf2] & Hn & [Hh1 Hh2] & Hm1 & Hlo & Heq).
  set (e1 := fexp (Zdigits2 m + e)) in *.
  pose proof (pow2_pos e1) as Hp.
  exists m1, n, e1. repeat split; auto; try lia.
  - unfold e1. rewrite fexp_eq, emin_eq. lia.
  - now apply Qle_div_inv.
  - now apply Qlt_div_inv.
  - now apply Qle_div_inv.
  - rewrite <- (Qdiv_mult_cancel X (pow2 e1) Hp).
    apply Qmult_le_compat_r; [exact Hh2|lra].
Qed.

Lemma pow2_split (a b : Z) : (pow2 a == pow2 (a - b) * pow2 b)%Q.
Proof. rewrite <- pow2_add. now replace (a - b + b) with a by lia. Qed.

(** No number of the format lies strictly inside a cell. *)
Lemma gap (X : Q) (m1 e1 mg eg : Z) :
  cell X m1 e1 -> repr mg eg ->
  (inject_Z mg * pow2 eg <= inject_Z m1 * pow2 e1 \/
   (inject_Z m1 + 1) * pow2 e1 <= inject_Z mg * pow2 eg)%Q.
Proof.
  intros (He1 & Hm1 & Hlo & _) [Heg Hmg].
  pose proof (pow2_pos e1) as Hp1.
  destruct (Z_le_gt_dec e1 eg) as [Hle|Hgt].
  - (* a multiple of [2^e1] *)
    assert (Hk : (inject_Z mg * pow2 eg == inject_Z (mg * 2 ^ (eg - e1)) * pow2 e1)%Q).
    { rewrite (pow2_split eg e1), (pow2_Z (eg - e1)) by lia.
      rewrite inject_Z_mult. ring. }
    rewrite Hk.
    destruct (Z_le_gt_dec (mg * 2 ^ (eg - e1)) m1) as [Hk1|Hk1].
    + left. apply Qmult_le_compat_r; [now rewrite <- Zle_Qle|lra].
    + right. apply Qmult_le_compat_r; [|lra].
      rewrite <- inject_Z_succ, <- Zle_Qle. lia.
  - left.
    assert (H52 : 2 ^ 52 <= m1) by (apply Hlo; lia).
    apply Qle_trans with (inject_Z (2 ^ 53) * pow2 eg)%Q.
    { apply Qmult_le_compat_r; [rewrite <- Zle_Qle; lia|].
      apply Qlt_le_weak, pow2_pos. }
    apply Qle_trans with (inject_Z (2 ^ 52) * pow2 e1)%Q.
    { rewrite <- (pow2_Z 53), <- (pow2_Z 52), <- !pow2_add by lia.
      apply pow2_le. lia. }
    apply Qmult_le_compat_r; [now rewrite <- Zle_Qle|lra].
Qed.

Lemma pow2_lt_inv (a b : Z) : (pow2 a < pow2 b)%Q -> a < b.
Proof.
  intros H. destruct (Z_lt_ge_dec a b) as [|Hge]; [assumption|].
  assert (pow2 b <= pow2 a)%Q by (apply pow2_le; lia). lra.
Qed.

Lemma inject_Z_mult_pow2_inv (a b e : Z) :
  (inject_Z a * pow2 e == inject_Z b * pow2 e)%Q -> a = b.
Proof.
  intros H. pose proof (pow2_pos e) as Hp.
  apply Qmult_inj_r in H; [|lra].
  unfold Qeq in H. simpl in H. lia.
Qed.

Lemma vpair_cell (mg eg : Z) :
  vpair mg eg -> cell (inject_Z mg * pow2 eg) mg eg.
Proof.
  intros (H1 & H2 & H3). pose proof (pow2_pos eg).
  repeat split; auto; try lia; nra.
Qed.

Lemma same_value_shift (a b ea eb : Z) :
  eb < ea ->
  (inject_Z a * pow2 ea == inject_Z b * pow2 eb)%Q ->
  b = a * 2 ^ (ea - eb).
Proof.
  intros Hlt H.
  rewrite (pow2_split ea eb), (pow2_Z (ea - eb)) in H by lia.
  symmetry. apply (inject_Z_mult_pow2_inv _ _ eb).
  rewrite inject_Z_mult, <- H. ring.
Qed.

Lemma nearest_upper (X : Q) (m1 n e1 mg eg : Z) :
  nearest X m1 n e1 -> vpair mg eg ->
  (X < (inject_Z mg + (1 # 2)) * pow2 eg)%Q ->
  (inject_Z n * pow2 e1 <= inject_Z mg * pow2 eg)%Q.
Proof.
  intros (Hc & Hn & Hh1 & Hh2) Hg HX.
  pose proof Hc as (He1 & Hm1 & Hlo & HA & HB).
  pose proof Hg as (Heg & Hmg & Hglo).
  pose proof (pow2_pos e1) as Hp1. pose proof (pow2_pos eg) as Hpg.
  assert (Hrg : repr mg eg) by (split; lia).
  assert (Hr1 : repr m1 e1) by (split; lia).
  destruct (gap X m1 e1 mg eg Hc Hrg) as [HGA|HBG].
  - destruct (gap _ mg eg m1 e1 (vpair_cell _ _ Hg) Hr1) as [HAG|HGA'].
    + assert (HAeq : (inject_Z m1 * pow2 e1 == inject_Z mg * pow2 eg)%Q) by lra.
      destruct Hn as [->| ->]; [lra|].
      exfalso. rewrite inject_Z_succ in Hh1.
      assert (Hlt : e1 < eg) by (apply pow2_lt_inv; lra).
      symmetry in HAeq. apply same_value_shift in HAeq; [|lia].
      assert (2 ^ 1 <= 2 ^ (eg - e1)) by (apply Z.pow_le_mono_r; lia).
      assert (2 ^ 52 <= mg) by (apply Hglo; lia).
      change (2 ^ 1) with 2 in *. nia.
    + exfalso. lra.
  - destruct Hn as [->| ->]; rewrite ?inject_Z_succ; lra.
Qed.

Lemma nearest_lower (X : Q) (m1 n e1 mg eg : Z) :
  nearest X m1 n e1 -> repr mg eg ->
  (inject_Z mg * pow2 eg <= X)%Q ->
  (inject_Z mg * pow2 eg <= inject_Z n * pow2 e1)%Q.
Proof.
  intros (Hc & Hn & Hh1 & Hh2) Hg HX.
  pose proof Hc as (He1 & Hm1 & Hlo & HA & HB).
  pose proof (pow2_pos e1) as Hp1.
  destruct (gap X m1 e1 mg eg Hc Hg) as [HGA|HBG]; [|lra].
  destruct Hn as [->| ->]; rewrite ?inject_Z_succ; lra.
Qed.

Lemma nearest_mono (X X' : Q) (m1 n e1 m1' n' e1' : Z) :
  nearest X m1 n e1 -> nearest X' m1' n' e1' -> (X < X')%Q ->
  (inject_Z n * pow2 e1 <= inject_Z n' * pow2 e1')%Q.
Proof.
  intros (Hc & Hn & Hh1 & Hh2) (Hc' & Hn' & Hh1' & Hh2') HX.
  pose proof Hc as (He1 & Hm1 & Hlo & HA & HB).
  pose proof Hc' as (He1' & Hm1' & Hlo' & HA' & HB').
  pose proof (pow2_pos e1) as Hp1. pose proof (pow2_pos e1') as Hp1'.
  assert (Hrn : repr n e1) by (split; lia).
  destruct (gap X' m1' e1' n e1 Hc' Hrn) as [HVA|HBV].
  - destruct Hn' as [->| ->]; rewrite ?inject_Z_succ; lra.
  - assert (n = m1 + 1) by (destruct Hn as [->|]; [exfalso; lra|assumption]).
    subst n. rewrite inject_Z_succ in *.
    assert (Hr' : repr (m1' + 1) e1') by (split; lia).
    destruct (gap X m1 e1 (m1' + 1) e1' Hc Hr') as [HB'A|HBB'];
      rewrite ?inject_Z_succ in *; [exfalso; lra|].
    destruct Hn' as [->| ->]; rewrite ?inject_Z_succ; [|lra].
    exfalso.
    assert (HBeq : (inject_Z (m1 + 1) * pow2 e1 == inject_Z (m1' + 1) * pow2 e1')%Q)
      by (rewrite !inject_Z_succ; lra).
    assert (Hlt : e1' < e1) by (apply pow2_lt_inv; lra).
    apply same_value_shift in HBeq; [|lia].
    assert (2 ^ 1 <= 2 ^ (e1 - e1')) by (apply Z.pow_le_mono_r; lia).
    assert (2 ^ 52 <= m1) by (apply Hlo; lia).
    change (2 ^ 1) with 2 in *. nia.
Qed.

Lemma valid_finite_inv (s : bool) (m : positive) (e : Z) :
  valid (S754_finite s m e) -> vpair (Zpos m) e /\ e <= emax - prec.
Proof.
  unfold valid, valid_binary, bounded, canonical_mantissa.
  intros H. apply andb_true_iff in H as [Hc Hb].
  apply Z.eqb_eq in Hc. apply Z.leb_le in Hb.
  fold (fexp (Zpos (digits2_pos m) + e)) in Hc. rewrite fexp_eq in Hc.
  pose proof (digits2_pos_spec m) as [Hlo Hhi].
  set (d := Zpos (digits2_pos m)) in *.
  assert (Hd : d <= 53) by lia.
  split; [|exact Hb]. unfold vpair. rewrite emin_eq.
  split; [lia|]. split.
  - split; [lia|].
    assert (2 ^ d <= 2 ^ 53) by (apply Z.pow_le_mono_r; lia). lia.
  - intros Hlt. assert (d = 53) by lia.
    replace (d - 1) with 52 in Hlo by lia. exact Hlo.
Qed.

Lemma valid_finite_intro (s : bool) (m : positive) (e : Z) :
  vpair (Zpos m) e -> e <= emax - prec -> valid (S754_finite s m e).
Proof.
  intros (He & Hm & Hlo) Hb. rewrite emin_eq in *.
  unfold valid, valid_binary, bounded, canonical_mantissa.
  apply andb_true_iff. split; [|now apply Z.leb_le].
  apply Z.eqb_eq. fold (fexp (Zpos (digits2_pos m) + e)). rewrite fexp_eq.
  assert (Hd : Zdigits2 (Zpos m) <= 53) by (apply Zdigits2_le; lia).
  simpl Zdigits2 in Hd.
  destruct (Z.eq_dec e (-1074)) as [->|Hne]; [lia|].
  assert (53 <= Zdigits2 (Zpos m)) by (apply Zdigits2_ge; [lia|apply Hlo; lia]).
  simpl Zdigits2 in H. lia.
Qed.

(** What [rounded] is, by cases on overflow. *)
Lemma rounded_cases (s : bool) (m1 n e1 : Z) :
  emin <= e1 -> 0 <= m1 < 2 ^ 53 -> (emin < e1 -> 2 ^ 52 <= m1) ->
  n = m1 \/ n = m1 + 1 ->
  valid (rounded s n e1) /\
  ((rounded s n e1 = S754_infinity s /\
    (pow2 1024 <= inject_Z n * pow2 e1)%Q) \/
   ((rounded s n e1 = S754_zero s \/
     exists p e, rounded s n e1 = S754_finite s p e) /\
    (magQ (rounded s n e1) == inject_Z n * pow2 e1)%Q /\
    (inject_Z n * pow2 e1 < pow2 1024)%Q)).
Proof.
  intros He1 Hm1 Hlo Hn. rewrite emin_eq in *.
  pose proof (pow2_pos e1) as Hp.
  unfold rounded.
  destruct (Z.eqb_spec n 0) as [->|Hn0].
  { split; [reflexivity|]. right. split; [now left|].
    simpl magQ. change (inject_Z 0) with 0%Q.
    pose proof (pow2_pos 1024). split; [ring|lra]. }
  destruct (Z.eqb_spec n (2 ^ 53)) as [->|Hn53].
  { assert (Hv : (inject_Z (2 ^ 53) * pow2 e1 == pow2 (53 + e1))%Q)
      by (rewrite pow2_add, (pow2_Z 53) by lia; reflexivity).
    destruct (Z.leb_spec (e1 + 1) (emax - prec)) as [Hb|Hb];
      change (emax - prec) with 971 in Hb.
    - split.
      + apply valid_finite_intro; [|exact Hb].
        unfold vpair. rewrite emin_eq. repeat split; lia.
      + right. split; [right; eauto|]. simpl magQ.
        split.
        * change (inject_Z (Z.pos (2 ^ 52))) with (inject_Z (2 ^ 52)).
          rewrite Hv, <- (pow2_Z 52), <- pow2_add by lia.
          now replace (52 + (e1 + 1)) with (53 + e1) by lia.
        * rewrite Hv. apply pow2_lt. lia.
    - split; [reflexivity|]. left. split; [reflexivity|].
      rewrite Hv. apply pow2_le. lia. }
  assert (Hnpos : 0 < n < 2 ^ 53) by lia.
  destruct (Z.leb_spec e1 (emax - prec)) as [Hb|Hb];
    change (emax - prec) with 971 in Hb.
  - assert (Hval : (inject_Z (Z.pos (Z.to_pos n)) = inject_Z n))
      by (rewrite Z2Pos.id by lia; reflexivity).
    split.
    + apply valid_finite_intro; [|exact Hb].
      rewrite Z2Pos.id by lia.
      unfold vpair. rewrite emin_eq. repeat split; lia.
    + right. split; [right; eauto|]. simpl magQ. rewrite Hval.
      split; [reflexivity|].
      apply Qlt_le_trans with (inject_Z (2 ^ 53) * pow2 e1)%Q.
      * apply Qmult_lt_compat_r; [exact Hp|]. rewrite <- Zlt_Qlt. lia.
      * rewrite <- (pow2_Z 53), <- pow2_add by lia. apply pow2_le. lia.
  - split; [reflexivity|]. left. split; [reflexivity|].
    apply Qle_trans with (inject_Z (2 ^ 52) * pow2 e1)%Q.
    + rewrite <- (pow2_Z 52), <- pow2_add by lia. apply pow2_le. lia.
    + apply Qmult_le_compat_r; [|lra]. rewrite <- Zle_Qle. lia.
Qed.

Lemma rounds_valid (s : bool) (X : Q) (y : spec_float) :
  rounds_to s X y -> valid y.
Proof.
  intros (m1 & n & e1 & ((He1 & Hm1 & Hlo & _) & Hn & _) & ->).
  now apply rounded_cases with (m1 := m1).
Qed.

Lemma rounds_upper (s : bool) (X : Q) (y : spec_float) (mg eg : Z) :
  rounds_to s X y -> vpair mg eg -> eg <= emax - prec ->
  (X < (inject_Z mg + (1 # 2)) * pow2 eg)%Q ->
  finite_s s y /\ (magQ y <= inject_Z mg * pow2 eg)%Q.
Proof.
  intros (m1 & n & e1 & (Hc & Hn & Hh) & ->) Hg Hb HX.
  pose proof (nearest_upper X m1 n e1 mg eg (conj Hc (conj Hn Hh)) Hg HX) as Hle.
  destruct Hc as (He1 & Hm1 & Hlo & _).
  destruct (rounded_cases s m1 n e1 He1 Hm1 Hlo Hn) as [_ [[_ Hinf]|(Hf & Hv & _)]].
  - exfalso.
    destruct Hg as (Heg & Hmg & _).
    assert (inject_Z mg * pow2 eg < pow2 1024)%Q.
    { apply Qlt_le_trans with (inject_Z (2 ^ 53) * pow2 eg)%Q.
      - apply Qmult_lt_compat_r; [apply pow2_pos|]. rewrite <- Zlt_Qlt. lia.
      - rewrite <- (pow2_Z 53), <- pow2_add by lia. apply pow2_le.
        change (emax - prec) with 971 in Hb. lia. }
    lra.
  - split; [exact Hf|]. now rewrite Hv.
Qed.

Lemma rounds_lower (s : bool) (X : Q) (y : spec_float) (mg eg : Z) :
  rounds_to s X y -> repr mg eg ->
  (inject_Z mg * pow2 eg <= X)%Q ->
  y = S754_infinity s \/
  (finite_s s y /\ (inject_Z mg * pow2 eg <= magQ y)%Q).
Proof.
  intros (m1 & n & e1 & (Hc & Hn & Hh) & ->) Hg HX.
  pose proof (nearest_lower X m1 n e1 mg eg (conj Hc (conj Hn Hh)) Hg HX) as Hle.
  destruct Hc as (He1 & Hm1 & Hlo & _).
  destruct (rounded_cases s m1 n e1 He1 Hm1 Hlo Hn) as [_ [[Hinf _]|(Hf & Hv & _)]].
  - now left.
  - right. split; [exact Hf|]. now rewrite Hv.
Qed.

Lemma rounds_mono (s : bool) (X X' : Q) (y y' : spec_float) :
  rounds_to s X y -> rounds_to s X' y' -> (X < X')%Q ->
  y' = S754_infinity s \/
  (finite_s s y /\ finite_s s y' /\ (magQ y <= magQ y')%Q).
Proof.
  intros (m1 & n & e1 & (Hc & Hn & Hh) & ->)
         (m1' & n' & e1' & (Hc' & Hn' & Hh') & ->) HX.
  pose proof (nearest_mono X X' m1 n e1 m1' n' e1'
                (conj Hc (conj Hn Hh)) (conj Hc' (conj Hn' Hh')) HX) as Hle.
  destruct Hc as (He1 & Hm1 & Hlo & _).
  destruct Hc' as (He1' & Hm1' & Hlo' & _).
  destruct (rounded_cases s m1' n' e1' He1' Hm1' Hlo' Hn')
    as [_ [[Hinf' _]|(Hf' & Hv' & Hlt')]]; [now left|].
  right.
  destruct (rounded_cases s m1 n e1 He1 Hm1 Hlo Hn)
    as [_ [[_ Hinf]|(Hf & Hv & _)]]; [exfalso; lra|].
  repeat split; auto. now rewrite Hv, Hv'.
Qed.

(** ** Order of Numbers and order of their values *)
Lemma vpair_lt (m1 e1 m2 e2 : Z) :
  vpair m1 e1 -> vpair m2 e2 -> e1 < e2 ->
  (inject_Z m1 * pow2 e1 < inject_Z m2 * pow2 e2)%Q.
Proof.
  intros (He1 & Hm1 & _) (He2 & Hm2 & Hlo2) Hlt.
  assert (H52 : 2 ^ 52 <= m2) by (apply Hlo2; lia).
  apply Qlt_le_trans with (inject_Z (2 ^ 53) * pow2 e1)%Q.
  { apply Qmult_lt_compat_r; [apply pow2_pos|]. rewrite <- Zlt_Qlt. lia. }
  apply Qle_trans with (inject_Z (2 ^ 52) * pow2 e2)%Q.
  { rewrite <- (pow2_Z 53), <- (pow2_Z 52), <- !pow2_add by lia.
    apply pow2_le. lia. }
  apply Qmult_le_compat_r; [now rewrite <- Zle_Qle|].
  apply Qlt_le_weak, pow2_pos.
Qed.

Lemma magQ_finite_pos (s : bool) (m : positive) (e : Z) :
  (0 < magQ (S754_finite s m e))%Q.
Proof.
  simpl. apply Qmult_lt_0_compat; [|apply pow2_pos]. reflexivity.
Qed.


Lemma SFltb_nonneg_inv (a b : spec_float) :
  valid a -> valid b -> finite_s false a -> finite_s false b ->
  SFltb a b = true -> (magQ a < magQ b)%Q.
Proof.
  intros Ha Hb [->|(ma & ea & ->)] [->|(mb & eb & ->)] Hlt; try discriminate.
  - apply magQ_finite_pos.
  - apply valid_finite_inv in Ha as [Ha _], Hb as [Hb _].
    unfold SFltb, SFcompare in Hlt. simpl magQ.
    destruct (Z.compare_spec ea eb) as [->|Hlt'|Hgt]; try discriminate.
    + fold (Pos.compare ma mb) in Hlt.
      destruct (Pos.compare_spec ma mb); try discriminate.
      apply Qmult_lt_compat_r; [apply pow2_pos|]. now rewrite <- Zlt_Qlt.
    + now apply vpair_lt.
Qed.

Lemma fexp_mono (a b : Z) : a <= b -> fexp a <= fexp b.
Proof. rewrite !fexp_eq. lia. Qed.

Lemma SFmul_rounds (sx sy : bool) (mx my : positive) (ex ey : Z) :
  valid (S754_finite sx mx ex) -> valid (S754_finite sy my ey) ->
  rounds_to (xorb sx sy)
    (magQ (S754_finite sx mx ex) * magQ (S754_finite sy my ey))
    (SFmul prec emax (S754_finite sx mx ex) (S754_finite sy my ey)).
Proof.
  intros Hx Hy.
  apply valid_finite_inv in Hx as [(Hex & Hmx & Hxlo) _].
  apply valid_finite_inv in Hy as [(Hey & Hmy & Hylo) _].
  rewrite emin_eq in *.
  unfold SFmul. apply binary_round_aux_rounds.
  - lia.
  - simpl. rewrite pow2_add, Pos2Z.inj_mul, inject_Z_mult.
    pose proof (pow2_pos ex). pose proof (pow2_pos ey).
    field. split; lra.
  - rewrite fexp_eq.
    destruct (Z_le_gt_dec (ex + ey) (-1074)) as [|Hgt]; [lia|].
    assert (2 ^ 52 <= Zpos (mx * my)).
    { rewrite Pos2Z.inj_mul.
      destruct (Z_le_gt_dec ex (-1074)).
      - assert (2 ^ 52 <= Zpos my) by (apply Hylo; lia). nia.
      - assert (2 ^ 52 <= Zpos mx) by (apply Hxlo; lia). nia. }
    assert (53 <= Zdigits2 (Zpos (mx * my))) by (apply Zdigits2_ge; [lia|assumption]).
    lia.
Qed.

Lemma shl_align_spec (m : positive) (e e' : Z) :
  let '(m', e'') := shl_align m e e' in
  e'' = Z.min e e' /\ Zpos m' = Zpos m * 2 ^ (e - e'').
Proof.
  unfold shl_align.
  destruct (e' - e) as [|k|k] eqn:Hk.
  - split; [lia|]. replace (e - e) with 0 by lia. simpl. lia.
  - split; [lia|]. replace (e - e) with 0 by lia. simpl. lia.
  - split; [lia|].
    fold (shift_pos k m). rewrite shift_pos_correct.
    replace (e - e') with (Zpos k) by lia.
    rewrite Z.mul_comm. reflexivity.
Qed.

Lemma binary_round_rounds (s : bool) (m : positive) (e : Z) :
  rounds_to s (inject_Z (Zpos m) * pow2 e) (binary_round prec emax s m e).
Proof.
  unfold binary_round.
  pose proof (shl_align_spec m e (SpecFloat.fexp prec emax (Zpos (digits2_pos m) + e)))
    as Hs.
  destruct (shl_align m e _) as [m' e''].
  destruct Hs as [He'' Hm'].
  fold (fexp (Zpos (digits2_pos m) + e)) in He''.
  pose proof (digits2_pos_spec m) as [Hlo Hhi].
  set (d := Zpos (digits2_pos m)) in *.
  assert (He : e'' <= e) by lia.
  assert (Hpow : 0 < 2 ^ (e - e'')) by (apply Z.pow_pos_nonneg; lia).
  apply binary_round_aux_rounds.
  - lia.
  - simpl. rewrite Hm', inject_Z_mult, (pow2_split e e''), (pow2_Z (e - e'')) by lia.
    pose proof (pow2_pos e''). field. lra.
  - assert (Hdig : d + (e - e'') <= Zdigits2 (Zpos m')).
    { apply Zdigits2_ge; [lia|]. rewrite Hm'.
      replace (d + (e - e'') - 1) with (d - 1 + (e - e'')) by lia.
      rewrite Z.pow_add_r by lia. nia. }
    apply Z.le_trans with (fexp (d + e)); [lia|].
    apply fexp_mono. lia.
Qed.

Lemma binary_normalize_rounds (z e : Z) :
  match z with
  | Z0 => binary_normalize prec emax z e false = S754_zero false
  | Zpos _ =>
      rounds_to false (inject_Z z * pow2 e) (binary_normalize prec emax z e false)
  | Zneg _ =>
      rounds_to true (- inject_Z z * pow2 e) (binary_normalize prec emax z e false)
  end.
Proof.
  destruct z as [|p|p]; simpl binary_normalize.
  - reflexivity.
  - apply binary_round_rounds.
  - replace (- inject_Z (Zneg p))%Q with (inject_Z (Zpos p)) by reflexivity.
    apply binary_round_rounds.
Qed.

Lemma aligned_value (s : bool) (m : positive) (e ez : Z) :
  ez <= e ->
  (inject_Z (cond_Zopp s (Zpos (fst (shl_align m e ez)))) * pow2 ez ==
   F2Q (S754_finite s m e))%Q.
Proof.
  intros Hle. pose proof (shl_align_spec m e ez) as Hs.
  destruct (shl_align m e ez) as [m' e'']. destruct Hs as [He'' Hm'].
  replace e'' with ez in Hm' by lia.
  simpl fst. simpl F2Q.
  rewrite (pow2_split e ez), (pow2_Z (e - ez)) by lia.
  destruct s; simpl cond_Zopp; rewrite ?inject_Z_opp, Hm', inject_Z_mult; ring.
Qed.

Lemma SFadd_finite (sx sy : bool) (mx my : positive) (ex ey : Z) :
  exists z : Z,
    SFadd prec emax (S754_finite sx mx ex) (S754_finite sy my ey) =
      binary_normalize prec emax z (Z.min ex ey) false /\
    (inject_Z z * pow2 (Z.min ex ey) ==
     F2Q (S754_finite sx mx ex) + F2Q (S754_finite sy my ey))%Q.
Proof.
  eexists. split; [reflexivity|].
  rewrite inject_Z_plus, Qmult_plus_distr_l.
  rewrite !aligned_value by lia. reflexivity.
Qed.

Lemma SFsub_finite (sx sy : bool) (mx my : positive) (ex ey : Z) :
  exists z : Z,
    SFsub prec emax (S754_finite sx mx ex) (S754_finite sy my ey) =
      binary_normalize prec emax z (Z.min ex ey) false /\
    (inject_Z z * pow2 (Z.min ex ey) ==
     F2Q (S754_finite sx mx ex) - F2Q (S754_finite sy my ey))%Q.
Proof.
  eexists. split; [reflexivity|].
  unfold Z.sub at 1. rewrite inject_Z_plus, inject_Z_opp.
  unfold Qminus. rewrite Qmult_plus_distr_l.
  setoid_replace (- inject_Z (cond_Zopp sy (Z.pos (fst (shl_align my ey (Z.min ex ey))))) *
     pow2 (Z.min ex ey))%Q
    with (- (inject_Z (cond_Zopp sy (Z.pos (fst (shl_align my ey (Z.min ex ey))))) *
     pow2 (Z.min ex ey)))%Q using relation Qeq by ring.
  rewrite !aligned_value by lia. reflexivity.
Qed.

(** The sum or difference [v] of two finite Numbers, once rounded. *)
Lemma normalize_value (z e : Z) (v : Q) :
  (inject_Z z * pow2 e == v)%Q ->
  let y := binary_normalize prec emax z e false in
  ((v == 0)%Q /\ y = S754_zero false) \/
  ((0 < v)%Q /\ rounds_to false v y) \/
  ((v < 0)%Q /\ rounds_to true (- v) y).
Proof.
  intros Hv y. pose proof (binary_normalize_rounds z e) as H.
  pose proof (pow2_pos e) as Hp.
  destruct z as [|p|p].
  - left. split; [|exact H]. rewrite <- Hv. change (inject_Z 0) with 0%Q. ring.
  - right. left. split.
    + rewrite <- Hv. apply Qmult_lt_0_compat; [reflexivity|exact Hp].
    + destruct H as (m1 & n & e1 & ((H1 & H2 & H3 & H4) & H5 & H6) & H7).
      exists m1, n, e1. unfold nearest, cell. rewrite <- Hv. auto 10.
  - right. right. split.
    + rewrite <- Hv.
      assert (0 < inject_Z (Zpos p) * pow2 e)%Q
        by (apply Qmult_lt_0_compat; [reflexivity|exact Hp]).
      replace (inject_Z (Zneg p)) with (- inject_Z (Zpos p))%Q by reflexivity.
      lra.
    + destruct H as (m1 & n & e1 & ((H1 & H2 & H3 & H4) & H5 & H6) & H7).
      exists m1, n, e1. unfold nearest, cell.
      assert (Hv' : (- v == - inject_Z (Z.neg p) * pow2 e)%Q) by (rewrite <- Hv; ring).
      rewrite Hv'. auto 10.
Qed.

Lemma new_location_spec (nb k q : Z) :
  0 < nb -> 0 <= k < nb ->
  inbetween q (inject_Z q + inject_Z k / inject_Z nb) (new_location nb k).
Proof.
  intros Hnb Hk.
  assert (Hnb' : (0 < inject_Z nb)%Q) by (change 0%Q with (inject_Z 0); now rewrite <- Zlt_Qlt).
  assert (Hk0 : k <> 0 -> (0 < inject_Z k / inject_Z nb)%Q).
  { intros Hne. apply Qlt_shift_div_l; [exact Hnb'|].
    rewrite Qmult_0_l. change 0%Q with (inject_Z 0). rewrite <- Zlt_Qlt. lia. }
  assert (Hk1 : (inject_Z k / inject_Z nb < 1)%Q).
  { apply Qlt_shift_div_r; [exact Hnb'|]. rewrite Qmult_1_l, <- Zlt_Qlt. lia. }
  assert (Hlt : 2 * k < nb -> (inject_Z k / inject_Z nb < 1 # 2)%Q).
  { intros H. apply Qlt_shift_div_r; [exact Hnb'|].
    assert (inject_Z (2 * k) < inject_Z nb)%Q by now rewrite <- Zlt_Qlt.
    rewrite inject_Z_mult in H0. change (inject_Z 2) with 2%Q in H0. lra. }
  assert (Hgt : nb < 2 * k -> (1 # 2 < inject_Z k / inject_Z nb)%Q).
  { intros H. apply Qlt_shift_div_l; [exact Hnb'|].
    assert (inject_Z nb < inject_Z (2 * k))%Q by now rewrite <- Zlt_Qlt.
    rewrite inject_Z_mult in H0. change (inject_Z 2) with 2%Q in H0. lra. }
  assert (Heq : 2 * k = nb -> (inject_Z k / inject_Z nb == 1 # 2)%Q).
  { intros H. rewrite <- H, inject_Z_mult. change (inject_Z 2) with 2%Q.
    field. intros Hz. rewrite <- H, inject_Z_mult in Hnb'.
    change (inject_Z 2) with 2%Q in Hnb'. lra. }
  unfold new_location, new_location_even, new_location_odd.
  destruct (Z.even nb) eqn:Hev; destruct (Z.eqb_spec k 0) as [->|Hne].
  - simpl. change (inject_Z 0) with 0%Q. field. lra.
  - destruct (Z.compare_spec (2 * k) nb) as [He|Hl|Hg]; simpl.
    + rewrite (Heq He). reflexivity.
    + specialize (Hk0 Hne). specialize (Hlt Hl). lra.
    + specialize (Hgt Hg). lra.
  - simpl. change (inject_Z 0) with 0%Q. field. lra.
  - assert (Hodd : 2 * k <> nb).
    { intros H. rewrite <- H, Z.even_mul in Hev. discriminate. }
    destruct (Z.compare_spec (2 * k + 1) nb) as [He|Hl|Hg]; simpl.
    + specialize (Hk0 Hne). assert (2 * k < nb) by lia. specialize (Hlt H). lra.
    + specialize (Hk0 Hne). assert (2 * k < nb) by lia. specialize (Hlt H). lra.
    + assert (nb < 2 * k) by lia. specialize (Hgt H). lra.
Qed.

Lemma SFdiv_core_spec (mx my : positive) (ex ey : Z) :
  let X := (inject_Z (Zpos mx) * pow2 ex / (inject_Z (Zpos my) * pow2 ey))%Q in
  let '(q, e', l) := SFdiv_core_binary prec emax (Zpos mx) ex (Zpos my) ey in
  0 <= q /\ inbetween q (X / pow2 e') l /\ e' <= fexp (Zdigits2 q + e').
Proof.
  intros X. unfold SFdiv_core_binary.
  fold (fexp (Zdigits2 (Zpos mx) + ex - (Zdigits2 (Zpos my) + ey))).
  pose proof (Zdigits2_range (Zpos mx) ltac:(lia)) as [Hd1 _].
  pose proof (Zdigits2_range (Zpos my) ltac:(lia)) as [_ Hd2].
  set (d1 := Zdigits2 (Zpos mx)) in *. set (d2 := Zdigits2 (Zpos my)) in *.
  assert (Hd1p : 0 < d1) by (unfold d1; simpl; lia).
  assert (Hd2p : 0 < d2) by (unfold d2; simpl; lia).
  set (e' := Z.min (fexp (d1 + ex - (d2 + ey))) (ex - ey)).
  set (s := ex - ey - e').
  assert (Hs : 0 <= s) by (unfold s, e'; lia).
  set (m' := match s with Zpos _ => Z.shiftl (Zpos mx) s | Z0 => Zpos mx | Zneg _ => 0 end).
  assert (Hm' : m' = Zpos mx * 2 ^ s).
  { unfold m'. destruct s as [|p|p] eqn:Hsp; [simpl; lia| |lia].
    now rewrite Z.shiftl_mul_pow2 by lia. }
  clearbody m'.
  pose proof (Z_div_mod m' (Zpos my) ltac:(lia)) as Hdm.
  destruct (Z.div_eucl m' (Zpos my)) as [q r]. destruct Hdm as [Hqr Hr].
  assert (Hpow : 0 < 2 ^ s) by (apply Z.pow_pos_nonneg; lia).
  assert (Hq : 0 <= q) by nia.
  split; [exact Hq|]. split.
  - eapply inbetween_ext; [|apply new_location_spec; [|exact Hr]; lia].
    unfold X.
    assert (Hex : (pow2 ex == inject_Z (2 ^ s) * pow2 ey * pow2 e')%Q).
    { rewrite <- (pow2_Z s), <- !pow2_add by lia.
      now replace (s + ey + e') with ex by (unfold s; lia). }
    rewrite Hex.
    assert (Hmq : (inject_Z (Zpos mx) * inject_Z (2 ^ s) ==
                   inject_Z (Zpos my) * inject_Z q + inject_Z r)%Q).
    { rewrite <- !inject_Z_mult, <- inject_Z_plus, <- Hqr, Hm'. reflexivity. }
    pose proof (pow2_pos ey). pose proof (pow2_pos e').
    assert (0 < inject_Z (Zpos my))%Q by reflexivity.
    setoid_replace (inject_Z q + inject_Z r / inject_Z (Z.pos my))%Q
      with ((inject_Z (Zpos my) * inject_Z q + inject_Z r) / inject_Z (Zpos my))%Q
      using relation Qeq by (field; lra).
    rewrite <- Hmq. field. repeat split; lra.
  - rewrite fexp_eq.
    destruct (Z_le_gt_dec e' (-1074)) as [|Hgt]; [lia|].
    assert (He' : e' <= d1 + ex - (d2 + ey) - 53)
      by (unfold e' in *; rewrite fexp_eq in *; lia).
    assert (HK : 52 <= d1 - 1 + s - d2) by (unfold s; lia).
    assert (Hq52 : 2 ^ 52 <= q).
    { assert (2 ^ (d1 - 1 + s) <= m').
      { rewrite Hm', Z.pow_add_r by lia. nia. }
      assert (Hsplit : 2 ^ (d1 - 1 + s) = 2 ^ (d1 - 1 + s - d2) * 2 ^ d2).
      { rewrite <- Z.pow_add_r by lia. f_equal. lia. }
      assert (2 ^ 52 <= 2 ^ (d1 - 1 + s - d2)) by (apply Z.pow_le_mono_r; lia).
      assert (0 < 2 ^ d2) by (apply Z.pow_pos_nonneg; lia).
      nia. }
    assert (53 <= Zdigits2 q) by (apply Zdigits2_ge; lia).
    lia.
Qed.

Lemma SFdiv_rounds (sx sy : bool) (mx my : positive) (ex ey : Z) :
  rounds_to (xorb sx sy)
    (magQ (S754_finite sx mx ex) / magQ (S754_finite sy my ey))
    (SFdiv prec emax (S754_finite sx mx ex) (S754_finite sy my ey)).
Proof.
  unfold SFdiv. pose proof (SFdiv_core_spec mx my ex ey) as H.
  destruct (SFdiv_core_binary prec emax (Zpos mx) ex (Zpos my) ey) as [[q e'] l].
  destruct H as (Hq & Hin & He).
  now apply binary_round_aux_rounds.
Qed.

Lemma pow2_div_Z (e : Z) :
  e <= 0 -> forall x : Q, (x * pow2 e == x / inject_Z (2 ^ (- e)))%Q.
Proof.
  intros He x. rewrite <- (pow2_Z (- e)) by lia.
  unfold pow2 at 2. rewrite Qpower_opp. fold (pow2 e).
  pose proof (pow2_pos e). field. lra.
Qed.

Lemma rounds_to_ext (s : bool) (X X' : Q) (y : number) :
  (X == X')%Q -> rounds_to s X y -> rounds_to s X' y.
Proof.
  intros HX (m1 & n & e1 & H & Hy). exists m1, n, e1. split; [|exact Hy].
  unfold nearest, cell in *. rewrite <- HX. exact H.
Qed.

(** * Properties *)

#[local] Arguments add : simpl never.
#[local] Arguments sub : simpl never.
#[local] Arguments mul : simpl never.
#[local] Arguments div : simpl never.
#[local] Arguments lit : simpl never.
#[local] Arguments ofZ : simpl never.
#[local] Arguments floor : simpl never.
#[local] Arguments parseInt : simpl never.
#[local] Arguments trim : simpl never.

(** Runs a computation of the script symbolically: the script's own
    functions and the state accessors are unfolded, arithmetic and text
    are left alone. *)
Ltac run :=
  cbv [exec eval mbind M_bind mret M_ret throw try_catch read modify emit
       timeout Math_random new_Date mostrarErro mostrarSucesso db_transaction
       obterPrecoAtual salvarCompra simularRespostaIA set_painel_sugestao
       gerarSugestaoIA carregarHistorico processar_compra form_compra_submit
       host draws readings transactions db precosAtuais historicoSparkline
       contadorAtualizacoes Compras PrecosHistoricos campo_simbolo
       campo_quantidade padrao_simbolo padrao_quantidade sugestao_ia
       lista_historico lista_precos
       update_counter emitted
       set_draws set_readings set_transactions set_precosAtuais
       set_historicoSparkline set_contadorAtualizacoes set_Compras
       set_PrecosHistoricos set_campos set_sugestao_ia set_lista_historico
       set_lista_precos set_update_counter set_emitted
       random clock connection add_succeeds getAll_succeeds fst snd
       simbolo_lido quantidade_lida preco_obtido compra_de db_utilizavel
       Compra.precoCompra toNumber andb].

(** ** Text *)

Lemma upper_char_not_lower (c : ascii) : is_lower (upper_char c) = false.
Proof. destruct c as [[] [] [] [] [] [] [] []]; reflexivity. Qed.

Lemma is_lower_ascii (c : ascii) : is_lower c = true -> (byte c <? 128) = true.
Proof. destruct c as [[] [] [] [] [] [] [] []]; intros H; easy. Qed.

Lemma has_lower_app (a b : string) :
  has_lower (a +:+ b) = has_lower a || has_lower b.
Proof.
  induction a as [|c a IH]; simpl; [reflexivity|].
  now rewrite IH, orb_assoc.
Qed.

(** No character of the table becomes an ASCII lower-case letter. *)
Lemma maiusculas_no_lower :
  forallb (fun p => negb (has_lower (snd p))) maiusculas_utf8 = true.
Proof. vm_compute. reflexivity. Qed.

Lemma maiuscula_no_lower (s k u : string) :
  maiuscula s = Some (k, u) -> has_lower u = false.
Proof.
  destruct s as [|c s]; [discriminate|]. unfold maiuscula.
  destruct (byte c <? _).
  - destruct (is_lower c); [|discriminate]. intros [= <- <-]. simpl.
    now rewrite upper_char_not_lower.
  - intros H. apply find_some in H as [Hin _].
    pose proof (proj1 (forallb_forall _ _) maiusculas_no_lower _ Hin) as Hl.
    simpl in Hl. now apply negb_true_iff in Hl.
Qed.

Lemma maiuscula_none (c : ascii) (s : string) :
  maiuscula (String c s) = None -> is_lower c = false.
Proof.
  unfold maiuscula. destruct (byte c <? _) eqn:E.
  - now destruct (is_lower c).
  - intros _. destruct (is_lower c) eqn:L; [|reflexivity].
    apply is_lower_ascii in L. congruence.
Qed.

Lemma toUpperCase_de_no_lower (salto : nat) (s : string) :
  has_lower (toUpperCase_de salto s) = false.
Proof.
  revert salto. induction s as [|c s IH]; intros salto; [reflexivity|].
  cbn [toUpperCase_de]. destruct salto as [|salto]; [|apply IH].
  destruct (maiuscula (String c s)) as [[k u]|] eqn:E.
  - now rewrite has_lower_app, (maiuscula_no_lower _ _ _ E), IH.
  - simpl. now rewrite (maiuscula_none _ _ E), IH.
Qed.

Lemma toUpperCase_no_lower (s : string) : has_lower (toUpperCase s) = false.
Proof. apply toUpperCase_de_no_lower. Qed.

Lemma prototype_keys_lower :
  Forall (fun k => has_lower k = true) object_prototype_keys.
Proof. repeat constructor. Qed.

(** No name inherited from [Object.prototype] survives upper-casing. *)
Lemma toUpperCase_not_inherited (s : string) :
  inherited (toUpperCase s) = false.
Proof.
  unfold inherited. apply bool_decide_eq_false. intros Hin.
  pose proof (proj1 (Forall_forall _ _) prototype_keys_lower _ Hin) as Hl.
  cbv beta in Hl. rewrite toUpperCase_no_lower in Hl. discriminate.
Qed.

Lemma get_untracked (a b c : number) (s : string) :
  s ∉ simbolos -> inherited s = false ->
  get ({[ "BRENT" := a; "WTI" := b; "OPEC" := c ]} : gmap string number) s
  = None.
Proof.
  intros Hs Hi. unfold get.
  assert (H1 : "BRENT"%string <> s)
    by (intros <-; apply Hs; unfold simbolos; set_solver).
  assert (H2 : "WTI"%string <> s)
    by (intros <-; apply Hs; unfold simbolos; set_solver).
  assert (H3 : "OPEC"%string <> s)
    by (intros <-; apply Hs; unfold simbolos; set_solver).
  rewrite !lookup_insert_ne by assumption.
  rewrite lookup_singleton_ne by assumption.
  now rewrite Hi.
Qed.

(** ** Arithmetic that needs no rounding argument *)

Lemma mul_comm (x y : number) : mul x y = mul y x.
Proof.
  destruct x as [sx|sx| |sx mx ex], y as [sy|sy| |sy my ey];
    unfold mul; simpl; rewrite ?(xorb_comm sx sy); try reflexivity.
  now rewrite (Pos.mul_comm mx my), (Z.add_comm ex ey).
Qed.

Lemma leb_nan_l (y : number) : leb NaN y = false.
Proof. reflexivity. Qed.

Lemma eqb_zero_leb (x : number) : SFeqb x (ofZ 0) = true -> leb x (ofZ 0) = true.
Proof. now destruct x as [s|[]| |[] m e]. Qed.

(** ** The price fetch and the store *)

Lemma run_obterPrecoAtual (simbolo : string) (w : World) :
  obterPrecoAtual simbolo w =
    (Return (preco_obtido w simbolo),
     set_draws (S (S (S (draws w))))
       (set_emitted (emitted w ++ [Timeout 500]) w)).
Proof. reflexivity. Qed.

(** The store after the body of the handler: one record more when the
    fetched price is a Number, the database handle is usable and the add
    request succeeds; the same store otherwise.  Nothing that runs after
    [salvarCompra] touches the store. *)
Lemma Compras_processar (simbolo : string) (quantidade : number) (w : World) :
  Compras (exec (processar_compra simbolo quantidade) w) =
    match preco_obtido w simbolo with
    | VNumber _ =>
        if db_utilizavel w && add_succeeds (host w)
        then Compras w ++ [compra_de w simbolo quantidade]
        else Compras w
    | VObject => Compras w
    end.
Proof.
  destruct w as [[rnd clk con addok getok] dr rd tx dbw pa hs ct cs ph
                 f1 f2 d1 d2 sg lh lp uc em].
  unfold db_utilizavel. run.
  destruct (preco_sorteado _ _ _ _) as [p|];
    destruct dbw, (con tx), addok, sg, (con (S tx)), getok, lh;
    try reflexivity.
  all: destruct (length _ =? 0)%nat; reflexivity.
Qed.

Lemma Compras_submit (w : World) :
  Compras (exec form_compra_submit w) =
    if invalido (simbolo_lido w) (quantidade_lida w) then Compras w
    else Compras (exec (processar_compra (simbolo_lido w) (quantidade_lida w)) w).
Proof.
  unfold exec, form_compra_submit, simbolo_lido, quantidade_lida.
  cbv [mbind M_bind read].
  destruct (invalido _ _); [reflexivity|].
  unfold try_catch.
  destruct (processar_compra _ _ w) as [[[]|e] w']; reflexivity.
Qed.

(** A symbol that went through [trim().toUpperCase()] and is none of the
    three tracked ones is priced at the fallback. *)
Lemma preco_obtido_fallback (w : World) (s : string) :
  toUpperCase s ∉ simbolos ->
  preco_obtido w (toUpperCase s) = VNumber (ofZ 80).
Proof.
  intros Hs. unfold preco_obtido, preco_sorteado, precos_sorteados.
  now rewrite get_untracked by auto using toUpperCase_not_inherited.
Qed.

Lemma preco_obtido_number (w : World) (s : string) :
  exists p, preco_obtido w (toUpperCase s) = VNumber p.
Proof.
  unfold preco_obtido, preco_sorteado, get.
  rewrite toUpperCase_not_inherited.
  destruct (precos_sorteados _ _ _ !! toUpperCase s) as [x|]; simpl;
    [destruct (truthy x)|]; eauto.
Qed.

(** Validated input, a usable database handle and a successful request
    put exactly the record built from the form into the store. *)
Lemma submit_persists (w : World) :
  invalido (simbolo_lido w) (quantidade_lida w) = false ->
  db_utilizavel w = true -> add_succeeds (host w) = true ->
  Compras (exec form_compra_submit w) =
    Compras w ++ [compra_de w (simbolo_lido w) (quantidade_lida w)].
Proof.
  intros Hv Hdb Hadd.
  rewrite Compras_submit, Hv, Compras_processar, Hdb, Hadd.
  destruct (preco_obtido_number w (trim (campo_simbolo w))) as [p Hp].
  unfold simbolo_lido. now rewrite Hp.
Qed.

(** The handler either leaves the store alone or appends the record built
    from the form, whose price is a Number. *)
Lemma submit_store_cases (w : World) :
  Compras (exec form_compra_submit w) = Compras w \/
  (exists p, preco_obtido w (simbolo_lido w) = VNumber p) /\
  Compras (exec form_compra_submit w) =
    Compras w ++ [compra_de w (simbolo_lido w) (quantidade_lida w)].
Proof.
  rewrite Compras_submit.
  destruct (invalido _ _); [now left|].
  rewrite Compras_processar.
  destruct (preco_obtido w (simbolo_lido w)) as [p|] eqn:Hp; [|now left].
  destruct (db_utilizavel w && add_succeeds (host w));
    [right; eauto | now left].
Qed.

(** C1. Every record the purchase workflow adds to the store has
    [valorTotal] equal to its quantity times its unit price, where the
    unit price is the price [obterPrecoAtual] returned for this purchase
    and the quantity is the parsed quantity field. *)
Theorem C1_valorTotal_is_quantity_times_price (w : World) (c : Compra.t) :
  Compras (exec form_compra_submit w) = Compras w ++ [c] ->
  exists p : number,
    eval (obterPrecoAtual (simbolo_lido w)) w = Return (VNumber p) /\
    Compra.precoCompra c = VNumber p /\
    Compra.quantidade c = quantidade_lida w /\
    Compra.valorTotal c = mul (Compra.quantidade c) p.
Proof.
  intros Hc.
  destruct (submit_store_cases w) as [Hsame | [[p Hp] Happ]].
  - rewrite Hsame in Hc. symmetry in Hc.
    rewrite <- (app_nil_r (Compras w)) in Hc at 2.
    apply app_inv_head in Hc. discriminate.
  - rewrite Happ in Hc. apply app_inv_head in Hc.
    injection Hc as <-. exists p.
    unfold eval. rewrite run_obterPrecoAtual. simpl.
    rewrite Hp. repeat split. apply mul_comm.
Qed.

Lemma C1_witness :
  exists p : number,
    eval (obterPrecoAtual "WTI") (pagina host_exemplo " wti " "10")
      = Return (VNumber p) /\
    p = lit 8225 100 /\ mul (ofZ 10) p = lit 8225 10.
Proof.
  destruct (C1_valorTotal_is_quantity_times_price
              (pagina host_exemplo " wti " "10")
              (compra_de (pagina host_exemplo " wti " "10") "WTI" (ofZ 10)))
    as [p [Hp [Hc _]]].
  - vm_compute. reflexivity.
  - exists p. split; [exact Hp|].
    vm_compute in Hc. injection Hc as <-. vm_compute. split; reflexivity.
Defined.

(** C4 (the code departs from the claim). A quantity field with no digit
    parses to NaN, and [NaN <= 0] is false: the submission passes the
    validation, a price is fetched and a record with quantity NaN and
    total NaN is stored. *)
Theorem C4_nan_quantity_is_persisted :
  quantidade_lida (pagina host_exemplo "BRENT" "abc") = NaN /\
  invalido "BRENT" NaN = false /\
  Compras (exec form_compra_submit (pagina host_exemplo "BRENT" "abc")) =
    [ Compra.mk "BRENT" NaN (VNumber (lit 85 1)) NaN 1000 ].
Proof. vm_compute. repeat split; reflexivity. Qed.

(** The same for every page: a quantity that parses to NaN is never
    rejected when the symbol is not empty. *)
Lemma nan_quantity_passes_validation (simbolo : string) :
  simbolo <> ""%string -> invalido simbolo NaN = false.
Proof.
  intros Hs. unfold invalido. rewrite leb_nan_l, orb_false_r.
  now apply String.eqb_neq.
Qed.

(** C5. A submission whose quantity is zero, or whose symbol is empty
    once trimmed, only shows the validation alert: the handler returns
    with every part of the page as it was and no record stored. *)
Theorem C5_rejected_submission_changes_nothing (w : World) :
  SFeqb (quantidade_lida w) (ofZ 0) = true \/ trim (campo_simbolo w) = ""%string ->
  form_compra_submit w =
    (Return tt,
     set_emitted (emitted w ++ [Alert (Text "❌ " :: mensagem_campos)]) w).
Proof.
  intros H.
  assert (Hinv : invalido (simbolo_lido w) (quantidade_lida w) = true).
  { unfold invalido, simbolo_lido. destruct H as [Hq | Hs].
    - rewrite (eqb_zero_leb _ Hq). apply orb_true_r.
    - now rewrite Hs. }
  unfold form_compra_submit. cbv [mbind M_bind read].
  unfold simbolo_lido, quantidade_lida in Hinv. now rewrite Hinv.
Qed.

Lemma C5_witness :
  Compras (exec form_compra_submit (pagina host_exemplo "WTI" "0")) = [] /\
  Compras (exec form_compra_submit (pagina host_exemplo "   " "7")) = [] /\
  Compras (exec form_compra_submit
             (pagina host_exemplo (utf8 0xA0 +:+ utf8 0x3000) "7")) = [] /\
  Compras (exec form_compra_submit
             (pagina host_exemplo "WTI" (utf8 0xA0 +:+ "0"))) = [].
Proof.
  split; [|split; [|split]]; unfold exec.
  - rewrite (C5_rejected_submission_changes_nothing
               (pagina host_exemplo "WTI" "0")); [reflexivity|].
    left. vm_compute. reflexivity.
  - rewrite (C5_rejected_submission_changes_nothing
               (pagina host_exemplo "   " "7")); [reflexivity|].
    right. vm_compute. reflexivity.
  - rewrite (C5_rejected_submission_changes_nothing
               (pagina host_exemplo (utf8 0xA0 +:+ utf8 0x3000) "7"));
      [reflexivity|].
    right. vm_compute. reflexivity.
  - rewrite (C5_rejected_submission_changes_nothing
               (pagina host_exemplo "WTI" (utf8 0xA0 +:+ "0")));
      [reflexivity|].
    left. vm_compute. reflexivity.
Defined.

(** C9. The price fetched for a purchase is a function of the symbol and
    of the next three random draws only: two pages that agree on those
    draws get the same price, whatever their current-price caches (and
    the rest of their state) hold. *)
Theorem C9_purchase_price_ignores_price_cache (w1 w2 : World) (simbolo : string) :
  (forall i : nat, (i < 3)%nat ->
     random (host w1) (draws w1 + i) = random (host w2) (draws w2 + i)) ->
  eval (obterPrecoAtual simbolo) w1 = eval (obterPrecoAtual simbolo) w2.
Proof.
  intros Hr. unfold eval. rewrite !run_obterPrecoAtual. simpl.
  unfold preco_obtido.
  pose proof (Hr 0%nat ltac:(lia)) as H0.
  pose proof (Hr 1%nat ltac:(lia)) as H1.
  pose proof (Hr 2%nat ltac:(lia)) as H2.
  rewrite !Nat.add_0_r in H0.
  replace (draws w1 + 1)%nat with (S (draws w1)) in H1 by lia.
  replace (draws w2 + 1)%nat with (S (draws w2)) in H1 by lia.
  replace (draws w1 + 2)%nat with (S (S (draws w1))) in H2 by lia.
  replace (draws w2 + 2)%nat with (S (S (draws w2))) in H2 by lia.
  now rewrite H0, H1, H2.
Qed.

Lemma C9_witness :
  eval (obterPrecoAtual "BRENT") (pagina host_exemplo "" "") =
  eval (obterPrecoAtual "BRENT")
    (set_precosAtuais {[ "BRENT" := ofZ 1 ]} (pagina host_exemplo "" "")).
Proof.
  apply C9_purchase_price_ignores_price_cache. intros i _. reflexivity.
Defined.

(** C10. A symbol read from the form that is not empty and is none of
    BRENT, WTI, OPEC is priced at exactly 80: the fetch does not fail, and
    with a quantity that passes the validation the purchase is stored at
    that price.  Nothing compares the symbol with the tracked ones. *)
Theorem C10_untracked_symbol_priced_at_80 (w : World) :
  simbolo_lido w <> ""%string -> simbolo_lido w ∉ simbolos ->
  eval (obterPrecoAtual (simbolo_lido w)) w = Return (VNumber (ofZ 80)) /\
  (leb (quantidade_lida w) (ofZ 0) = false ->
   db_utilizavel w = true -> add_succeeds (host w) = true ->
   Compras (exec form_compra_submit w) =
     Compras w ++
     [ Compra.mk (simbolo_lido w) (quantidade_lida w) (VNumber (ofZ 80))
         (mul (ofZ 80) (quantidade_lida w)) (clock (host w) (readings w)) ]).
Proof.
  intros Hne Hs.
  assert (Hp : preco_obtido w (simbolo_lido w) = VNumber (ofZ 80))
    by now apply preco_obtido_fallback.
  split.
  - unfold eval. rewrite run_obterPrecoAtual. simpl. now rewrite Hp.
  - intros Hq Hdb Hadd. rewrite submit_persists; auto.
    + unfold compra_de. now rewrite Hp.
    + unfold invalido. rewrite Hq, orb_false_r. now apply String.eqb_neq.
Qed.

Lemma C10_witness :
  eval (obterPrecoAtual "GASOLINA") (pagina host_exemplo " gasolina" "3")
    = Return (VNumber (ofZ 80)) /\
  Compras (exec form_compra_submit (pagina host_exemplo " gasolina" "3")) =
    [ Compra.mk "GASOLINA" (ofZ 3) (VNumber (ofZ 80)) (ofZ 240) 1000 ] /\
  Compras (exec form_compra_submit (pagina host_exemplo "petróleo" "3")) =
    [ Compra.mk "PETRÓLEO" (ofZ 3) (VNumber (ofZ 80)) (ofZ 240) 1000 ].
Proof.
  destruct (C10_untracked_symbol_priced_at_80
              (pagina host_exemplo " gasolina" "3")) as [Hp Hc].
  - vm_compute. discriminate.
  - replace (simbolo_lido _) with "GASOLINA"%string by (vm_compute; reflexivity).
    unfold simbolos. intros Hin.
    repeat (apply elem_of_cons in Hin as [Hin|Hin]; [discriminate|]).
    inversion Hin.
  - destruct (C10_untracked_symbol_priced_at_80
                (pagina host_exemplo "petróleo" "3")) as [_ Hc'].
    + vm_compute. discriminate.
    + replace (simbolo_lido _) with "PETRÓLEO"%string
        by (vm_compute; reflexivity).
      unfold simbolos. intros Hin.
      repeat (apply elem_of_cons in Hin as [Hin|Hin]; [discriminate|]).
      inversion Hin.
    + split; [exact Hp|]. rewrite Hc, Hc' by (vm_compute; reflexivity).
      split; vm_compute; reflexivity.
Defined.

(** ** Failure after validation *)

(** C7 as stated fails. On a complete page whose database connection is
    closed while the suggestion is awaited, the write of [salvarCompra]
    has gone through when [db.transaction] throws in [carregarHistorico]:
    the error alert is shown, no success is reported, and the record is
    in the store. *)
Lemma C7_counterexample_persisted_yet_error :
  ~ (forall (w : World) (e : exn),
       invalido (simbolo_lido w) (quantidade_lida w) = false ->
       eval (processar_compra (simbolo_lido w) (quantidade_lida w)) w = Throw e ->
       let w' := exec form_compra_submit w in
       In (Alert (Text "❌ " :: mensagem_erro_compra)) (emitted w') /\
       ((Compras w' = Compras w ++ [compra_de w (simbolo_lido w) (quantidade_lida w)] /\
         In (Alert (Text "✅ " :: mensagem_sucesso (quantidade_lida w) (simbolo_lido w)))
            (emitted w')) \/
        Compras w' = Compras w)).
Proof.
  intros H.
  specialize (H (pagina host_ligacao_perdida "BRENT" "10")
                InvalidStateError eq_refl eq_refl).
  cbv zeta in H. destruct H as [_ [[_ Hs] | Hc]].
  - vm_compute in Hs.
    repeat (destruct Hs as [Hs | Hs]; [discriminate|]). destruct Hs.
  - vm_compute in Hc. discriminate.
Qed.

(** C7, amended. When a step throws after validation, the handler logs,
    shows the error alert as its last act and shows no other alert, so no
    success is reported.  The store is never left with anything partial:
    it is unchanged or holds exactly the one complete record more.  It is
    unchanged when the database handle is unusable (the throw is in
    [salvarCompra]); when the handle is usable and the add request
    succeeds, the throw is in a later step ([gerarSugestaoIA] on a page
    without its panel, or [carregarHistorico] on a closed connection) and
    the record stays stored. *)
Theorem C7_error_after_validation (w : World) (e : exn) :
  invalido (simbolo_lido w) (quantidade_lida w) = false ->
  eval (processar_compra (simbolo_lido w) (quantidade_lida w)) w = Throw e ->
  let w' := exec form_compra_submit w in
  (exists evs : list event,
     emitted w' =
       emitted w ++ evs ++
       [ ConsoleError "[v0] ❌ Erro ao processar compra:";
         Alert (Text "❌ " :: mensagem_erro_compra) ] /\
     existsb is_alert evs = false) /\
  (Compras w' = Compras w \/
   Compras w' = Compras w ++ [compra_de w (simbolo_lido w) (quantidade_lida w)]) /\
  (db_utilizavel w = false -> Compras w' = Compras w) /\
  (db_utilizavel w = true -> add_succeeds (host w) = true ->
   Compras w' = Compras w ++ [compra_de w (simbolo_lido w) (quantidade_lida w)]).
Proof.
  intros Hv Ht w'. subst w'.
  repeat split.
  - revert Ht. unfold exec, eval, form_compra_submit.
    cbv [mbind M_bind read]. fold (simbolo_lido w) (quantidade_lida w).
    rewrite Hv.
    generalize (simbolo_lido w) (quantidade_lida w). intros s q.
    destruct w as [[rnd clk con addok getok] dr rd tx dbw pa hs ct cs ph f1 f2 d1 d2 sg lh lp uc em].
    run.
    destruct (preco_sorteado _ _ _ _) as [p|];
      destruct dbw, (con tx), addok, sg, (con (S tx)), getok, lh; cbn;
      try destruct (length _ =? 0)%nat; cbn; try discriminate; intros _.
    all: rewrite <- ?app_assoc; cbn.
    all: try (exists [Timeout 500]; split; reflexivity).
    all: try (exists [Timeout 500; ConsoleError "[v0] ❌ Erro ao salvar compra"];
              split; reflexivity).
    all: try (exists [Timeout 500; Timeout 2000]; split; reflexivity).
    all: try (exists [Timeout 500; ConsoleError "[v0] ❌ Erro ao salvar compra";
                      Timeout 2000]; split; reflexivity).
  - destruct (submit_store_cases w) as [H | [_ H]]; auto.
  - intros Hdb. rewrite Compras_submit, Hv, Compras_processar, Hdb.
    now destruct (preco_obtido w _).
  - intros Hdb Hadd. now apply submit_persists.
Qed.

Lemma C7_witness :
  Compras (exec form_compra_submit
             (set_sugestao_ia None (pagina host_exemplo "BRENT" "10"))) =
    [ Compra.mk "BRENT" (ofZ 10) (VNumber (ofZ 85)) (ofZ 850) 1000 ].
Proof.
  destruct (C7_error_after_validation
              (set_sugestao_ia None (pagina host_exemplo "BRENT" "10"))
              TypeError eq_refl eq_refl) as (_ & _ & _ & H).
  rewrite H by reflexivity. vm_compute. reflexivity.
Defined.

(** ** History listing *)

Section SortFacts.
Context {A : Type} (comparefn : A -> A -> Z).

Lemma sort_insert_perm (x : A) (l : list A) :
  Permutation (sort_insert comparefn x l) (x :: l).
Proof.
  induction l as [|y l IH]; simpl; [reflexivity|].
  destruct (comparefn x y <=? 0); [reflexivity|].
  rewrite IH. apply perm_swap.
Qed.

Lemma Array_sort_perm (l : list A) : Permutation (Array_sort comparefn l) l.
Proof.
  induction l as [|x l IH]; simpl; [reflexivity|].
  rewrite sort_insert_perm. now constructor.
Qed.
End SortFacts.

Lemma nao_mais_antiga_trans (a b c : Compra.t) :
  nao_mais_antiga a b -> nao_mais_antiga b c -> nao_mais_antiga a c.
Proof. unfold nao_mais_antiga. lia. Qed.

Lemma sort_insert_sorted (x : Compra.t) (l : list Compra.t) :
  StronglySorted nao_mais_antiga l ->
  StronglySorted nao_mais_antiga (sort_insert mais_recente_primeiro x l).
Proof.
  induction 1 as [|y l Hl IH Hy]; simpl.
  - repeat constructor.
  - destruct (mais_recente_primeiro x y <=? 0) eqn:Hc.
    + apply Z.leb_le in Hc. unfold mais_recente_primeiro in Hc.
      assert (Hxy : nao_mais_antiga x y) by (unfold nao_mais_antiga; lia).
      constructor; [now constructor|].
      constructor; [exact Hxy|].
      eapply Forall_impl; [exact Hy|].
      intros z Hz. eapply nao_mais_antiga_trans; eauto.
    + apply Z.leb_gt in Hc. unfold mais_recente_primeiro in Hc.
      constructor; [exact IH|].
      rewrite (sort_insert_perm mais_recente_primeiro x l).
      constructor; [unfold nao_mais_antiga; lia | exact Hy].
Qed.

Lemma Array_sort_sorted (l : list Compra.t) :
  StronglySorted nao_mais_antiga (Array_sort mais_recente_primeiro l).
Proof.
  induction l as [|x l IH]; simpl; [constructor|].
  now apply sort_insert_sorted.
Qed.

(** C6. Whatever purchases the store holds, once [getAll] has answered
    the history panel shows exactly those purchases, each once, ordered by
    purchase time with the most recent first. *)
Theorem C6_history_sorted_descending (w : World) (painel : painel_historico) :
  db_utilizavel w = true -> getAll_succeeds (host w) = true ->
  lista_historico w = Some painel ->
  exists painel' : painel_historico,
    lista_historico (exec carregarHistorico w) = Some painel' /\
    Permutation (itens_exibidos painel') (Compras w) /\
    StronglySorted nao_mais_antiga (itens_exibidos painel').
Proof.
  intros Hdb Hget Hp.
  destruct w as [[rnd clk con addok getok] dr rd tx dbw pa hs ct cs ph
                 f1 f2 d1 d2 sg lh lp uc em].
  unfold db_utilizavel in Hdb. simpl in *.
  apply andb_true_iff in Hdb as [-> Hcon]. subst getok lh. run.
  rewrite Hcon.
  destruct cs as [|c cs]; simpl.
  - exists Nenhuma. repeat split; constructor.
  - exists (Itens (Array_sort mais_recente_primeiro (c :: cs))).
    repeat split.
    + apply (Array_sort_perm mais_recente_primeiro (c :: cs)).
    + apply (Array_sort_sorted (c :: cs)).
Qed.

Lemma C6_witness :
  exists painel' : painel_historico,
    lista_historico
      (exec carregarHistorico
         (set_Compras
            [ Compra.mk "WTI" (ofZ 1) (VNumber (ofZ 80)) (ofZ 80) 10;
              Compra.mk "BRENT" (ofZ 2) (VNumber (ofZ 80)) (ofZ 160) 30;
              Compra.mk "OPEC" (ofZ 3) (VNumber (ofZ 80)) (ofZ 240) 20 ]
            (pagina host_exemplo "" ""))) = Some painel' /\
    map Compra.dataCompra (itens_exibidos painel') = [30; 20; 10].
Proof.
  destruct (C6_history_sorted_descending
              (set_Compras
                 [ Compra.mk "WTI" (ofZ 1) (VNumber (ofZ 80)) (ofZ 80) 10;
                   Compra.mk "BRENT" (ofZ 2) (VNumber (ofZ 80)) (ofZ 160) 30;
                   Compra.mk "OPEC" (ofZ 3) (VNumber (ofZ 80)) (ofZ 240) 20 ]
                 (pagina host_exemplo "" ""))
              Nenhuma eq_refl eq_refl eq_refl) as [p [Hp _]].
  exists p. split; [exact Hp|].
  vm_compute in Hp. injection Hp as <-. reflexivity.
Defined.

(** ** Sparkline windows *)

Lemma historicoSparkline_atualizar (s : string) (p : number) (w : World) :
  historicoSparkline (exec (atualizarSparkline s p) w) =
    match historicoSparkline w !! s with
    | Some l => <[s := empurrar l p]> (historicoSparkline w)
    | None =>
        if inherited s then historicoSparkline w
        else <[s := [p]]> (historicoSparkline w)
    end.
Proof.
  destruct w as [hst dr rd tx dbw pa hs ct cs ph f1 f2 d1 d2 sg lh lp uc em].
  unfold exec, atualizarSparkline.
  cbv [mbind M_bind read modify mret M_ret throw historicoSparkline
       set_historicoSparkline snd].
  destruct (hs !! s) as [l|] eqn:Hl.
  - rewrite bool_decide_eq_true_2 by eauto. simpl. now rewrite Hl.
  - rewrite bool_decide_eq_false_2 by (intros [? ?]; discriminate).
    destruct (inherited s); simpl.
    + now rewrite Hl.
    + rewrite lookup_insert_eq. simpl. now rewrite insert_insert_eq.
Qed.

Lemma length_empurrar (l : list number) (p : number) :
  (length l <= 20)%nat -> (length (empurrar l p) <= 20)%nat.
Proof.
  intros Hl. unfold empurrar.
  destruct (20 <? length (l ++ [p]))%nat eqn:Hc.
  - destruct l; simpl in *; [lia|]. rewrite length_app. simpl. lia.
  - apply Nat.ltb_ge in Hc. exact Hc.
Qed.

Lemma janela_aplicar_bound (w : World) (o : sparkline_op) :
  (forall s, (length (janela w s) <= 20)%nat) ->
  forall s, (length (janela (aplicar w o) s) <= 20)%nat.
Proof.
  intros Hw s. unfold janela in *.
  destruct o as [s' p | s' p]; simpl.
  - rewrite historicoSparkline_atualizar.
    pose proof (Hw s') as Hs'.
    destruct (historicoSparkline w !! s') as [l|] eqn:Hl.
    + destruct (decide (s' = s)) as [->|Hne].
      * rewrite lookup_insert_eq. simpl. now apply length_empurrar.
      * rewrite lookup_insert_ne by assumption. apply Hw.
    + destruct (inherited s'); [apply Hw|].
      destruct (decide (s' = s)) as [->|Hne].
      * rewrite lookup_insert_eq. simpl. lia.
      * rewrite lookup_insert_ne by assumption. apply Hw.
  - destruct w as [hst dr rd tx dbw pa hs ct cs ph f1 f2 d1 d2 sg lh lp uc em]. simpl in *.
    destruct (decide (s' = s)) as [->|Hne].
    + rewrite lookup_insert_eq. simpl. lia.
    + rewrite lookup_insert_ne by assumption. apply Hw.
Qed.

Lemma janela_inicial_bound (h : Host) (s q simbolo : string) :
  (length (janela (pagina h s q) simbolo) <= 20)%nat.
Proof.
  unfold janela, pagina, historicoSparkline_inicial. simpl.
  destruct (decide ("BRENT"%string = simbolo)) as [<-|H1];
    [rewrite lookup_insert_eq; simpl; lia | rewrite lookup_insert_ne by assumption].
  destruct (decide ("WTI"%string = simbolo)) as [<-|H2];
    [rewrite lookup_insert_eq; simpl; lia | rewrite lookup_insert_ne by assumption].
  destruct (decide ("OPEC"%string = simbolo)) as [<-|H3];
    [rewrite lookup_singleton_eq; simpl; lia
    | rewrite lookup_singleton_ne by assumption; simpl; lia].
Qed.


(** * The simulator's arithmetic *)

Ltac numeric := vm_compute; first [reflexivity | discriminate].

Lemma ofZ_0 : ofZ 0 = S754_zero false.
Proof. reflexivity. Qed.

Lemma ofZ_1 : ofZ 1 = S754_finite false 4503599627370496 (-52).
Proof. reflexivity. Qed.

Lemma lit_5_10 : lit 5 10 = S754_finite false 4503599627370496 (-53).
Proof. vm_compute. reflexivity. Qed.

Lemma ofZ_100 : ofZ 100 = S754_finite false 7036874417766400 (-46).
Proof. vm_compute. reflexivity. Qed.

Lemma ofZ_20 : ofZ 20 = S754_finite false 5629499534213120 (-48).
Proof. vm_compute. reflexivity. Qed.

(** A draw is a zero, or a positive finite Number with value below 1. *)
Lemma unit_interval_cases (r : number) :
  unit_interval r ->
  (exists s, r = S754_zero s) \/
  (exists m e, r = S754_finite false m e /\ valid r /\ (magQ r < 1)%Q).
Proof.
  intros (Hv & Hle & Hlt).
  destruct r as [s|s| |s m e]; try discriminate.
  - left. eauto.
  - destruct s; discriminate.
  - destruct s; [discriminate|]. right. exists m, e. repeat split; auto.
    assert (H1 : (magQ (ofZ 1) == 1)%Q) by numeric.
    rewrite <- H1. apply SFltb_nonneg_inv.
    + exact Hv.
    + reflexivity.
    + right. eauto.
    + rewrite ofZ_1. right. eauto.
    + exact Hlt.
Qed.

(** The largest value of the format below 1 is [1 - 2^-53]. *)
Lemma below_one (m : positive) (e : Z) :
  valid (S754_finite false m e) ->
  (magQ (S754_finite false m e) < 1)%Q ->
  (magQ (S754_finite false m e) <= 1 - (1 # 2 ^ 53))%Q.
Proof.
  intros Hv Hlt. apply valid_finite_inv in Hv as [(He & Hm & _) _].
  assert (Hg : vpair (2 ^ 53 - 1) (-53))
    by (unfold vpair; rewrite emin_eq; repeat split; lia).
  destruct (gap _ _ _ (Zpos m) e (vpair_cell _ _ Hg)) as [H|H].
  - split; [exact He|lia].
  - simpl magQ. eapply Qle_trans; [exact H|]. numeric.
  - exfalso. simpl magQ in Hlt.
    assert (((inject_Z (2 ^ 53 - 1) + 1) * pow2 (-53) == 1)%Q) by numeric.
    lra.
Qed.

(** ** The confidence percentage *)

(** [r * 20] for a draw [r] stays at or below the largest Number below 20. *)
Lemma mul_20_bound (m : positive) (e : Z) :
  valid (S754_finite false m e) ->
  (magQ (S754_finite false m e) < 1)%Q ->
  let y := mul (S754_finite false m e) (ofZ 20) in
  valid y /\ finite_s false y /\ (magQ y < 20)%Q.
Proof.
  intros Hv Hlt y.
  pose proof (below_one m e Hv Hlt) as Hle.
  assert (Hr : rounds_to false
                 (magQ (S754_finite false m e) * magQ (ofZ 20)) y).
  { unfold y, mul. rewrite ofZ_20. apply (SFmul_rounds false false); [exact Hv|].
    reflexivity. }
  split; [exact (rounds_valid _ _ _ Hr)|].
  assert (H20 : (magQ (ofZ 20) == 20)%Q) by numeric.
  destruct (rounds_upper false _ y 5629499534213119 (-48) Hr) as [Hf Hm].
  - unfold vpair. rewrite emin_eq. repeat split; lia.
  - unfold emax, prec. lia.
  - rewrite H20.
    assert (((1 - (1 # 2 ^ 53)) * 20 <
             (inject_Z 5629499534213119 + (1 # 2)) * pow2 (-48))%Q) by numeric.
    set (x := magQ (S754_finite false m e)) in *. clearbody x. lra.
  - split; [exact Hf|].
    assert ((inject_Z 5629499534213119 * pow2 (-48) < 20)%Q) by numeric.
    lra.
Qed.

Lemma add_70 (k : Z) : 0 <= k <= 19 -> add (ofZ k) (ofZ 70) = ofZ (k + 70).
Proof.
  intros Hk.
  assert (H : k = 0 \/ k = 1 \/ k = 2 \/ k = 3 \/ k = 4 \/ k = 5 \/ k = 6 \/
              k = 7 \/ k = 8 \/ k = 9 \/ k = 10 \/ k = 11 \/ k = 12 \/
              k = 13 \/ k = 14 \/ k = 15 \/ k = 16 \/ k = 17 \/ k = 18 \/
              k = 19) by lia.
  repeat (destruct H as [->|H]; [vm_compute; reflexivity|]).
  subst k. vm_compute. reflexivity.
Qed.

(** [Math.floor] of a Number of the format in [0, 20) is one of the
    integers 0 to 19. *)
Lemma floor_below_20 (y : number) :
  valid y -> finite_s false y -> (magQ y < 20)%Q ->
  exists k : Z, 0 <= k <= 19 /\ floor y = ofZ k.
Proof.
  intros Hv [->|(m & e & ->)] Hlt.
  - exists 0. split; [lia|]. reflexivity.
  - apply valid_finite_inv in Hv as [(He & Hm & Hlo) _]. rewrite emin_eq in *.
    simpl magQ in Hlt. unfold floor.
    destruct (Z.leb_spec 0 e) as [Hpos|Hneg].
    + exfalso.
      assert (2 ^ 52 <= Zpos m) by (apply Hlo; lia).
      assert (inject_Z (2 ^ 52) * pow2 0 <= inject_Z (Zpos m) * pow2 e)%Q.
      { apply Qle_trans with (inject_Z (2 ^ 52) * pow2 e)%Q.
        - apply Qmult_le_l; [reflexivity|]. apply pow2_le. lia.
        - apply Qmult_le_compat_r; [now rewrite <- Zle_Qle|].
          apply Qlt_le_weak, pow2_pos. }
      assert ((20 < inject_Z (2 ^ 52) * pow2 0)%Q) by numeric.
      lra.
    + exists (Z.shiftr (Zpos m) (- e)). split; [|reflexivity].
      rewrite Z.shiftr_div_pow2 by lia.
      assert (Hp : 0 < 2 ^ (- e)) by (apply Z.pow_pos_nonneg; lia).
      split; [apply Z.div_pos; lia|].
      assert (Hk : (inject_Z (Zpos m / 2 ^ (- e)) < 20)%Q).
      { eapply Qle_lt_trans; [|exact Hlt].
        rewrite (pow2_div_Z e) by lia.
        apply Qle_shift_div_l.
        - change 0%Q with (inject_Z 0). rewrite <- Zlt_Qlt. exact Hp.
        - rewrite <- inject_Z_mult, <- Zle_Qle.
          rewrite Z.mul_comm. apply Z.mul_div_le. exact Hp. }
      change 20%Q with (inject_Z 20) in Hk. apply inject_Z_lt_inv in Hk. lia.
Qed.

(** For every draw the confidence is an integer from 70 to 89. *)
Lemma confianca_range (r : number) :
  unit_interval r -> exists c : Z, 70 <= c <= 89 /\ confianca_de r = ofZ c.
Proof.
  intros Hr. destruct (unit_interval_cases r Hr) as [[s ->]|(m & e & -> & Hv & Hlt)].
  - exists 70. split; [lia|]. destruct s; vm_compute; reflexivity.
  - destruct (mul_20_bound m e Hv Hlt) as (Hvy & Hfy & Hy).
    destruct (floor_below_20 _ Hvy Hfy Hy) as (k & Hk & Hfl).
    exists (k + 70). split; [lia|].
    unfold confianca_de. rewrite Hfl. now apply add_70.
Qed.

(** ** The price multiplier *)

Lemma magQ_F2Q_pos (m : positive) (e : Z) :
  F2Q (S754_finite false m e) = magQ (S754_finite false m e).
Proof. reflexivity. Qed.

(** [r - 0.5] has magnitude at most one half. *)
Lemma sub_half_bound (r : number) :
  unit_interval r ->
  let v := sub r (lit 5 10) in
  valid v /\ finite_any v /\ (magQ v <= 1 # 2)%Q.
Proof.
  intros Hr v. subst v. rewrite lit_5_10.
  assert (Hhalf : (F2Q (S754_finite false 4503599627370496 (-53)) == 1 # 2)%Q)
    by numeric.
  assert (Hg : vpair (2 ^ 52) (-53))
    by (unfold vpair; rewrite emin_eq; repeat split; lia).
  assert (Hmid : ((1 # 2) < (inject_Z (2 ^ 52) + (1 # 2)) * pow2 (-53))%Q)
    by numeric.
  assert (Hval : (inject_Z (2 ^ 52) * pow2 (-53) == 1 # 2)%Q) by numeric.
  destruct (unit_interval_cases r Hr) as [[s ->]|(m & e & -> & Hv & Hlt)].
  - simpl. split; [reflexivity|]. split; [exists true; right; eauto|].
    apply Qle_lteq. right. numeric.
  - destruct (SFsub_finite false false m 4503599627370496 e (-53))
      as (z & Hz & Hzv).
    unfold sub. rewrite Hz. rewrite Hhalf, magQ_F2Q_pos in Hzv.
    assert (H0 : (0 < magQ (S754_finite false m e))%Q) by apply magQ_finite_pos.
    set (x := magQ (S754_finite false m e)) in *. clearbody x.
    destruct (normalize_value z _ _ Hzv) as [[_ ->]|[[Hpos Hrd]|[Hneg Hrd]]].
    + split; [reflexivity|]. split; [exists false; now left|]. simpl. lra.
    + destruct (rounds_upper _ _ _ _ _ Hrd Hg) as [Hf Hle];
        [unfold emax, prec; lia | lra |].
      split; [exact (rounds_valid _ _ _ Hrd)|]. split; [now exists false|lra].
    + destruct (rounds_upper _ _ _ _ _ Hrd Hg) as [Hf Hle];
        [unfold emax, prec; lia | lra |].
      split; [exact (rounds_valid _ _ _ Hrd)|]. split; [now exists true|lra].
Qed.

(** Multiplying by 1 keeps the bound. *)
Lemma mul_one_bound (v : number) :
  valid v -> finite_any v -> (magQ v <= 1 # 2)%Q ->
  let v' := mul v (ofZ 1) in
  valid v' /\ finite_any v' /\ (magQ v' <= 1 # 2)%Q.
Proof.
  intros Hv [s [->|(m & e & ->)]] Hle v'; subst v'; rewrite ofZ_1.
  - simpl. split; [reflexivity|]. split; [eexists; now left|]. lra.
  - assert (Hrd := SFmul_rounds s false m 4503599627370496 e (-52) Hv eq_refl).
    assert (H1 : (magQ (S754_finite false 4503599627370496 (-52)) == 1)%Q)
      by numeric.
    assert (Hg : vpair (2 ^ 52) (-53))
      by (unfold vpair; rewrite emin_eq; repeat split; lia).
    assert (Hmid : ((1 # 2) < (inject_Z (2 ^ 52) + (1 # 2)) * pow2 (-53))%Q)
      by numeric.
    assert (Hval : (inject_Z (2 ^ 52) * pow2 (-53) == 1 # 2)%Q) by numeric.
    set (x := magQ (S754_finite s m e)) in *. clearbody x.
    apply (rounds_to_ext _ _ x) in Hrd; [|rewrite H1; ring].
    destruct (rounds_upper _ _ _ _ _ Hrd Hg) as [Hf Hle'];
      [unfold emax, prec; lia | lra |].
    split; [exact (rounds_valid _ _ _ Hrd)|].
    split; [eexists; exact Hf|]. unfold mul. lra.
Qed.

Lemma ofZ_100_value : (magQ (ofZ 100) == 100)%Q.
Proof. numeric. Qed.

(** Dividing by 100 gives at most the Number [0.005] in magnitude. *)
Lemma div_100_bound (v : number) :
  valid v -> finite_any v -> (magQ v <= 1 # 2)%Q ->
  let v' := div v (ofZ 100) in
  valid v' /\ finite_any v' /\
  (magQ v' <= inject_Z 5764607523034235 * pow2 (-60))%Q.
Proof.
  intros Hv [s [->|(m & e & ->)]] Hle v'; subst v'.
  - rewrite ofZ_100. simpl. split; [reflexivity|].
    split; [eexists; now left|]. numeric.
  - pose proof ofZ_100_value as H100. rewrite ofZ_100 in *.
    assert (Hrd := SFdiv_rounds s false m 7036874417766400 e (-46)).
    assert (Hg : vpair 5764607523034235 (-60))
      by (unfold vpair; rewrite emin_eq; repeat split; lia).
    assert (Hmid : ((1 # 200) <
                    (inject_Z 5764607523034235 + (1 # 2)) * pow2 (-60))%Q)
      by numeric.
    set (x := magQ (S754_finite s m e)) in *. clearbody x.
    apply (rounds_to_ext _ _ (x * (1 # 100))) in Hrd;
      [|rewrite H100; field].
    destruct (rounds_upper _ _ _ _ _ Hrd Hg) as [Hf Hle'];
      [unfold emax, prec; lia | lra |].
    split; [exact (rounds_valid _ _ _ Hrd)|].
    split; [eexists; exact Hf|]. exact Hle'.
Qed.

(** Adding 1 lands between the Numbers [0.995] and [1.005]. *)
Lemma add_one_bound (v : number) :
  valid v -> finite_any v ->
  (magQ v <= inject_Z 5764607523034235 * pow2 (-60))%Q ->
  let f := add (ofZ 1) v in
  valid f /\ (exists m e, f = S754_finite false m e) /\
  (magQ (lit 995 1000) <= magQ f /\ magQ f <= magQ (lit 1005 1000))%Q.
Proof.
  intros Hv [s [->|(m & e & ->)]] Hle f; subst f; rewrite ofZ_1.
  - simpl. split; [reflexivity|]. split; [eauto|]. split; numeric.
  - destruct (SFadd_finite false s 4503599627370496 m (-52) e)
      as (z & Hz & Hzv).
    unfold add. rewrite Hz.
    assert (H1 : (F2Q (S754_finite false 4503599627370496 (-52)) == 1)%Q)
      by numeric.
    assert (Hc : (inject_Z 5764607523034235 * pow2 (-60) == 5764607523034235 # 2 ^ 60)%Q)
      by numeric.
    assert (Hhi : ((1 + (5764607523034235 # 2 ^ 60)) <
                   (inject_Z 4526117625507348 + (1 # 2)) * pow2 (-52))%Q)
      by numeric.
    assert (Hlo : (inject_Z 8962163258467287 * pow2 (-53) <=
                   1 - (5764607523034235 # 2 ^ 60))%Q) by numeric.
    assert (Hlo0 : (0 < inject_Z 8962163258467287 * pow2 (-53))%Q) by numeric.
    assert (Hlit_lo : (magQ (lit 995 1000) == inject_Z 8962163258467287 * pow2 (-53))%Q)
      by numeric.
    assert (Hlit_hi : (magQ (lit 1005 1000) == inject_Z 4526117625507348 * pow2 (-52))%Q)
      by numeric.
    assert (Hghi : vpair 4526117625507348 (-52))
      by (unfold vpair; rewrite emin_eq; repeat split; lia).
    assert (Hglo : repr 8962163258467287 (-53))
      by (unfold repr; rewrite emin_eq; repeat split; lia).
    rewrite H1 in Hzv.
    assert (Hs : (F2Q (S754_finite s m e) == magQ (S754_finite s m e) \/
                  F2Q (S754_finite s m e) == - magQ (S754_finite s m e))%Q).
    { destruct s; simpl; [right|left]; ring. }
    assert (H0 : (0 < magQ (S754_finite s m e))%Q) by apply magQ_finite_pos.
    set (x := magQ (S754_finite s m e)) in *.
    set (fx := F2Q (S754_finite s m e)) in *. clearbody x fx.
    assert (Hrange : (1 - (5764607523034235 # 2 ^ 60) <= 1 + fx /\
                      1 + fx <= 1 + (5764607523034235 # 2 ^ 60))%Q)
      by (destruct Hs; lra).
    destruct (normalize_value z _ _ Hzv) as [[H _]|[[Hpos Hrd]|[Hneg _]]];
      [exfalso; lra| |exfalso; lra].
    destruct (rounds_upper _ _ _ _ _ Hrd Hghi) as [Hf Hle'];
      [unfold emax, prec; lia | lra |].
    destruct (rounds_lower _ _ _ _ _ Hrd Hglo) as [Hinf|[_ Hge]]; [lra| |].
    { exfalso. rewrite Hinf in Hf. destruct Hf as [|(? & ? & ?)]; discriminate. }
    split; [exact (rounds_valid _ _ _ Hrd)|].
    split.
    + destruct Hf as [Hzero|Hfin]; [|exact Hfin].
      exfalso. rewrite Hzero in Hge.
      change (magQ (S754_zero false)) with 0%Q in Hge. lra.
    + rewrite Hlit_lo, Hlit_hi. split; assumption.
Qed.

(** For every draw the multiplier is a positive finite Number between
    the Numbers [0.995] and [1.005]. *)
Lemma fator_bounds (r : number) :
  unit_interval r ->
  valid (fator r) /\ (exists m e, fator r = S754_finite false m e) /\
  (magQ (lit 995 1000) <= magQ (fator r) /\
   magQ (fator r) <= magQ (lit 1005 1000))%Q.
Proof.
  intros Hr. unfold fator.
  destruct (sub_half_bound r Hr) as (H1 & H2 & H3).
  destruct (mul_one_bound _ H1 H2 H3) as (H4 & H5 & H6).
  destruct (div_100_bound _ H4 H5 H6) as (H7 & H8 & H9).
  exact (add_one_bound _ H7 H8 H9).
Qed.

(** ** Monotonicity of the product *)

Lemma rounds_shape (s : bool) (X : Q) (y : number) :
  rounds_to s X y -> y = S754_infinity s \/ finite_s s y.
Proof.
  intros (m1 & n & e1 & ((He1 & Hm1 & Hlo & _) & Hn & _) & ->).
  destruct (rounded_cases s m1 n e1 He1 Hm1 Hlo Hn) as [_ [[H _]|[H _]]]; auto.
Qed.

Lemma valid_magQ_inj (m m' : positive) (e e' : Z) :
  valid (S754_finite false m e) -> valid (S754_finite false m' e') ->
  (magQ (S754_finite false m e) == magQ (S754_finite false m' e'))%Q ->
  S754_finite false m e = S754_finite false m' e'.
Proof.
  intros Hv Hv' Heq.
  apply valid_finite_inv in Hv as [Hv _], Hv' as [Hv' _]. simpl in Heq.
  destruct (Z.lt_trichotomy e e') as [Hlt|[->|Hgt]].
  - pose proof (vpair_lt _ _ _ _ Hv Hv' Hlt). lra.
  - apply inject_Z_mult_pow2_inv in Heq. now injection Heq as ->.
  - pose proof (vpair_lt _ _ _ _ Hv' Hv ltac:(lia)). lra.
Qed.


Lemma nonneg_cases (p : number) :
  nonneg p ->
  (exists s, p = S754_zero s) \/ p = S754_infinity false \/
  (exists m e, p = S754_finite false m e).
Proof.
  intros [_ Hle]. destruct p as [s|[]| |[] m e]; try discriminate; eauto.
Qed.


(** The product of a prior price that is not negative and a multiplier
    is again a Number of the format that is not negative. *)
Lemma mul_nonneg (p f : number) :
  nonneg p -> valid f -> (exists m e, f = S754_finite false m e) ->
  nonneg (mul p f).
Proof.
  intros Hp Hf (m & e & ->).
  destruct (nonneg_cases p Hp) as [[s ->]|[->|(mp & ep & ->)]].
  - destruct s; split; reflexivity.
  - split; reflexivity.
  - destruct Hp as [Hp _].
    pose proof (SFmul_rounds false false mp m ep e Hp Hf) as Hr.
    fold (mul (S754_finite false mp ep) (S754_finite false m e)) in Hr.
    split; [exact (rounds_valid _ _ _ Hr)|].
    destruct (rounds_shape _ _ _ Hr) as [->|[->|(m' & e' & ->)]]; reflexivity.
Qed.


Lemma novo_preco_nonneg (anterior r : number) :
  nonneg anterior -> unit_interval r -> nonneg (mul anterior (fator r)).
Proof.
  intros Hp Hr. destruct (fator_bounds r Hr) as (Hv & Hf & _).
  now apply mul_nonneg.
Qed.
(** ** The relative error of rounding *)






(** * Ticks and reachable states *)

Section Garante.
Context (I : World -> Prop).

Lemma garante_ret {A} (a : A) (Q : A -> Prop) : Q a -> garante I (mret a) Q.
Proof. intros Ha w Hw. split; [exact Hw|]. now intros ? [= <-]. Qed.

Lemma garante_throw {A} (e : exn) (Q : A -> Prop) : garante I (throw e) Q.
Proof. intros w Hw. split; [exact Hw|]. intros ? [=]. Qed.

Lemma garante_bind {A B} (m : M A) (k : A -> M B) (Q : A -> Prop)
    (R : B -> Prop) :
  garante I m Q -> (forall a, Q a -> garante I (k a) R) ->
  garante I (m ≫= k) R.
Proof.
  intros Hm Hk w Hw. destruct (Hm w Hw) as [Hi Hq].
  unfold mbind, M_bind. destruct (m w) as [[a|e] w']; simpl in *.
  - apply Hk; auto.
  - split; [exact Hi|]. intros ? [=].
Qed.

Lemma garante_try_catch {A} (body : M A) (handler : exn -> M A)
    (Q : A -> Prop) :
  garante I body Q -> (forall e, garante I (handler e) Q) ->
  garante I (try_catch body handler) Q.
Proof.
  intros Hb Hh w Hw. destruct (Hb w Hw) as [Hi Hq].
  unfold try_catch. destruct (body w) as [[a|e] w']; simpl in *.
  - split; [exact Hi|]. intros ? [= <-]. now apply Hq.
  - apply Hh. exact Hi.
Qed.

Lemma garante_weaken {A} (m : M A) (Q Q' : A -> Prop) :
  garante I m Q -> (forall a, Q a -> Q' a) -> garante I m Q'.
Proof. intros Hm HQ w Hw. destruct (Hm w Hw). split; auto. Qed.

Lemma garante_read {A} (f : World -> A) :
  garante I (read f) (fun _ => True).
Proof. intros w Hw. split; [exact Hw|]. auto. Qed.

Lemma garante_modify (f : World -> World) :
  (forall w, I w -> I (f w)) -> garante I (modify f) (fun _ => True).
Proof. intros Hf w Hw. split; [now apply Hf|]. auto. Qed.

Lemma garante_forEach {A} (f : A -> M unit) (l : list A) :
  Forall (fun x => garante I (f x) (fun _ => True)) l ->
  garante I (forEach f l) (fun _ => True).
Proof.
  induction 1 as [|x l Hx _ IH]; simpl.
  - now apply garante_ret.
  - eapply garante_bind; [exact Hx|]. intros _ _. exact IH.
Qed.
End Garante.

(** A step that leaves the host, the stored prices and the windows alone
    keeps [estavel]. *)
Lemma estavel_frame (h : Host) (w w' : World) :
  host w' = host w -> precosAtuais w' = precosAtuais w ->
  historicoSparkline w' = historicoSparkline w ->
  estavel h w -> estavel h w'.
Proof. unfold estavel. intros -> -> ->. auto. Qed.

Ltac frame := intros; eapply estavel_frame; [ | | | eassumption]; reflexivity.

Section Estavel.
Context (h : Host).

Lemma garante_emit (e : event) : garante (estavel h) (emit e) (fun _ => True).
Proof. apply garante_modify. frame. Qed.

Lemma garante_new_Date : garante (estavel h) new_Date (fun _ => True).
Proof. intros w Hw. split; [|auto]. revert Hw. simpl. frame. Qed.

Lemma garante_db_transaction :
  garante (estavel h) db_transaction (fun _ => True).
Proof.
  intros w Hw. unfold db_transaction. cbv [mbind M_bind read modify mret M_ret throw].
  destruct (db w); simpl; [|auto].
  destruct (connection (host w) (transactions w)); simpl; split; auto;
    revert Hw; frame.
Qed.
End Estavel.

(** ** Windows and stored prices under the updates *)

Lemma limitadas_insert (hs : gmap string (list number)) (s : string)
    (l : list number) :
  limitadas hs -> (length l <= 20)%nat -> limitadas (<[s := l]> hs).
Proof.
  intros Hhs Hl t. destruct (decide (s = t)) as [->|Hne].
  - now rewrite lookup_insert_eq.
  - rewrite lookup_insert_ne by assumption. apply Hhs.
Qed.

Lemma limitadas_inicial : limitadas historicoSparkline_inicial.
Proof.
  intros t. unfold historicoSparkline_inicial.
  destruct (decide ("BRENT"%string = t)) as [<-|H1];
    [rewrite lookup_insert_eq; simpl; lia
    |rewrite lookup_insert_ne by assumption].
  destruct (decide ("WTI"%string = t)) as [<-|H2];
    [rewrite lookup_insert_eq; simpl; lia
    |rewrite lookup_insert_ne by assumption].
  destruct (decide ("OPEC"%string = t)) as [<-|H3];
    [rewrite lookup_singleton_eq; simpl; lia
    |rewrite lookup_singleton_ne by assumption; simpl; lia].
Qed.

Lemma nao_negativos_inicial : nao_negativos precosAtuais_inicial.
Proof. repeat constructor. Qed.

Lemma nao_negativos_insert (atuais : gmap string number) (s : string)
    (p : number) :
  nonneg p -> nao_negativos atuais -> nao_negativos (<[s := p]> atuais).
Proof.
  intros Hp Ha. unfold nao_negativos in *.
  eapply Forall_impl; [exact Ha|]. intros t Ht. cbv beta in *.
  unfold get in *. destruct (decide (s = t)) as [->|Hne].
  - now rewrite lookup_insert_eq.
  - now rewrite lookup_insert_ne by assumption.
Qed.

Lemma exec_atualizarSparkline (s : string) (p : number) (w : World) :
  exec (atualizarSparkline s p) w =
    set_historicoSparkline
      (historicoSparkline (exec (atualizarSparkline s p) w)) w.
Proof.
  destruct w as [hst dr rd tx dbw pa hs ct cs ph f1 f2 d1 d2 sg lh lp uc em].
  unfold exec, atualizarSparkline.
  cbv [mbind M_bind read modify mret M_ret throw historicoSparkline
       set_historicoSparkline snd].
  destruct (hs !! s) as [l|] eqn:Hl.
  - rewrite bool_decide_eq_true_2 by eauto. simpl. now rewrite Hl.
  - rewrite bool_decide_eq_false_2 by (intros [? ?]; discriminate).
    destruct (inherited s); simpl.
    + now rewrite Hl.
    + rewrite lookup_insert_eq. reflexivity.
Qed.

Section Estavel2.
Context (h : Host).

Lemma garante_atualizarSparkline (s : string) (p : number) :
  garante (estavel h) (atualizarSparkline s p) (fun _ => True).
Proof.
  intros w (Hh & Hl & Hp). split; [|auto].
  change (snd (atualizarSparkline s p w)) with (exec (atualizarSparkline s p) w).
  rewrite exec_atualizarSparkline, historicoSparkline_atualizar.
  split; [exact Hh|]. split; [|exact Hp]. simpl.
  destruct (historicoSparkline w !! s) as [l|] eqn:Hls.
  - apply limitadas_insert; [exact Hl|]. apply length_empurrar.
    specialize (Hl s). now rewrite Hls in Hl.
  - destruct (inherited s); [exact Hl|].
    apply limitadas_insert; [exact Hl|]. simpl. lia.
Qed.

Lemma garante_reiniciarSparkline (s : string) (p : number) :
  garante (estavel h) (reiniciarSparkline s p) (fun _ => True).
Proof.
  intros w (Hh & Hl & Hp). split; [|auto].
  destruct w as [hst dr rd tx dbw pa hs ct cs ph f1 f2 d1 d2 sg lh lp uc em].
  simpl in *. split; [exact Hh|]. split; [|exact Hp]. simpl.
  apply limitadas_insert; [exact Hl|]. simpl. lia.
Qed.

(** The update of one card keeps the page stable when the price of the
    quote is not negative. *)
Lemma garante_atualizarCard (preco : Preco.t) (i : nat) :
  (sorteios_validos h -> nonneg (Preco.preco preco)) ->
  garante (estavel h) (atualizarCard preco i) (fun _ => True).
Proof.
  intros Hq w Hw. split; [|auto].
  unfold atualizarCard. cbv [mbind M_bind read].
  destruct (lista_precos w) as [[| |cards|]|]; try exact Hw.
  destruct (cards !! i) as [card|]; [|exact Hw].
  destruct (includes _ _); [|exact Hw].
  cbv [modify]. cbv iota beta.
  match goal with
  | |- context [atualizarSparkline ?s ?p ?w1] =>
      assert (Hw1 : estavel h w1) by (revert Hw; frame);
      destruct (garante_atualizarSparkline s p w1 Hw1) as [Hw2 _];
      destruct (atualizarSparkline s p w1) as [[[]|e] w2]
  end; simpl in *; [|exact Hw2].
  destruct Hw2 as (Hh & Hl & Hp).
  destruct w2 as [hst dr rd tx dbw pa hs ct cs ph f1 f2 d1 d2 sg lh lp uc em].
  simpl in *. split; [exact Hh|]. split; [exact Hl|].
  intros Hs. apply nao_negativos_insert; auto.
Qed.

Lemma garante_atualizarCardPreco (preco : Preco.t) :
  (sorteios_validos h -> nonneg (Preco.preco preco)) ->
  garante (estavel h) (atualizarCardPreco preco) (fun _ => True).
Proof.
  intros Hq. unfold atualizarCardPreco.
  eapply garante_bind; [apply garante_read|]. intros painel _.
  destruct painel as [[| |cards|]|]; try (now apply garante_ret).
  apply garante_forEach. apply Forall_forall. intros i _.
  now apply garante_atualizarCard.
Qed.

Lemma garante_salvarPrecosNoBanco (precos : list Preco.t) :
  garante (estavel h) (salvarPrecosNoBanco precos) (fun _ => True).
Proof.
  unfold salvarPrecosNoBanco.
  eapply garante_bind; [apply garante_db_transaction|]. intros _ _.
  apply garante_forEach. apply Forall_forall. intros preco _.
  eapply garante_bind; [apply garante_read|]. intros [] _.
  - apply garante_modify. frame.
  - apply garante_emit.
Qed.

Lemma garante_atualizarContador :
  garante (estavel h) atualizarContador (fun _ => True).
Proof.
  unfold atualizarContador.
  eapply garante_bind; [apply garante_read|]. intros [t|] _;
    [|now apply garante_ret].
  eapply garante_bind; [apply garante_read|]. intros n _.
  eapply garante_bind; [apply garante_modify; frame|]. intros _ _.
  eapply garante_bind; [apply garante_new_Date|]. intros agora _.
  apply garante_modify. frame.
Qed.
End Estavel2.

(** ** The tick *)

(** A tick reads the stored prices and draws once per symbol, in the
    order BRENT, WTI, OPEC; the simulation itself stores nothing. *)
Lemma run_simularDadosPrecos (w : World) :
  simularDadosPrecos w =
    (Return (cotacoes w),
     set_draws (S (S (S (draws w))))
       (set_emitted (emitted w ++ [Timeout 300]) w)).
Proof.
  destruct w as [hst dr rd tx dbw pa hs ct cs ph f1 f2 d1 d2 sg lh lp uc em].
  unfold simularDadosPrecos, cotacoes, cotacao. simpl.
  rewrite Nat.add_0_r.
  replace (dr + 1)%nat with (S dr) by lia.
  replace (dr + 2)%nat with (S (S dr)) by lia.
  reflexivity.
Qed.

Section Estavel3.
Context (h : Host).

Lemma garante_simularDadosPrecos :
  garante (estavel h) simularDadosPrecos
    (fun precos =>
       sorteios_validos h -> Forall (fun q => nonneg (Preco.preco q)) precos).
Proof.
  intros w Hw. rewrite run_simularDadosPrecos. simpl. split.
  - revert Hw. frame.
  - intros precos [= <-] Hs. destruct Hw as (Hh & _ & Hp).
    specialize (Hp Hs). subst h. unfold nao_negativos, simbolos in Hp.
    apply Forall_cons in Hp as [Hp1 Hp]. apply Forall_cons in Hp as [Hp2 Hp].
    apply Forall_cons in Hp as [Hp3 _].
    unfold cotacoes, cotacao. repeat constructor; simpl Preco.preco;
      apply novo_preco_nonneg; auto.
Qed.

Lemma garante_carregarPrecos :
  garante (estavel h) carregarPrecos (fun _ => True).
Proof.
  unfold carregarPrecos. apply garante_try_catch.
  - eapply garante_bind; [apply garante_read|]. intros [p|] _;
      [|apply garante_throw].
    eapply garante_bind.
    { destruct (sem_cards p); [apply garante_modify; frame|now apply garante_ret]. }
    intros _ _.
    eapply garante_bind; [apply garante_simularDadosPrecos|]. intros precos Hq.
    eapply garante_bind; [apply garante_read|]. intros painel _.
    eapply garante_bind.
    { assert (Hupd : garante (estavel h) (forEach atualizarCardPreco precos)
                       (fun _ => True)).
      { apply garante_forEach. apply Forall_forall. intros q Hin.
        apply garante_atualizarCardPreco. intros Hs.
        exact (proj1 (Forall_forall _ _) (Hq Hs) q Hin). }
      destruct painel as [[| |cards|]|]; try exact Hupd.
      eapply garante_bind; [apply garante_modify; frame|]. intros _ _.
      apply garante_forEach. apply Forall_forall. intros q _.
      apply garante_reiniciarSparkline. }
    intros _ _.
    eapply garante_bind; [apply garante_salvarPrecosNoBanco|]. intros _ _.
    apply garante_atualizarContador.
  - intros e.
    eapply garante_bind; [apply garante_emit|]. intros _ _.
    eapply garante_bind; [apply garante_read|]. intros [p|] _.
    + apply garante_modify. frame.
    + apply garante_throw.
Qed.
End Estavel3.

(** ** The purchase workflow leaves prices and windows alone *)

Lemma carregarHistorico_frame (w : World) :
  host (exec carregarHistorico w) = host w /\
  precosAtuais (exec carregarHistorico w) = precosAtuais w /\
  historicoSparkline (exec carregarHistorico w) = historicoSparkline w.
Proof.
  destruct w as [[rnd clk con addok getok] dr rd tx dbw pa hs ct cs ph
                 f1 f2 d1 d2 sg lh lp uc em].
  run. destruct dbw, (con tx), getok, lh; try (repeat split; reflexivity).
  destruct (length cs =? 0)%nat; repeat split; reflexivity.
Qed.

Lemma form_compra_submit_frame (w : World) :
  host (exec form_compra_submit w) = host w /\
  precosAtuais (exec form_compra_submit w) = precosAtuais w /\
  historicoSparkline (exec form_compra_submit w) = historicoSparkline w.
Proof.
  destruct w as [[rnd clk con addok getok] dr rd tx dbw pa hs ct cs ph
                 f1 f2 d1 d2 sg lh lp uc em].
  run. destruct (invalido _ _); [repeat split; reflexivity|].
  destruct (preco_sorteado _ _ _ _) as [p|];
    destruct dbw, (con tx), addok, sg, (con (S tx)), getok, lh;
    try (repeat split; reflexivity).
  all: destruct (length _ =? 0)%nat; repeat split; reflexivity.
Qed.

(** ** Reachable states *)

Lemma passo_estavel (h : Host) (w w' : World) :
  passo w w' -> estavel h w -> estavel h w'.
Proof.
  intros [| |s q|] Hw.
  - exact (proj1 (garante_carregarPrecos h w Hw)).
  - destruct (carregarHistorico_frame w) as (H1 & H2 & H3).
    eapply estavel_frame; eauto.
  - revert Hw. frame.
  - destruct (form_compra_submit_frame w) as (H1 & H2 & H3).
    eapply estavel_frame; eauto.
Qed.

(** Every reachable state is stable for its host. *)
Lemma alcancavel_estavel (w : World) : alcancavel w -> estavel (host w) w.
Proof.
  intros (w0 & [Hp Hs] & Hsteps).
  assert (H0 : estavel (host w0) w0).
  { split; [reflexivity|]. rewrite Hp, Hs.
    split; [exact limitadas_inicial|]. intros _. exact nao_negativos_inicial. }
  assert (H : estavel (host w0) w).
  { clear Hp Hs. generalize dependent (host w0). intros h H0.
    induction Hsteps as [|w1 w2 w3 Hstep _ IH]; [exact H0|].
    apply IH. eapply passo_estavel; eauto. }
  destruct H as [Hh H]. rewrite <- Hh in H. split; [reflexivity|exact H].
Qed.

(** ** The windows in reachable states *)

(** C3. Starting from the loaded page, after any sequence of sparkline
    updates (and window restarts) no window holds more than 20 prices,
    and the same holds in every state the page reaches through ticks,
    history refreshes and submissions; one update appends the new price,
    dropping the oldest price, and only that one, exactly when the window
    was already full. *)
Theorem C3_sparkline_window_bounded_fifo
    (h : Host) (s q : string) (ops : list sparkline_op) (simbolo : string) :
  (length (janela (foldl aplicar (pagina h s q) ops) simbolo) <= 20)%nat /\
  (forall w : World,
     alcancavel w -> (length (janela w simbolo) <= 20)%nat) /\
  (forall (w : World) (preco : number),
     inherited simbolo = false ->
     (length (janela w simbolo) <= 20)%nat ->
     janela (exec (atualizarSparkline simbolo preco) w) simbolo =
       if (length (janela w simbolo) <? 20)%nat
       then janela w simbolo ++ [preco]
       else tail (janela w simbolo) ++ [preco]).
Proof.
  split; [|split].
  - revert simbolo.
    assert (H : forall w, (forall x, (length (janela w x) <= 20)%nat) ->
                forall x, (length (janela (foldl aplicar w ops) x) <= 20)%nat).
    { induction ops as [|o ops IH]; intros w Hw; simpl; [exact Hw|].
      apply IH. now apply janela_aplicar_bound. }
    apply H. intros x. apply janela_inicial_bound.
  - intros w Hw. destruct (alcancavel_estavel w Hw) as (_ & Hl & _).
    apply Hl.
  - intros w preco Hi Hlen. unfold janela in *.
    rewrite historicoSparkline_atualizar.
    destruct (historicoSparkline w !! simbolo) as [l|] eqn:Hl; simpl in *.
    + rewrite lookup_insert_eq. simpl. unfold empurrar.
      rewrite length_app. simpl.
      destruct (length l <? 20)%nat eqn:Hc.
      * apply Nat.ltb_lt in Hc.
        destruct (20 <? length l + 1)%nat eqn:Hc'; [|reflexivity].
        apply Nat.ltb_lt in Hc'. lia.
      * apply Nat.ltb_ge in Hc.
        destruct (20 <? length l + 1)%nat eqn:Hc'.
        -- destruct l; [simpl in Hc; lia | reflexivity].
        -- apply Nat.ltb_ge in Hc'. lia.
    + rewrite Hi, lookup_insert_eq. reflexivity.
Qed.


(** ** The tick *)




(** ** The suggestion *)

(** C8. Whatever the symbol, the quantity and the price, and whatever
    Numbers in [0, 1) are drawn, [simularRespostaIA] waits once, for 2000
    ms, and returns the sentence of the template with a confidence that is
    an integer from 70 to 89 (so within 70-90) and with one of the two
    trend labels, "alta" or "baixa". *)
Theorem C8_suggestion_confidence_and_trend
    (simbolo : string) (quantidade preco : number) (w : World) :
  unit_interval (random (host w) (S (draws w))) ->
  exists (c : Z) (t : tendencia),
    70 <= c <= 89 /\
    (tendencia_texto t = "alta" \/ tendencia_texto t = "baixa")%string /\
    simularRespostaIA simbolo quantidade (VNumber preco) w =
      (Return (texto_sugestao (ofZ c) quantidade simbolo preco
                 (mul quantidade preco) t),
       set_draws (S (S (draws w)))
         (set_emitted (emitted w ++ [Timeout 2000]) w)) /\
    In (Show (ofZ c))
       (texto_sugestao (ofZ c) quantidade simbolo preco
          (mul quantidade preco) t) /\
    In (Text (tendencia_texto t))
       (texto_sugestao (ofZ c) quantidade simbolo preco
          (mul quantidade preco) t).
Proof.
  intros Hr. destruct (confianca_range _ Hr) as (c & Hc & Hconf).
  exists c, (tendencia_de (random (host w) (draws w))).
  split; [exact Hc|]. split; [destruct (tendencia_de _); auto|].
  split.
  - destruct w as [hst dr rd tx dbw pa hs ct cs ph f1 f2 d1 d2 sg lh lp uc em].
    unfold simularRespostaIA. simpl in *. rewrite <- Hconf. reflexivity.
  - split; simpl; auto 20.
Qed.

Lemma C8_witness :
  exists (c : Z) (t : tendencia),
    70 <= c <= 89 /\
    eval (simularRespostaIA "WTI" (ofZ 10) (VNumber (ofZ 82)))
      (pagina host_exemplo "" "") =
      Return (texto_sugestao (ofZ c) (ofZ 10) "WTI" (ofZ 82) (ofZ 820) t).
Proof.
  destruct (C8_suggestion_confidence_and_trend "WTI" (ofZ 10) (ofZ 82)
              (pagina host_exemplo "" "")) as (c & t & Hc & _ & Hrun & _).
  - repeat split.
  - exists c, t. split; [exact Hc|]. unfold eval. rewrite Hrun. reflexivity.
Defined.

(** * Further properties of the ticks *)

(** Runs a tick symbolically, once [simularDadosPrecos] has been
    rewritten to its result. *)
Ltac run_tick :=
  cbv [exec eval mbind M_bind mret M_ret throw try_catch read modify emit
       timeout Math_random new_Date db_transaction forEach
       reiniciarSparkline salvarPrecosNoBanco atualizarContador
       atualizarCardPreco sem_cards cotacoes
       host draws readings transactions db precosAtuais historicoSparkline
       contadorAtualizacoes Compras PrecosHistoricos campo_simbolo
       campo_quantidade padrao_simbolo padrao_quantidade sugestao_ia
       lista_historico lista_precos
       update_counter emitted
       set_draws set_readings set_transactions set_precosAtuais
       set_historicoSparkline set_contadorAtualizacoes set_Compras
       set_PrecosHistoricos set_campos set_sugestao_ia set_lista_historico
       set_lista_precos set_update_counter set_emitted
       random clock connection add_succeeds getAll_succeeds fst snd
       db_utilizavel andb sem_cartoes janela].

Ltac start_tick :=
  unfold exec, carregarPrecos, try_catch; cbv [mbind M_bind read modify].

(** One tick on a page whose database never opened. *)
Lemma tick_sem_banco (w : World) :
  db w = false -> sem_cartoes w = true ->
  let w' := exec carregarPrecos w in
  db w' = false /\ sem_cartoes w' = true /\
  lista_precos w' = Some ErroPrecos /\
  precosAtuais w' = precosAtuais w /\
  Compras w' = Compras w /\
  PrecosHistoricos w' = PrecosHistoricos w /\
  contadorAtualizacoes w' = contadorAtualizacoes w /\
  update_counter w' = update_counter w.
Proof.
  intros Hdb Hs w'. subst w'. revert Hdb Hs.
  start_tick.
  destruct (lista_precos w) as [p|] eqn:Hl;
    [|unfold sem_cartoes; rewrite Hl; discriminate].
  unfold sem_cartoes at 1. rewrite Hl.
  destruct p as [| |[|c cs]|]; try discriminate;
    cbv [sem_cards mret M_ret modify];
    rewrite run_simularDadosPrecos;
    destruct w as [hst dr rd tx dbw pa hs ct cs' ph f1 f2 d1 d2 sg lh lp uc em];
    simpl in Hl; subst lp; run_tick; intros -> _; repeat split; reflexivity.
Qed.

(** X1. On a page whose database never opened ([db] is unset) and whose
    price list shows no card, every tick ends in the error message: after
    any positive number of ticks the list shows the error, the stored
    current prices are the ones before the first tick, no quote has been
    stored and the update counter has not moved. *)
Theorem X1_ticks_without_database (w : World) (n : nat) :
  db w = false -> sem_cartoes w = true ->
  let w' := Nat.iter (S n) (exec carregarPrecos) w in
  lista_precos w' = Some ErroPrecos /\
  precosAtuais w' = precosAtuais w /\
  PrecosHistoricos w' = PrecosHistoricos w /\
  contadorAtualizacoes w' = contadorAtualizacoes w /\
  update_counter w' = update_counter w.
Proof.
  intros Hdb Hs.
  assert (H : forall k,
             let w' := Nat.iter (S k) (exec carregarPrecos) w in
             db w' = false /\ sem_cartoes w' = true /\
             lista_precos w' = Some ErroPrecos /\
             precosAtuais w' = precosAtuais w /\
             PrecosHistoricos w' = PrecosHistoricos w /\
             contadorAtualizacoes w' = contadorAtualizacoes w /\
             update_counter w' = update_counter w).
  { induction k as [|k IH].
    - destruct (tick_sem_banco w Hdb Hs) as (H1 & H2 & H3 & H4 & _ & H5).
      simpl. tauto.
    - destruct IH as (H1 & H2 & _ & H4 & H5 & H6 & H7).
      destruct (tick_sem_banco _ H1 H2) as (G1 & G2 & G3 & G4 & _ & G5 & G6 & G7).
      change (Nat.iter (S (S k)) (exec carregarPrecos) w)
        with (exec carregarPrecos (Nat.iter (S k) (exec carregarPrecos) w)).
      cbv zeta. rewrite G4, G5, G6, G7. tauto. }
  intros w'. subst w'. specialize (H n). cbv zeta in H. tauto.
Qed.

Lemma X1_witness :
  lista_precos
    (Nat.iter 3 (exec carregarPrecos) (pagina_sem_banco host_exemplo))
  = Some ErroPrecos.
Proof.
  exact (proj1 (X1_ticks_without_database (pagina_sem_banco host_exemplo) 2
                  eq_refl eq_refl)).
Defined.

(** X2. The first tick on a page with a usable database: the price list
    gets one card per quote, in the order BRENT, WTI, OPEC, and the
    sparkline window of each symbol restarts from the price of its quote;
    the quotes are stored in [PrecosHistoricos] when the add requests
    succeed; but the current prices [precosAtuais] are left as they were,
    so the next tick starts again from the prices before this one. *)
Theorem X2_first_tick_creates_cards (w : World) (p : painel_precos) :
  lista_precos w = Some p -> sem_cards p = true -> db_utilizavel w = true ->
  let w' := exec carregarPrecos w in
  lista_precos w' = Some (Cards (cotacoes w)) /\
  map Preco.simbolo (cotacoes w) = simbolos /\
  precosAtuais w' = precosAtuais w /\
  Forall (fun q => janela w' (Preco.simbolo q) = [Preco.preco q])
    (cotacoes w) /\
  PrecosHistoricos w' =
    (if add_succeeds (host w) then PrecosHistoricos w ++ cotacoes w
     else PrecosHistoricos w) /\
  Compras w' = Compras w.
Proof.
  intros Hl Hs Hdb w'. subst w'. revert Hdb.
  start_tick. rewrite Hl, Hs. cbv [mret M_ret modify].
  rewrite run_simularDadosPrecos.
  destruct w as [[rnd clk con addok getok] dr rd tx dbw pa hs ct cs' ph
                 f1 f2 d1 d2 sg lh lp uc em].
  simpl in Hl; subst lp. run_tick.
  destruct dbw; [|discriminate]. destruct (con tx); [|discriminate].
  intros _.
  destruct addok, uc; repeat split; try reflexivity.
  all: try (rewrite <- !app_assoc; reflexivity).
  all: unfold cotacao; repeat constructor; simpl.
  all: try (now rewrite lookup_insert_eq).
  all: rewrite lookup_insert_ne by discriminate;
       try (now rewrite lookup_insert_eq).
  all: rewrite lookup_insert_ne by discriminate;
       now rewrite lookup_insert_eq.
Qed.

Lemma X2_witness :
  lista_precos (exec carregarPrecos (pagina host_exemplo "" "")) =
    Some (Cards (cotacoes (pagina host_exemplo "" ""))).
Proof.
  exact (proj1 (X2_first_tick_creates_cards (pagina host_exemplo "" "")
                  SemFilhos eq_refl eq_refl eq_refl)).
Defined.

(** One tick on a page whose price list shows the error message. *)
Lemma tick_erro (w : World) :
  lista_precos w = Some ErroPrecos ->
  let w' := exec carregarPrecos w in
  lista_precos w' = Some ErroPrecos /\
  precosAtuais w' = precosAtuais w /\
  PrecosHistoricos w' =
    (if db_utilizavel w && add_succeeds (host w)
     then PrecosHistoricos w ++ cotacoes w else PrecosHistoricos w).
Proof.
  intros Hl w'. subst w'. start_tick. rewrite Hl.
  cbv [sem_cards mret M_ret modify]. rewrite run_simularDadosPrecos.
  destruct w as [[rnd clk con addok getok] dr rd tx dbw pa hs ct cs' ph
                 f1 f2 d1 d2 sg lh lp uc em].
  simpl in Hl; subst lp. unfold db_utilizavel. run_tick.
  destruct dbw, (con tx), addok, uc; repeat split; try reflexivity.
  all: rewrite <- !app_assoc; reflexivity.
Qed.

(** X3. The error message of the price list is permanent.  Once the list
    shows it, every later tick finds neither the spinner nor a card:
    whatever the database does, after any number of ticks the list still
    shows the error and the current prices are the ones from before.  The
    ticks go on all the same: with a usable database the next tick
    stores its three quotes, drawn around the unchanged prices. *)
Theorem X3_price_error_is_permanent (w : World) (n : nat) :
  lista_precos w = Some ErroPrecos ->
  let w' := Nat.iter n (exec carregarPrecos) w in
  lista_precos w' = Some ErroPrecos /\
  precosAtuais w' = precosAtuais w /\
  (db_utilizavel w' = true -> add_succeeds (host w') = true ->
   PrecosHistoricos (exec carregarPrecos w') =
     PrecosHistoricos w' ++ cotacoes w').
Proof.
  intros Hl.
  assert (H : lista_precos (Nat.iter n (exec carregarPrecos) w) =
                Some ErroPrecos /\
              precosAtuais (Nat.iter n (exec carregarPrecos) w) =
                precosAtuais w).
  { induction n as [|n [H1 H2]]; [simpl; auto|].
    destruct (tick_erro _ H1) as (G1 & G2 & _).
    change (Nat.iter (S n) (exec carregarPrecos) w)
      with (exec carregarPrecos (Nat.iter n (exec carregarPrecos) w)).
    rewrite G2. auto. }
  cbv zeta. destruct H as [H1 H2]. split; [exact H1|]. split; [exact H2|].
  intros Hdb Hadd. destruct (tick_erro _ H1) as (_ & _ & G3).
  now rewrite G3, Hdb, Hadd.
Qed.

Lemma X3_witness :
  lista_precos
    (Nat.iter 5 (exec carregarPrecos)
       (exec carregarPrecos (pagina_sem_banco host_exemplo)))
  = Some ErroPrecos.
Proof.
  exact (proj1 (X3_price_error_is_permanent
                  (exec carregarPrecos (pagina_sem_banco host_exemplo)) 5
                  eq_refl)).
Defined.

(** ** Ticks on a page that shows the cards *)

Ltac em_simbolos :=
  unfold simbolos;
  repeat first [apply list_elem_of_here | apply list_elem_of_further].

Lemma run_atualizarSparkline (s : string) (p : number) (w : World) :
  inherited s = false ->
  atualizarSparkline s p w =
    (Return tt,
     set_historicoSparkline
       (<[s := empurrar (janela w s) p]> (historicoSparkline w)) w).
Proof.
  intros Hi.
  destruct w as [hst dr rd tx dbw pa hs ct cs ph f1 f2 d1 d2 sg lh lp uc em].
  unfold atualizarSparkline, janela.
  cbv [mbind M_bind read modify mret M_ret throw historicoSparkline
       set_historicoSparkline].
  rewrite Hi. destruct (hs !! s) as [l|] eqn:Hl.
  - rewrite bool_decide_eq_true_2 by eauto. simpl. now rewrite Hl.
  - rewrite bool_decide_eq_false_2 by (intros [? ?]; discriminate).
    simpl. rewrite lookup_insert_eq. simpl. now rewrite insert_insert_eq.
Qed.

(** The symbol text of a card includes the symbol of a quote exactly when
    the card is the one of that symbol: none of the three symbols occurs
    in the text of another card. *)
Lemma includes_texto_simbolo (card : Preco.t) (s : string) :
  Preco.simbolo card ∈ simbolos -> s ∈ simbolos ->
  includes (texto_simbolo card) s = bool_decide (Preco.simbolo card = s).
Proof.
  intros Hc Hs. unfold texto_simbolo, seta.
  destruct card as [sc nm pr vr md]. simpl in *.
  unfold simbolos in *.
  repeat (apply elem_of_cons in Hc as [->|Hc]);
    [| | |now apply elem_of_nil in Hc];
    (repeat (apply elem_of_cons in Hs as [->|Hs]);
     [| | |now apply elem_of_nil in Hs]);
    destruct (leb (ofZ 0) vr); vm_compute; reflexivity.
Qed.

Lemma run_atualizarCard (preco : Preco.t) (i : nat) (w : World)
    (cards : list Preco.t) (card : Preco.t) :
  lista_precos w = Some (Cards cards) -> cards !! i = Some card ->
  Preco.simbolo card ∈ simbolos -> Preco.simbolo preco ∈ simbolos ->
  atualizarCard preco i w =
    if bool_decide (Preco.simbolo card = Preco.simbolo preco) then
      (Return tt,
       set_precosAtuais
         (<[Preco.simbolo preco := Preco.preco preco]> (precosAtuais w))
         (set_historicoSparkline
            (<[Preco.simbolo preco :=
                 empurrar (janela w (Preco.simbolo preco)) (Preco.preco preco)]>
               (historicoSparkline w))
            (set_lista_precos
               (Some (Cards (<[i := card_atualizado card preco]> cards))) w)))
    else (Return tt, w).
Proof.
  intros Hl Hi Hc Hs. unfold atualizarCard. cbv [mbind M_bind read].
  rewrite Hl, Hi, includes_texto_simbolo by assumption.
  destruct (bool_decide _); [|reflexivity].
  cbv [modify]. rewrite run_atualizarSparkline.
  - reflexivity.
  - unfold simbolos in Hs.
    repeat (apply elem_of_cons in Hs as [->|Hs]); try reflexivity.
    now apply elem_of_nil in Hs.
Qed.

Lemma run_atualizarCardPreco (preco : Preco.t) (w : World)
    (cards : list Preco.t) :
  lista_precos w = Some (Cards cards) ->
  map Preco.simbolo cards = simbolos ->
  Preco.simbolo preco ∈ simbolos ->
  atualizarCardPreco preco w = (Return tt, apos_cotacao preco w).
Proof.
  intros Hl Hc Hs. unfold apos_cotacao. rewrite Hl.
  destruct cards as [|c1 [|c2 [|c3 [|]]]]; try discriminate.
  injection Hc as H1 H2 H3.
  assert (Hin : forall c, c ∈ [c1; c2; c3] -> Preco.simbolo c ∈ simbolos).
  { intros c Hc. unfold simbolos.
    repeat (apply elem_of_cons in Hc as [->|Hc]);
      [rewrite H1|rewrite H2|rewrite H3|now apply elem_of_nil in Hc];
      em_simbolos. }
  destruct c1 as [s1 n1 p1 v1 m1], c2 as [s2 n2 p2 v2 m2],
           c3 as [s3 n3 p3 v3 m3].
  simpl in H1, H2, H3. subst s1 s2 s3.
  destruct preco as [s n p v m]. simpl in Hs.
  unfold atualizarCardPreco. cbv [mbind M_bind read]. rewrite Hl.
  simpl length. simpl seq. simpl forEach. cbv [mbind M_bind].
  unfold simbolos in Hs.
  repeat (apply elem_of_cons in Hs as [->|Hs]);
    [| | |now apply elem_of_nil in Hs].
  all: repeat
         (erewrite run_atualizarCard;
          [ | simpl; first [exact Hl | reflexivity] | reflexivity
            | simpl; unfold simbolos; em_simbolos
            | simpl; unfold simbolos; em_simbolos ];
          simpl bool_decide; cbv iota).
  all: destruct w as [hst dr rd tx dbw pa hs ct cs ph f1 f2 d1 d2 sg lh lp uc em];
       reflexivity.
Qed.

(** X4. A tick on a page that shows the three cards and has a usable
    database: every card gets the price and the variation of the quote
    of its own symbol and of no other; the price of each quote becomes
    the current price of its symbol and is pushed on the sparkline window
    of the symbol; the quotes are stored when the add requests succeed. *)
Theorem X4_later_tick_updates_cards (w : World) (cards : list Preco.t) :
  lista_precos w = Some (Cards cards) ->
  map Preco.simbolo cards = simbolos ->
  db_utilizavel w = true ->
  let w' := exec carregarPrecos w in
  lista_precos w' = Some (Cards (zip_with card_atualizado cards (cotacoes w))) /\
  Forall (fun q =>
            precosAtuais w' !! Preco.simbolo q = Some (Preco.preco q) /\
            janela w' (Preco.simbolo q) =
              empurrar (janela w (Preco.simbolo q)) (Preco.preco q))
    (cotacoes w) /\
  PrecosHistoricos w' =
    (if add_succeeds (host w) then PrecosHistoricos w ++ cotacoes w
     else PrecosHistoricos w).
Proof.
  intros Hl Hc Hdb w'.
  assert (E : w' = exec carregarPrecos w) by reflexivity.
  clearbody w'. revert Hdb E.
  destruct cards as [|c1 [|c2 [|c3 [|]]]]; try discriminate.
  destruct c1 as [s1 n1 p1 v1 m1], c2 as [s2 n2 p2 v2 m2],
           c3 as [s3 n3 p3 v3 m3].
  injection Hc as H1 H2 H3. subst s1 s2 s3.
  start_tick. rewrite Hl. cbv [sem_cards mret M_ret modify].
  rewrite run_simularDadosPrecos.
  destruct w as [[rnd clk con addok getok] dr rd tx dbw pa hs ct cs' ph
                 f1 f2 d1 d2 sg lh lp uc em].
  simpl in Hl; subst lp.
  cbv [lista_precos set_draws set_emitted]. cbv iota beta.
  unfold cotacoes at 1. simpl forEach. cbv [mbind M_bind].
  do 3 (erewrite run_atualizarCardPreco;
        [|reflexivity|reflexivity|simpl; em_simbolos];
        unfold apos_cotacao at 1; simpl lista_precos; cbv iota beta;
        simpl map).
  run_tick.
  destruct dbw; [|discriminate]. destruct (con tx); [|discriminate].
  intros _.
  unfold janela.
  destruct addok, uc; simpl; intros ->; simpl; repeat split;
    try reflexivity.
  all: try (rewrite <- !app_assoc; reflexivity).
  all: unfold cotacao; repeat constructor; simpl.
  all: repeat first [ rewrite lookup_insert_eq
                    | rewrite lookup_insert_ne by discriminate ];
       reflexivity.
Qed.

Lemma X4_witness :
  precosAtuais
    (exec carregarPrecos (exec carregarPrecos (pagina host_exemplo "" "")))
    !! "BRENT"%string =
  Some (mul (lit 855 10) (fator (lit 25 100))).
Proof.
  destruct (X4_later_tick_updates_cards
              (exec carregarPrecos (pagina host_exemplo "" ""))
              (cotacoes (pagina host_exemplo "" ""))
              eq_refl eq_refl eq_refl) as (_ & H & _).
  apply Forall_cons in H as [[H _] _]. exact H.
Defined.

(** ** The stores only grow *)

Lemma so_acrescenta_refl (w : World) : so_acrescenta w w.
Proof. repeat split; reflexivity. Qed.

Lemma so_acrescenta_frame (w0 w w' : World) :
  host w' = host w -> db w' = db w -> Compras w' = Compras w ->
  PrecosHistoricos w' = PrecosHistoricos w -> emitted w' = emitted w ->
  so_acrescenta w0 w -> so_acrescenta w0 w'.
Proof. unfold so_acrescenta. intros -> -> -> -> ->. auto. Qed.

Lemma so_acrescenta_emitted (w0 w : World) (evs : list event) :
  so_acrescenta w0 w ->
  so_acrescenta w0 (set_emitted (emitted w ++ evs) w).
Proof.
  intros (H1 & H2 & H3 & H4 & H5). repeat split; auto.
  simpl. now apply prefix_app_r.
Qed.

Lemma so_acrescenta_PrecosHistoricos (w0 w : World) (l : list Preco.t) :
  so_acrescenta w0 w ->
  so_acrescenta w0 (set_PrecosHistoricos (PrecosHistoricos w ++ l) w).
Proof.
  intros (H1 & H2 & H3 & H4 & H5). repeat split; auto.
  simpl. now apply prefix_app_r.
Qed.

Lemma so_acrescenta_Compras (w0 w : World) (l : list Compra.t) :
  so_acrescenta w0 w ->
  so_acrescenta w0 (set_Compras (Compras w ++ l) w).
Proof.
  intros (H1 & H2 & H3 & H4 & H5). repeat split; auto.
  simpl. now apply prefix_app_r.
Qed.

Ltac frame_stores :=
  intros; eapply so_acrescenta_frame; [ | | | | | eassumption]; reflexivity.

Section Acrescenta.
Context (w0 : World).

Let Inv : World -> Prop := so_acrescenta w0.

Lemma acrescenta_emit (e : event) : garante Inv (emit e) (fun _ => True).
Proof.
  apply garante_modify. intros w Hw. now apply so_acrescenta_emitted.
Qed.

Lemma acrescenta_new_Date : garante Inv new_Date (fun _ => True).
Proof. intros w Hw. split; [|auto]. revert Hw. simpl. frame_stores. Qed.

Lemma acrescenta_Math_random : garante Inv Math_random (fun _ => True).
Proof. intros w Hw. split; [|auto]. revert Hw. simpl. frame_stores. Qed.

Lemma acrescenta_db_transaction : garante Inv db_transaction (fun _ => True).
Proof.
  intros w Hw. unfold db_transaction.
  cbv [mbind M_bind read modify mret M_ret throw].
  destruct (db w); simpl; [|auto].
  destruct (connection (host w) (transactions w)); simpl; split; auto;
    revert Hw; frame_stores.
Qed.

Lemma acrescenta_atualizarSparkline (s : string) (p : number) :
  garante Inv (atualizarSparkline s p) (fun _ => True).
Proof.
  intros w Hw. split; [|auto].
  change (snd (atualizarSparkline s p w))
    with (exec (atualizarSparkline s p) w).
  rewrite exec_atualizarSparkline. revert Hw. frame_stores.
Qed.

Lemma acrescenta_reiniciarSparkline (s : string) (p : number) :
  garante Inv (reiniciarSparkline s p) (fun _ => True).
Proof. intros w Hw. split; [|auto]. revert Hw. simpl. frame_stores. Qed.

Lemma acrescenta_atualizarCardPreco (preco : Preco.t) :
  garante Inv (atualizarCardPreco preco) (fun _ => True).
Proof.
  unfold atualizarCardPreco.
  eapply garante_bind; [apply garante_read|]. intros painel _.
  destruct painel as [[| |cards|]|]; try (now apply garante_ret).
  apply garante_forEach. apply Forall_forall. intros i _.
  unfold atualizarCard.
  eapply garante_bind; [apply garante_read|]. intros painel _.
  destruct painel as [[| |cards'|]|]; try (now apply garante_ret).
  destruct (cards' !! i) as [card|]; [|now apply garante_ret].
  destruct (includes _ _); [|now apply garante_ret].
  eapply garante_bind; [apply garante_modify; frame_stores|]. intros _ _.
  eapply garante_bind; [apply acrescenta_atualizarSparkline|]. intros _ _.
  eapply garante_bind; [apply garante_read|]. intros atuais _.
  apply garante_modify. frame_stores.
Qed.

Lemma acrescenta_salvarPrecosNoBanco (precos : list Preco.t) :
  garante Inv (salvarPrecosNoBanco precos) (fun _ => True).
Proof.
  unfold salvarPrecosNoBanco.
  eapply garante_bind; [apply acrescenta_db_transaction|]. intros _ _.
  apply garante_forEach. apply Forall_forall. intros preco _.
  eapply garante_bind; [apply garante_read|]. intros [] _.
  - apply garante_modify. intros w Hw.
    now apply so_acrescenta_PrecosHistoricos.
  - apply acrescenta_emit.
Qed.

Lemma acrescenta_atualizarContador :
  garante Inv atualizarContador (fun _ => True).
Proof.
  unfold atualizarContador.
  eapply garante_bind; [apply garante_read|]. intros [t|] _;
    [|now apply garante_ret].
  eapply garante_bind; [apply garante_read|]. intros n _.
  eapply garante_bind; [apply garante_modify; frame_stores|]. intros _ _.
  eapply garante_bind; [apply acrescenta_new_Date|]. intros agora _.
  apply garante_modify. frame_stores.
Qed.

Lemma acrescenta_simularDadosPrecos :
  garante Inv simularDadosPrecos (fun _ => True).
Proof.
  intros w Hw. rewrite run_simularDadosPrecos. simpl. split; [|auto].
  apply (so_acrescenta_frame w0
           (set_emitted (emitted w ++ [Timeout 300]) w));
    try reflexivity.
  now apply so_acrescenta_emitted.
Qed.

Lemma acrescenta_carregarPrecos : garante Inv carregarPrecos (fun _ => True).
Proof.
  unfold carregarPrecos. apply garante_try_catch.
  - eapply garante_bind; [apply garante_read|]. intros [p|] _;
      [|apply garante_throw].
    eapply garante_bind.
    { destruct (sem_cards p);
        [apply garante_modify; frame_stores|now apply garante_ret]. }
    intros _ _.
    eapply garante_bind; [apply acrescenta_simularDadosPrecos|].
    intros precos _.
    eapply garante_bind; [apply garante_read|]. intros painel _.
    eapply garante_bind.
    { assert (Hupd : garante Inv (forEach atualizarCardPreco precos)
                       (fun _ => True)).
      { apply garante_forEach. apply Forall_forall. intros q _.
        apply acrescenta_atualizarCardPreco. }
      destruct painel as [[| |cards|]|]; try exact Hupd.
      eapply garante_bind; [apply garante_modify; frame_stores|].
      intros _ _.
      apply garante_forEach. apply Forall_forall. intros q _.
      apply acrescenta_reiniciarSparkline. }
    intros _ _.
    eapply garante_bind; [apply acrescenta_salvarPrecosNoBanco|].
    intros _ _. apply acrescenta_atualizarContador.
  - intros e.
    eapply garante_bind; [apply acrescenta_emit|]. intros _ _.
    eapply garante_bind; [apply garante_read|]. intros [p|] _.
    + apply garante_modify. frame_stores.
    + apply garante_throw.
Qed.

Lemma acrescenta_carregarHistorico :
  garante Inv carregarHistorico (fun _ => True).
Proof.
  unfold carregarHistorico.
  eapply garante_bind; [apply garante_read|]. intros lh _.
  eapply garante_bind; [apply acrescenta_db_transaction|]. intros _ _.
  eapply garante_bind; [apply garante_read|]. intros [] _.
  - eapply garante_bind; [apply garante_read|]. intros compras _.
    destruct lh; [|now apply garante_ret].
    destruct (length compras =? 0)%nat; apply garante_modify; frame_stores.
  - apply acrescenta_emit.
Qed.

Lemma acrescenta_set_painel_sugestao (p : painel_sugestao) :
  garante Inv (set_painel_sugestao p) (fun _ => True).
Proof.
  unfold set_painel_sugestao.
  eapply garante_bind; [apply garante_read|]. intros [el|] _.
  - apply garante_modify. frame_stores.
  - apply garante_throw.
Qed.

Lemma acrescenta_form_compra_submit :
  garante Inv form_compra_submit (fun _ => True).
Proof.
  unfold form_compra_submit.
  eapply garante_bind; [apply garante_read|]. intros s _.
  eapply garante_bind; [apply garante_read|]. intros q _.
  destruct (invalido _ _); [apply acrescenta_emit|].
  apply garante_try_catch.
  - unfold processar_compra.
    eapply garante_bind.
    { unfold obterPrecoAtual.
      eapply garante_bind; [apply acrescenta_emit|]. intros _ _.
      eapply garante_bind; [apply acrescenta_Math_random|]. intros r1 _.
      eapply garante_bind; [apply acrescenta_Math_random|]. intros r2 _.
      eapply garante_bind; [apply acrescenta_Math_random|]. intros r3 _.
      exact (garante_ret _ _ (fun _ => True) I). }
    intros preco _.
    eapply garante_bind; [apply acrescenta_new_Date|]. intros agora _.
    eapply garante_bind.
    { unfold salvarCompra.
      eapply garante_bind; [apply acrescenta_db_transaction|]. intros _ _.
      cbn [Compra.precoCompra]. destruct preco; [|apply garante_throw].
      eapply garante_bind; [apply garante_read|]. intros [] _.
      - apply garante_modify. intros w Hw.
        now apply so_acrescenta_Compras.
      - apply acrescenta_emit. }
    intros _ _.
    eapply garante_bind.
    { unfold gerarSugestaoIA.
      eapply garante_bind; [apply acrescenta_set_painel_sugestao|].
      intros _ _. apply garante_try_catch.
      - eapply garante_bind.
        { unfold simularRespostaIA.
          eapply garante_bind; [apply acrescenta_emit|]. intros _ _.
          eapply garante_bind; [apply acrescenta_Math_random|]. intros r1 _.
          eapply garante_bind; [apply acrescenta_Math_random|]. intros r2 _.
          destruct preco;
            [exact (garante_ret _ _ (fun _ => True) I)|apply garante_throw]. }
        intros sugestao _.
        eapply garante_bind; [apply acrescenta_new_Date|]. intros t _.
        apply acrescenta_set_painel_sugestao.
      - intros e.
        eapply garante_bind; [apply acrescenta_emit|]. intros _ _.
        apply acrescenta_set_painel_sugestao. }
    intros _ _.
    eapply garante_bind; [apply garante_modify; frame_stores|]. intros _ _.
    eapply garante_bind; [apply acrescenta_carregarHistorico|]. intros _ _.
    apply acrescenta_emit.
  - intros e.
    eapply garante_bind; [apply acrescenta_emit|]. intros _ _.
    apply acrescenta_emit.
Qed.
End Acrescenta.

Lemma passo_so_acrescenta (w0 w w' : World) :
  passo w w' -> so_acrescenta w0 w -> so_acrescenta w0 w'.
Proof.
  intros [| |s q|] Hw.
  - exact (proj1 (acrescenta_carregarPrecos w0 w Hw)).
  - exact (proj1 (acrescenta_carregarHistorico w0 w Hw)).
  - revert Hw. frame_stores.
  - exact (proj1 (acrescenta_form_compra_submit w0 w Hw)).
Qed.

(** X5. Nothing the page does takes anything back.  Through any sequence
    of ticks, history refreshes, form edits and submissions, the purchases
    and the quotes already stored stay in the stores, in their order and
    unchanged, with the newer records after them, and the alerts and error
    lines already emitted stay emitted; the script never sets its database
    handle again. *)
Theorem X5_stores_only_grow (w w' : World) :
  rtc passo w w' ->
  db w' = db w /\
  Compras w `prefix_of` Compras w' /\
  PrecosHistoricos w `prefix_of` PrecosHistoricos w' /\
  emitted w `prefix_of` emitted w'.
Proof.
  intros Hsteps.
  assert (H : so_acrescenta w w').
  { assert (G : forall w0, so_acrescenta w0 w -> so_acrescenta w0 w').
    { induction Hsteps as [|w1 w2 w3 Hstep _ IH]; [auto|].
      intros w0 H0. apply IH. eapply passo_so_acrescenta; eauto. }
    apply G, so_acrescenta_refl. }
  destruct H as (_ & H). exact H.
Qed.

Lemma X5_witness :
  Compras (pagina host_exemplo "BRENT" "10") `prefix_of`
    Compras (exec carregarPrecos
               (exec form_compra_submit (pagina host_exemplo "BRENT" "10"))).
Proof.
  refine (proj1 (proj2 (X5_stores_only_grow _ _ _))).
  eapply rtc_l; [apply passo_submeter|]. apply rtc_once, passo_precos.
Defined.

(** * Further properties of the purchase workflow *)

(** X6. A purchase that goes through resets the form: both fields get
    the default values of the markup back.  When the symbol field has no
    default value, or a blank one, submitting again without typing is
    therefore rejected by the validation: the second submission only
    shows the alert of the validation and changes nothing else. *)
Theorem X6_form_is_reset_after_purchase (w : World) :
  invalido (simbolo_lido w) (quantidade_lida w) = false ->
  eval (processar_compra (simbolo_lido w) (quantidade_lida w)) w = Return tt ->
  let w1 := exec form_compra_submit w in
  campo_simbolo w1 = padrao_simbolo w /\
  campo_quantidade w1 = padrao_quantidade w /\
  (trim (padrao_simbolo w) = ""%string ->
   exec form_compra_submit w1 =
     set_emitted (emitted w1 ++ [Alert (Text "❌ " :: mensagem_campos)]) w1).
Proof.
  intros Hv Hr w1.
  assert (E : campo_simbolo w1 = padrao_simbolo w /\
              campo_quantidade w1 = padrao_quantidade w).
  { subst w1. revert Hr. unfold exec, eval, form_compra_submit.
    cbv [mbind M_bind read]. fold (simbolo_lido w) (quantidade_lida w).
    rewrite Hv. generalize (simbolo_lido w) (quantidade_lida w). intros s q.
    destruct w as [[rnd clk con addok getok] dr rd tx dbw pa hs ct cs ph
                   f1 f2 d1 d2 sg lh lp uc em].
    run.
    destruct (preco_sorteado _ _ _ _) as [p|];
      destruct dbw, (con tx), addok, sg, (con (S tx)), getok, lh; cbn;
      try destruct (length _ =? 0)%nat; cbn; try discriminate; auto. }
  destruct E as [E1 E2]. split; [exact E1|]. split; [exact E2|].
  intros Ht. clearbody w1. clear Hv Hr.
  unfold exec, form_compra_submit. cbv [mbind M_bind read].
  rewrite E1, Ht. reflexivity.
Qed.

Lemma X6_witness :
  campo_simbolo
    (exec form_compra_submit (pagina host_exemplo "BRENT" "10")) = ""%string.
Proof.
  exact (proj1 (X6_form_is_reset_after_purchase
                  (pagina host_exemplo "BRENT" "10") eq_refl eq_refl)).
Defined.

(** X7. [gerarSugestaoIA] on a page that has the suggestion panel never
    throws and never leaves the spinner behind: for a price that is a
    Number the panel ends with the sentence of [simularRespostaIA] built
    from the next two draws, stamped with the next reading of the clock;
    for a price that is no Number the failure is caught and logged and the
    panel ends with the error message. *)
Theorem X7_suggestion_panel_outcome (w : World) (simbolo : string)
    (quantidade : number) (preco : value) (el : painel_sugestao) :
  sugestao_ia w = Some el ->
  let w' := exec (gerarSugestaoIA simbolo quantidade preco) w in
  eval (gerarSugestaoIA simbolo quantidade preco) w = Return tt /\
  match preco with
  | VNumber p =>
      sugestao_ia w' =
        Some (Sugestao
                (texto_sugestao
                   (confianca_de (random (host w) (S (draws w))))
                   quantidade simbolo p (mul quantidade p)
                   (tendencia_de (random (host w) (draws w))))
                (clock (host w) (readings w))) /\
      emitted w' = emitted w ++ [Timeout 2000]
  | VObject =>
      sugestao_ia w' = Some ErroSugestao /\
      emitted w' =
        emitted w ++
        [Timeout 2000; ConsoleError "[v0] ❌ Erro ao gerar sugestão da IA:"]
  end.
Proof.
  intros Hel w'. subst w'.
  destruct w as [[rnd clk con addok getok] dr rd tx dbw pa hs ct cs ph
                 f1 f2 d1 d2 sg lh lp uc em].
  simpl in Hel. subst sg. destruct preco as [p|]; run.
  - repeat split; reflexivity.
  - repeat split; try reflexivity. now rewrite <- app_assoc.
Qed.

Lemma X7_witness :
  sugestao_ia
    (exec (gerarSugestaoIA "BRENT" (ofZ 10) VObject)
       (pagina host_exemplo "BRENT" "10")) = Some ErroSugestao.
Proof.
  exact (proj1 (proj2 (X7_suggestion_panel_outcome
                         (pagina host_exemplo "BRENT" "10") "BRENT" (ofZ 10)
                         VObject SemSugestao eq_refl))).
Defined.

(** ** Reading the form *)

(** X8. Whatever is typed in the symbol field, the symbol the handler
    reads holds no ASCII lower-case letter, so it is not the name of a
    property that the price table of [obterPrecoAtual] inherits from
    [Object.prototype]: the price fetched for it is always a Number, and
    the record built from it is never refused by [salvarCompra] for
    holding a value that cannot be cloned. *)
Theorem X8_price_of_form_symbol_is_a_number (w : World) :
  has_lower (simbolo_lido w) = false /\
  inherited (simbolo_lido w) = false /\
  exists p : number,
    eval (obterPrecoAtual (simbolo_lido w)) w = Return (VNumber p) /\
    forall u : World,
      eval (salvarCompra
              (compra_de w (simbolo_lido w) (quantidade_lida w))) u
      <> Throw DataCloneError.
Proof.
  unfold simbolo_lido.
  split; [apply toUpperCase_no_lower|].
  split; [apply toUpperCase_not_inherited|].
  destruct (preco_obtido_number w (trim (campo_simbolo w))) as [p Hp].
  exists p. split.
  - unfold eval. rewrite run_obterPrecoAtual. simpl. now rewrite Hp.
  - intros u. unfold eval, salvarCompra, compra_de. rewrite Hp.
    cbn [Compra.precoCompra].
    destruct u as [[rnd clk con addok getok] dr rd tx dbw pa hs ct cs ph
                   f1 f2 d1 d2 sg lh lp uc em].
    run. destruct dbw, (con tx), addok; discriminate.
Qed.

(** A string that starts with none of the bytes a white space character
    can start with has nothing to trim at its start. *)
Lemma trimStart_inicio (c : ascii) (s : string) :
  existsb (fun e => startsWith e (String c "")) espacos = false ->
  trimStart (String c s) = String c s.
Proof.
  intros Hc.
  destruct c as [[] [] [] [] [] [] [] []]; try discriminate Hc;
    destruct s as [|c2 [|c3 s]]; reflexivity.
Qed.

(** The digits are read up to the first character that is not one:
    whatever follows such a character is not looked at. *)
Lemma digits_app (radix : Z) (s rest : string) (c : ascii) (acc : option Z) :
  digit_value radix c = None ->
  digits radix acc (s +:+ String c rest) = digits radix acc s.
Proof.
  intros Hc. revert acc. induction s as [|d s IH]; intros acc; simpl.
  - now rewrite Hc.
  - destruct (digit_value radix d); [apply IH|reflexivity].
Qed.

(** A field that starts with a digit from 1 to 9 is read in radix 10. *)
Lemma parseInt_digit (d : ascii) (k : Z) (s : string) :
  digit_value 10 d = Some k -> 0 < k ->
  parseInt (String d s) =
    match digits 10 (Some k) s with
    | None => NaN
    | Some 0 => S754_zero false
    | Some n => ofZ n
    end.
Proof.
  intros Hd Hk.
  destruct d as [[] [] [] [] [] [] [] []]; vm_compute in Hd;
    try discriminate; injection Hd as <-; try lia; unfold parseInt;
    rewrite trimStart_inicio by reflexivity; reflexivity.
Qed.

(** X9. The quantity is read up to the first character that is not a
    decimal digit: for a field that starts with a digit from 1 to 9,
    a decimal part, a unit or any other text after the digits is ignored,
    so that [12.5] and [12 barris] are read as 12. *)
Theorem X9_quantity_ignores_trailing_text
    (w : World) (d c : ascii) (k : Z) (ds rest : string) :
  digit_value 10 d = Some k -> 0 < k -> digit_value 10 c = None ->
  campo_quantidade w = String d ds +:+ String c rest ->
  quantidade_lida w = parseInt (String d ds).
Proof.
  intros Hd Hk Hc Hq. unfold quantidade_lida. rewrite Hq.
  change (String d ds +:+ String c rest)
    with (String d (ds +:+ String c rest)).
  rewrite !(parseInt_digit d k) by assumption.
  now rewrite digits_app.
Qed.

Lemma X9_witness :
  quantidade_lida (pagina host_exemplo "BRENT" "12.5") = ofZ 12.
Proof.
  exact (X9_quantity_ignores_trailing_text
           (pagina host_exemplo "BRENT" "12.5") "1" "." 1 "2" "5"
           eq_refl eq_refl eq_refl eq_refl).
Defined.

Lemma digit_value_nonneg (radix : Z) (c : ascii) (k : Z) :
  digit_value radix c = Some k -> 0 <= k.
Proof.
  unfold digit_value.
  set (n := Z.of_nat (nat_of_ascii c)).
  destruct ((48 <=? n) && (n <=? 57)) eqn:H1;
    [|destruct ((97 <=? n) && (n <=? 102)) eqn:H2;
      [|destruct ((65 <=? n) && (n <=? 70)) eqn:H3; [|discriminate]]].
  all: destruct (_ <? _); [intros [= <-]; lia|discriminate].
Qed.

Lemma digits_pos (s : string) (k : Z) :
  0 < k -> exists n : Z, digits 10 (Some k) s = Some n /\ 0 < n.
Proof.
  revert k. induction s as [|c s IH]; intros k Hk; simpl.
  - eauto.
  - destruct (digit_value 10 c) as [d|] eqn:Hd; [|eauto].
    apply IH. apply digit_value_nonneg in Hd. lia.
Qed.

Lemma parseInt_minus_digit (d : ascii) (k : Z) (s : string) :
  digit_value 10 d = Some k -> 0 < k ->
  parseInt (String "-" (String d s)) =
    match digits 10 (Some k) s with
    | None => NaN
    | Some 0 => S754_zero true
    | Some n => ofZ (- n)
    end.
Proof.
  intros Hd Hk.
  destruct d as [[] [] [] [] [] [] [] []]; vm_compute in Hd;
    try discriminate; injection Hd as <-; try lia; unfold parseInt;
    rewrite trimStart_inicio by reflexivity; reflexivity.
Qed.

(** The Number nearest to a negative integer is not above zero. *)
Lemma ofZ_neg_leb (n : Z) : 0 < n -> leb (ofZ (- n)) (ofZ 0) = true.
Proof.
  intros Hn. pose proof (binary_normalize_rounds (- n) 0) as H.
  destruct n as [|p|p]; try lia.
  change (- Z.pos p) with (Z.neg p) in *. cbv beta iota in H.
  fold (ofZ (Z.neg p)) in H.
  destruct (rounds_shape _ _ _ H) as [->|[->|(m & e & ->)]]; reflexivity.
Qed.

(** X10. A quantity field made of a minus sign and digits, the first of
    them from 1 to 9, is rejected whatever the symbol is: the handler
    shows the alert of the validation and changes nothing else. *)
Theorem X10_negative_quantity_is_rejected
    (w : World) (d : ascii) (k : Z) (ds : string) :
  digit_value 10 d = Some k -> 0 < k ->
  campo_quantidade w = String "-" (String d ds) ->
  exec form_compra_submit w =
    set_emitted (emitted w ++ [Alert (Text "❌ " :: mensagem_campos)]) w.
Proof.
  intros Hd Hk Hq.
  assert (Hinv : forall s, invalido s (parseInt (campo_quantidade w)) = true).
  { intros s. rewrite Hq, (parseInt_minus_digit d k) by assumption.
    destruct (digits_pos ds k Hk) as (n & -> & Hn).
    unfold invalido. apply orb_true_iff. right.
    destruct n as [|p|p]; try lia. apply (ofZ_neg_leb (Z.pos p)). lia. }
  unfold exec, form_compra_submit. cbv [mbind M_bind read].
  rewrite Hinv. reflexivity.
Qed.

Lemma X10_witness :
  Compras (exec form_compra_submit (pagina host_exemplo "BRENT" "-5")) = [].
Proof.
  rewrite (X10_negative_quantity_is_rejected
             (pagina host_exemplo "BRENT" "-5") "5" 5 "" eq_refl eq_refl
             eq_refl).
  reflexivity.
Defined.

(** ** The history after a purchase *)




(** * Values of Numbers, with their sign *)

Lemma valid_sign (s s' : bool) (m : positive) (e : Z) :
  valid (S754_finite s m e) -> valid (S754_finite s' m e).
Proof. exact (fun H => H). Qed.

Lemma valid_magQ_inj_s (s : bool) (m m' : positive) (e e' : Z) :
  valid (S754_finite s m e) -> valid (S754_finite s m' e') ->
  (magQ (S754_finite s m e) == magQ (S754_finite s m' e'))%Q ->
  S754_finite s m e = S754_finite s m' e'.
Proof.
  intros Hv Hv' Heq.
  pose proof (valid_magQ_inj m m' e e' (valid_sign s false _ _ Hv)
                (valid_sign s false _ _ Hv') Heq) as H.
  now injection H as -> ->.
Qed.

Lemma magQ_nonneg (y : number) : (0 <= magQ y)%Q.
Proof.
  destruct y as [s|s| |s m e]; simpl; try lra.
  apply Qlt_le_weak, (magQ_finite_pos s m e).
Qed.

Lemma F2Q_finite_s (s : bool) (y : number) :
  finite_s s y -> (F2Q y == if s then - magQ y else magQ y)%Q.
Proof.
  intros [->|(m & e & ->)]; destruct s; simpl; ring.
Qed.

Lemma finito_zero (s : bool) : finito (S754_zero s).
Proof. split; [reflexivity|]. exists s. now left. Qed.

Lemma finito_finite (s : bool) (m : positive) (e : Z) :
  valid (S754_finite s m e) -> finito (S754_finite s m e).
Proof. intros H. split; [exact H|]. exists s. right. eauto. Qed.

Lemma finito_cases (y : number) :
  finito y ->
  (exists s, y = S754_zero s) \/
  (exists s m e, y = S754_finite s m e /\ valid y).
Proof.
  intros [Hv [s [->|(m & e & ->)]]]; [left|right]; eauto 6.
Qed.

Lemma finito_finite_s (s : bool) (y : number) :
  valid y -> finite_s s y -> finito y.
Proof. intros Hv Hf. split; [exact Hv|]. now exists s. Qed.

(** A value rounded between two Numbers stays between them. *)
Lemma arredonda_entre (v : Q) (y L U : number) :
  arredonda v y -> finito L -> finito U ->
  (F2Q L <= v)%Q -> (v <= F2Q U)%Q ->
  finito y /\ (F2Q L <= F2Q y)%Q /\ (F2Q y <= F2Q U)%Q.
Proof.
  intros [[Hy Hv]|[[Hv Hr]|[Hv Hr]]] HL HU HLv HvU.
  - split; [exact Hy|]. rewrite Hv. auto.
  - (* a positive value *)
    pose proof (rounds_valid _ _ _ Hr) as Hvy.
    assert (Hup : finite_s false y /\ (magQ y <= F2Q U)%Q).
    { destruct (finito_cases U HU) as [[s ->]|(s & m & e & -> & HvU')].
      - simpl in HvU. lra.
      - destruct s.
        + pose proof (magQ_finite_pos true m e). simpl in *. lra.
        + apply valid_finite_inv in HvU' as [Hp Hb].
          pose proof (pow2_pos e).
          apply (rounds_upper false v y (Zpos m) e Hr Hp Hb).
          simpl in HvU. lra. }
    destruct Hup as [Hf Hup].
    pose proof (F2Q_finite_s false y Hf) as Hy. cbv iota in Hy.
    split; [now apply (finito_finite_s false)|]. rewrite Hy.
    split; [|exact Hup].
    destruct (finito_cases L HL) as [[s ->]|(s & m & e & -> & HvL')].
    + simpl. apply magQ_nonneg.
    + destruct s.
      * pose proof (magQ_finite_pos true m e). pose proof (magQ_nonneg y).
        simpl in *. lra.
      * apply valid_finite_inv in HvL' as [(H1 & H2 & H3) Hb].
        destruct (rounds_lower false v y (Zpos m) e Hr) as [->|[_ Hlo]].
        -- split; lia.
        -- simpl in HLv. lra.
        -- destruct Hf as [Hf|(? & ? & Hf)]; discriminate.
        -- simpl. lra.
  - (* a negative value *)
    pose proof (rounds_valid _ _ _ Hr) as Hvy.
    assert (Hlo : finite_s true y /\ (F2Q L <= - magQ y)%Q).
    { destruct (finito_cases L HL) as [[s ->]|(s & m & e & -> & HvL')].
      - simpl in HLv. lra.
      - destruct s.
        + apply valid_finite_inv in HvL' as [Hp Hb].
          pose proof (pow2_pos e).
          destruct (rounds_upper true (- v) y (Zpos m) e Hr Hp Hb)
            as [Hf Hm].
          * simpl in HLv. lra.
          * split; [exact Hf|]. simpl. lra.
        + pose proof (magQ_finite_pos false m e). simpl in *. lra. }
    destruct Hlo as [Hf Hlo].
    pose proof (F2Q_finite_s true y Hf) as Hy. cbv iota in Hy.
    split; [now apply (finito_finite_s true)|]. rewrite Hy.
    split; [exact Hlo|].
    destruct (finito_cases U HU) as [[s ->]|(s & m & e & -> & HvU')].
    + pose proof (magQ_nonneg y). simpl. lra.
    + destruct s.
      * apply valid_finite_inv in HvU' as [(H1 & H2 & H3) Hb].
        destruct (rounds_lower true (- v) y (Zpos m) e Hr) as [->|[_ Hl]].
        -- split; lia.
        -- simpl in HvU. lra.
        -- destruct Hf as [Hf|(? & ? & Hf)]; discriminate.
        -- simpl. lra.
      * pose proof (magQ_finite_pos false m e). pose proof (magQ_nonneg y).
        simpl in *. lra.
Qed.

(** An exact result that is a Number of the format is not rounded. *)
Lemma arredonda_exato (v : Q) (y z : number) :
  arredonda v y -> finito z -> (F2Q z == v)%Q ->
  finito y /\ (F2Q y == v)%Q.
Proof.
  intros Hy Hz Hv.
  destruct (arredonda_entre v y z z Hy Hz Hz) as (H1 & H2 & H3); try lra.
  split; [exact H1|lra].
Qed.

Lemma arredonda_valor (v c : Q) (y z : number) :
  arredonda v y -> finito z -> (F2Q z == c)%Q -> (v == c)%Q ->
  (F2Q y == c)%Q.
Proof.
  intros Hy Hz Ez Ev.
  destruct (arredonda_exato v y z Hy Hz) as [_ E]; [now rewrite Ez|].
  now rewrite E.
Qed.

(** Two finite Numbers of the same value that is not zero are the same. *)
Lemma F2Q_inj (y z : number) :
  finito y -> finito z -> (F2Q y == F2Q z)%Q -> ~ (F2Q z == 0)%Q -> y = z.
Proof.
  intros Hy Hz Heq Hnz.
  destruct (finito_cases z Hz) as [[s ->]|(s & m & e & -> & Hvz)];
    [exfalso; apply Hnz; reflexivity|].
  destruct (finito_cases y Hy) as [[s' ->]|(s' & m' & e' & -> & Hvy)].
  - exfalso. apply Hnz. rewrite <- Heq. reflexivity.
  - pose proof (magQ_finite_pos s m e) as Hp.
    pose proof (magQ_finite_pos s' m' e') as Hp'.
    destruct s, s'; simpl in Heq, Hp, Hp'.
    + apply valid_magQ_inj_s; auto; simpl; lra.
    + exfalso. lra.
    + exfalso. lra.
    + apply valid_magQ_inj_s; auto; simpl; lra.
Qed.

(** ** What the operations give *)

Lemma arredonda_finito (y : number) : finito y -> arredonda (F2Q y) y.
Proof. intros H. left. split; [exact H|reflexivity]. Qed.

Lemma arredonda_ext (v v' : Q) (y : number) :
  (v == v')%Q -> arredonda v y -> arredonda v' y.
Proof.
  intros E [[Hy Hv]|[[Hv Hr]|[Hv Hr]]].
  - left. split; [exact Hy|]. now rewrite <- E.
  - right. left. split; [now rewrite <- E|].
    now apply (rounds_to_ext false v v').
  - right. right. split; [now rewrite <- E|].
    apply (rounds_to_ext true (- v) (- v')); [now rewrite E|exact Hr].
Qed.

Lemma normalize_arredonda (z e : Z) (v : Q) :
  (inject_Z z * pow2 e == v)%Q ->
  arredonda v (binary_normalize prec emax z e false).
Proof.
  intros Hv. destruct (normalize_value z e v Hv) as [[H0 ->]|[H|H]].
  - left. split; [apply finito_zero|]. simpl. now rewrite H0.
  - right. now left.
  - right. now right.
Qed.

Lemma add_arredonda (a b : number) :
  finito a -> finito b -> arredonda (F2Q a + F2Q b) (add a b).
Proof.
  intros Ha Hb.
  destruct (finito_cases a Ha) as [[sa ->]|(sa & ma & ea & -> & Hva)];
    destruct (finito_cases b Hb) as [[sb ->]|(sb & mb & eb & -> & Hvb)].
  - left. split; [destruct sa, sb; apply finito_zero|].
    destruct sa, sb; simpl; ring.
  - left. split; [exact Hb|]. simpl. ring.
  - left. split; [exact Ha|]. simpl. ring.
  - unfold add. destruct (SFadd_finite sa sb ma mb ea eb) as (z & -> & Hz).
    now apply normalize_arredonda.
Qed.

Lemma sub_arredonda (a b : number) :
  finito a -> finito b -> arredonda (F2Q a - F2Q b) (sub a b).
Proof.
  intros Ha Hb.
  destruct (finito_cases a Ha) as [[sa ->]|(sa & ma & ea & -> & Hva)];
    destruct (finito_cases b Hb) as [[sb ->]|(sb & mb & eb & -> & Hvb)].
  - left. split; [destruct sa, sb; apply finito_zero|].
    destruct sa, sb; simpl; ring.
  - left. split.
    + apply finito_finite. exact (valid_sign sb (negb sb) _ _ Hvb).
    + destruct sb; simpl; ring.
  - left. split; [exact Ha|]. simpl. ring.
  - unfold sub. destruct (SFsub_finite sa sb ma mb ea eb) as (z & -> & Hz).
    now apply normalize_arredonda.
Qed.

Lemma mul_arredonda (a b : number) :
  finito a -> finito b -> arredonda (F2Q a * F2Q b) (mul a b).
Proof.
  intros Ha Hb.
  destruct (finito_cases a Ha) as [[sa ->]|(sa & ma & ea & -> & Hva)];
    destruct (finito_cases b Hb) as [[sb ->]|(sb & mb & eb & -> & Hvb)].
  - left. split; [apply finito_zero|]. simpl. ring.
  - left. split; [apply finito_zero|]. simpl. ring.
  - left. split; [apply finito_zero|]. simpl. ring.
  - pose proof (SFmul_rounds sa sb ma mb ea eb Hva Hvb) as Hr.
    pose proof (magQ_finite_pos sa ma ea) as Hpa.
    pose proof (magQ_finite_pos sb mb eb) as Hpb.
    assert (Hp : (0 < magQ (S754_finite sa ma ea) *
                      magQ (S754_finite sb mb eb))%Q)
      by (now apply Qmult_lt_0_compat).
    unfold mul. destruct sa, sb; simpl xorb in Hr; simpl F2Q; simpl in Hp, Hr.
    + right. left. split; [|eapply rounds_to_ext; [|exact Hr]]; [lra|ring].
    + right. right. split; [|eapply rounds_to_ext; [|exact Hr]]; [lra|ring].
    + right. right. split; [|eapply rounds_to_ext; [|exact Hr]]; [lra|ring].
    + right. left. split; [|eapply rounds_to_ext; [|exact Hr]]; [lra|ring].
Qed.

Lemma div_arredonda (a b : number) :
  finito a -> finito b -> ~ (F2Q b == 0)%Q ->
  arredonda (F2Q a / F2Q b) (div a b).
Proof.
  intros Ha Hb Hnz.
  destruct (finito_cases b Hb) as [[sb ->]|(sb & mb & eb & -> & Hvb)];
    [exfalso; apply Hnz; reflexivity|].
  destruct (finito_cases a Ha) as [[sa ->]|(sa & ma & ea & -> & Hva)].
  - left. split; [apply finito_zero|]. simpl. unfold Qdiv. ring.
  - pose proof (SFdiv_rounds sa sb ma mb ea eb) as Hr.
    pose proof (magQ_finite_pos sa ma ea) as Hpa.
    pose proof (magQ_finite_pos sb mb eb) as Hpb.
    assert (Hp : (0 < magQ (S754_finite sa ma ea) /
                      magQ (S754_finite sb mb eb))%Q).
    { apply Qlt_shift_div_l; [exact Hpb|]. lra. }
    unfold div.
    assert (Hmb : (0 < inject_Z (Z.pos mb))%Q) by reflexivity.
    pose proof (pow2_pos eb) as Hpe.
    destruct sa, sb; simpl xorb in Hr; simpl magQ in *.
    + apply (arredonda_ext
               (inject_Z (Z.pos ma) * pow2 ea /
                (inject_Z (Z.pos mb) * pow2 eb)));
        [simpl; field; split; lra|].
      right. left. split; [exact Hp|exact Hr].
    + apply (arredonda_ext
               (- (inject_Z (Z.pos ma) * pow2 ea /
                   (inject_Z (Z.pos mb) * pow2 eb))));
        [simpl; field; split; lra|].
      right. right. split; [lra|].
      eapply rounds_to_ext; [|exact Hr]. ring.
    + apply (arredonda_ext
               (- (inject_Z (Z.pos ma) * pow2 ea /
                   (inject_Z (Z.pos mb) * pow2 eb))));
        [simpl; field; split; lra|].
      right. right. split; [lra|].
      eapply rounds_to_ext; [|exact Hr]. ring.
    + right. left. split; [exact Hp|exact Hr].
Qed.

Lemma ofZ_arredonda (z : Z) : arredonda (inject_Z z) (ofZ z).
Proof.
  apply normalize_arredonda. change (pow2 0) with 1%Q. ring.
Qed.

(** ** Comparisons *)

Lemma Qcompare_lt (x y : Q) : (x < y)%Q -> (x ?= y)%Q = Lt.
Proof. intros H. now apply Qlt_alt. Qed.

Lemma Qcompare_gt (x y : Q) : (y < x)%Q -> (x ?= y)%Q = Gt.
Proof. intros H. now apply Qgt_alt. Qed.

Lemma Qcompare_eq (x y : Q) : (x == y)%Q -> (x ?= y)%Q = Eq.
Proof. intros H. now apply Qeq_alt. Qed.

Lemma compare_magQ (s : bool) (ma mb : positive) (ea eb : Z) :
  valid (S754_finite s ma ea) -> valid (S754_finite s mb eb) ->
  match Z.compare ea eb with
  | Lt => Lt
  | Gt => Gt
  | Eq => Pos.compare ma mb
  end = (magQ (S754_finite s ma ea) ?= magQ (S754_finite s mb eb))%Q.
Proof.
  intros Ha Hb.
  apply valid_finite_inv in Ha as [Ha _], Hb as [Hb _]. simpl magQ.
  destruct (Z.compare_spec ea eb) as [->|Hlt|Hgt].
  - pose proof (pow2_pos eb) as Hp.
    destruct (Pos.compare_spec ma mb) as [->|Hl|Hg]; symmetry.
    + now apply Qcompare_eq.
    + apply Qcompare_lt. apply Qmult_lt_compat_r; [exact Hp|].
      rewrite <- Zlt_Qlt. lia.
    + apply Qcompare_gt. apply Qmult_lt_compat_r; [exact Hp|].
      rewrite <- Zlt_Qlt. lia.
  - symmetry. apply Qcompare_lt. now apply vpair_lt.
  - symmetry. apply Qcompare_gt. apply vpair_lt; auto; lia.
Qed.

Lemma Qcompare_opp (x y : Q) : (- x ?= - y)%Q = CompOpp (x ?= y)%Q.
Proof.
  destruct (Qcompare_spec x y) as [H|H|H]; simpl.
  - apply Qcompare_eq. now rewrite H.
  - apply Qcompare_gt. lra.
  - apply Qcompare_lt. lra.
Qed.

(** The comparison of two Numbers that have a value is the comparison of
    their values. *)
Lemma compare_F2Q (a b : number) :
  finito a -> finito b -> SFcompare a b = Some (F2Q a ?= F2Q b)%Q.
Proof.
  intros Ha Hb.
  destruct (finito_cases a Ha) as [[sa ->]|(sa & ma & ea & -> & Hva)];
    destruct (finito_cases b Hb) as [[sb ->]|(sb & mb & eb & -> & Hvb)].
  - reflexivity.
  - pose proof (magQ_finite_pos sb mb eb) as Hp.
    destruct sb; simpl in *; f_equal; symmetry;
      [apply Qcompare_gt|apply Qcompare_lt]; lra.
  - pose proof (magQ_finite_pos sa ma ea) as Hp.
    destruct sa; simpl in *; f_equal; symmetry;
      [apply Qcompare_lt|apply Qcompare_gt]; lra.
  - pose proof (magQ_finite_pos sa ma ea) as Hpa.
    pose proof (magQ_finite_pos sb mb eb) as Hpb.
    destruct sa, sb.
    + pose proof (compare_magQ true ma mb ea eb Hva Hvb) as Hc.
      unfold SFcompare. fold (Pos.compare ma mb). simpl magQ in *.
      f_equal.
      change (F2Q (S754_finite true ma ea))
        with (- inject_Z (Z.pos ma) * pow2 ea)%Q.
      change (F2Q (S754_finite true mb eb))
        with (- inject_Z (Z.pos mb) * pow2 eb)%Q.
      assert (E1 : (- inject_Z (Z.pos ma) * pow2 ea ==
                    - (inject_Z (Z.pos ma) * pow2 ea))%Q) by ring.
      assert (E2 : (- inject_Z (Z.pos mb) * pow2 eb ==
                    - (inject_Z (Z.pos mb) * pow2 eb))%Q) by ring.
      rewrite E1, E2, Qcompare_opp, <- Hc.
      now destruct (ea ?= eb).
    + simpl in *. f_equal. symmetry. apply Qcompare_lt. lra.
    + simpl in *. f_equal. symmetry. apply Qcompare_gt. lra.
    + pose proof (compare_magQ false ma mb ea eb Hva Hvb) as Hc.
      unfold SFcompare. fold (Pos.compare ma mb). f_equal. exact Hc.
Qed.

Lemma leb_F2Q (a b : number) :
  finito a -> finito b -> (leb a b = true <-> (F2Q a <= F2Q b)%Q).
Proof.
  intros Ha Hb. unfold leb, SFleb. rewrite (compare_F2Q a b Ha Hb).
  rewrite Qle_alt. destruct (F2Q a ?= F2Q b)%Q; split; congruence.
Qed.

Lemma ltb_F2Q (a b : number) :
  finito a -> finito b -> (ltb a b = true <-> (F2Q a < F2Q b)%Q).
Proof.
  intros Ha Hb. unfold ltb, SFltb. rewrite (compare_F2Q a b Ha Hb).
  rewrite Qlt_alt. destruct (F2Q a ?= F2Q b)%Q; split; congruence.
Qed.

(** A draw has a value, in [0, 1). *)
Lemma unit_interval_F2Q (r : number) :
  unit_interval r -> finito r /\ (0 <= F2Q r)%Q /\ (F2Q r < 1)%Q.
Proof.
  intros Hr.
  destruct (unit_interval_cases r Hr) as [[s ->]|(m & e & -> & Hv & Hlt)].
  - split; [apply finito_zero|]. simpl. lra.
  - split; [now apply finito_finite|].
    pose proof (magQ_finite_pos false m e). simpl in *. lra.
Qed.

(** ** Rounding is monotone *)

Lemma finito_not_infinity (s : bool) : ~ finito (S754_infinity s).
Proof. intros [_ [s' [H|(m & e & H)]]]; discriminate. Qed.

Lemma rounds_F2Q (s : bool) (X : Q) (y : number) :
  rounds_to s X y -> finito y ->
  finite_s s y /\ (F2Q y == if s then - magQ y else magQ y)%Q.
Proof.
  intros Hr Hy. destruct (rounds_shape _ _ _ Hr) as [->|Hf].
  - now apply finito_not_infinity in Hy.
  - split; [exact Hf|now apply F2Q_finite_s].
Qed.

Lemma arredonda_sup (v : Q) (y U : number) :
  arredonda v y -> finito y -> finito U -> (v <= F2Q U)%Q ->
  (F2Q y <= F2Q U)%Q.
Proof.
  intros [[_ Hv]|[[Hv Hr]|[Hv Hr]]] Hy HU HvU.
  - now rewrite Hv.
  - destruct (rounds_F2Q _ _ _ Hr Hy) as [Hf E]. rewrite E.
    destruct (finito_cases U HU) as [[s ->]|(s & m & e & -> & HvU')].
    + simpl in HvU. lra.
    + destruct s.
      * pose proof (magQ_finite_pos true m e). simpl in *. lra.
      * apply valid_finite_inv in HvU' as [Hp Hb].
        pose proof (pow2_pos e).
        apply (rounds_upper false v y (Zpos m) e Hr Hp Hb).
        simpl in HvU. lra.
  - destruct (rounds_F2Q _ _ _ Hr Hy) as [Hf E]. rewrite E.
    pose proof (magQ_nonneg y) as Hn.
    destruct (finito_cases U HU) as [[s ->]|(s & m & e & -> & HvU')].
    + simpl. lra.
    + destruct s.
      * apply valid_finite_inv in HvU' as [(H1 & H2 & H3) Hb].
        destruct (rounds_lower true (- v) y (Zpos m) e Hr) as [->|[_ Hl]].
        -- split; lia.
        -- simpl in HvU. lra.
        -- now apply finito_not_infinity in Hy.
        -- simpl. lra.
      * pose proof (magQ_finite_pos false m e). simpl in *. lra.
Qed.

Lemma arredonda_inf (v : Q) (y L : number) :
  arredonda v y -> finito y -> finito L -> (F2Q L <= v)%Q ->
  (F2Q L <= F2Q y)%Q.
Proof.
  intros [[_ Hv]|[[Hv Hr]|[Hv Hr]]] Hy HL HLv.
  - now rewrite Hv.
  - destruct (rounds_F2Q _ _ _ Hr Hy) as [Hf E]. rewrite E.
    pose proof (magQ_nonneg y) as Hn.
    destruct (finito_cases L HL) as [[s ->]|(s & m & e & -> & HvL')].
    + simpl. lra.
    + destruct s.
      * pose proof (magQ_finite_pos true m e). simpl in *. lra.
      * apply valid_finite_inv in HvL' as [(H1 & H2 & H3) Hb].
        destruct (rounds_lower false v y (Zpos m) e Hr) as [->|[_ Hl]].
        -- split; lia.
        -- simpl in HLv. lra.
        -- now apply finito_not_infinity in Hy.
        -- simpl. lra.
  - destruct (rounds_F2Q _ _ _ Hr Hy) as [Hf E]. rewrite E.
    destruct (finito_cases L HL) as [[s ->]|(s & m & e & -> & HvL')].
    + simpl in HLv. lra.
    + destruct s.
      * apply valid_finite_inv in HvL' as [Hp Hb].
        pose proof (pow2_pos e).
        destruct (rounds_upper true (- v) y (Zpos m) e Hr Hp Hb)
          as [_ Hm].
        -- simpl in HLv. lra.
        -- simpl. lra.
      * pose proof (magQ_finite_pos false m e). simpl in *. lra.
Qed.

(** Of two exact results, the smaller one is not rounded above the
    larger one. *)
Lemma arredonda_mono (a b : Q) (y y' : number) :
  arredonda a y -> arredonda b y' -> finito y -> finito y' ->
  (a < b)%Q -> (F2Q y <= F2Q y')%Q.
Proof.
  intros Ha Hb Hy Hy' Hab.
  destruct Ha as [[_ Ea]|Ha].
  { rewrite Ea. rewrite <- Ea.
    apply (arredonda_inf b y' y Hb Hy' Hy). rewrite Ea. lra. }
  destruct Hb as [[_ Eb]|Hb].
  { apply (arredonda_sup a y y' (or_intror Ha) Hy Hy'). rewrite Eb. lra. }
  destruct Ha as [[Hpa Hra]|[Hna Hra]], Hb as [[Hpb Hrb]|[Hnb Hrb]].
  - destruct (rounds_mono false a b y y' Hra Hrb Hab) as [->|(F1 & F2 & Hm)].
    + now apply finito_not_infinity in Hy'.
    + rewrite (F2Q_finite_s false y F1), (F2Q_finite_s false y' F2). exact Hm.
  - exfalso. lra.
  - destruct (rounds_F2Q _ _ _ Hra Hy) as [_ E].
    destruct (rounds_F2Q _ _ _ Hrb Hy') as [_ E'].
    pose proof (magQ_nonneg y). pose proof (magQ_nonneg y').
    rewrite E, E'. lra.
  - destruct (rounds_mono true (- b) (- a) y' y Hrb Hra ltac:(lra))
      as [->|(F1 & F2 & Hm)].
    + now apply finito_not_infinity in Hy.
    + rewrite (F2Q_finite_s true y F2), (F2Q_finite_s true y' F1). lra.
Qed.

(** ** Bounds with constants *)

Lemma finitob_finito (y : number) : finitob y = true -> finito y.
Proof.
  destruct y as [s|s| |s m e]; try discriminate; intros H.
  - apply finito_zero.
  - now apply finito_finite.
Qed.

Ltac constante := apply finitob_finito; vm_compute; reflexivity.
Ltac valor := vm_compute; first [reflexivity | discriminate].

(** The operations between bounds that are Numbers. *)
Lemma add_entre (a b L U : number) :
  finito a -> finito b -> finito L -> finito U ->
  (F2Q L <= F2Q a + F2Q b)%Q -> (F2Q a + F2Q b <= F2Q U)%Q ->
  finito (add a b) /\ (F2Q L <= F2Q (add a b))%Q /\
  (F2Q (add a b) <= F2Q U)%Q.
Proof.
  intros Ha Hb HL HU H1 H2.
  exact (arredonda_entre _ _ L U (add_arredonda a b Ha Hb) HL HU H1 H2).
Qed.

Lemma sub_entre (a b L U : number) :
  finito a -> finito b -> finito L -> finito U ->
  (F2Q L <= F2Q a - F2Q b)%Q -> (F2Q a - F2Q b <= F2Q U)%Q ->
  finito (sub a b) /\ (F2Q L <= F2Q (sub a b))%Q /\
  (F2Q (sub a b) <= F2Q U)%Q.
Proof.
  intros Ha Hb HL HU H1 H2.
  exact (arredonda_entre _ _ L U (sub_arredonda a b Ha Hb) HL HU H1 H2).
Qed.

Lemma mul_entre (a b L U : number) :
  finito a -> finito b -> finito L -> finito U ->
  (F2Q L <= F2Q a * F2Q b)%Q -> (F2Q a * F2Q b <= F2Q U)%Q ->
  finito (mul a b) /\ (F2Q L <= F2Q (mul a b))%Q /\
  (F2Q (mul a b) <= F2Q U)%Q.
Proof.
  intros Ha Hb HL HU H1 H2.
  exact (arredonda_entre _ _ L U (mul_arredonda a b Ha Hb) HL HU H1 H2).
Qed.

Lemma div_entre (a b L U : number) :
  finito a -> finito b -> ~ (F2Q b == 0)%Q -> finito L -> finito U ->
  (F2Q L <= F2Q a / F2Q b)%Q -> (F2Q a / F2Q b <= F2Q U)%Q ->
  finito (div a b) /\ (F2Q L <= F2Q (div a b))%Q /\
  (F2Q (div a b) <= F2Q U)%Q.
Proof.
  intros Ha Hb Hnz HL HU H1 H2.
  exact (arredonda_entre _ _ L U (div_arredonda a b Ha Hb Hnz) HL HU H1 H2).
Qed.

(** ** The price of a purchase *)

Lemma F2Q_half : (F2Q (lit 5 10) == 1 # 2)%Q.
Proof. valor. Qed.

(** [r - 0.5] for a draw [r]. *)
Lemma sub_half_entre (r : number) :
  unit_interval r ->
  finito (sub r (lit 5 10)) /\
  (- (1 # 2) <= F2Q (sub r (lit 5 10)))%Q /\
  (F2Q (sub r (lit 5 10)) <= 1 # 2)%Q.
Proof.
  intros Hr. destruct (unit_interval_F2Q r Hr) as (Hf & H0 & H1).
  pose proof F2Q_half as Hh.
  destruct (sub_entre r (lit 5 10) (S754_finite true 4503599627370496 (-53))
              (lit 5 10) Hf) as (G1 & G2 & G3);
    try constante.
  - assert (E : (F2Q (S754_finite true 4503599627370496 (-53)) == - (1 # 2))%Q)
      by valor.
    rewrite E. lra.
  - lra.
  - assert (E : (F2Q (S754_finite true 4503599627370496 (-53)) == - (1 # 2))%Q)
      by valor.
    rewrite E in G2. rewrite Hh in G3. auto.
Qed.

(** [(r - 0.5) * 2] for a draw [r]. *)
Lemma desvio_entre (r : number) :
  unit_interval r ->
  let v := mul (sub r (lit 5 10)) (ofZ 2) in
  finito v /\ (- 1 <= F2Q v)%Q /\ (F2Q v <= 1)%Q.
Proof.
  intros Hr v. destruct (sub_half_entre r Hr) as (Hf & H0 & H1).
  assert (E2 : (F2Q (ofZ 2) == 2)%Q) by valor.
  assert (Em : (F2Q (ofZ (-1)) == - 1)%Q) by valor.
  assert (Ep : (F2Q (ofZ 1) == 1)%Q) by valor.
  destruct (mul_entre (sub r (lit 5 10)) (ofZ 2) (ofZ (-1)) (ofZ 1) Hf)
    as (G1 & G2 & G3); try constante.
  - rewrite E2, Em. lra.
  - rewrite E2, Ep. lra.
  - rewrite Em in G2. rewrite Ep in G3. auto.
Qed.

(** A base price plus the deviation of a draw stays within one dollar of
    the base price, when the base price and its two neighbours at one
    dollar are Numbers of the format. *)
Lemma preco_base_entre (base L U r : number) :
  finito base -> finito L -> finito U ->
  (F2Q L <= F2Q base - 1)%Q -> (F2Q base + 1 <= F2Q U)%Q -> (0 < F2Q L)%Q ->
  unit_interval r ->
  let p := add base (mul (sub r (lit 5 10)) (ofZ 2)) in
  leb L p = true /\ leb p U = true /\ truthy p = true.
Proof.
  intros Hb HL HU H1 H2 Hpos Hr p.
  destruct (desvio_entre r Hr) as (Hf & G0 & G1). cbv zeta in *.
  destruct (add_entre base _ L U Hb Hf HL HU) as (K1 & K2 & K3);
    [lra|lra|].
  fold p in K1, K2, K3.
  split; [now apply leb_F2Q|]. split; [now apply leb_F2Q|].
  destruct (finito_cases p K1) as [[s E]|(s & m & e & E & _)];
    rewrite E in *; [simpl in K2; lra|reflexivity].
Qed.

(** X11. For draws in [0, 1) the price fetched for a tracked symbol is a
    Number within one dollar of the base price of the symbol: between
    84.5 and 86.5 for BRENT, between 81.75 and 83.75 for WTI, and for
    OPEC between the base price 84.2 less one and plus one, as the script
    computes them. *)
Theorem X11_purchase_price_within_one_dollar (w : World) :
  unit_interval (random (host w) (draws w)) ->
  unit_interval (random (host w) (S (draws w))) ->
  unit_interval (random (host w) (S (S (draws w)))) ->
  (exists p, preco_obtido w "BRENT" = VNumber p /\
             leb (lit 845 10) p = true /\ leb p (lit 865 10) = true) /\
  (exists p, preco_obtido w "WTI" = VNumber p /\
             leb (lit 8175 100) p = true /\ leb p (lit 8375 100) = true) /\
  (exists p, preco_obtido w "OPEC" = VNumber p /\
             leb (sub (lit 842 10) (ofZ 1)) p = true /\
             leb p (add (lit 842 10) (ofZ 1)) = true).
Proof.
  intros H1 H2 H3. unfold preco_obtido, preco_sorteado, precos_sorteados.
  split; [|split].
  - pose proof (preco_base_entre (lit 855 10) (lit 845 10) (lit 865 10) _
                ltac:(constante) ltac:(constante) ltac:(constante)
                ltac:(valor) ltac:(valor) ltac:(valor) H1) as K.
    cbv zeta in K. destruct K as (A & B & C).
    eexists. split; [|split; [exact A|exact B]].
    unfold get. rewrite lookup_insert_eq. simpl. now rewrite C.
  - pose proof (preco_base_entre (lit 8275 100) (lit 8175 100) (lit 8375 100) _
                ltac:(constante) ltac:(constante) ltac:(constante)
                ltac:(valor) ltac:(valor) ltac:(valor) H2) as K.
    cbv zeta in K. destruct K as (A & B & C).
    eexists. split; [|split; [exact A|exact B]].
    unfold get. rewrite lookup_insert_ne by discriminate.
    rewrite lookup_insert_eq. simpl. now rewrite C.
  - pose proof (preco_base_entre (lit 842 10) (sub (lit 842 10) (ofZ 1))
                (add (lit 842 10) (ofZ 1)) _
                ltac:(constante) ltac:(constante) ltac:(constante)
                ltac:(valor) ltac:(valor) ltac:(valor) H3) as K.
    cbv zeta in K. destruct K as (A & B & C).
    eexists. split; [|split; [exact A|exact B]].
    unfold get. rewrite lookup_insert_ne by discriminate.
    rewrite lookup_insert_ne by discriminate.
    rewrite lookup_singleton_eq. simpl. now rewrite C.
Qed.

Lemma X11_witness :
  exists p, preco_obtido (pagina host_exemplo "" "") "BRENT" = VNumber p /\
            leb (lit 845 10) p = true /\ leb p (lit 865 10) = true.
Proof.
  refine (proj1 (X11_purchase_price_within_one_dollar
                   (pagina host_exemplo "" "") _ _ _)); repeat split.
Defined.

(** ** Integers *)

(** A positive integer below [2^53], scaled by a power of two that keeps
    it in the normal range, is a Number of the format. *)
Lemma repr_diadico (k j : Z) :
  0 < k < 2 ^ 53 -> -1000 <= j <= 900 ->
  exists (m : positive) (e : Z),
    valid (S754_finite false m e) /\
    (magQ (S754_finite false m e) == inject_Z k * pow2 j)%Q.
Proof.
  intros Hk Hj. pose proof (Zdigits2_range k ltac:(lia)) as Hd.
  set (d := Zdigits2 k) in *.
  assert (Hd1 : 1 <= d).
  { destruct (Z_lt_le_dec d 1) as [Hlt|]; [|assumption].
    assert (2 ^ d <= 2 ^ 0) by (destruct (Z_lt_le_dec d 0);
      [rewrite Z.pow_neg_r by lia; simpl; lia
      |apply Z.pow_le_mono_r; lia]).
    simpl in *. lia. }
  assert (Hd53 : d <= 53).
  { destruct (Z_lt_le_dec 53 d) as [Hlt|]; [|lia].
    assert (2 ^ 53 <= 2 ^ (d - 1)) by (apply Z.pow_le_mono_r; lia). lia. }
  assert (Hp : 0 < 2 ^ (53 - d)) by (apply Z.pow_pos_nonneg; lia).
  assert (Hlo : 2 ^ 52 <= k * 2 ^ (53 - d)).
  { replace (2 ^ 52) with (2 ^ (d - 1) * 2 ^ (53 - d))
      by (rewrite <- Z.pow_add_r by lia; f_equal; lia).
    apply Z.mul_le_mono_nonneg_r; lia. }
  assert (Hhi : k * 2 ^ (53 - d) < 2 ^ 53).
  { replace (2 ^ 53) with (2 ^ d * 2 ^ (53 - d))
      by (rewrite <- Z.pow_add_r by lia; f_equal; lia).
    apply Z.mul_lt_mono_pos_r; lia. }
  exists (Z.to_pos (k * 2 ^ (53 - d))), (d - 53 + j).
  assert (Hpos : Z.pos (Z.to_pos (k * 2 ^ (53 - d))) = k * 2 ^ (53 - d))
    by (apply Z2Pos.id; lia).
  split.
  - apply valid_finite_intro.
    + rewrite Hpos. repeat split; try lia. rewrite emin_eq. lia.
    + change (emax - prec) with 971. lia.
  - simpl magQ. rewrite Hpos, inject_Z_mult, <- (pow2_Z (53 - d)) by lia.
    rewrite <- Qmult_assoc, <- pow2_add.
    replace (53 - d + (d - 53 + j)) with j by lia. reflexivity.
Qed.

Lemma repr_inteiro (k : Z) :
  0 < k < 2 ^ 53 ->
  exists (m : positive) (e : Z),
    valid (S754_finite false m e) /\
    (magQ (S754_finite false m e) == inject_Z k)%Q.
Proof.
  intros Hk. destruct (repr_diadico k 0 Hk ltac:(lia)) as (m & e & Hv & Hm).
  exists m, e. split; [exact Hv|]. rewrite Hm.
  change (pow2 0) with 1%Q. ring.
Qed.

(** Every multiple of one half below [2^52] in absolute value is the
    value of a Number. *)
Lemma repr_meios (z : Z) :
  - 2 ^ 53 < z < 2 ^ 53 ->
  exists y : number, finito y /\ (F2Q y == inject_Z z * (1 # 2))%Q.
Proof.
  intros Hz. assert (E : (pow2 (-1) == 1 # 2)%Q) by reflexivity.
  destruct (Z.lt_trichotomy z 0) as [Hn|[->|Hp]].
  - destruct (repr_diadico (- z) (-1) ltac:(lia) ltac:(lia))
      as (m & e & Hv & Hm).
    exists (S754_finite true m e). split; [apply finito_finite; exact Hv|].
    simpl in *. rewrite inject_Z_opp, E in Hm. lra.
  - exists (S754_zero false). split; [apply finito_zero|reflexivity].
  - destruct (repr_diadico z (-1) ltac:(lia) ltac:(lia))
      as (m & e & Hv & Hm).
    exists (S754_finite false m e). split; [now apply finito_finite|].
    simpl in *. rewrite E in Hm. lra.
Qed.

(** An integer below [2^53] in absolute value is converted exactly. *)
Lemma ofZ_valor (k : Z) :
  - 2 ^ 53 < k < 2 ^ 53 -> finito (ofZ k) /\ (F2Q (ofZ k) == inject_Z k)%Q.
Proof.
  intros Hk. pose proof (ofZ_arredonda k) as Hr.
  destruct (Z.lt_trichotomy k 0) as [Hn|[->|Hp]].
  - destruct (repr_inteiro (- k) ltac:(lia)) as (m & e & Hv & Hm).
    apply (arredonda_exato _ _ (S754_finite true m e) Hr).
    + apply finito_finite. exact Hv.
    + simpl in *. rewrite inject_Z_opp in Hm. lra.
  - split; [apply finito_zero|reflexivity].
  - destruct (repr_inteiro k ltac:(lia)) as (m & e & Hv & Hm).
    apply (arredonda_exato _ _ (S754_finite false m e) Hr).
    + now apply finito_finite.
    + exact Hm.
Qed.

(** Counting down by one is exact below [2^53]. *)
Lemma sub_ofZ_1 (k : Z) :
  0 < k < 2 ^ 53 -> sub (ofZ k) (ofZ 1) = ofZ (k - 1).
Proof.
  intros Hk.
  destruct (Z.eq_dec k 1) as [->|Hne]; [valor|].
  destruct (ofZ_valor k ltac:(lia)) as [Hf Hv].
  destruct (ofZ_valor 1 ltac:(lia)) as [Hf1 Hv1].
  destruct (ofZ_valor (k - 1) ltac:(lia)) as [Hfk Hvk].
  pose proof (sub_arredonda (ofZ k) (ofZ 1) Hf Hf1) as Hr.
  destruct (arredonda_exato _ _ (ofZ (k - 1)) Hr Hfk) as [Hfs Hvs].
  { rewrite Hv, Hv1, Hvk. unfold Z.sub. rewrite inject_Z_plus. reflexivity. }
  apply F2Q_inj; auto.
  - rewrite Hvs, Hv, Hv1, Hvk. unfold Z.sub. rewrite inject_Z_plus.
    reflexivity.
  - rewrite Hvk. intros E.
    unfold Qeq in E. simpl in E. lia.
Qed.

Lemma geb_ofZ_0 (k : Z) : 0 <= k < 2 ^ 53 -> geb (ofZ k) (ofZ 0) = true.
Proof.
  intros Hk. unfold geb.
  destruct (ofZ_valor k ltac:(lia)) as [Hf Hv].
  apply leb_F2Q; [apply finito_zero|exact Hf|].
  rewrite Hv. change (F2Q (ofZ 0)) with (inject_Z 0). rewrite <- Zle_Qle. lia.
Qed.

(** * The 3D chart *)

Lemma if_same {A : Type} (b : bool) (x : A) : (if b then x else x) = x.
Proof. now destruct b. Qed.

Lemma run_dia_grafico (i : number) (st : laco_grafico) (w : World)
    (m : nat) :
  comprimento_dados (dados_laco st) m -> Z.of_nat m < 2 ^ 32 - 1 ->
  dia_grafico i st w = (Return (dia_de w i st), avanca w).
Proof.
  intros (H1 & H2 & H3 & H4 & H5 & H6 & H7) Hm.
  apply Z.ltb_lt in Hm.
  unfold dia_grafico, push. cbv zeta.
  rewrite H1, H2, H3, H4, H5, H6, H7, Hm.
  destruct w as [[rnd clk con addok getok] dr rd tx dbw pa hs ct cs ph
                 f1 f2 d1 d2 sg lh lp uc em].
  reflexivity.
Qed.

Lemma dia_de_length (w : World) (i : number) (st : laco_grafico) (m : nat) :
  comprimento_dados (dados_laco st) m ->
  comprimento_dados (dados_laco (dia_de w i st)) (S m).
Proof.
  intros (H1 & H2 & H3 & H4 & H5 & H6 & H7).
  unfold comprimento_dados, dia_de. simpl.
  rewrite !length_app. simpl. repeat split; lia.
Qed.

Lemma sub_ofZ_1_0 (k : Z) :
  0 <= k < 2 ^ 53 -> sub (ofZ k) (ofZ 1) = ofZ (k - 1).
Proof.
  intros Hk. destruct (Z.eq_dec k 0) as [->|]; [reflexivity|].
  apply sub_ofZ_1. lia.
Qed.

(** With enough fuel, and arrays that have room for [k] more entries,
    the loop started at the counter [k - 1] runs [k] days and ends. *)
Lemma run_laco_dias (k fuel : nat) (st : laco_grafico) (w : World)
    (m : nat) :
  comprimento_dados (dados_laco st) m ->
  Z.of_nat m + Z.of_nat k < 2 ^ 32 -> (k <= fuel)%nat ->
  laco_dias fuel (ofZ (Z.of_nat k - 1)) st w =
    (Return (Some (fst (dias_de k w st))), snd (dias_de k w st)).
Proof.
  revert fuel st w m. induction k as [|k IH]; intros fuel st w m Hm Hk Hf.
  - destruct fuel; reflexivity.
  - destruct fuel as [|fuel]; [lia|].
    replace (Z.of_nat (S k) - 1) with (Z.of_nat k) by lia.
    cbn [laco_dias]. rewrite geb_ofZ_0 by lia.
    cbv [mbind M_bind]. rewrite (run_dia_grafico _ _ _ m) by (auto; lia).
    rewrite sub_ofZ_1_0 by lia.
    rewrite (IH _ _ _ (S m)) by (auto using dia_de_length; lia).
    reflexivity.
Qed.

Lemma dias_de_frame (k : nat) (w : World) (st : laco_grafico) :
  snd (dias_de k w st) =
    set_draws (4 * k + draws w) (set_readings (k + readings w) w).
Proof.
  revert w st. induction k as [|k IH]; intros w st.
  - now destruct w.
  - cbn [dias_de]. rewrite IH.
    destruct w as [hst dr rd tx dbw pa hs ct cs ph f1 f2 d1 d2 sg lh lp uc em].
    unfold avanca.
    cbv [set_draws set_readings draws readings host transactions db
         precosAtuais historicoSparkline contadorAtualizacoes Compras
         PrecosHistoricos campo_simbolo campo_quantidade padrao_simbolo
         padrao_quantidade sugestao_ia
         lista_historico lista_precos update_counter emitted].
    f_equal; lia.
Qed.

Lemma dias_de_length (k : nat) (w : World) (st : laco_grafico) (n : nat) :
  comprimento_dados (dados_laco st) n ->
  comprimento_dados (dados_laco (fst (dias_de k w st))) (n + k).
Proof.
  revert w st n. induction k as [|k IH]; intros w st n Hn.
  - now rewrite Nat.add_0_r.
  - cbn [dias_de]. replace (n + S k)%nat with (S n + k)%nat by lia.
    apply IH. now apply dia_de_length.
Qed.

Lemma comprimento_inicial : comprimento_dados (dados_laco laco_inicial) 0.
Proof. repeat split. Qed.

Lemma run_gerarDadosGrafico3D (n fuel : nat) (w : World) :
  (n <= fuel)%nat -> Z.of_nat n < 2 ^ 32 ->
  gerarDadosGrafico3D fuel (Some (ofZ (Z.of_nat n))) w =
    (Return (Some (dados_laco (fst (dias_de n w laco_inicial)))),
     set_draws (4 * n + draws w) (set_readings (n + readings w) w)).
Proof.
  intros Hf Hn.
  unfold gerarDadosGrafico3D. cbv [from_option id]. cbv [mbind M_bind].
  destruct (Z.eq_dec (Z.of_nat n) 0) as [E|E].
  - assert (n = 0%nat) by lia. subst n. destruct fuel, w; reflexivity.
  - rewrite sub_ofZ_1 by lia. fold laco_inicial.
    rewrite (run_laco_dias _ _ _ _ 0) by (auto using comprimento_inicial; lia).
    rewrite dias_de_frame. reflexivity.
Qed.

Lemma comprimento_dias_de (n : nat) (w : World) :
  comprimento_dados (dados_laco (fst (dias_de n w laco_inicial))) n.
Proof. apply (dias_de_length n w laco_inicial 0), comprimento_inicial. Qed.

(** X12. For a period of [n] days, [n] a natural number below [2^32]
    (the arrays can hold that many entries), [gerarDadosGrafico3D]
    returns as soon as the bound on the iterations is at least [n]: each
    of the seven arrays it returns has [n] entries, four draws and one
    reading of the clock were consumed per day, and nothing else of the
    page has changed. *)
Theorem X12_chart_data_has_one_entry_per_day
    (n fuel : nat) (w : World) :
  (n <= fuel)%nat -> Z.of_nat n < 2 ^ 32 ->
  exists d : Dados.t,
    gerarDadosGrafico3D fuel (Some (ofZ (Z.of_nat n))) w =
      (Return (Some d),
       set_draws (4 * n + draws w) (set_readings (n + readings w) w)) /\
    comprimento_dados d n.
Proof.
  intros Hf Hn. eexists. split.
  - now apply run_gerarDadosGrafico3D.
  - apply comprimento_dias_de.
Qed.

Lemma X12_witness :
  exists d : Dados.t,
    gerarDadosGrafico3D 7 (Some (ofZ 7)) (pagina host_exemplo "" "") =
      (Return (Some d),
       set_draws 28 (set_readings 7 (pagina host_exemplo "" ""))) /\
    comprimento_dados d 7.
Proof.
  apply (X12_chart_data_has_one_entry_per_day 7 7 (pagina host_exemplo "" ""));
    [lia|reflexivity].
Defined.

(** X13. On an initialised chart, selecting a period whose value does not
    parse to a number of at least one day (text without a leading digit,
    zero, a negative number) replaces the chart by an empty one: the loop
    of [gerarDadosGrafico3D] does not run, no draw is consumed and Plotly
    is given seven empty arrays. *)
Theorem X13_period_without_days_empties_chart
    (fuel : nat) (valor : string) (g : Grafico) (w : World) :
  chartInstance g = true -> Plotly g = true ->
  geb (sub (parseInt valor) (ofZ 1)) (ofZ 0) = false ->
  periodo_grafico_change fuel valor g w =
    (Return (Some (mkGrafico true (Some (Some Dados.vazio)) true)), w).
Proof.
  intros Hc Hp Hd.
  unfold periodo_grafico_change, atualizarGrafico, gerarDadosGrafico3D.
  rewrite Hc, Hp. cbv [negb from_option id mbind M_bind].
  destruct fuel; cbn [laco_dias]; rewrite Hd; reflexivity.
Qed.

Lemma X13_witness :
  periodo_grafico_change 100 "todos" (mkGrafico true (Some None) true)
    (pagina host_exemplo "" "") =
  (Return (Some (mkGrafico true (Some (Some Dados.vazio)) true)),
   pagina host_exemplo "" "").
Proof.
  apply X13_period_without_days_empties_chart; reflexivity.
Defined.

(** X14. [inicializarGrafico] with a bound of at least seven iterations.
    Without the element [chart] it logs an error and changes nothing,
    and no draw is consumed.  With the element it generates seven days
    of data, which consumes 28 draws and 7 readings of the clock; then,
    with Plotly loaded, the data are drawn and [chartInstance] is set,
    and without Plotly the call throws and [chartInstance] is not set. *)
Theorem X14_chart_initialisation (fuel : nat) (g : Grafico) (w : World) :
  (7 <= fuel)%nat ->
  match chart g with
  | None =>
      inicializarGrafico fuel g w =
        (Return (Some g),
         set_emitted
           (emitted w ++
            [ConsoleError "[v0] ❌ Container do gráfico não encontrado"]) w)
  | Some _ =>
      exists d : Dados.t,
        comprimento_dados d 7 /\
        inicializarGrafico fuel g w =
          (if Plotly g
           then Return (Some (mkGrafico true (Some (Some d)) true))
           else Throw TypeError,
           set_draws (28 + draws w) (set_readings (7 + readings w) w))
  end.
Proof.
  intros Hf. unfold inicializarGrafico.
  destruct (chart g) as [c|]; [|reflexivity].
  eexists. split; [apply (comprimento_dias_de 7 w)|].
  cbv [mbind M_bind]. change (ofZ 7) with (ofZ (Z.of_nat 7)).
  rewrite (run_gerarDadosGrafico3D 7 fuel w Hf eq_refl).
  now destruct (Plotly g).
Qed.

Lemma X14_witness :
  exists d : Dados.t,
    comprimento_dados d 7 /\
    inicializarGrafico 7 (mkGrafico false (Some None) false)
      (pagina host_exemplo "" "") =
    (Throw TypeError,
     set_draws 28 (set_readings 7 (pagina host_exemplo "" ""))).
Proof.
  exact (X14_chart_initialisation 7 (mkGrafico false (Some None) false)
           (pagina host_exemplo "" "") (le_n 7)).
Defined.

(** ** What the chart data depend on *)

Section Dependencia.

(** Two pages that agree on the host and on the numbers of draws and of
    clock readings made so far. *)
Let R (w1 w2 : World) : Prop :=
  host w1 = host w2 /\ draws w1 = draws w2 /\ readings w1 = readings w2.

(** A computation that gives the same result on two such pages and
    leaves them such. *)
Let ext {A : Type} (m : M A) : Prop :=
  forall w1 w2 : World,
    R w1 w2 -> fst (m w1) = fst (m w2) /\ R (snd (m w1)) (snd (m w2)).

Lemma ext_ret {A : Type} (a : A) : ext (mret a).
Proof. intros w1 w2 H. now split. Qed.

Lemma ext_throw {A : Type} (e : exn) : ext (throw e : M A).
Proof. intros w1 w2 H. now split. Qed.

Lemma ext_bind {A B : Type} (m : M A) (k : A -> M B) :
  ext m -> (forall a : A, ext (k a)) -> ext (m ≫= k).
Proof.
  intros Hm Hk w1 w2 H. specialize (Hm w1 w2 H).
  cbv [mbind M_bind]. destruct (m w1) as [[a1|e1] u1], (m w2) as [[a2|e2] u2];
    simpl in Hm; destruct Hm as [E Hu]; try discriminate.
  - injection E as ->. now apply Hk.
  - injection E as ->. now split.
Qed.

Lemma ext_new_Date : ext new_Date.
Proof.
  intros w1 w2 (Hh & Hd & Hr). unfold new_Date, R. simpl.
  rewrite Hh, Hr. repeat split; auto.
Qed.

Lemma ext_Math_random : ext Math_random.
Proof.
  intros w1 w2 (Hh & Hd & Hr). unfold Math_random, R. simpl.
  rewrite Hh, Hd. repeat split; auto.
Qed.

Lemma ext_push {A : Type} (l : list A) (x : A) : ext (push l x).
Proof. unfold push. destruct (_ <? _); [apply ext_ret|apply ext_throw]. Qed.

Lemma ext_dia_grafico (i : number) (st : laco_grafico) :
  ext (dia_grafico i st).
Proof.
  unfold dia_grafico.
  repeat first
    [ apply ext_bind; [first [apply ext_new_Date | apply ext_Math_random
                             | apply ext_push]|]; intros ?
    | apply ext_ret ].
Qed.

Lemma ext_laco_dias (fuel : nat) (i : number) (st : laco_grafico) :
  ext (laco_dias fuel i st).
Proof.
  revert i st. induction fuel as [|fuel IH]; intros i st; cbn [laco_dias];
    destruct (geb i (ofZ 0)); try apply ext_ret.
  apply ext_bind; [apply ext_dia_grafico|]. intros st'. apply IH.
Qed.

End Dependencia.

(** X15. The data of the chart do not depend on the prices the page
    shows: two pages with the same host that have consumed as many draws
    and readings of the clock get the same data, whatever their current
    prices, sparkline windows, stores and panels are.  The series always
    start from 85 and 82. *)
Theorem X15_chart_data_ignore_page_prices
    (fuel : nat) (dias : option number) (w1 w2 : World) :
  host w1 = host w2 -> draws w1 = draws w2 -> readings w1 = readings w2 ->
  eval (gerarDadosGrafico3D fuel dias) w1 =
  eval (gerarDadosGrafico3D fuel dias) w2.
Proof.
  intros Hh Hd Hr. unfold eval, gerarDadosGrafico3D.
  refine (proj1 (ext_bind _ _ (ext_laco_dias _ _ _) _ w1 w2 _)).
  - intros st. apply ext_ret.
  - repeat split; assumption.
Qed.

Lemma X15_witness :
  eval (gerarDadosGrafico3D 7 None) (pagina host_exemplo "" "") =
  eval (gerarDadosGrafico3D 7 None)
    (set_precosAtuais ∅ (pagina host_exemplo "BRENT" "10")).
Proof.
  apply X15_chart_data_ignore_page_prices; reflexivity.
Defined.

(** ** Periods the arrays cannot hold *)







(** ** Bounds of the chart data *)

Lemma entre_weaken (lo hi lo' hi' : Q) (x : number) :
  (lo' <= lo)%Q -> (hi <= hi')%Q -> entre lo hi x -> entre lo' hi' x.
Proof. intros H1 H2 (Hf & Ha & Hb). split; [exact Hf|split; lra]. Qed.

(** [(r - 0.5) * 3] for a draw [r]. *)
Lemma variacao_dia_entre (r : number) :
  unit_interval r -> entre (- (3 # 2)) (3 # 2) (variacao_dia r).
Proof.
  intros Hr. destruct (sub_half_entre r Hr) as (Hf & H0 & H1).
  assert (E3 : (F2Q (ofZ 3) == 3)%Q) by valor.
  assert (Em : (F2Q (lit (-15) 10) == - (3 # 2))%Q) by valor.
  assert (Ep : (F2Q (lit 15 10) == 3 # 2)%Q) by valor.
  destruct (mul_entre (sub r (lit 5 10)) (ofZ 3) (lit (-15) 10) (lit 15 10)
              Hf) as (G1 & G2 & G3); try constante.
  - rewrite E3, Em. lra.
  - rewrite E3, Ep. lra.
  - rewrite Em in G2. rewrite Ep in G3. exact (conj G1 (conj G2 G3)).
Qed.

Lemma cor_entre (v : number) :
  entre (- (3 # 2)) (3 # 2) v -> entre (- (1 # 2)) (1 # 2) (div v (ofZ 3)).
Proof.
  intros (Hf & H0 & H1).
  assert (E3 : (F2Q (ofZ 3) == 3)%Q) by valor.
  assert (Em : (F2Q (lit (-5) 10) == - (1 # 2))%Q) by valor.
  assert (Ep : (F2Q (lit 5 10) == 1 # 2)%Q) by valor.
  destruct (div_entre v (ofZ 3) (lit (-5) 10) (lit 5 10) Hf)
    as (G1 & G2 & G3); try constante.
  - rewrite E3. intros E. discriminate.
  - rewrite E3, Em. apply Qle_shift_div_l; lra.
  - rewrite E3, Ep. apply Qle_shift_div_r; lra.
  - rewrite Em in G2. rewrite Ep in G3. exact (conj G1 (conj G2 G3)).
Qed.

Lemma Math_abs_entre (v : number) (b : Q) :
  entre (- b) b v -> entre 0 b (Math_abs v).
Proof.
  intros (Hf & H0 & H1).
  destruct (finito_cases v Hf) as [[s ->]|(s & m & e & -> & Hv)].
  - split; [apply finito_zero|]. simpl in *. lra.
  - split; [apply finito_finite; exact (valid_sign s false _ _ Hv)|].
    pose proof (magQ_finite_pos s m e) as Hp.
    destruct s; simpl in *; lra.
Qed.

Lemma volume_entre (v r : number) :
  entre (- (3 # 2)) (3 # 2) v -> unit_interval r ->
  entre 0 20 (add (mul (Math_abs v) (ofZ 10)) (mul r (ofZ 5))).
Proof.
  intros Hv Hr. destruct (Math_abs_entre v _ Hv) as (Hf & H0 & H1).
  destruct (unit_interval_F2Q r Hr) as (Hfr & Hr0 & Hr1).
  assert (E10 : (F2Q (ofZ 10) == 10)%Q) by valor.
  assert (E5 : (F2Q (ofZ 5) == 5)%Q) by valor.
  assert (E15 : (F2Q (ofZ 15) == 15)%Q) by valor.
  assert (E20 : (F2Q (ofZ 20) == 20)%Q) by valor.
  assert (E0 : (F2Q (ofZ 0) == 0)%Q) by valor.
  destruct (mul_entre (Math_abs v) (ofZ 10) (ofZ 0) (ofZ 15) Hf)
    as (A1 & A2 & A3); try constante.
  { rewrite E10, E0. nra. }
  { rewrite E10, E15. lra. }
  destruct (mul_entre r (ofZ 5) (ofZ 0) (ofZ 5) Hfr)
    as (B1 & B2 & B3); try constante.
  { rewrite E5, E0. lra. }
  { rewrite E5. lra. }
  destruct (add_entre _ _ (ofZ 0) (ofZ 20) A1 B1)
    as (C1 & C2 & C3); try constante.
  { rewrite E0 in *. lra. }
  { rewrite E20, E15, E5 in *. lra. }
  rewrite E0 in C2. rewrite E20 in C3. exact (conj C1 (conj C2 C3)).
Qed.

(** One more day moves a price by at most 1.5. *)
Lemma preco_dia_entre (base : Q) (c : Z) (p v : number) :
  (base == 85 \/ base == 82)%Q -> 0 <= c < 2 ^ 50 ->
  entre (base - inject_Z c * (3 # 2)) (base + inject_Z c * (3 # 2)) p ->
  entre (- (3 # 2)) (3 # 2) v ->
  entre (base - inject_Z (c + 1) * (3 # 2))
    (base + inject_Z (c + 1) * (3 # 2)) (add p v).
Proof.
  intros Hb Hc (Hp & Hp0 & Hp1) (Hv & Hv0 & Hv1).
  rewrite inject_Z_plus. change (inject_Z 1) with 1%Q.
  assert (Hz : exists zb : Z, (base == inject_Z zb * (1 # 2))%Q /\
                              0 <= zb <= 170).
  { destruct Hb as [E|E]; [exists 170|exists 164]; rewrite E;
      split; try lia; reflexivity. }
  destruct Hz as (zb & Ezb & Hzb).
  destruct (repr_meios (zb - 3 * (c + 1))) as (L & HL & EL).
  { assert (2 ^ 50 < 2 ^ 53 - 1000) by (vm_compute; reflexivity). lia. }
  destruct (repr_meios (zb + 3 * (c + 1))) as (U & HU & EU).
  { assert (2 ^ 50 < 2 ^ 53 - 1000) by (vm_compute; reflexivity). lia. }
  assert (EL' : (F2Q L == base - (inject_Z c + 1) * (3 # 2))%Q).
  { rewrite EL, Ezb. unfold Z.sub. rewrite inject_Z_plus, inject_Z_opp,
      inject_Z_mult, inject_Z_plus.
    change (inject_Z 3) with 3%Q. change (inject_Z 1) with 1%Q. ring. }
  assert (EU' : (F2Q U == base + (inject_Z c + 1) * (3 # 2))%Q).
  { rewrite EU, Ezb. rewrite inject_Z_plus, inject_Z_mult, inject_Z_plus.
    change (inject_Z 3) with 3%Q. change (inject_Z 1) with 1%Q. ring. }
  destruct (add_entre p v L U Hp Hv HL HU) as (G1 & G2 & G3).
  { rewrite EL'. lra. }
  { rewrite EU'. lra. }
  rewrite EL' in G2. rewrite EU' in G3. exact (conj G1 (conj G2 G3)).
Qed.

Lemma dados_limitados_dia (w : World) (i : number) (st : laco_grafico)
    (c : Z) :
  sorteios_validos (host w) -> 0 <= c < 2 ^ 50 ->
  dados_limitados c st -> dados_limitados (c + 1) (dia_de w i st).
Proof.
  intros Hs Hc (H1 & H2 & H3 & H4 & H5 & H6 & H7 & H8).
  cbv zeta in *.
  pose proof (variacao_dia_entre _ (Hs (0 + draws w)%nat)) as Hv0.
  pose proof (variacao_dia_entre _ (Hs (1 + draws w)%nat)) as Hv1.
  assert (Hw : forall b x,
             entre (b - inject_Z c * (3 # 2)) (b + inject_Z c * (3 # 2)) x ->
             entre (b - inject_Z (c + 1) * (3 # 2))
               (b + inject_Z (c + 1) * (3 # 2)) x).
  { intros b x. apply entre_weaken; rewrite inject_Z_plus;
      change (inject_Z 1) with 1%Q; lra. }
  pose proof (preco_dia_entre 85 c _ _ (or_introl (Qeq_refl _)) Hc H1 Hv0)
    as Hb.
  pose proof (preco_dia_entre 82 c _ _ (or_intror (Qeq_refl _)) Hc H2 Hv1)
    as Hwti.
  unfold dados_limitados, dia_de. cbv zeta. cbn [precoBrentAnterior
    precoWTIAnterior dados_laco Dados.brent Dados.wti Dados.brentVolume
    Dados.wtiVolume Dados.brentColors Dados.wtiColors].
  split; [exact Hb|]. split; [exact Hwti|].
  split.
  { apply Forall_app. split; [|apply List.Forall_cons; [exact Hb|apply List.Forall_nil]].
    eapply Forall_impl; [exact H3|]. intros x. apply Hw. }
  split.
  { apply Forall_app.
    split; [|apply List.Forall_cons; [exact Hwti|apply List.Forall_nil]].
    eapply Forall_impl; [exact H4|]. intros x. apply Hw. }
  split.
  { apply Forall_app. split; [exact H5|].
    apply List.Forall_cons; [|apply List.Forall_nil].
    apply volume_entre; [exact Hv0|apply Hs]. }
  split.
  { apply Forall_app. split; [exact H6|].
    apply List.Forall_cons; [|apply List.Forall_nil].
    apply volume_entre; [exact Hv1|apply Hs]. }
  split.
  { apply Forall_app. split; [exact H7|].
    apply List.Forall_cons; [|apply List.Forall_nil].
    rewrite if_same. now apply cor_entre. }
  apply Forall_app. split; [exact H8|].
  apply List.Forall_cons; [|apply List.Forall_nil].
  rewrite if_same. now apply cor_entre.
Qed.

Lemma dados_limitados_dias (k : nat) (w : World) (st : laco_grafico)
    (c : Z) :
  sorteios_validos (host w) -> 0 <= c -> c + Z.of_nat k < 2 ^ 50 ->
  dados_limitados c st ->
  dados_limitados (c + Z.of_nat k) (fst (dias_de k w st)).
Proof.
  revert w st c. induction k as [|k IH]; intros w st c Hs Hc Hk Hst.
  - now rewrite Z.add_0_r.
  - cbn [dias_de].
    replace (c + Z.of_nat (S k)) with (c + 1 + Z.of_nat k) by lia.
    apply IH; try lia.
    + now destruct w.
    + apply dados_limitados_dia; auto. lia.
Qed.

Lemma dados_limitados_inicial : dados_limitados 0 laco_inicial.
Proof.
  unfold dados_limitados, laco_inicial. cbv zeta. simpl.
  assert (E85 : (F2Q (ofZ 85) == 85)%Q) by valor.
  assert (E82 : (F2Q (ofZ 82) == 82)%Q) by valor.
  assert (H85 : entre (85 - inject_Z 0 * (3 # 2)) (85 + inject_Z 0 * (3 # 2))
                  (ofZ 85)).
  { split; [constante|]. rewrite E85. split; unfold Qle; simpl; lia. }
  assert (H82 : entre (82 - inject_Z 0 * (3 # 2)) (82 + inject_Z 0 * (3 # 2))
                  (ofZ 82)).
  { split; [constante|]. rewrite E82. split; unfold Qle; simpl; lia. }
  split; [exact H85|]. split; [exact H82|].
  repeat (split; [apply List.Forall_nil|]). apply List.Forall_nil.
Qed.

(** X17. Whatever Numbers in [0, 1) the browser draws, the data generated
    for a period of [n] days, [n] below [2^32], are bounded: every Brent
    price lies within [1.5 n] of 85 and every WTI price within [1.5 n] of
    82, every volume lies between 0 and 20, and every colour between -0.5
    and 0.5. *)
Theorem X17_chart_data_are_bounded (n fuel : nat) (w : World) :
  sorteios_validos (host w) -> (n <= fuel)%nat -> Z.of_nat n < 2 ^ 32 ->
  exists d : Dados.t,
    eval (gerarDadosGrafico3D fuel (Some (ofZ (Z.of_nat n)))) w =
      Return (Some d) /\
    let folga := (inject_Z (Z.of_nat n) * (3 # 2))%Q in
    Forall (entre (85 - folga) (85 + folga)) (Dados.brent d) /\
    Forall (entre (82 - folga) (82 + folga)) (Dados.wti d) /\
    Forall (entre 0 20) (Dados.brentVolume d) /\
    Forall (entre 0 20) (Dados.wtiVolume d) /\
    Forall (entre (- (1 # 2)) (1 # 2)) (Dados.brentColors d) /\
    Forall (entre (- (1 # 2)) (1 # 2)) (Dados.wtiColors d).
Proof.
  intros Hs Hf Hn.
  assert (Hn50 : Z.of_nat n < 2 ^ 50).
  { assert (2 ^ 32 < 2 ^ 50) by (vm_compute; reflexivity). lia. }
  eexists. split.
  - unfold eval. now rewrite run_gerarDadosGrafico3D.
  - pose proof (dados_limitados_dias n w laco_inicial 0 Hs ltac:(lia)
                  ltac:(lia) dados_limitados_inicial) as H.
    rewrite Z.add_0_l in H. unfold dados_limitados in H. cbv zeta in *.
    tauto.
Qed.

Lemma X17_witness :
  exists d : Dados.t,
    eval (gerarDadosGrafico3D 7 (Some (ofZ 7))) (pagina host_exemplo "" "") =
      Return (Some d) /\
    Forall (entre (- (1 # 2)) (1 # 2)) (Dados.brentColors d).
Proof.
  destruct (X17_chart_data_are_bounded 7 7 (pagina host_exemplo "" ""))
    as (d & Hd & H).
  - intros k. repeat split.
  - lia.
  - reflexivity.
  - exists d. split; [exact Hd|]. cbv zeta in H. tauto.
Defined.

(** * The update counter *)

Lemma mesmo_contador_refl (w : World) : mesmo_contador w w.
Proof. repeat split. Qed.

Lemma mesmo_contador_trans (w1 w2 w3 : World) :
  mesmo_contador w1 w2 -> mesmo_contador w2 w3 -> mesmo_contador w1 w3.
Proof.
  intros (A1 & A2 & A3 & A4 & A5 & A6) (B1 & B2 & B3 & B4 & B5 & B6).
  unfold mesmo_contador. repeat split; congruence.
Qed.

Lemma conta_igual_ret : conta_igual (mret tt).
Proof. intros w. exists w. split; [reflexivity|apply mesmo_contador_refl]. Qed.

Lemma conta_igual_modify (f : World -> World) :
  (forall w, mesmo_contador w (f w)) -> conta_igual (modify f).
Proof. intros Hf w. exists (f w). split; [reflexivity|apply Hf]. Qed.

Lemma conta_igual_seq (m k : M unit) :
  conta_igual m -> conta_igual k -> conta_igual (m;; k).
Proof.
  intros Hm Hk w. destruct (Hm w) as (w1 & E1 & R1).
  destruct (Hk w1) as (w2 & E2 & R2). exists w2.
  split; [|eapply mesmo_contador_trans; eauto].
  unfold mbind, M_bind. now rewrite E1.
Qed.

Lemma conta_igual_forEach {A : Type} (f : A -> M unit) (l : list A) :
  Forall (fun x => conta_igual (f x)) l -> conta_igual (forEach f l).
Proof.
  induction 1 as [|x l Hx _ IH]; simpl.
  - apply conta_igual_ret.
  - apply conta_igual_seq; auto.
Qed.

Lemma conta_igual_atualizarCard (preco : Preco.t) (i : nat) :
  inherited (Preco.simbolo preco) = false ->
  conta_igual (atualizarCard preco i).
Proof.
  intros Hi w. unfold atualizarCard. cbv [mbind M_bind read].
  destruct (lista_precos w) as [[| |cards|]|];
    try (exists w; split; [reflexivity|apply mesmo_contador_refl]).
  destruct (cards !! i) as [card|];
    [|exists w; split; [reflexivity|apply mesmo_contador_refl]].
  destruct (includes _ _);
    [|exists w; split; [reflexivity|apply mesmo_contador_refl]].
  cbv [modify]. rewrite run_atualizarSparkline by assumption.
  eexists. split; [reflexivity|].
  destruct w as [hst dr rd tx dbw pa hs ct cs ph f1 f2 d1 d2 sg lh lp uc em].
  repeat split.
Qed.

Lemma conta_igual_atualizarCardPreco (preco : Preco.t) :
  inherited (Preco.simbolo preco) = false ->
  conta_igual (atualizarCardPreco preco).
Proof.
  intros Hi w. unfold atualizarCardPreco. cbv [mbind M_bind read].
  destruct (lista_precos w) as [[| |cards|]|];
    try (exists w; split; [reflexivity|apply mesmo_contador_refl]).
  apply conta_igual_forEach. apply Forall_forall. intros i _.
  now apply conta_igual_atualizarCard.
Qed.

Lemma conta_igual_reiniciarSparkline (s : string) (p : number) :
  conta_igual (reiniciarSparkline s p).
Proof.
  intros w. eexists. split; [reflexivity|].
  destruct w as [hst dr rd tx dbw pa hs ct cs ph f1 f2 d1 d2 sg lh lp uc em].
  repeat split.
Qed.

(** Counting up by one is exact below [2^53]. *)
Lemma add_ofZ_1 (k : Z) :
  0 <= k -> k + 1 < 2 ^ 53 -> add (ofZ k) (ofZ 1) = ofZ (k + 1).
Proof.
  intros Hk Hk1.
  destruct (ofZ_valor k ltac:(lia)) as [Hf Hv].
  destruct (ofZ_valor 1 ltac:(lia)) as [Hf1 Hv1].
  destruct (ofZ_valor (k + 1) ltac:(lia)) as [Hfk Hvk].
  pose proof (add_arredonda (ofZ k) (ofZ 1) Hf Hf1) as Hr.
  destruct (arredonda_exato _ _ (ofZ (k + 1)) Hr Hfk) as [Hfs Hvs].
  { rewrite Hv, Hv1, Hvk, inject_Z_plus. reflexivity. }
  apply F2Q_inj; auto.
  - rewrite Hvs, Hv, Hv1, Hvk, inject_Z_plus. reflexivity.
  - rewrite Hvk. intros E. unfold Qeq in E. simpl in E. lia.
Qed.

(** The quotes of a tick, stored or logged one by one. *)
Lemma run_adicionar_precos (precos : list Preco.t) (w : World) :
  exists w' : World,
    forEach
      (fun preco =>
         ok ← read (fun w => add_succeeds (host w));
         if ok : bool
         then modify (fun w =>
                        set_PrecosHistoricos (PrecosHistoricos w ++ [preco]) w)
         else emit (ConsoleError "[v0] ❌ Erro ao salvar preço"))
      precos w = (Return tt, w') /\
    mesmo_contador w w'.
Proof.
  apply (conta_igual_forEach _ precos). apply Forall_forall.
  intros preco _ u.
  cbv [mbind M_bind read]. destruct (add_succeeds (host u));
    (eexists; split; [reflexivity|]); destruct u; repeat split.
Qed.

(** X19. The update counter counts the ticks that reached the database.
    On a page with the price list and the counter element, whose counter
    holds the natural number [k], a tick with a usable database handle
    leaves the counter at [k + 1] and writes it, with the time of the
    next reading of the clock, in the counter element; a tick whose
    [db.transaction] throws leaves the counter and the element as they
    were.  This holds whatever the price list shows. *)
Theorem X19_counter_counts_saved_ticks
    (w : World) (k : Z) (p : painel_precos) (texto : template) :
  lista_precos w = Some p -> update_counter w = Some texto ->
  contadorAtualizacoes w = ofZ k -> 0 <= k -> k + 1 < 2 ^ 53 ->
  let w' := exec carregarPrecos w in
  if db_utilizavel w then
    contadorAtualizacoes w' = ofZ (k + 1) /\
    update_counter w' =
      Some [ Text "Atualização #"; Show (ofZ (k + 1)); Text " às ";
             Hora (clock (host w) (readings w)) ]
  else
    contadorAtualizacoes w' = ofZ k /\ update_counter w' = Some texto.
Proof.
  intros Hl Hu Hc Hk Hk1 w'. subst w'.
  unfold exec, carregarPrecos, try_catch. cbv [mbind M_bind read].
  rewrite Hl.
  (* up to the quotes *)
  set (w0 := if sem_cards p then set_lista_precos (Some Carregando) w else w).
  assert (E0 : (if sem_cards p
                then modify (set_lista_precos (Some Carregando))
                else mret tt) w = (Return tt, w0))
    by (unfold w0; destruct (sem_cards p); reflexivity).
  rewrite E0. rewrite run_simularDadosPrecos.
  set (w1 := set_draws _ _).
  assert (R1 : mesmo_contador w w1).
  { unfold w1, w0. destruct (sem_cards p), w; repeat split. }
  (* the cards *)
  assert (Hq : Forall (fun q => inherited (Preco.simbolo q) = false)
                 (cotacoes w0)) by (repeat constructor).
  assert (Hcards : conta_igual
            (match lista_precos w1 with
             | Some Carregando =>
                 fun u =>
                   forEach
                     (fun preco =>
                        reiniciarSparkline (Preco.simbolo preco)
                          (Preco.preco preco)) (cotacoes w0)
                     (set_lista_precos (Some (Cards (cotacoes w0))) u)
             | _ => forEach atualizarCardPreco (cotacoes w0)
             end)).
  { assert (Hfe : conta_igual (forEach atualizarCardPreco (cotacoes w0))).
    { apply conta_igual_forEach. eapply Forall_impl; [exact Hq|].
      intros q. apply conta_igual_atualizarCardPreco. }
    destruct (lista_precos w1) as [[| |cards|]|]; try exact Hfe.
    apply (conta_igual_seq
             (modify (set_lista_precos (Some (Cards (cotacoes w0)))))).
    - apply conta_igual_modify. intros u. destruct u. repeat split.
    - apply conta_igual_forEach. apply Forall_forall. intros q _.
      apply conta_igual_reiniciarSparkline. }
  destruct (Hcards w1) as (w2 & E2 & R2).
  cbv [modify] in *. rewrite E2. clear E2 Hcards.
  pose proof (mesmo_contador_trans _ _ _ R1 R2)
    as (Hh & Hd & Ht & Hr & Hct & Huc).
  (* the database *)
  unfold salvarPrecosNoBanco, db_transaction, db_utilizavel.
  cbv [mbind M_bind read modify mret M_ret throw]. rewrite Hd.
  destruct (db w); cbn [andb].
  - cbn [host set_transactions]. rewrite Hh, Ht.
    destruct (connection (host w) (transactions w)).
    + destruct (run_adicionar_precos (cotacoes w0)
                  (set_transactions (S (transactions w)) w2))
        as (w3 & E3 & (G1 & G2 & G3 & G4 & G5 & G6)).
      cbv [mbind M_bind read modify mret M_ret] in E3. rewrite E3.
      unfold atualizarContador.
      cbv [mbind M_bind read modify mret M_ret new_Date].
      rewrite G6. cbn [update_counter set_transactions]. rewrite Huc, Hu.
      rewrite G5. cbn [contadorAtualizacoes set_transactions].
      rewrite Hct, Hc, add_ofZ_1 by assumption.
      cbn. rewrite G1, G4. cbn. rewrite Hh, Hr. auto.
    + cbn. destruct (lista_precos w2); cbn; rewrite Hct, Huc; auto.
  - cbn. destruct (lista_precos w2); cbn; rewrite Hct, Huc; auto.
Qed.

Lemma X19_witness :
  contadorAtualizacoes (exec carregarPrecos (pagina host_exemplo "" "")) =
    ofZ 1.
Proof.
  exact (proj1 (X19_counter_counts_saved_ticks (pagina host_exemplo "" "") 0
                  SemFilhos [] eq_refl eq_refl eq_refl (Z.le_refl 0)
                  eq_refl)).
Defined.

(** * The sparkline canvas *)

Lemma ltb_infinity (x : number) :
  finito x -> ltb x (S754_infinity false) = true.
Proof.
  intros Hx. destruct (finito_cases x Hx) as [[s ->]|(s & m & e & -> & _)];
    [reflexivity|now destruct s].
Qed.

Lemma ltb_minus_infinity (x : number) :
  finito x -> ltb (S754_infinity true) x = true.
Proof.
  intros Hx. destruct (finito_cases x Hx) as [[s ->]|(s & m & e & -> & _)];
    [reflexivity|now destruct s].
Qed.

Lemma min2_spec (x y : number) :
  finito x -> finito y ->
  finito (min2 x y) /\ (F2Q (min2 x y) <= F2Q x)%Q /\
  (F2Q (min2 x y) <= F2Q y)%Q /\ (min2 x y = x \/ min2 x y = y).
Proof.
  intros Hx Hy.
  assert (Hgen : forall z,
             z = (if ltb y x then y else x) ->
             finito z /\ (F2Q z <= F2Q x)%Q /\ (F2Q z <= F2Q y)%Q /\
             (z = x \/ z = y)).
  { intros z ->. destruct (ltb y x) eqn:Hlt.
    - apply ltb_F2Q in Hlt; auto.
      split; [exact Hy|]. split; [lra|]. split; [lra|]. now right.
    - assert (~ (F2Q y < F2Q x)%Q)
        by (intros H; apply (ltb_F2Q y x Hy Hx) in H; congruence).
      split; [exact Hx|]. split; [lra|]. split; [lra|]. now left. }
  destruct (finito_cases x Hx) as [[sx ->]|(sx & mx & ex & -> & Hvx)];
    destruct (finito_cases y Hy) as [[sy ->]|(sy & my & ey & -> & Hvy)];
    try (apply Hgen; reflexivity).
  simpl. split; [apply finito_zero|]. split; [lra|]. split; [lra|].
  destruct sx; simpl; auto.
Qed.

Lemma max2_spec (x y : number) :
  finito x -> finito y ->
  finito (max2 x y) /\ (F2Q x <= F2Q (max2 x y))%Q /\
  (F2Q y <= F2Q (max2 x y))%Q /\ (max2 x y = x \/ max2 x y = y).
Proof.
  intros Hx Hy.
  assert (Hgen : forall z,
             z = (if ltb x y then y else x) ->
             finito z /\ (F2Q x <= F2Q z)%Q /\ (F2Q y <= F2Q z)%Q /\
             (z = x \/ z = y)).
  { intros z ->. destruct (ltb x y) eqn:Hlt.
    - apply ltb_F2Q in Hlt; auto.
      split; [exact Hy|]. split; [lra|]. split; [lra|]. now right.
    - assert (~ (F2Q x < F2Q y)%Q)
        by (intros H; apply (ltb_F2Q x y Hx Hy) in H; congruence).
      split; [exact Hx|]. split; [lra|]. split; [lra|]. now left. }
  destruct (finito_cases x Hx) as [[sx ->]|(sx & mx & ex & -> & Hvx)];
    destruct (finito_cases y Hy) as [[sy ->]|(sy & my & ey & -> & Hvy)];
    try (apply Hgen; reflexivity).
  simpl. split; [apply finito_zero|]. split; [lra|]. split; [lra|].
  destruct sx; simpl; auto.
Qed.

Lemma foldl_min2 (l : list number) (acc : number) :
  finito acc -> Forall finito l ->
  let m := foldl min2 acc l in
  finito m /\ (F2Q m <= F2Q acc)%Q /\
  Forall (fun v => (F2Q m <= F2Q v)%Q) l /\ (m = acc \/ m ∈ l).
Proof.
  intros Hacc Hl. revert acc Hacc.
  induction Hl as [|x l Hx _ IH]; intros acc Hacc; simpl.
  - split; [exact Hacc|]. split; [lra|]. split; [constructor|now left].
  - destruct (min2_spec acc x Hacc Hx) as (H1 & H2 & H3 & H4).
    destruct (IH (min2 acc x) H1) as (G1 & G2 & G3 & G4).
    split; [exact G1|]. split; [lra|]. split.
    + apply List.Forall_cons; [lra|exact G3].
    + destruct G4 as [->|G4].
      * destruct H4 as [->| ->]; [now left|right; apply list_elem_of_here].
      * right. now apply list_elem_of_further.
Qed.

Lemma foldl_max2 (l : list number) (acc : number) :
  finito acc -> Forall finito l ->
  let m := foldl max2 acc l in
  finito m /\ (F2Q acc <= F2Q m)%Q /\
  Forall (fun v => (F2Q v <= F2Q m)%Q) l /\ (m = acc \/ m ∈ l).
Proof.
  intros Hacc Hl. revert acc Hacc.
  induction Hl as [|x l Hx _ IH]; intros acc Hacc; simpl.
  - split; [exact Hacc|]. split; [lra|]. split; [constructor|now left].
  - destruct (max2_spec acc x Hacc Hx) as (H1 & H2 & H3 & H4).
    destruct (IH (max2 acc x) H1) as (G1 & G2 & G3 & G4).
    split; [exact G1|]. split; [lra|]. split.
    + apply List.Forall_cons; [lra|exact G3].
    + destruct G4 as [->|G4].
      * destruct H4 as [->| ->]; [now left|right; apply list_elem_of_here].
      * right. now apply list_elem_of_further.
Qed.

(** The least and the greatest price of a window that is not empty are
    prices of the window. *)
Lemma Math_min_spec (l : list number) :
  Forall finito l -> l <> [] ->
  Math_min l ∈ l /\ Forall (fun v => (F2Q (Math_min l) <= F2Q v)%Q) l.
Proof.
  intros Hl Hne. destruct l as [|x l]; [congruence|].
  apply Forall_cons in Hl as [Hx Hl].
  unfold Math_min. cbn [foldl].
  assert (E : min2 (S754_infinity false) x = x).
  { destruct (finito_cases x Hx) as [[s ->]|(s & m & e & -> & _)];
      [reflexivity|now destruct s]. }
  rewrite E. destruct (foldl_min2 l x Hx Hl) as (G1 & G2 & G3 & G4).
  split.
  - destruct G4 as [->|G4];
      [apply list_elem_of_here|now apply list_elem_of_further].
  - apply List.Forall_cons; assumption.
Qed.

Lemma Math_max_spec (l : list number) :
  Forall finito l -> l <> [] ->
  Math_max l ∈ l /\ Forall (fun v => (F2Q v <= F2Q (Math_max l))%Q) l.
Proof.
  intros Hl Hne. destruct l as [|x l]; [congruence|].
  apply Forall_cons in Hl as [Hx Hl].
  unfold Math_max. cbn [foldl].
  assert (E : max2 (S754_infinity true) x = x).
  { destruct (finito_cases x Hx) as [[s ->]|(s & m & e & -> & _)];
      [reflexivity|now destruct s]. }
  rewrite E. destruct (foldl_max2 l x Hx Hl) as (G1 & G2 & G3 & G4).
  split.
  - destruct G4 as [->|G4];
      [apply list_elem_of_here|now apply list_elem_of_further].
  - apply List.Forall_cons; assumption.
Qed.

Lemma truthy_F2Q (r : number) :
  finito r -> (truthy r = true <-> ~ (F2Q r == 0)%Q).
Proof.
  intros Hr. destruct (finito_cases r Hr) as [[s ->]|(s & m & e & -> & _)].
  - simpl. split; [discriminate|intros H; exfalso; apply H; reflexivity].
  - pose proof (magQ_finite_pos s m e) as Hp. simpl in Hp.
    split; [|reflexivity]. intros _. destruct s; simpl; lra.
Qed.

Lemma F2Q_ofZ_0 : (F2Q (ofZ 0) == 0)%Q.
Proof. reflexivity. Qed.

Lemma F2Q_ofZ_1 : (F2Q (ofZ 1) == 1)%Q.
Proof. valor. Qed.

Section Canvas.
Context (W H : Z) (HW : 0 <= W < 2 ^ 53) (HH : 0 <= H < 2 ^ 53).

Let width : number := ofZ W.
Let height : number := ofZ H.

Lemma width_valor : finito width /\ (F2Q width == inject_Z W)%Q.
Proof. apply ofZ_valor. lia. Qed.

Lemma height_valor : finito height /\ (F2Q height == inject_Z H)%Q.
Proof. apply ofZ_valor. lia. Qed.

(** The abscissa of the point at position [index] of [n] prices. *)
Lemma abscissa_entre (n index : nat) :
  (2 <= n)%nat -> Z.of_nat n < 2 ^ 53 -> (index < n)%nat ->
  let x :=
    mul (div (ofZ (Z.of_nat index)) (sub (ofZ (Z.of_nat n)) (ofZ 1)))
      width in
  entre 0 (inject_Z W) x /\
  (index = 0%nat -> (F2Q x == 0)%Q) /\
  (index = (n - 1)%nat -> (F2Q x == inject_Z W)%Q).
Proof.
  intros Hn Hn53 Hi x. subst x.
  destruct width_valor as [Hfw Hvw].
  rewrite sub_ofZ_1 by lia.
  destruct (ofZ_valor (Z.of_nat index) ltac:(lia)) as [Hfi Hvi].
  destruct (ofZ_valor (Z.of_nat n - 1) ltac:(lia)) as [Hfn Hvn].
  assert (Hpos : (0 < inject_Z (Z.of_nat n - 1))%Q)
    by (change 0%Q with (inject_Z 0); rewrite <- Zlt_Qlt; lia).
  assert (Hi0 : (0 <= inject_Z (Z.of_nat index))%Q)
    by (change 0%Q with (inject_Z 0); rewrite <- Zle_Qle; lia).
  assert (Hin : (inject_Z (Z.of_nat index) <= inject_Z (Z.of_nat n - 1))%Q)
    by (rewrite <- Zle_Qle; lia).
  assert (Hnz : ~ (F2Q (ofZ (Z.of_nat n - 1)) == 0)%Q) by (rewrite Hvn; lra).
  pose proof (div_arredonda _ _ Hfi Hfn Hnz) as Hdiv.
  set (q := div (ofZ (Z.of_nat index)) (ofZ (Z.of_nat n - 1))) in *.
  destruct (arredonda_entre _ q (ofZ 0) (ofZ 1) Hdiv) as (Hfq & Hq0 & Hq1);
    try constante.
  { rewrite F2Q_ofZ_0, Hvi, Hvn. apply Qle_shift_div_l; lra. }
  { rewrite F2Q_ofZ_1, Hvi, Hvn. apply Qle_shift_div_r; lra. }
  rewrite F2Q_ofZ_0 in Hq0. rewrite F2Q_ofZ_1 in Hq1.
  pose proof (mul_arredonda q width Hfq Hfw) as Hmul.
  assert (HW0 : (0 <= inject_Z W)%Q)
    by (change 0%Q with (inject_Z 0); rewrite <- Zle_Qle; lia).
  destruct (arredonda_entre _ _ (ofZ 0) width Hmul) as (Hfx & Hx0 & Hx1);
    try constante; auto.
  { rewrite F2Q_ofZ_0, Hvw. nra. }
  { rewrite Hvw. nra. }
  rewrite F2Q_ofZ_0 in Hx0. rewrite Hvw in Hx1.
  split; [exact (conj Hfx (conj Hx0 Hx1))|]. split.
  - intros ->.
    assert (Eq : (F2Q q == 0)%Q).
    { apply (arredonda_valor _ 0 q (ofZ 0) Hdiv);
        [constante|exact F2Q_ofZ_0|].
      rewrite Hvi. unfold Qdiv. change (inject_Z (Z.of_nat 0)) with 0%Q.
      ring. }
    apply (arredonda_valor _ 0 _ (ofZ 0) Hmul);
      [constante|exact F2Q_ofZ_0|].
    rewrite Eq. ring.
  - intros ->.
    assert (Eq : (F2Q q == 1)%Q).
    { apply (arredonda_valor _ 1 q (ofZ 1) Hdiv);
        [constante|exact F2Q_ofZ_1|].
      rewrite Hvi, Hvn.
      replace (Z.of_nat (n - 1)) with (Z.of_nat n - 1) by lia.
      field. lra. }
    apply (arredonda_valor _ _ _ width Hmul); [exact Hfw|exact Hvw|].
    rewrite Eq, Hvw. ring.
Qed.

(** The ordinate of the point of a price between the least and the
    greatest one. *)
Lemma ordenada_entre (valor min max : number) :
  finito valor -> finito min -> finito max ->
  (0 <= F2Q min)%Q -> (F2Q min <= F2Q valor)%Q ->
  (F2Q valor <= F2Q max)%Q ->
  let range := if truthy (sub max min) then sub max min else ofZ 1 in
  let y := sub height (mul (div (sub valor min) range) height) in
  entre 0 (inject_Z H) y /\
  ((F2Q valor == F2Q min)%Q -> (F2Q y == inject_Z H)%Q) /\
  ((F2Q valor == F2Q max)%Q -> truthy (sub max min) = true ->
   (F2Q y == 0)%Q).
Proof.
  intros Hv Hmin Hmax H0 H1 H2 range y.
  destruct height_valor as [Hfh Hvh].
  assert (HH0 : (0 <= inject_Z H)%Q)
    by (change 0%Q with (inject_Z 0); rewrite <- Zle_Qle; lia).
  (* the two differences *)
  pose proof (sub_arredonda valor min Hv Hmin) as Ha.
  pose proof (sub_arredonda max min Hmax Hmin) as Hr.
  destruct (arredonda_entre _ _ (ofZ 0) valor Ha) as (Hfa & Ha0 & Ha1);
    try constante; auto; try (rewrite ?F2Q_ofZ_0; lra).
  destruct (arredonda_entre _ _ (ofZ 0) max Hr) as (Hfr & Hr0 & Hr1);
    try constante; auto; try (rewrite ?F2Q_ofZ_0; lra).
  rewrite F2Q_ofZ_0 in Ha0, Hr0.
  set (a := sub valor min) in *. set (r := sub max min) in *.
  assert (Har : (F2Q a <= F2Q r)%Q).
  { destruct (Qlt_le_dec (F2Q valor) (F2Q max)) as [Hlt|Hge].
    - apply (arredonda_mono _ _ a r Ha Hr Hfa Hfr). lra.
    - assert (E : (F2Q valor == F2Q max)%Q) by lra.
      destruct (Qeq_dec (F2Q max) 0) as [Ez|Enz].
      + lra.
      + assert (valor = max) by (apply F2Q_inj; auto).
        subst valor. unfold a, r. lra. }
  (* the ratio *)
  assert (Hq : exists q, q = div a range /\ finito q /\
                         (0 <= F2Q q)%Q /\ (F2Q q <= 1)%Q /\
                         ((F2Q a == 0)%Q -> (F2Q q == 0)%Q) /\
                         (truthy r = true -> (F2Q a == F2Q r)%Q ->
                          (F2Q q == 1)%Q)).
  { exists (div a range). split; [reflexivity|]. unfold range.
    destruct (truthy r) eqn:Ht.
    - apply truthy_F2Q in Ht; [|exact Hfr].
      pose proof (div_arredonda a r Hfa Hfr Ht) as Hd.
      assert (Hrp : (0 < F2Q r)%Q) by lra.
      destruct (arredonda_entre _ _ (ofZ 0) (ofZ 1) Hd) as (Hfq & Hq0 & Hq1);
        try constante.
      { rewrite F2Q_ofZ_0. apply Qle_shift_div_l; lra. }
      { rewrite F2Q_ofZ_1. apply Qle_shift_div_r; lra. }
      rewrite F2Q_ofZ_0 in Hq0. rewrite F2Q_ofZ_1 in Hq1.
      split; [exact Hfq|]. split; [exact Hq0|]. split; [exact Hq1|]. split.
      + intros Ea.
        apply (arredonda_valor _ 0 _ (ofZ 0) Hd);
          [constante|exact F2Q_ofZ_0|].
        rewrite Ea. unfold Qdiv. ring.
      + intros _ Ear.
        apply (arredonda_valor _ 1 _ (ofZ 1) Hd);
          [constante|exact F2Q_ofZ_1|].
        rewrite Ear. field. lra.
    - assert (Er : (F2Q r == 0)%Q).
      { destruct (Qeq_dec (F2Q r) 0) as [E|E]; [exact E|].
        apply (truthy_F2Q r Hfr) in E. congruence. }
      assert (Ea : (F2Q a == 0)%Q) by lra.
      assert (Hnz : ~ (F2Q (ofZ 1) == 0)%Q) by (rewrite F2Q_ofZ_1; lra).
      pose proof (div_arredonda a (ofZ 1) Hfa ltac:(constante) Hnz) as Hd.
      destruct (arredonda_exato _ _ (ofZ 0) Hd) as [Hfq Eq]; [constante| |].
      { rewrite F2Q_ofZ_0, Ea. unfold Qdiv. ring. }
      assert (Eq0 : (F2Q (div a (ofZ 1)) == 0)%Q).
      { rewrite Eq, Ea. unfold Qdiv. ring. }
      split; [exact Hfq|]. rewrite Eq0.
      split; [lra|]. split; [lra|]. split; [reflexivity|discriminate]. }
  destruct Hq as (q & -> & Hfq & Hq0 & Hq1 & Hqmin & Hqmax).
  set (q := div a range) in *.
  (* scaled to the height and taken from it *)
  pose proof (mul_arredonda q height Hfq Hfh) as Hm.
  destruct (arredonda_entre _ _ (ofZ 0) height Hm) as (Hft & Ht0 & Ht1);
    try constante; auto.
  { rewrite F2Q_ofZ_0, Hvh. nra. }
  { rewrite Hvh. nra. }
  rewrite F2Q_ofZ_0 in Ht0. rewrite Hvh in Ht1.
  set (t := mul q height) in *.
  pose proof (sub_arredonda height t Hfh Hft) as Hs.
  destruct (arredonda_entre _ _ (ofZ 0) height Hs) as (Hfy & Hy0 & Hy1);
    try constante; auto.
  { rewrite F2Q_ofZ_0, Hvh. lra. }
  { rewrite Hvh. lra. }
  rewrite F2Q_ofZ_0 in Hy0. rewrite Hvh in Hy1.
  split; [exact (conj Hfy (conj Hy0 Hy1))|]. split.
  - intros E.
    assert (Ea : (F2Q a == 0)%Q).
    { apply (arredonda_valor _ 0 _ (ofZ 0) Ha);
        [constante|exact F2Q_ofZ_0|].
      rewrite E. ring. }
    assert (Et : (F2Q t == 0)%Q).
    { apply (arredonda_valor _ 0 _ (ofZ 0) Hm);
        [constante|exact F2Q_ofZ_0|].
      rewrite (Hqmin Ea). ring. }
    apply (arredonda_valor _ _ _ height Hs); [exact Hfh|exact Hvh|].
    rewrite Et, Hvh. ring.
  - intros E Ht.
    assert (Ear : (F2Q a == F2Q r)%Q).
    { destruct (Qeq_dec (F2Q max) 0) as [Ez|Enz].
      - exfalso. apply (truthy_F2Q r Hfr) in Ht. apply Ht. lra.
      - assert (valor = max) by (apply F2Q_inj; auto).
        subst valor. reflexivity. }
    assert (Et : (F2Q t == inject_Z H)%Q).
    { apply (arredonda_valor _ _ _ height Hm); [exact Hfh|exact Hvh|].
      rewrite (Hqmax Ht Ear), Hvh. ring. }
    apply (arredonda_valor _ 0 _ (ofZ 0) Hs);
      [constante|exact F2Q_ofZ_0|].
    rewrite Et, Hvh. ring.
Qed.
End Canvas.

(** The value of a Number is a multiple of the least positive one. *)
Lemma F2Q_multiplo (x : number) :
  finito x -> exists M : Z, (F2Q x == inject_Z M * pow2 emin)%Q.
Proof.
  intros Hx. destruct (finito_cases x Hx) as [[s ->]|(s & m & e & -> & Hv)].
  - exists 0. simpl. ring.
  - apply valid_finite_inv in Hv as [(He & _) _].
    exists ((if s then Z.neg m else Z.pos m) * 2 ^ (e - emin)).
    rewrite inject_Z_mult, <- (pow2_Z (e - emin)) by lia.
    rewrite <- Qmult_assoc, <- pow2_add.
    replace (e - emin + emin) with e by lia.
    destruct s; reflexivity.
Qed.

(** The difference of two Numbers of different values is not rounded to
    zero. *)
Lemma sub_truthy (a b : number) :
  finito a -> finito b -> finito (sub a b) -> (F2Q b < F2Q a)%Q ->
  truthy (sub a b) = true.
Proof.
  intros Ha Hb Hs Hlt.
  destruct (F2Q_multiplo a Ha) as (Ma & Ea).
  destruct (F2Q_multiplo b Hb) as (Mb & Eb).
  pose proof (pow2_pos emin) as Hp.
  assert (HM : Mb < Ma).
  { apply inject_Z_lt_inv. rewrite Ea, Eb in Hlt.
    apply Qmult_lt_r in Hlt; assumption. }
  assert (Hd : (inject_Z 1 * pow2 emin <= F2Q a - F2Q b)%Q).
  { rewrite Ea, Eb.
    assert (inject_Z 1 <= inject_Z Ma - inject_Z Mb)%Q.
    { unfold Qminus. rewrite <- inject_Z_opp, <- inject_Z_plus, <- Zle_Qle.
      lia. }
    nra. }
  apply truthy_F2Q; [exact Hs|].
  assert (Hz : finito (S754_finite false 1 (-1074))) by constante.
  pose proof (arredonda_inf _ _ (S754_finite false 1 (-1074))
                (sub_arredonda a b Ha Hb) Hs Hz) as Hinf.
  rewrite emin_eq in *.
  change (F2Q (S754_finite false 1 (-1074)))
    with (inject_Z 1 * pow2 (-1074))%Q in Hinf.
  assert (0 < inject_Z 1 * pow2 (-1074))%Q
    by (change (inject_Z 1) with 1%Q; lra).
  specialize (Hinf Hd). intros E. rewrite E in Hinf.
  change (inject_Z 1) with 1%Q in *. lra.
Qed.

(** What the least and the greatest price of a window of drawable prices
    are. *)
Lemma extremos (dados : list number) :
  Forall preco_finito dados -> dados <> [] ->
  finito (Math_min dados) /\ finito (Math_max dados) /\
  (0 <= F2Q (Math_min dados))%Q /\
  Forall (fun v => (F2Q (Math_min dados) <= F2Q v)%Q /\
                   (F2Q v <= F2Q (Math_max dados))%Q) dados.
Proof.
  intros Hd Hne.
  assert (Hf : Forall finito dados)
    by (eapply Forall_impl; [exact Hd|]; now intros v [H _]).
  destruct (Math_min_spec dados Hf Hne) as [Hin Hmin].
  destruct (Math_max_spec dados Hf Hne) as [Hin' Hmax].
  pose proof (proj1 (Forall_forall _ _) Hd _ Hin) as [H1 H2].
  pose proof (proj1 (Forall_forall _ _) Hf _ Hin') as H3.
  split; [exact H1|]. split; [exact H3|]. split; [exact H2|].
  apply Forall_forall. intros v Hv. split.
  - exact (proj1 (Forall_forall _ _) Hmin v Hv).
  - exact (proj1 (Forall_forall _ _) Hmax v Hv).
Qed.

(** X20. [desenharSparkline] draws nothing for a window of fewer than two
    prices.  For a window of [n >= 2] prices that have a value and are
    not negative it issues one point per price (a [moveTo] and [n - 1]
    [lineTo]) between the four calls that open the path and the six that
    close and fill it, and every point of the path lies on the canvas:
    its abscissa is between 0 and the width, its ordinate between 0 and
    the height. *)
Theorem X20_sparkline_stays_on_canvas (cv : canvas) (dados : list number) :
  0 <= canvas_width cv < 2 ^ 53 -> 0 <= canvas_height cv < 2 ^ 53 ->
  Z.of_nat (length dados) < 2 ^ 53 ->
  Forall preco_finito dados ->
  let saida := desenharSparkline (Some cv) (Some dados) in
  if (length dados <? 2)%nat then saida = []
  else length saida = (length dados + 10)%nat /\
       Forall (no_canvas cv) saida.
Proof.
  intros HW HH Hn Hd saida. subst saida. unfold desenharSparkline.
  destruct (length dados <? 2)%nat eqn:Hlen; [reflexivity|].
  apply Nat.ltb_ge in Hlen.
  assert (Hne : dados <> []) by (intros ->; simpl in Hlen; lia).
  destruct (extremos dados Hd Hne) as (Hfmin & Hfmax & Hmin0 & Hext).
  destruct (width_valor _ HW) as [Hfw Hvw].
  destruct (height_valor _ HH) as [Hfh Hvh].
  assert (HW0 : (0 <= inject_Z (canvas_width cv))%Q)
    by (change 0%Q with (inject_Z 0); rewrite <- Zle_Qle; lia).
  assert (HH0 : (0 <= inject_Z (canvas_height cv))%Q)
    by (change 0%Q with (inject_Z 0); rewrite <- Zle_Qle; lia).
  assert (Hzero : forall b, (0 <= b)%Q -> entre 0 b (ofZ 0)).
  { intros b Hb. split; [constante|]. rewrite F2Q_ofZ_0. split; lra. }
  split.
  - rewrite !length_app, length_imap. simpl. lia.
  - apply Forall_app. split; [repeat constructor|].
    apply Forall_app. split.
    + apply Forall_lookup. intros i c Hc.
      rewrite list_lookup_imap in Hc.
      destruct (dados !! i) as [v|] eqn:Hv; [|discriminate].
      injection Hc as <-.
      apply lookup_lt_Some in Hv as Hi.
      pose proof (proj1 (Forall_lookup _ _) Hd i v Hv) as [Hfv Hv0].
      pose proof (proj1 (Forall_lookup _ _) Hext i v Hv) as [Hlo Hhi].
      destruct (abscissa_entre _ HW (length dados) i Hlen Hn Hi)
        as (Hx & _).
      destruct (ordenada_entre _ HH v _ _ Hfv Hfmin Hfmax Hmin0 Hlo Hhi)
        as (Hy & _).
      unfold ponto. destruct (i =? 0)%nat; split; assumption.
    + apply List.Forall_cons; [exact I|].
      apply List.Forall_cons.
      { split; [split; [exact Hfw|rewrite Hvw; split; lra]
               |split; [exact Hfh|rewrite Hvh; split; lra]]. }
      apply List.Forall_cons.
      { split; [apply Hzero; exact HW0
               |split; [exact Hfh|rewrite Hvh; split; lra]]. }
      repeat (apply List.Forall_cons; [exact I|]). apply List.Forall_nil.
Qed.

Lemma X20_witness :
  length (desenharSparkline (Some (mkCanvas 200 40))
            (Some [lit 855 10; lit 842 10; lit 8275 100])) = 13%nat.
Proof.
  refine (proj1 (X20_sparkline_stays_on_canvas (mkCanvas 200 40)
                   [lit 855 10; lit 842 10; lit 8275 100] _ _ _ _)).
  - simpl. lia.
  - simpl. lia.
  - simpl. lia.
  - repeat (apply List.Forall_cons;
            [split; [constante|valor]|]). apply List.Forall_nil.
Defined.

(** X21. The scaling of the sparkline.  In the path drawn for a window of
    [n >= 2] drawable prices, the point of the first price is at the left
    edge and the point of the last price at the right edge; a price equal
    to the least one is drawn on the bottom edge (ordinate: the height);
    and, when the prices are not all equal, a price equal to the greatest
    one is drawn on the top edge (ordinate 0).  A window whose prices are
    all equal is thus drawn along the bottom edge. *)
Theorem X21_sparkline_extremes_on_edges
    (cv : canvas) (dados : list number) (i : nat) (v : number) :
  0 <= canvas_width cv < 2 ^ 53 -> 0 <= canvas_height cv < 2 ^ 53 ->
  Z.of_nat (length dados) < 2 ^ 53 -> (2 <= length dados)%nat ->
  Forall preco_finito dados -> dados !! i = Some v ->
  exists x y : number,
    desenharSparkline (Some cv) (Some dados) !! (4 + i)%nat =
      Some (if (i =? 0)%nat then moveTo x y else lineTo x y) /\
    (i = 0%nat -> (F2Q x == 0)%Q) /\
    (i = (length dados - 1)%nat -> (F2Q x == inject_Z (canvas_width cv))%Q) /\
    ((F2Q v == F2Q (Math_min dados))%Q ->
     (F2Q y == inject_Z (canvas_height cv))%Q) /\
    ((F2Q v == F2Q (Math_max dados))%Q ->
     (F2Q (Math_min dados) < F2Q (Math_max dados))%Q -> (F2Q y == 0)%Q).
Proof.
  intros HW HH Hn Hlen Hd Hv.
  assert (Hne : dados <> []) by (intros ->; simpl in Hlen; lia).
  destruct (extremos dados Hd Hne) as (Hfmin & Hfmax & Hmin0 & Hext).
  apply lookup_lt_Some in Hv as Hi.
  pose proof (proj1 (Forall_lookup _ _) Hd i v Hv) as [Hfv Hv0].
  pose proof (proj1 (Forall_lookup _ _) Hext i v Hv) as [Hlo Hhi].
  destruct (abscissa_entre _ HW (length dados) i Hlen Hn Hi)
    as (_ & Hx0 & Hx1).
  destruct (ordenada_entre _ HH v _ _ Hfv Hfmin Hfmax Hmin0 Hlo Hhi)
    as (_ & Hymin & Hymax).
  eexists. eexists. split; [|split; [exact Hx0|split; [exact Hx1|split]]].
  - unfold desenharSparkline.
    apply Nat.ltb_ge in Hlen. rewrite Hlen.
    cbn [app]. change (4 + i)%nat with (S (S (S (S i)))).
    rewrite !lookup_cons_ne_0, !Nat.pred_succ by lia.
    cbn [Nat.pred].
    rewrite lookup_app_l by (rewrite length_imap; exact Hi).
    rewrite list_lookup_imap, Hv. unfold ponto. reflexivity.
  - exact Hymin.
  - intros E Hlt. apply Hymax; [exact E|].
    apply sub_truthy; auto.
    pose proof (sub_arredonda _ _ Hfmax Hfmin) as Hr.
    destruct (arredonda_entre _ _ (ofZ 0) (Math_max dados) Hr)
      as (Hfr & _); try constante; auto; rewrite ?F2Q_ofZ_0; lra.
Qed.

Lemma X21_witness :
  exists x y : number,
    desenharSparkline (Some (mkCanvas 200 40))
      (Some [lit 855 10; lit 842 10; lit 8275 100]) !! 4%nat =
      Some (moveTo x y) /\
    (F2Q x == 0)%Q /\ (F2Q y == 0)%Q.
Proof.
  destruct (X21_sparkline_extremes_on_edges (mkCanvas 200 40)
              [lit 855 10; lit 842 10; lit 8275 100] 0 (lit 855 10))
    as (x & y & H1 & H2 & _ & _ & H3).
  - simpl. lia.
  - simpl. lia.
  - simpl. lia.
  - simpl. lia.
  - repeat (apply List.Forall_cons;
            [split; [constante|valor]|]). apply List.Forall_nil.
  - reflexivity.
  - exists x, y. split; [exact H1|]. split; [now apply H2|].
    apply H3; valor.
Defined.

(** * The market ticker *)

Lemma atualizar_preco_ticker_symbol (precos : list Preco.t)
    (el : ticker_price) :
  data_symbol (atualizar_preco_ticker precos el) = data_symbol el.
Proof.
  unfold atualizar_preco_ticker. now destruct (encontrar precos _).
Qed.

Lemma atualizar_preco_ticker_idem (precos : list Preco.t)
    (el : ticker_price) :
  atualizar_preco_ticker precos (atualizar_preco_ticker precos el) =
  atualizar_preco_ticker precos el.
Proof.
  unfold atualizar_preco_ticker at 2 3.
  destruct (encontrar precos (data_symbol el)) as [q|] eqn:E.
  - unfold atualizar_preco_ticker. simpl. now rewrite E.
  - unfold atualizar_preco_ticker. now rewrite E.
Qed.

(** The change element after the loop: none if there was none; otherwise
    the one it was or one that only depends on the elements and the
    quotes. *)
Lemma foldl_change (precos : list Preco.t) (els : list ticker_price) :
  exists k : option ticker_change,
    forall change : option ticker_change,
      foldl (atualizar_change_ticker precos) change els =
        match change with
        | None => None
        | Some c => Some (default c k)
        end.
Proof.
  induction els as [|el els [k IH]].
  - exists None. now intros [c|].
  - destruct (encontrar precos (data_symbol el)) as [q|] eqn:E.
    + exists (Some (default (change_ticker q) k)). intros change.
      cbn [foldl]. rewrite IH. unfold atualizar_change_ticker. rewrite E.
      now destruct change.
    + exists k. intros change.
      cbn [foldl]. rewrite IH. unfold atualizar_change_ticker. rewrite E.
      now destruct change.
Qed.

Lemma foldl_change_map (precos : list Preco.t) (els : list ticker_price)
    (change : option ticker_change) :
  foldl (atualizar_change_ticker precos) change
    (map (atualizar_preco_ticker precos) els) =
  foldl (atualizar_change_ticker precos) change els.
Proof.
  revert change. induction els as [|el els IH]; intros change;
    [reflexivity|].
  cbn [map foldl]. rewrite IH. f_equal.
  unfold atualizar_change_ticker.
  now rewrite atualizar_preco_ticker_symbol.
Qed.

Lemma atualizar_grupo_idem (precos : list Preco.t) (g : ticker_grupo) :
  atualizar_grupo precos (atualizar_grupo precos g) =
  atualizar_grupo precos g.
Proof.
  unfold atualizar_grupo. cbn [grupo_precos grupo_change]. f_equal.
  - rewrite map_map. apply map_ext. apply atualizar_preco_ticker_idem.
  - rewrite foldl_change_map.
    destruct (foldl_change precos (grupo_precos g)) as [k Hk].
    rewrite !Hk. destruct (grupo_change g) as [c|]; [|reflexivity].
    now destruct k.
Qed.

Lemma atualizar_grupo_sem_cotacao (precos : list Preco.t) (g : ticker_grupo) :
  Forall (fun el => encontrar precos (data_symbol el) = None)
    (grupo_precos g) ->
  atualizar_grupo precos g = g.
Proof.
  intros H. destruct g as [els change]. unfold atualizar_grupo. simpl in *.
  f_equal.
  - induction H as [|el els Hel _ IH]; simpl; [reflexivity|].
    rewrite IH. unfold atualizar_preco_ticker. now rewrite Hel.
  - revert change. induction H as [|el els Hel _ IH]; intros change; simpl;
      [reflexivity|].
    rewrite <- (IH change) at 2. f_equal.
    unfold atualizar_change_ticker. now rewrite Hel.
Qed.

(** X22. [atualizarTicker] rewrites the ticker in place.  It keeps the
    parents and, in each, the [ticker-price] elements with their
    [data-symbol]; an element whose symbol has a quote shows the price of
    the first quote of that symbol, with two decimals; a parent none of
    whose elements has a quote (no attribute, or a symbol without quote)
    is left exactly as it was; and updating again with the same quotes
    changes nothing more. *)
Theorem X22_ticker_update (precos : list Preco.t)
    (ticker : list ticker_grupo) :
  let ticker' := atualizarTicker precos ticker in
  map (fun g => map data_symbol (grupo_precos g)) ticker' =
    map (fun g => map data_symbol (grupo_precos g)) ticker /\
  Forall
    (fun g =>
       Forall
         (fun el =>
            forall preco,
              encontrar precos (data_symbol el) = Some preco ->
              price_text el = [Text "$"; Fixed (Preco.preco preco) 2])
         (grupo_precos g)) ticker' /\
  Forall2
    (fun g g' =>
       Forall (fun el => encontrar precos (data_symbol el) = None)
         (grupo_precos g) -> g' = g) ticker ticker' /\
  atualizarTicker precos ticker' = ticker'.
Proof.
  intros ticker'. subst ticker'. unfold atualizarTicker.
  split; [|split; [|split]].
  - rewrite map_map. apply map_ext. intros g. simpl.
    rewrite map_map. apply map_ext. intros el.
    apply atualizar_preco_ticker_symbol.
  - apply Forall_map. apply Forall_forall. intros g _. simpl.
    apply Forall_map. apply Forall_forall. intros el _ preco.
    rewrite atualizar_preco_ticker_symbol. intros E.
    unfold atualizar_preco_ticker. now rewrite E.
  - apply Forall2_fmap_r. apply Forall_Forall2_diag.
    apply Forall_forall. intros g _ Hg.
    now apply atualizar_grupo_sem_cotacao.
  - rewrite map_map. apply map_ext. apply atualizar_grupo_idem.
Qed.

(** * The items of the history *)

Lemma numericas_frame (w w' : World) :
  Compras w' = Compras w -> compras_numericas w -> compras_numericas w'.
Proof. unfold compras_numericas. now intros ->. Qed.

Ltac frame_compras :=
  intros; eapply numericas_frame; [|eassumption]; reflexivity.

Section Numericas.

Let Inv : World -> Prop := compras_numericas.

Lemma numericas_emit (e : event) : garante Inv (emit e) (fun _ => True).
Proof. apply garante_modify. frame_compras. Qed.

Lemma numericas_new_Date : garante Inv new_Date (fun _ => True).
Proof. intros w Hw. split; [|auto]. revert Hw. simpl. frame_compras. Qed.

Lemma numericas_Math_random : garante Inv Math_random (fun _ => True).
Proof. intros w Hw. split; [|auto]. revert Hw. simpl. frame_compras. Qed.

Lemma numericas_db_transaction : garante Inv db_transaction (fun _ => True).
Proof.
  intros w Hw. unfold db_transaction.
  cbv [mbind M_bind read modify mret M_ret throw].
  destruct (db w); simpl; [|auto].
  destruct (connection (host w) (transactions w)); simpl; split; auto;
    revert Hw; frame_compras.
Qed.

Lemma numericas_atualizarSparkline (s : string) (p : number) :
  garante Inv (atualizarSparkline s p) (fun _ => True).
Proof.
  intros w Hw. split; [|auto].
  change (snd (atualizarSparkline s p w))
    with (exec (atualizarSparkline s p) w).
  rewrite exec_atualizarSparkline. revert Hw. frame_compras.
Qed.

Lemma numericas_atualizarCardPreco (preco : Preco.t) :
  garante Inv (atualizarCardPreco preco) (fun _ => True).
Proof.
  unfold atualizarCardPreco.
  eapply garante_bind; [apply garante_read|]. intros painel _.
  destruct painel as [[| |cards|]|];
    try exact (garante_ret _ _ (fun _ => True) I).
  apply garante_forEach. apply Forall_forall. intros i _.
  unfold atualizarCard.
  eapply garante_bind; [apply garante_read|]. intros painel _.
  destruct painel as [[| |cards'|]|];
    try exact (garante_ret _ _ (fun _ => True) I).
  destruct (cards' !! i) as [card|];
    [|exact (garante_ret _ _ (fun _ => True) I)].
  destruct (includes _ _); [|exact (garante_ret _ _ (fun _ => True) I)].
  eapply garante_bind; [apply garante_modify; frame_compras|]. intros _ _.
  eapply garante_bind; [apply numericas_atualizarSparkline|]. intros _ _.
  eapply garante_bind; [apply garante_read|]. intros atuais _.
  apply garante_modify. frame_compras.
Qed.

Lemma numericas_reiniciarSparkline (s : string) (p : number) :
  garante Inv (reiniciarSparkline s p) (fun _ => True).
Proof. intros w Hw. split; [|auto]. revert Hw. simpl. frame_compras. Qed.

Lemma numericas_simularDadosPrecos :
  garante Inv simularDadosPrecos (fun _ => True).
Proof.
  intros w Hw. rewrite run_simularDadosPrecos. simpl. split; [|auto].
  revert Hw. frame_compras.
Qed.

Lemma numericas_salvarPrecosNoBanco (precos : list Preco.t) :
  garante Inv (salvarPrecosNoBanco precos) (fun _ => True).
Proof.
  unfold salvarPrecosNoBanco.
  eapply garante_bind; [apply numericas_db_transaction|]. intros _ _.
  apply garante_forEach. apply Forall_forall. intros preco _.
  eapply garante_bind; [apply garante_read|]. intros [] _.
  - apply garante_modify. frame_compras.
  - apply numericas_emit.
Qed.

Lemma numericas_atualizarContador :
  garante Inv atualizarContador (fun _ => True).
Proof.
  unfold atualizarContador.
  eapply garante_bind; [apply garante_read|]. intros [t|] _;
    [|exact (garante_ret _ _ (fun _ => True) I)].
  eapply garante_bind; [apply garante_read|]. intros n _.
  eapply garante_bind; [apply garante_modify; frame_compras|]. intros _ _.
  eapply garante_bind; [apply numericas_new_Date|]. intros agora _.
  apply garante_modify. frame_compras.
Qed.

Lemma numericas_carregarPrecos : garante Inv carregarPrecos (fun _ => True).
Proof.
  unfold carregarPrecos. apply garante_try_catch.
  - eapply garante_bind; [apply garante_read|]. intros [p|] _;
      [|apply garante_throw].
    eapply garante_bind.
    { destruct (sem_cards p);
        [apply garante_modify; frame_compras
        |exact (garante_ret _ _ (fun _ => True) I)]. }
    intros _ _.
    eapply garante_bind; [apply numericas_simularDadosPrecos|].
    intros precos _.
    eapply garante_bind; [apply garante_read|]. intros painel _.
    eapply garante_bind.
    { assert (Hupd : garante Inv (forEach atualizarCardPreco precos)
                       (fun _ => True)).
      { apply garante_forEach. apply Forall_forall. intros q _.
        apply numericas_atualizarCardPreco. }
      destruct painel as [[| |cards|]|]; try exact Hupd.
      eapply garante_bind; [apply garante_modify; frame_compras|].
      intros _ _.
      apply garante_forEach. apply Forall_forall. intros q _.
      apply numericas_reiniciarSparkline. }
    intros _ _.
    eapply garante_bind; [apply numericas_salvarPrecosNoBanco|].
    intros _ _. apply numericas_atualizarContador.
  - intros e.
    eapply garante_bind; [apply numericas_emit|]. intros _ _.
    eapply garante_bind; [apply garante_read|]. intros [p|] _.
    + apply garante_modify. frame_compras.
    + apply garante_throw.
Qed.

Lemma numericas_carregarHistorico :
  garante Inv carregarHistorico (fun _ => True).
Proof.
  unfold carregarHistorico.
  eapply garante_bind; [apply garante_read|]. intros lh _.
  eapply garante_bind; [apply numericas_db_transaction|]. intros _ _.
  eapply garante_bind; [apply garante_read|]. intros [] _.
  - eapply garante_bind; [apply garante_read|]. intros compras _.
    destruct lh; [|exact (garante_ret _ _ (fun _ => True) I)].
    destruct (length compras =? 0)%nat; apply garante_modify; frame_compras.
  - apply numericas_emit.
Qed.

Lemma numericas_set_painel_sugestao (p : painel_sugestao) :
  garante Inv (set_painel_sugestao p) (fun _ => True).
Proof.
  unfold set_painel_sugestao.
  eapply garante_bind; [apply garante_read|]. intros [el|] _.
  - apply garante_modify. frame_compras.
  - apply garante_throw.
Qed.

Lemma numericas_form_compra_submit :
  garante Inv form_compra_submit (fun _ => True).
Proof.
  unfold form_compra_submit.
  eapply garante_bind; [apply garante_read|]. intros s _.
  eapply garante_bind; [apply garante_read|]. intros q _.
  destruct (invalido _ _); [apply numericas_emit|].
  apply garante_try_catch.
  - unfold processar_compra.
    eapply garante_bind.
    { unfold obterPrecoAtual.
      eapply garante_bind; [apply numericas_emit|]. intros _ _.
      eapply garante_bind; [apply numericas_Math_random|]. intros r1 _.
      eapply garante_bind; [apply numericas_Math_random|]. intros r2 _.
      eapply garante_bind; [apply numericas_Math_random|]. intros r3 _.
      exact (garante_ret _ _ (fun _ => True) I). }
    intros preco _.
    eapply garante_bind; [apply numericas_new_Date|]. intros agora _.
    eapply garante_bind.
    { unfold salvarCompra.
      eapply garante_bind; [apply numericas_db_transaction|]. intros _ _.
      cbn [Compra.precoCompra]. destruct preco as [p|]; [|apply garante_throw].
      eapply garante_bind; [apply garante_read|]. intros [] _.
      - apply garante_modify. intros w Hw. unfold Inv, compras_numericas.
        simpl. apply Forall_app. split; [exact Hw|].
        apply List.Forall_cons; [|apply List.Forall_nil]. now exists p.
      - apply numericas_emit. }
    intros _ _.
    eapply garante_bind.
    { unfold gerarSugestaoIA.
      eapply garante_bind; [apply numericas_set_painel_sugestao|].
      intros _ _. apply garante_try_catch.
      - eapply garante_bind.
        { unfold simularRespostaIA.
          eapply garante_bind; [apply numericas_emit|]. intros _ _.
          eapply garante_bind; [apply numericas_Math_random|]. intros r1 _.
          eapply garante_bind; [apply numericas_Math_random|]. intros r2 _.
          destruct preco;
            [exact (garante_ret _ _ (fun _ => True) I)|apply garante_throw]. }
        intros sugestao _.
        eapply garante_bind; [apply numericas_new_Date|]. intros t _.
        apply numericas_set_painel_sugestao.
      - intros e.
        eapply garante_bind; [apply numericas_emit|]. intros _ _.
        apply numericas_set_painel_sugestao. }
    intros _ _.
    eapply garante_bind; [apply garante_modify; frame_compras|]. intros _ _.
    eapply garante_bind; [apply numericas_carregarHistorico|]. intros _ _.
    apply numericas_emit.
  - intros e.
    eapply garante_bind; [apply numericas_emit|]. intros _ _.
    apply numericas_emit.
Qed.
End Numericas.

Lemma passo_numericas (w w' : World) :
  passo w w' -> compras_numericas w -> compras_numericas w'.
Proof.
  intros [| |s q|] Hw.
  - exact (proj1 (numericas_carregarPrecos w Hw)).
  - exact (proj1 (numericas_carregarHistorico w Hw)).
  - revert Hw. frame_compras.
  - exact (proj1 (numericas_form_compra_submit w Hw)).
Qed.

(** X23. Every purchase the page stores can be shown in the history.  If
    the purchases of the store all have a Number as their unit price,
    then after any sequence of ticks, history refreshes, form edits and
    submissions they still do, and [criarItemHistorico] returns for each
    of them an item with the data of the purchase: no stored purchase
    makes [toFixed] throw. *)
Theorem X23_stored_purchases_can_be_rendered (w w' : World) :
  rtc passo w w' -> compras_numericas w ->
  Forall
    (fun compra =>
       exists p : number,
         Compra.precoCompra compra = VNumber p /\
         forall u : World,
           criarItemHistorico compra u =
             (Return (mkItem (Compra.simbolo compra)
                        (Compra.quantidade compra) p
                        (Compra.valorTotal compra)
                        (Compra.dataCompra compra)), u))
    (Compras w').
Proof.
  intros Hsteps Hw.
  assert (H : compras_numericas w').
  { induction Hsteps as [|w1 w2 w3 Hstep _ IH]; [exact Hw|].
    apply IH. eapply passo_numericas; eauto. }
  eapply Forall_impl; [exact H|]. intros compra [p Hp].
  exists p. split; [exact Hp|]. intros u.
  unfold criarItemHistorico. now rewrite Hp.
Qed.

Lemma X23_witness :
  Forall preco_numerico
    (Compras (exec form_compra_submit (pagina host_exemplo "BRENT" "10"))).
Proof.
  eapply Forall_impl.
  - apply (X23_stored_purchases_can_be_rendered
             (pagina host_exemplo "BRENT" "10")).
    + apply rtc_once, passo_submeter.
    + apply List.Forall_nil.
  - intros compra (p & Hp & _). now exists p.
Defined.
